(* ===== verification/_CoqProject ===== *)
-Q . S2P
Prelude.v
Floats.v
Errors.v
Types.v
Hash.v
Validate.v
Compile.v
Builder.v
Spawn.v
Registry.v
Helpers.v
Observer.v
Effects.v
Memstore.v
SideEffects.v
Executor.v
Dispatcher.v
Parallel.v
Scheduler.v
Snapshot.v
Firing.v
Transactions.v
Invariant.v
Lifecycle.v
Tracking.v
Locking.v
Database.v
Regions.v
Statechart.v
Linear.v
Shutdown.v
Engine.v
Mermaid.v
Goroutines.v
Rfc3339.v
Json.v
Sql.v
InstanceRows.v
Sqlite.v
Pgx.v
Dynamo.v
Queues.v
Slog.v
World.v
Script.v
Programs.v
Testutil.v
Races.v
Examples.v
Witnesses.v
Cases.v
Charts.v
