(* ===== verification/Prelude.v ===== *)
(** * Flowstep: a verification library for the workflow engine

    Flowstep is a workflow engine for Go: a program defines state machines
    (hierarchical, with parallel regions and history), registers them, and moves
    instances through them by transitions, signals, completed tasks and
    completed children; every move stores an event and the instance in one
    transaction.  This library models the engine and its adapters and proves what
    makes them correct.

    ** How the program fits together

    A definition ([types/definition.go]) is built ([internal/builder/]),
    validated and compiled ([internal/graph/]) and registered with the engine
    ([internal/runtime/runtime.go]).  A public operation checks for shutdown,
    loads an instance and the compiled machine of its version, decides which
    transition fires (guards, routes, event bubbling, signals, tasks, joins),
    runs exit and entry activities, writes event and instance in a transaction,
    and after the commit publishes the event, dispatches activities, creates
    tasks and spawns children.  Stores, transactions, bus, runner, clock and
    observers are interfaces ([types/interfaces.go]); their implementations, in
    memory and on databases and queues, are under [adapters/].

    ** The files

    The data and the definition-time part (pure functions; Go maps are [gmap]):
    - [Prelude.v]: record update, iteration over maps ([range]: any order), nil
      maps ([gomap]), sorted strings, keys with a separator, chains of partial
      functions;
    - [Floats.v]: [float64] by its value, for parameters and JSON;
    - [Errors.v]: [errors.go], [types/errors.go]; formatting, [%w], [errors.Is];
    - [Types.v]: the records of [types/], [copyMap];
    - [Hash.v]: [computeHash] of [internal/graph/compiled.go], with SHA-256;
    - [Validate.v]: [internal/graph/validate.go], all checks;
    - [Compile.v]: [internal/graph/compiled.go]; ancestry, initial leaves, LCA;
    - [Builder.v]: [internal/builder/builder.go], [Define] of [flowstep.go];
    - [Spawn.v]: [internal/graph/spawn.go], three-colour search;
    - [Registry.v]: [New], [Register], [compiledFor] of [runtime.go];
    - [Helpers.v]: [internal/runtime/helpers.go], exit and entry sequences,
      history, parallel entry and exit;
    - [Observer.v]: [internal/runtime/observer.go];
    - [SideEffects.v]: [types/side_effect.go];
    - [Mermaid.v]: [types/mermaid.go], diagrams.

    The run-time part (programs over the interfaces, see [Effects.v]):
    - [Effects.v]: the calls of the engine, programs, their traces ([runs]),
      their execution in a world ([exec]) and a program logic ([wp]);
    - [Executor.v]: [executor.go]; validation, commit, creation, [ForceState],
      [SideEffect];
    - [Dispatcher.v]: [dispatcher.go]; [Parallel.v]: [parallel.go] and
      [Transition]; [Scheduler.v]: [scheduler.go]; [Snapshot.v]: [snapshot.go];
    - [Memstore.v]: [adapters/memstore/], with the contract of an instance store
      as the classes [InstanceStore] and [InstanceStoreLaws];
    - [Engine.v]: [engine.go], [options.go], the wiring of an engine;
    - [World.v]: [adapters/memrunner/], [adapters/chanbus/], and one world that
      answers every call with the in-memory adapters;
    - [Script.v]: whole programs on that world, with the fake clock of
      [testutil/time.go]; [Programs.v]: [examples/]; [Testutil.v]: [testutil/].

    The other adapters:
    - [Goroutines.v]: [adapters/goroutinerunner/], a labelled transition system;
    - [Rfc3339.v], [Json.v]: what the adapters use of Go's [time] and
      [encoding/json]; [Sql.v]: the forms of statement they send;
    - [InstanceRows.v]: instance stores on a table, for [Sqlite.v]
      ([adapters/sqlitestore/]) and [Pgx.v] ([adapters/pgxstore/]);
    - [Dynamo.v]: [adapters/dynamostore/], on a service with stated laws;
    - [Queues.v]: [adapters/natsbus/], [adapters/redisbus/],
      [adapters/asynqrunner/]; [Slog.v]: [adapters/slogadapter/].

    The theorems about operations:
    - [Firing.v]: the decision to fire is the declarative one, on every branch;
    - [Transactions.v]: a monitor of transactions; the events and instances of an
      operation are committed together or not at all;
    - [Database.v]: what that leaves in a database, with the transaction providers
      of [adapters/sqlitestore/] and [adapters/pgxstore/];
    - [Invariant.v]: the instances an operation writes are well formed;
    - [Tracking.v]: a monitor of the versions an operation knows, with one walk of
      every operation for all that is said of the writes ([writes_follow]);
    - [Locking.v]: operations interleaved on one store, each update based on a
      version its author read; [Races.v]: such interleavings in memory;
    - [Statechart.v]: what an instance may become, as a step relation on the
      hierarchy alone, and that the engine's computations take such steps;
      [Linear.v]: operations, restorations and side effects interleaved on a store
      refine that statechart;
    - [Lifecycle.v]: operations in flight; [Shutdown.v]: the engine and its
      operations as threads, and what [Shutdown] waits for;
    - [Regions.v]: which regions of a parallel state a transition moves, and where;
    - [World.v]: a transition that may fire succeeds on the in-memory adapters;
    - [Programs.v]: the example programs print what their comments and diagrams say.

    [Examples.v] builds and runs a concrete workflow; [Witnesses.v], [Cases.v] and
    [Charts.v] apply the theorems to it, with concrete drivers and services in
    [Cases.v], and six operations on one order in [Charts.v].

    ** What the theorems show

    Definitions: validation accepts exactly the valid definitions and its errors
    tell the truth; compilation is correct and total on well-nested acyclic
    hierarchies; the LCA is the lowest; spawn cycles are found; the builder
    wires the hierarchy right; the registry keeps its invariant, and what it
    answers is compiled from a valid definition.  Run time: a transition exits
    and enters the right states and records the right history; signals, tasks
    and joins select what they should; an operation commits event and instance
    atomically for every behaviour of its dependencies, keeps instances well
    formed, updates only versions it has read, whoever else writes, and is counted
    in flight; operations side by side refine the statechart of the definition:
    every instance in the store is one it can reach, every accepted update one of
    its steps, and a finished instance changes by force only; a transition inside a parallel state moves
    exactly the regions that can fire; shutdown waits for every operation that
    was counted; an engine is built with the options given last or refused;
    snapshots round-trip; the example programs run as documented.  Adapters: the stores in memory, on SQLite, on
    PostgreSQL and on DynamoDB keep one contract, by which updates serialise;
    DynamoDB transactions are atomic; what is sent to a queue is what its
    consumer handles; the goroutine runner collects every error; a diagram shows
    every transition once.

    The library also proves some defects of the code: [Validate_diverges],
    [computeHash_forgets], [Register_stale_latest], [Create_confuses],
    [Shutdown_race], [sqlite_refuses_shared_id], [sqlite_events_out_of_order],
    [pgx_created_unreadable], [pgx_Complete_again], [redis_never_retries],
    [creation_race_loses_update], [standing_clock_loses_update], and, of the event
    log in memory, [overtaken_refused].

    ** Modelling choices

    A loop over a Go map visits it in the order [range n m], a permutation of
    its entries; theorems hold for every [GoRange].  The model fixes one order
    per site and map, and no theorem relates the orders of two visits.
    A dependency is not modelled but quantified over: [runs p t r] says that [p]
    makes the calls of [t], gets the replies of [t] and returns [r], for any
    replies, so concurrent operations and failing stores are covered.  [World.v]
    is one instance, used for witnesses, for [memory_transition] and for the
    example programs; there a single supply of identifiers stands for random ones.
    Guards, conditions and spawn inputs are user functions, hence fields of the
    data.  A pointer that the code mutates is passed and returned as a value:
    each operation owns its instance, which the stores copy.  Times are
    nanoseconds in [Z]; [ParallelClock] wraps at 64 bits ([int64]).

    Bounds: [buildAncestry], the breadth-first search of [checkReachability],
    [visit] and [dfs] carry bounds that are proved sufficient.  Two functions of
    the code may not end, on a cycle of Parent links
    ([hasOutgoingOrAncestorHas]) or of initial children ([resolveInitialLeaf]);
    there the model returns [None] exactly when the code does not return.  The
    recursion of [Mermaid.v] is bounded by [mermaid_fuel], enough for well nested
    definitions ([Mermaid_complete]).

    ** What is not modelled

    The databases, queues and drivers themselves: of each, what the code relies on
    is a parameter with stated laws, or the meaning of the statements it sends,
    taken to act at once.  That a dependency fails is part of every operation of
    the engine ([Effects.v]), not of the models of the adapters.  [Database.v]
    takes one transaction at a time: how a database isolates several is its own
    part.  Times are UTC, of the years 1 to 9999 where they are written as
    text; [Linear.v] asks that the clock tells the versions of an instance apart,
    which the optimistic lock depends on ([tells_apart], and
    [standing_clock_loses_update] for what happens without).  JSON documents are
    trees, not texts; numbers fit their columns; a [float64] is its value:
    infinities, NaN and the sign of zero are left out.

    [flowstep.go] and [aliases.go] only rename what other files declare, [Define]
    apart.  [Shutdown.v] has a single call of [Shutdown].  Contexts and
    cancellation are left out, as the engine passes them through; so are data
    races below the granularity of a mutex or a call. *)

From Stdlib Require Import Ascii.
From stdpp Require Export base gmap strings list sorting.

Declare Scope flow_scope.
Delimit Scope flow_scope with flow.
Open Scope flow_scope.

#[global] Arguments String.append : simpl never.

(** ** Record update

    [r <| f := v |>] is [r] with its field [f] set to [v], the model of a Go
    field assignment.  A record type opts in with an [Eta] instance. *)

Class Eta (R : Type) := eta_expand : R → R.
Class Upd {R T : Type} (f : R → T) := upd : (T → T) → R → R.

Ltac solve_upd :=
  match goal with
  | |- @Upd ?R ?T ?f =>
      let g := fresh "g" in
      let r := fresh "r" in
      intros g r;
      let i := constr:(_ : Eta R) in
      let h := match i with ?x => let x' := eval red in x in x' end in
      let b := eval cbv beta in (h r) in
      match eval pattern (f r) in b with
      | ?k _ => let t := eval cbv beta in (k (g (f r))) in exact t
      end
  end.

#[export] Hint Extern 1 (Upd _) => solve_upd : typeclass_instances.
Arguments upd {R T} f {_} g r /.

Notation "r <| f := v |>" := (upd f (λ _, v) r)
  (at level 1, left associativity, format "r  <| f  :=  v |>") : flow_scope.

(** ** Iteration over Go maps

    A [for k, v := range m] loop visits the entries of a map in an order the
    language leaves open.  [range n m] is the order taken at loop site [n]: the
    only thing known of it is that it is a permutation of the entries. *)

Class GoRange := {
  range : nat → ∀ {K : Type} {EqK : EqDecision K} {CK : Countable K} {V : Type},
    gmap K V → list (K * V);
  range_perm : ∀ n (K : Type) (EqK : EqDecision K) (CK : Countable K) (V : Type)
    (m : gmap K V), range n m ≡ₚ map_to_list m
}.

(** Two concrete iteration orders, used to instantiate the class. *)
#[refine] Definition range_fwd : GoRange :=
  {| range := λ _ _ _ _ _ m, map_to_list m |}.
Proof. reflexivity. Defined.

#[refine] Definition range_rev : GoRange :=
  {| range := λ _ _ _ _ _ m, reverse (map_to_list m) |}.
Proof. intros; apply reverse_Permutation. Defined.

Section range.
Context `{GoRange} {K : Type} `{Countable K} {V : Type}.
Implicit Types (m : gmap K V) (k : K) (v : V).

Lemma elem_of_range n m k v : (k, v) ∈ range n m ↔ m !! k = Some v.
Proof. by rewrite range_perm, elem_of_map_to_list. Qed.

Lemma range_keys_NoDup n m : NoDup (range n m).*1.
Proof. rewrite range_perm. apply NoDup_fst_map_to_list. Qed.

Lemma elem_of_range_keys n m k : k ∈ (range n m).*1 ↔ is_Some (m !! k).
Proof.
  rewrite list_elem_of_fmap. split.
  - intros ([k' v] & -> & Hin%elem_of_range). by exists v.
  - intros [v Hv]. exists (k, v). by rewrite elem_of_range.
Qed.

Lemma range_length n m : length (range n m) = size m.
Proof. by rewrite range_perm, length_map_to_list. Qed.
End range.

(** ** Slices, nil-able maps and loops with an early return *)

Definition contains (l : list string) (x : string) : bool := bool_decide (x ∈ l).

Lemma contains_true l x : contains l x = true ↔ x ∈ l.
Proof. apply bool_decide_eq_true. Qed.

Lemma contains_false l x : contains l x = false ↔ x ∉ l.
Proof. apply bool_decide_eq_false. Qed.

(** [for _, x := range l { if y, ok := f(x); ok { return y } }] *)
Fixpoint first_some {A B} (f : A → option B) (l : list A) : option B :=
  match l with
  | [] => None
  | x :: l => match f x with Some y => Some y | None => first_some f l end
  end.

Section first_some.
Context {A B : Type} (f : A → option B).

Lemma first_some_None l : first_some f l = None ↔ ∀ x, x ∈ l → f x = None.
Proof.
  induction l as [|x l IH]; simpl; [set_solver|].
  destruct (f x) eqn:E; split; try done.
  - intros Hall. rewrite (Hall x) in E by left. done.
  - intros Hn y [->|Hy]%elem_of_cons; [done|]. by apply IH.
  - intros Hall. apply IH. intros y Hy. apply Hall. by right.
Qed.

Lemma first_some_Some l y :
  first_some f l = Some y → ∃ x, x ∈ l ∧ f x = Some y.
Proof.
  induction l as [|x l IH]; simpl; [done|].
  destruct (f x) eqn:E; [intros [= <-]; exists x; by split; [left|]|].
  intros (x' & ? & ?)%IH. exists x'. by split; [right|].
Qed.

Lemma first_some_is_Some l :
  is_Some (first_some f l) ↔ ∃ x, x ∈ l ∧ is_Some (f x).
Proof.
  split.
  - intros [y (x & ? & ?)%first_some_Some]. eauto.
  - intros (x & Hin & [y Hy]). destruct (first_some f l) eqn:E; [eauto|].
    rewrite first_some_None in E. specialize (E x Hin). congruence.
Qed.

Lemma first_some_app l1 l2 :
  first_some f (l1 ++ l2) =
  match first_some f l1 with Some y => Some y | None => first_some f l2 end.
Proof. induction l1 as [|x l1 IH]; simpl; [done|]. by destruct (f x). Qed.

Lemma first_some_perm_None l1 l2 :
  l1 ≡ₚ l2 → first_some f l1 = None ↔ first_some f l2 = None.
Proof. intros Hp. rewrite !first_some_None. by setoid_rewrite Hp. Qed.
End first_some.

(** A loop that searches a map finds something exactly when an entry matches. *)
Lemma first_some_range_None `{GoRange} {V B} n (m : gmap string V)
    (f : string * V → option B) :
  first_some f (range n m) = None ↔ ∀ k v, m !! k = Some v → f (k, v) = None.
Proof.
  rewrite first_some_None. split.
  - intros Hall k v Hk. by apply Hall, elem_of_range.
  - intros Hall [k v] Hk%elem_of_range. by apply Hall.
Qed.

Lemma first_some_range_iff `{GoRange} {V B} n (m : gmap string V)
    (f : string * V → option B) (P : string → V → Prop) :
  (∀ k v, f (k, v) = None ↔ P k v) →
  first_some f (range n m) = None ↔ ∀ k v, m !! k = Some v → P k v.
Proof. intros Hf. rewrite first_some_range_None. by setoid_rewrite Hf. Qed.

(** A nil-able [map[string]V]; reads of a nil map behave as reads of an empty
    one. *)
Definition gomap (V : Type) : Type := option (gmap string V).

Definition gm_map {V} (m : gomap V) : gmap string V := default ∅ m.
Definition gm_get {V} (m : gomap V) (k : string) : option V := gm_map m !! k.
Definition gm_len {V} (m : gomap V) : nat := size (gm_map m).

(** The zero value a missing key reads as. *)
Definition str_of (o : option string) : string := default "" o.

(** Two's-complement 64-bit wrap-around ([int64] arithmetic). *)
Definition int64 (z : Z) : Z := ((z + 2 ^ 63) `mod` 2 ^ 64 - 2 ^ 63)%Z.

Lemma int64_id z : (- 2 ^ 63 ≤ z < 2 ^ 63)%Z → int64 z = z.
Proof. intros Hz. unfold int64. rewrite Z.mod_small; lia. Qed.

Lemma int64_bounds z : (- 2 ^ 63 ≤ int64 z < 2 ^ 63)%Z.
Proof.
  unfold int64. pose proof (Z.mod_pos_bound (z + 2 ^ 63) (2 ^ 64)). lia.
Qed.

(** [sort.Strings]: bytewise lexicographic order. *)
Definition sort_strings (l : list string) : list string := merge_sort String.le l.

Lemma sort_strings_perm l : sort_strings l ≡ₚ l.
Proof. apply merge_sort_Permutation. Qed.

(** Sorting makes the result independent of the order of its input. *)
Lemma sort_strings_canonical l1 l2 : l1 ≡ₚ l2 → sort_strings l1 = sort_strings l2.
Proof.
  intros Hp. eapply (StronglySorted_unique String.le).
  - apply (StronglySorted_merge_sort _).
  - apply (StronglySorted_merge_sort _).
  - by rewrite !sort_strings_perm.
Qed.

Lemma elem_of_sort_strings l x : x ∈ sort_strings l ↔ x ∈ l.
Proof. by rewrite sort_strings_perm. Qed.

(** ** Keys with a separator *)

(** The string has no [c]. *)
Fixpoint no_char (c : ascii) (s : string) : Prop :=
  match s with EmptyString => True | String c' s => c' ≠ c ∧ no_char c s end.

(** A separator that the first parts do not contain keeps the parts apart. *)
Lemma sep_inj c a1 b1 a2 b2 :
  no_char c a1 → no_char c a2 → a1 +:+ String c b1 = a2 +:+ String c b2 → a1 = a2 ∧ b1 = b2.
Proof.
  revert a2. induction a1 as [|a a1 IH]; intros [|b a2]; cbn.
  - intros _ _ [= ?]. done.
  - intros _ [Hb _] [= <- _]. done.
  - intros [Ha _] _ [= -> _]. done.
  - intros [_ H1] [_ H2] [= -> Heq]. by destruct (IH a2 H1 H2 Heq) as [-> ->].
Qed.

(** ** Following a partial function

    Parent chains and initial-child chains are walks along a partial function
    on names.  [chain f x l] says that the walk from [x] ends and visits exactly
    [l]; a walk that does not end has no chain. *)

Inductive chain {A} (f : A → option A) : A → list A → Prop :=
  | chain_nil x : f x = None → chain f x []
  | chain_cons x y l : f x = Some y → chain f y l → chain f x (y :: l).

Section chain.
Context {A : Type} (f : A → option A).

Lemma chain_unique x l1 l2 : chain f x l1 → chain f x l2 → l1 = l2.
Proof.
  intros H1. revert l2. induction H1 as [x Hx|x y l Hx _ IH]; intros l2 H2;
    inversion H2; simplify_eq; [done|]. f_equal. by apply IH.
Qed.

Lemma chain_suffix x l1 y l2 : chain f x (l1 ++ y :: l2) → chain f y l2.
Proof.
  revert x. induction l1 as [|z l1 IH]; intros x Hc; inversion Hc; simplify_eq;
    eauto.
Qed.

Lemma chain_elem x l y : chain f x l → y ∈ l → ∃ l1 l2, l = l1 ++ y :: l2 ∧ chain f y l2.
Proof.
  intros Hc (l1 & l2 & ->)%list_elem_of_split. eauto using chain_suffix.
Qed.

Lemma chain_not_elem x l : chain f x l → x ∉ l.
Proof.
  intros Hc Hin. destruct (chain_elem _ _ _ Hc Hin) as (l1 & l2 & -> & Hc2).
  pose proof (chain_unique _ _ _ Hc Hc2) as Heq%(f_equal length).
  rewrite length_app in Heq. simpl in Heq. lia.
Qed.

Lemma chain_NoDup x l : chain f x l → NoDup (x :: l).
Proof.
  induction 1 as [x Hx|x y l Hx Hc IH].
  - apply NoDup_singleton.
  - constructor; [|done]. apply chain_not_elem. by econstructor.
Qed.

(** Every name that [l] was left from lies in the domain of [f]. *)
Lemma chain_domain (P : A → Prop) x l :
  (∀ y z, f y = Some z → P y) → chain f x l → Forall P (removelast (x :: l)).
Proof.
  intros HP. induction 1 as [x Hx|x y l Hx Hc IH]; [constructor|].
  change (Forall P (x :: removelast (y :: l))). constructor; eauto.
Qed.

Lemma chain_tc x l y : chain f x l → y ∈ l ↔ tc (λ a b, f a = Some b) x y.
Proof.
  intros Hc. split.
  - induction Hc as [x Hx|x z l Hx Hc IH]; [by intros ?%elem_of_nil|].
    intros [->|Hin]%elem_of_cons; [by apply tc_once|].
    eapply tc_l; eauto.
  - intros Ht. revert l Hc. induction Ht as [x y Hxy|x z y Hxz Ht IH]; intros l Hc;
      inversion Hc; simplify_eq; [by left|right; eauto].
Qed.
End chain.

Section chain_bound.
Context {A : Type} `{Countable A} (f : A → option A) (D : gset A).
Context (Hdom : ∀ x y, f x = Some y → x ∈ D).

Lemma chain_length_le x l : chain f x l → length l ≤ size D.
Proof using Hdom.
  intros Hc. pose proof (chain_NoDup _ _ _ Hc) as Hnd.
  pose proof (chain_domain f (.∈ D) _ _ Hdom Hc) as HD.
  destruct (exists_last (l := x :: l)) as (l' & z & Heq); [done|].
  rewrite Heq in Hnd, HD. rewrite removelast_last in HD.
  apply NoDup_app in Hnd as (Hnd & _ & _).
  assert (length l = length l') as ->.
  { apply (f_equal length) in Heq. rewrite length_app in Heq. simpl in Heq. lia. }
  rewrite <-(size_list_to_set (C := gset A) l') by done.
  apply subseteq_size. intros y Hy%elem_of_list_to_set.
  rewrite Forall_forall in HD. by apply HD.
Qed.

(** A bounded walk that has not ended after [size D + 1] steps never ends. *)
Fixpoint steps (n : nat) (x : A) : option A :=
  match n with
  | 0 => Some x
  | S n => match f x with Some y => steps n y | None => None end
  end.

Lemma steps_None_chain n x : steps n x = None → ∃ l, chain f x l ∧ length l < n.
Proof.
  revert x. induction n as [|n IH]; intros x; simpl; [done|].
  destruct (f x) as [y|] eqn:Hx.
  - intros (l & Hc & Hl)%IH. exists (y :: l). split; [by econstructor|simpl; lia].
  - intros _. exists []. split; [by constructor|simpl; lia].
Qed.

Lemma chain_steps_None n x l : chain f x l → length l < n → steps n x = None.
Proof.
  intros Hc. revert n. induction Hc as [x Hx|x y l Hx _ IH]; intros [|n] Hn;
    simpl in *; try lia; rewrite Hx; [done|]. apply IH. lia.
Qed.

Lemma steps_pigeonhole x :
  is_Some (steps (S (size D)) x) → ∀ n, is_Some (steps n x).
Proof using Hdom.
  intros Hs n. destruct (steps n x) eqn:E; [eauto|].
  apply steps_None_chain in E as (l & Hc & _).
  rewrite (chain_steps_None _ _ _ Hc) in Hs.
  - by destruct Hs.
  - apply chain_length_le in Hc. lia.
Qed.
End chain_bound.

(** ** Automation shared by the components *)

Create HintDb flow.
Create Rewrite HintDb flow_rw.

#[export] Hint Rewrite contains_true contains_false : flow_rw.
#[export] Hint Rewrite @first_some_None : flow_rw.

(** Case analysis on every [match]/[if] of the goal or of a hypothesis, closing
    the branches that are contradictory. *)
Ltac destr_match :=
  repeat (case_match; simplify_eq/=; try done).
