(* ===== verification/Floats.v ===== *)
(** * Floats: finite [float64] numbers, by their values

    What the program does with a [float64]: compare it, print it with two
    decimals, and keep it in JSON.  A float is its value, a rational number; the
    infinities, NaN and the sign of zero are left out. *)

From Stdlib Require Import QArith Qcanon.
From stdpp Require Import numbers.
From stdpp Require Import pretty.
From S2P Require Import Prelude.

#[local] Open Scope Z_scope.

Abbreviation float64 := Qc (only parsing).

Definition numerator (f : float64) : Z := Qnum (this f).
Definition denominator (f : float64) : positive := Qden (this f).

(** A quotient that is a float. *)
Definition ratio (n : Z) (d : positive) : float64 := Q2Qc (n # d).

(** [x < y] *)
Definition float_lt (x y : float64) : bool :=
  bool_decide (numerator x * Z.pos (denominator y) < numerator y * Z.pos (denominator x)).

Lemma float_lt_spec x y : float_lt x y = true ↔ (x < y)%Qc.
Proof. unfold float_lt. by rewrite bool_decide_eq_true. Qed.

(** The quotient of [n] by [d], to the nearest; ties to even. *)
Definition round_half_even (n d : Z) : Z :=
  let q := n / d in
  let r := n mod d in
  if decide (d < 2 * r ∨ 2 * r = d ∧ Z.odd q = true) then q + 1 else q.

Lemma round_half_even_exact q d : 0 < d → round_half_even (q * d) d = q.
Proof.
  intros Hd. unfold round_half_even. rewrite Z.div_mul, Z.mod_mul by lia.
  by rewrite decide_False by lia.
Qed.

(** Rounding is off by half at most. *)
Lemma round_half_even_near n d : 0 < d → 2 * Z.abs (d * round_half_even n d - n) <= d.
Proof.
  intros Hd. unfold round_half_even. pose proof (Z.div_mod n d ltac:(lia)) as Hn.
  pose proof (Z.mod_pos_bound n d Hd). case_decide; nia.
Qed.

(** ** Integers as floats *)

(** The nearest [float64] to an integer. *)
Definition round_float (z : Z) : Z :=
  if decide (Z.abs z < 2 ^ 53) then z
  else
    let e := Z.log2 (Z.abs z) - 52 in
    Z.sgn z * (round_half_even (Z.abs z) (2 ^ e) * 2 ^ e).

Definition float_of_int (z : Z) : float64 := Qc_of_Z (round_float z).

(** The floats: 53 binary digits and a power of two; the bounds of the exponent
    are left out. *)
Definition is_float64 (f : float64) : Prop :=
  ∃ m k, Z.abs m < 2 ^ 53 ∧ 0 <= k ∧
    (numerator f = m * 2 ^ k * Z.pos (denominator f) ∨ numerator f * 2 ^ k = m * Z.pos (denominator f)).

Lemma round_float_exact m k : Z.abs m < 2 ^ 53 → 0 <= k → round_float (m * 2 ^ k) = m * 2 ^ k.
Proof.
  intros Hm Hk. unfold round_float. case_decide as Hbig; [done|]. cbv zeta.
  assert (0 < 2 ^ k) as Hp by lia. rewrite Z.abs_mul, (Z.abs_eq (2 ^ k)) in * by lia.
  assert (0 < Z.abs m) as Hm0 by nia.
  set (e := Z.log2 (Z.abs m * 2 ^ k) - 52).
  assert (0 <= e <= k) as He.
  { unfold e. rewrite Z.log2_mul_pow2 by lia. split.
    - rewrite <-Z.log2_mul_pow2 by lia. assert (53 <= Z.log2 (Z.abs m * 2 ^ k)); [|lia].
      apply Z.log2_le_pow2; lia.
    - assert (Z.log2 (Z.abs m) < 53); [|lia]. by apply Z.log2_lt_pow2. }
  assert (Z.abs m * 2 ^ k = Z.abs m * 2 ^ (k - e) * 2 ^ e) as Hke.
  { rewrite <-Z.mul_assoc, <-Z.pow_add_r by lia. do 2 f_equal. lia. }
  rewrite Hke, round_half_even_exact by lia. rewrite <-Hke, Z.mul_assoc.
  f_equal. rewrite Z.sgn_mul, (Z.sgn_pos (2 ^ k)) by lia. rewrite Z.mul_1_r. lia.
Qed.

Definition whole (f : float64) : bool := bool_decide (denominator f = 1%positive).

(** A float of whole value is the one nearest to its value. *)
Lemma float_of_whole f : is_float64 f → whole f = true → float_of_int (numerator f) = f.
Proof.
  intros (m & k & Hm & Hk & Hf) Hw%bool_decide_eq_true. rewrite Hw, !Z.mul_1_r in Hf.
  assert (round_float (numerator f) = numerator f) as Hr.
  { destruct Hf as [->|Hf]; [by apply round_float_exact|].
    unfold round_float. rewrite decide_True; [done|]. assert (0 < 2 ^ k) by lia. nia. }
  unfold float_of_int. rewrite Hr. apply Qc_is_canon. destruct f as [[n d] Hc]. cbn in *.
  by rewrite Hw.
Qed.

(** ** Printing *)

(** [%.2f] *)
Definition two_decimals (f : float64) : string :=
  let n := round_half_even (Z.abs (numerator f) * 100) (Z.pos (denominator f)) in
  (if decide (numerator f < 0) then "-" else "") +:+
  pretty (n / 100) +:+ "." +:+ pretty (n / 10 mod 10) +:+ pretty (n mod 10).

Example two_decimals_half : two_decimals (ratio 1 2) = "0.50".
Proof. vm_compute. reflexivity. Qed.
