(* ===== verification/Errors.v ===== *)
(** * Errors: the sentinel errors and wrapped error values

    Models [errors.go], [types/errors.go] and the [ValidationError] type of
    [internal/graph/validate.go], together with the part of Go's [fmt] and
    [errors] packages they use: formatting verbs, [%w] wrapping, [errors.Is]. *)

From Stdlib Require Import Ascii.
From stdpp Require Import pretty.
From S2P Require Import Prelude Floats.

(** ** Formatting verbs of [fmt] *)

Inductive farg :=
  | FStr (s : string)
  | FInt (z : Z)
  | FBool (b : bool)
  | FStrs (l : list string)
  | FFloat (f : float64).   (* under [%.2f] *)

Definition fmt_bool (b : bool) : string := if b then "true" else "false".

(** [%v] of a [[]string]: the elements between brackets, separated by spaces. *)
Definition fmt_strs (l : list string) : string :=
  "[" +:+ String.concat " " l +:+ "]".

(** The escape [strconv.Quote] writes for one byte of an ASCII string; a byte of
    a multi-byte rune stands for itself. *)
Definition quote_ascii (a : ascii) : string :=
  let n := N_of_ascii a in
  let hexdigit (d : N) : string :=
    default "" (String.get (N.to_nat d) "0123456789abcdef" ≫= λ c, Some (String c "")) in
  if decide (n = 34)%N then "\" +:+ String a ""
  else if decide (n = 92)%N then "\\"
  else if decide (n = 7)%N then "\a"
  else if decide (n = 8)%N then "\b"
  else if decide (n = 9)%N then "\t"
  else if decide (n = 10)%N then "\n"
  else if decide (n = 11)%N then "\v"
  else if decide (n = 12)%N then "\f"
  else if decide (n = 13)%N then "\r"
  else if decide (n < 32 ∨ n = 127)%N
       then "\x" +:+ hexdigit (n / 16)%N +:+ hexdigit (n mod 16)%N
  else String a "".

Fixpoint quote_body (s : string) : string :=
  match s with
  | EmptyString => ""
  | String a s => quote_ascii a +:+ quote_body s
  end.

(** The double-quote character on its own. *)
Definition dquote : string := String (ascii_of_N 34) "".

Definition quote (s : string) : string := dquote +:+ quote_body s +:+ dquote.

(** One argument under one verb. *)
Definition fmt_arg (verb : ascii) (a : farg) : string :=
  match a with
  | FStr s => if decide (verb = "q"%char) then quote s else s
  | FInt z => pretty z
  | FBool b => fmt_bool b
  | FStrs l => fmt_strs l
  | FFloat f => two_decimals f
  end.

(** [fmt.Sprintf] for the verbs the program uses, which have no flags but the
    precision of [%.2f]. *)
Fixpoint sprintf (fmt : string) (args : list farg) : string :=
  match fmt with
  | EmptyString => ""
  | String c rest =>
      if decide (c = "%"%char) then
        match rest with
        | EmptyString => "%"
        | String v rest' =>
            let plain := match args with
              | a :: args' => fmt_arg v a +:+ sprintf rest' args'
              | [] => sprintf rest' []
              end in
            if decide (v = "."%char) then
              match rest', args with
              | String _ (String f rest''), a :: args' => fmt_arg f a +:+ sprintf rest'' args'
              | String _ (String _ rest''), [] => sprintf rest'' []
              | _, _ => plain
              end
            else plain
        end
      else String c (sprintf rest args)
  end.

#[global] Arguments sprintf : simpl never.

(** ** Sentinel errors

    [errors.New] values are compared by identity: one constructor each. *)

Inductive sentinel :=
  (* definition errors *)
  | ErrNoInitialState | ErrMultipleInitialStates | ErrNoTerminalStates
  | ErrUnreachableState | ErrDeadEndState | ErrUnknownState | ErrMissingDefault
  | ErrDuplicateTransition
  (* runtime errors *)
  | ErrInstanceNotFound | ErrInvalidTransition | ErrGuardFailed | ErrNoMatchingRoute
  | ErrAlreadyTerminal | ErrWorkflowStuck | ErrConcurrentModification | ErrEngineShutdown
  (* signal errors *)
  | ErrNoMatchingSignal | ErrSignalAmbiguous
  (* task errors *)
  | ErrTaskNotFound | ErrTaskExpired | ErrTaskAlreadyCompleted | ErrInvalidChoice
  (* graph compilation errors *)
  | ErrSpawnCycle | ErrCompoundStateNoInitialChild | ErrOrphanedChild
  | ErrCircularHierarchy | ErrParallelStateNoRegions | ErrParallelRegionNotCompound
  | ErrNestedParallelState
  (* snapshot errors *)
  | ErrSnapshotDefinitionMismatch | ErrSnapshotInstanceExists
  (* activity errors *)
  | ErrActivityNotRegistered | ErrActivityTimeout | ErrActivityNotFound.

#[export] Instance sentinel_eq_dec : EqDecision sentinel.
Proof. solve_decision. Defined.

Definition sentinel_text (s : sentinel) : string :=
  match s with
  | ErrNoInitialState => "flowstep: no initial state defined"
  | ErrMultipleInitialStates => "flowstep: multiple initial states"
  | ErrNoTerminalStates => "flowstep: no terminal states defined"
  | ErrUnreachableState => "flowstep: unreachable state detected"
  | ErrDeadEndState => "flowstep: non-terminal state with no outgoing transitions"
  | ErrUnknownState => "flowstep: transition references unknown state"
  | ErrMissingDefault => "flowstep: routed transition missing Default"
  | ErrDuplicateTransition => "flowstep: duplicate transition name"
  | ErrInstanceNotFound => "flowstep: workflow instance not found"
  | ErrInvalidTransition => "flowstep: transition not valid from current state"
  | ErrGuardFailed => "guard check failed"
  | ErrNoMatchingRoute => "flowstep: no condition matched and no default"
  | ErrAlreadyTerminal => "flowstep: workflow already in terminal state"
  | ErrWorkflowStuck => "flowstep: workflow is stuck"
  | ErrConcurrentModification => "flowstep: concurrent modification detected"
  | ErrEngineShutdown => "flowstep: engine is shut down"
  | ErrNoMatchingSignal => "flowstep: no transition matches signal"
  | ErrSignalAmbiguous => "flowstep: multiple transitions match signal"
  | ErrTaskNotFound => "flowstep: pending task not found"
  | ErrTaskExpired => "flowstep: task has expired"
  | ErrTaskAlreadyCompleted => "flowstep: task already completed"
  | ErrInvalidChoice => "flowstep: choice not in task options"
  | ErrSpawnCycle => "flowstep: cross-workflow spawn cycle detected"
  | ErrCompoundStateNoInitialChild => "flowstep: compound state has no InitialChild"
  | ErrOrphanedChild => "flowstep: state references non-existent parent"
  | ErrCircularHierarchy => "flowstep: circular parent-child hierarchy detected"
  | ErrParallelStateNoRegions => "flowstep: parallel state has no regions (children)"
  | ErrParallelRegionNotCompound =>
      "flowstep: parallel state child is not a compound state (region)"
  | ErrNestedParallelState => "flowstep: nested parallel states are not supported"
  | ErrSnapshotDefinitionMismatch =>
      "flowstep: snapshot definition hash or version mismatch"
  | ErrSnapshotInstanceExists => "flowstep: instance already exists for snapshot aggregate"
  | ErrActivityNotRegistered => "flowstep: activity not registered"
  | ErrActivityTimeout => "flowstep: activity timed out"
  | ErrActivityNotFound => "flowstep: activity invocation not found"
  end.

(** ** Error values *)

(** [Errorf fmt args w] is [fmt.Errorf]: a format, its arguments and, under a
    final [%w], the wrapped error.  [Foreign] is an error of user code or of an
    adapter, created by [errors.New]. *)
Inductive error :=
  | Sentinel (s : sentinel)
  | Errorf (fmt : string) (args : list farg) (w : option error)
  | GuardError (GuardName : string) (Reason : error)
  | ValidationError (Sent : sentinel) (Detail : string)
  | Foreign (msg : string).

#[export] Instance farg_eq_dec : EqDecision farg.
Proof. solve_decision. Defined.

(** The method [Error() string]. *)
Fixpoint error_text (e : error) : string :=
  match e with
  | Sentinel s => sentinel_text s
  | Errorf fmt args w =>
      sprintf fmt (args ++ match w with Some e => [FStr (error_text e)] | None => [] end)
  | GuardError n r => "flowstep: guard " +:+ n +:+ " failed: " +:+ error_text r
  | ValidationError _ d => d
  | Foreign m => m
  end.

(** [GuardError.Is]. *)
Definition GuardError_Is (target : sentinel) : bool := bool_decide (target = ErrGuardFailed).

(** [ValidationError.Is]. *)
Definition ValidationError_Is (s target : sentinel) : bool := bool_decide (target = s).

(** [errors.Is] against a sentinel: an error matches when it is the sentinel,
    when its [Is] method says so, or when what it unwraps to matches. *)
Fixpoint errors_Is (e : error) (target : sentinel) : bool :=
  match e with
  | Sentinel s => bool_decide (s = target)
  | Errorf _ _ w => match w with Some e => errors_Is e target | None => false end
  | GuardError _ r => GuardError_Is target || errors_Is r target
  | ValidationError s _ => ValidationError_Is s target || bool_decide (s = target)
  | Foreign _ => false
  end.

(** ** Results: Go's [(T, error)] pair, of which one side is meaningful *)

Inductive result (A : Type) :=
  | Ok (a : A)
  | Err (e : error).
Arguments Ok {A} a.
Arguments Err {A} e.

Lemma errors_Is_wrap fmt args e t : errors_Is (Errorf fmt args (Some e)) t = errors_Is e t.
Proof. done. Qed.

Lemma errors_Is_sentinel s t : errors_Is (Sentinel s) t = true ↔ s = t.
Proof. apply bool_decide_eq_true. Qed.

Lemma errors_Is_validation s d t : errors_Is (ValidationError s d) t = true ↔ s = t.
Proof.
  simpl. unfold ValidationError_Is. rewrite orb_true_iff, !bool_decide_eq_true. naive_solver.
Qed.
