(* ===== verification/Types.v ===== *)
(** * Types: the data of the engine

    Models the [types/] package: definitions, instances, events, tasks, child
    relations, activities, snapshots and results, with the Go field names.
    A time is a number of nanoseconds since Go's zero [time.Time]; a duration
    is a number of nanoseconds.  A pointer that may be nil is an [option]. *)

From S2P Require Import Prelude Floats Errors.

Abbreviation time := Z (only parsing).
Abbreviation duration := Z (only parsing).

(** [time.Time.IsZero]. *)
Definition IsZero (t : time) : bool := bool_decide (t = 0%Z).

(** ** Dynamic values: Go's [any], as far as the engine builds or copies it *)

Inductive value :=
  | VNil
  | VStr (s : string)
  | VInt (z : Z)
  | VFloat (f : float64)
  | VBool (b : bool)
  | VTime (t : time)
  | VMap (m : option (gmap string value)).

(** The number of nodes of a value, the measure nested induction goes by. *)
Fixpoint value_size (v : value) : nat :=
  match v with
  | VMap (Some m) => S (map_fold (λ _ x n, value_size x + n) 0 m)
  | _ => 1
  end.

Lemma value_size_elem (m : gmap string value) k x :
  m !! k = Some x → value_size x < value_size (VMap (Some m)).
Proof.
  intros Hk. simpl. rewrite (map_fold_delete_L _ _ k x m); [lia| |done].
  intros; lia.
Qed.

Section value_ind.
Context (P : value → Prop).
Context (HNil : P VNil) (HStr : ∀ s, P (VStr s)) (HInt : ∀ z, P (VInt z)).
Context (HFloat : ∀ f, P (VFloat f)).
Context (HBool : ∀ b, P (VBool b)) (HTime : ∀ t, P (VTime t)).
Context (HMapNil : P (VMap None)).
Context (HMap : ∀ m : gmap string value, map_Forall (λ _, P) m → P (VMap (Some m))).

Lemma value_nested_ind (v : value) : P v.
Proof using All.
  induction v as [[| | | | | |[m|]] IH] using (induction_ltof1 _ value_size); auto.
  apply HMap. intros k x Hk. by eapply IH, value_size_elem.
Qed.
End value_ind.

(** [copyMap]: a deep copy of a [map[string]any], nested maps included. *)
Fixpoint copyValue (v : value) : value :=
  match v with
  | VMap m => VMap (match m with Some m => Some (copyValue <$> m) | None => None end)
  | _ => v
  end.

Definition copyMap (m : gomap value) : gomap value :=
  match m with
  | None => None
  | Some m => Some (copyValue <$> m)
  end.

(** ** Instances and signals *)

Record WorkflowInstance := mkWorkflowInstance {
  wi_ID : string;
  wi_WorkflowType : string;
  wi_WorkflowVersion : Z;
  wi_AggregateType : string;
  wi_AggregateID : string;
  wi_CurrentState : string;
  wi_StateData : gomap value;
  wi_CorrelationID : string;
  wi_IsStuck : bool;
  wi_StuckReason : string;
  wi_StuckAt : option time;
  wi_RetryCount : Z;
  wi_CreatedAt : time;
  wi_UpdatedAt : time;
  wi_ShallowHistory : gomap string;
  wi_DeepHistory : gomap string;
  wi_ActiveInParallel : gomap string;
  wi_ParallelClock : Z;
  wi_LastReadUpdatedAt : time
}.

#[export] Instance WorkflowInstance_eta : Eta WorkflowInstance := λ r,
  mkWorkflowInstance (wi_ID r) (wi_WorkflowType r) (wi_WorkflowVersion r)
    (wi_AggregateType r) (wi_AggregateID r) (wi_CurrentState r) (wi_StateData r)
    (wi_CorrelationID r) (wi_IsStuck r) (wi_StuckReason r) (wi_StuckAt r)
    (wi_RetryCount r) (wi_CreatedAt r) (wi_UpdatedAt r) (wi_ShallowHistory r)
    (wi_DeepHistory r) (wi_ActiveInParallel r) (wi_ParallelClock r)
    (wi_LastReadUpdatedAt r).

Record SignalInput := mkSignalInput {
  si_TargetAggregateType : string;
  si_TargetAggregateID : string;
  si_SignalName : string;
  si_Payload : gomap value;
  si_ActorID : string
}.

(** ** Definitions *)

Definition TriggerDirect : string := "DIRECT".
Definition TriggerSignal : string := "SIGNAL".
Definition TriggerTaskCompleted : string := "TASK_COMPLETED".
Definition TriggerChildCompleted : string := "CHILD_COMPLETED".
Definition TriggerChildrenJoined : string := "CHILDREN_JOINED".
Definition TriggerTimeout : string := "TIMEOUT".

Definition HistoryShallow : string := "SHALLOW".
Definition HistoryDeep : string := "DEEP".

(** A [Guard] is user code behind an interface.  Its documented contract is that
    it is deterministic and reads only the aggregate and the parameters, so it is
    a pure function; [g_Name] is set for a [NamedGuard] and [g_Type] is what
    [%T] prints. *)
Record Guard := mkGuard {
  g_Name : option string;
  g_Type : string;
  g_Check : WorkflowInstance → gomap value → option error
}.

(** A [Condition], under the same contract. *)
Record Condition := mkCondition {
  c_Evaluate : WorkflowInstance → gomap value → result bool
}.

Record StateDef := mkStateDef {
  sd_Name : string;
  sd_IsInitial : bool;
  sd_IsTerminal : bool;
  sd_IsWait : bool;
  sd_Parent : string;
  sd_Children : list string;
  sd_InitialChild : string;
  sd_IsCompound : bool;
  sd_IsParallel : bool;
  sd_EntryActivity : string;
  sd_ExitActivity : string
}.

#[export] Instance StateDef_eta : Eta StateDef := λ r,
  mkStateDef (sd_Name r) (sd_IsInitial r) (sd_IsTerminal r) (sd_IsWait r) (sd_Parent r)
    (sd_Children r) (sd_InitialChild r) (sd_IsCompound r) (sd_IsParallel r)
    (sd_EntryActivity r) (sd_ExitActivity r).

#[export] Instance StateDef_eq_dec : EqDecision StateDef.
Proof. solve_decision. Defined.

(** The zero [StateDef], which a lookup of a missing name reads as. *)
Definition StateDef_zero : StateDef :=
  mkStateDef "" false false false "" [] "" false false "" "".

Record Route := mkRoute {
  rt_Condition : option Condition;
  rt_Target : string;
  rt_IsDefault : bool
}.

Definition FireAndForget : string := "FIRE_AND_FORGET".
Definition AwaitResult : string := "AWAIT_RESULT".

Record RetryPolicy := mkRetryPolicy {
  rp_MaxAttempts : Z;
  rp_InitialBackoff : duration;
  rp_MaxBackoff : duration;
  rp_BackoffFactor : float64
}.

Record ActivityDef := mkActivityDef {
  ad_Name : string;
  ad_Mode : string;
  ad_RetryPolicy : option RetryPolicy;
  ad_ResultSignals : gomap string;
  ad_Timeout : duration
}.

Record TaskDef := mkTaskDef {
  td_Type : string;
  td_Description : string;
  td_Options : list string;
  td_Timeout : duration
}.

Record ChildDef := mkChildDef {
  cd_WorkflowType : string;
  cd_InputFrom : string
}.

Record JoinPolicy := mkJoinPolicy {
  jp_Mode : string;
  jp_TerminalState : string;
  jp_Count : Z;
  jp_CancelSiblings : bool
}.

#[export] Instance JoinPolicy_eta : Eta JoinPolicy := λ r,
  mkJoinPolicy (jp_Mode r) (jp_TerminalState r) (jp_Count r) (jp_CancelSiblings r).

Definition JoinAll : JoinPolicy := mkJoinPolicy "ALL" "" 0 false.
Definition JoinAny (terminalState : string) : JoinPolicy :=
  mkJoinPolicy "ANY" terminalState 0 false.
Definition JoinN (n : Z) : JoinPolicy := mkJoinPolicy "N" "" n false.
Definition CancelRemaining (j : JoinPolicy) : JoinPolicy := j <| jp_CancelSiblings := true |>.

Record ChildrenDef := mkChildrenDef {
  csd_WorkflowType : string;
  csd_InputsFn : value → list (gomap value);
  csd_Join : JoinPolicy
}.

Record TransitionDef := mkTransitionDef {
  tr_Name : string;
  tr_Sources : list string;
  tr_Target : string;
  tr_Routes : list Route;
  tr_Event : string;
  tr_Guards : list Guard;
  tr_Activities : list ActivityDef;
  tr_TaskDef : option TaskDef;
  tr_ChildDef : option ChildDef;
  tr_ChildrenDef : option ChildrenDef;
  tr_TriggerType : string;
  tr_TriggerKey : string;
  tr_AllowSelfTransition : bool;
  tr_HistoryMode : string;
  tr_Priority : Z
}.

#[export] Instance TransitionDef_eta : Eta TransitionDef := λ r,
  mkTransitionDef (tr_Name r) (tr_Sources r) (tr_Target r) (tr_Routes r) (tr_Event r)
    (tr_Guards r) (tr_Activities r) (tr_TaskDef r) (tr_ChildDef r) (tr_ChildrenDef r)
    (tr_TriggerType r) (tr_TriggerKey r) (tr_AllowSelfTransition r) (tr_HistoryMode r)
    (tr_Priority r).

Record WorkflowDef := mkDefinition {
  def_AggregateType : string;
  def_WorkflowType : string;
  def_Version : Z;
  def_States : gmap string StateDef;
  def_Transitions : gmap string TransitionDef;
  def_InitialState : string;
  def_TerminalStates : list string;
  def_Warnings : list string
}.

#[export] Instance Definition_eta : Eta WorkflowDef := λ r,
  mkDefinition (def_AggregateType r) (def_WorkflowType r) (def_Version r) (def_States r)
    (def_Transitions r) (def_InitialState r) (def_TerminalStates r) (def_Warnings r).

(** [def.States[name]] read as a value: the zero [StateDef] for a missing name. *)
Definition state_at (def : WorkflowDef) (name : string) : StateDef :=
  default StateDef_zero (def_States def !! name).

(** ** Events, tasks, children, activities *)

Record DomainEvent := mkDomainEvent {
  ev_ID : string;
  ev_AggregateType : string;
  ev_AggregateID : string;
  ev_WorkflowType : string;
  ev_WorkflowVersion : Z;
  ev_EventType : string;
  ev_CorrelationID : string;
  ev_CausationID : string;
  ev_ActorID : string;
  ev_StateBefore : gomap value;
  ev_StateAfter : gomap value;
  ev_TransitionName : string;
  ev_Error : gomap value;
  ev_Payload : gomap value;
  ev_CreatedAt : time;
  ev_SequenceNum : Z
}.

#[export] Instance DomainEvent_eta : Eta DomainEvent := λ r,
  mkDomainEvent (ev_ID r) (ev_AggregateType r) (ev_AggregateID r) (ev_WorkflowType r)
    (ev_WorkflowVersion r) (ev_EventType r) (ev_CorrelationID r) (ev_CausationID r)
    (ev_ActorID r) (ev_StateBefore r) (ev_StateAfter r) (ev_TransitionName r) (ev_Error r)
    (ev_Payload r) (ev_CreatedAt r) (ev_SequenceNum r).

Definition TaskStatusPending : string := "PENDING".
Definition TaskStatusCompleted : string := "COMPLETED".
Definition TaskStatusExpired : string := "EXPIRED".
Definition TaskStatusCancelled : string := "CANCELLED".

Record PendingTask := mkPendingTask {
  pt_ID : string;
  pt_WorkflowType : string;
  pt_AggregateType : string;
  pt_AggregateID : string;
  pt_CorrelationID : string;
  pt_TaskType : string;
  pt_Description : string;
  pt_Options : list string;
  pt_State : string;
  pt_AssignedTo : string;
  pt_Timeout : duration;
  pt_ExpiresAt : time;
  pt_CompletedAt : option time;
  pt_Choice : string;
  pt_CompletedBy : string;
  pt_Status : string;
  pt_CreatedAt : time
}.

#[export] Instance PendingTask_eta : Eta PendingTask := λ r,
  mkPendingTask (pt_ID r) (pt_WorkflowType r) (pt_AggregateType r) (pt_AggregateID r)
    (pt_CorrelationID r) (pt_TaskType r) (pt_Description r) (pt_Options r) (pt_State r)
    (pt_AssignedTo r) (pt_Timeout r) (pt_ExpiresAt r) (pt_CompletedAt r) (pt_Choice r)
    (pt_CompletedBy r) (pt_Status r) (pt_CreatedAt r).

Definition ChildStatusActive : string := "ACTIVE".
Definition ChildStatusCompleted : string := "COMPLETED".

Record ChildRelation := mkChildRelation {
  cr_ID : string;
  cr_GroupID : string;
  cr_ParentWorkflowType : string;
  cr_ParentAggregateType : string;
  cr_ParentAggregateID : string;
  cr_ChildWorkflowType : string;
  cr_ChildAggregateType : string;
  cr_ChildAggregateID : string;
  cr_CorrelationID : string;
  cr_Status : string;
  cr_ChildTerminalState : string;
  cr_JoinPolicy : string;
  cr_CreatedAt : time;
  cr_CompletedAt : option time
}.

#[export] Instance ChildRelation_eta : Eta ChildRelation := λ r,
  mkChildRelation (cr_ID r) (cr_GroupID r) (cr_ParentWorkflowType r)
    (cr_ParentAggregateType r) (cr_ParentAggregateID r) (cr_ChildWorkflowType r)
    (cr_ChildAggregateType r) (cr_ChildAggregateID r) (cr_CorrelationID r) (cr_Status r)
    (cr_ChildTerminalState r) (cr_JoinPolicy r) (cr_CreatedAt r) (cr_CompletedAt r).

Record ActivityInput := mkActivityInput {
  ai_WorkflowType : string;
  ai_AggregateType : string;
  ai_AggregateID : string;
  ai_CorrelationID : string;
  ai_Params : gomap value;
  ai_ScheduledAt : time;
  ai_Transition : string;
  ai_SourceState : string;
  ai_EventID : string
}.

Record ActivityResult := mkActivityResult {
  ar_Output : gomap value;
  ar_Error : string
}.

Definition ActivityStatusScheduled : string := "SCHEDULED".
Definition ActivityStatusRunning : string := "RUNNING".
Definition ActivityStatusCompleted : string := "COMPLETED".
Definition ActivityStatusFailed : string := "FAILED".
Definition ActivityStatusTimedOut : string := "TIMED_OUT".

Record ActivityInvocation := mkActivityInvocation {
  inv_ID : string;
  inv_ActivityName : string;
  inv_WorkflowType : string;
  inv_AggregateType : string;
  inv_AggregateID : string;
  inv_CorrelationID : string;
  inv_Mode : string;
  inv_Input : ActivityInput;
  inv_RetryPolicy : option RetryPolicy;
  inv_ResultSignals : gomap string;
  inv_Timeout : duration;
  inv_Status : string;
  inv_Result : option ActivityResult;
  inv_Attempts : Z;
  inv_MaxAttempts : Z;
  inv_NextRetryAt : option time;
  inv_ScheduledAt : time;
  inv_StartedAt : option time;
  inv_CompletedAt : option time
}.

#[export] Instance ActivityInvocation_eta : Eta ActivityInvocation := λ r,
  mkActivityInvocation (inv_ID r) (inv_ActivityName r) (inv_WorkflowType r)
    (inv_AggregateType r) (inv_AggregateID r) (inv_CorrelationID r) (inv_Mode r)
    (inv_Input r) (inv_RetryPolicy r) (inv_ResultSignals r) (inv_Timeout r) (inv_Status r)
    (inv_Result r) (inv_Attempts r) (inv_MaxAttempts r) (inv_NextRetryAt r)
    (inv_ScheduledAt r) (inv_StartedAt r) (inv_CompletedAt r).

(** ** Results, snapshots and observer events *)

Record PostCommitWarning := mkPostCommitWarning {
  pw_Operation : string;
  pw_Err : error
}.

Record TransitionResult := mkTransitionResult {
  res_Instance : WorkflowInstance;
  res_Event : DomainEvent;
  res_PreviousState : string;
  res_NewState : string;
  res_TransitionName : string;
  res_ActivitiesDispatched : list string;
  res_TaskCreated : option PendingTask;
  res_ChildrenSpawned : list ChildRelation;
  res_IsTerminal : bool;
  res_Warnings : list PostCommitWarning
}.

Record Snapshot := mkSnapshot {
  sn_InstanceID : string;
  sn_WorkflowType : string;
  sn_WorkflowVersion : Z;
  sn_AggregateType : string;
  sn_AggregateID : string;
  sn_CurrentState : string;
  sn_StateData : gomap value;
  sn_CorrelationID : string;
  sn_IsStuck : bool;
  sn_StuckReason : string;
  sn_StuckAt : option time;
  sn_RetryCount : Z;
  sn_CreatedAt : time;
  sn_ShallowHistory : gomap string;
  sn_DeepHistory : gomap string;
  sn_ActiveInParallel : gomap string;
  sn_ParallelClock : Z;
  sn_DefinitionHash : string;
  sn_CapturedAt : time
}.

#[export] Instance Snapshot_eta : Eta Snapshot := λ r,
  mkSnapshot (sn_InstanceID r) (sn_WorkflowType r) (sn_WorkflowVersion r)
    (sn_AggregateType r) (sn_AggregateID r) (sn_CurrentState r) (sn_StateData r)
    (sn_CorrelationID r) (sn_IsStuck r) (sn_StuckReason r) (sn_StuckAt r)
    (sn_RetryCount r) (sn_CreatedAt r) (sn_ShallowHistory r) (sn_DeepHistory r)
    (sn_ActiveInParallel r) (sn_ParallelClock r) (sn_DefinitionHash r) (sn_CapturedAt r).

(** What the engine tells its observers ([types/observer.go]); each constructor
    carries the fields of the Go event struct. *)
Inductive Notification :=
  | NTransition (Result : TransitionResult) (Duration : duration)
  | NGuardFailed (WorkflowType TransitionName GuardName : string) (Err : error)
  | NActivityDispatched (Invocation : ActivityInvocation)
  | NPostCommitError (Operation : string) (Err : error).

(** ** Deep copies are equal to what they copy *)

Lemma copyValue_id v : copyValue v = v.
Proof.
  induction v as [| | | | | | |m IH] using value_nested_ind; simpl; try done.
  do 2 f_equal. rewrite <-(map_fmap_id m) at 2.
  apply map_fmap_ext. intros k x Hk. exact (IH k x Hk).
Qed.

Lemma copyMap_id m : copyMap m = m.
Proof.
  destruct m as [m|]; simpl; [|done]. f_equal. rewrite <-(map_fmap_id m) at 2.
  apply map_fmap_ext. intros. apply copyValue_id.
Qed.

#[export] Hint Rewrite copyMap_id : flow_rw.
