(* ===== verification/Hash.v ===== *)
(** * Hash: the canonical form of a definition and its SHA-256 digest

    Models [HashDefinition] and [computeHash] of [internal/graph/compiled.go],
    with the part of Go's [crypto/sha256] they use (FIPS 180-4) written out on
    32-bit words as [N]. *)

From Stdlib Require Import Ascii String NArith.
From S2P Require Import Prelude Errors Types.

(** ** SHA-256 *)

Module Sha256.
Local Open Scope N_scope.

Definition w32 (n : N) : N := N.land n 0xffffffff.
Definition rotr (k x : N) : N := N.lor (N.shiftr x k) (w32 (N.shiftl x (32 - k))).
Definition not32 (x : N) : N := N.lxor x 0xffffffff.

Definition Ch (x y z : N) : N := N.lxor (N.land x y) (N.land (not32 x) z).
Definition Maj (x y z : N) : N := N.lxor (N.land x y) (N.lxor (N.land x z) (N.land y z)).
Definition Sigma0 (x : N) : N := N.lxor (rotr 2 x) (N.lxor (rotr 13 x) (rotr 22 x)).
Definition Sigma1 (x : N) : N := N.lxor (rotr 6 x) (N.lxor (rotr 11 x) (rotr 25 x)).
Definition sigma0 (x : N) : N := N.lxor (rotr 7 x) (N.lxor (rotr 18 x) (N.shiftr x 3)).
Definition sigma1 (x : N) : N := N.lxor (rotr 17 x) (N.lxor (rotr 19 x) (N.shiftr x 10)).

(** The largest [r] with [r ^ e <= n], found bit by bit from [2 ^ bits]. *)
Fixpoint root (e n : N) (bits : nat) (r : N) : N :=
  match bits with
  | O => r
  | S bits =>
      let r' := r + 2 ^ N.of_nat bits in
      root e n bits (if r' ^ e <=? n then r' else r)
  end.

(** The first 32 bits of the fractional part of the [e]-th root of [p]. *)
Definition root_fraction (e p : N) : N := w32 (root e (p * 2 ^ (32 * e)) 40 0).

Definition prime (p : N) : bool :=
  forallb (λ d, negb (p mod d =? 0)) (N.of_nat <$> seq 2 (N.to_nat p - 2)).

(** The primes below [312], the first 64. *)
Definition primes : list N :=
  Eval vm_compute in filter (λ p, prime p = true) (N.of_nat <$> seq 2 310).

(** The round constants and the initial hash value, as the standard defines
    them: from the cube roots and the square roots of the first primes. *)
Definition K : list N := Eval vm_compute in root_fraction 3 <$> primes.

Definition H0 : list N := Eval vm_compute in root_fraction 2 <$> take 8 primes.

(** The [n] big-endian bytes of a number. *)
Fixpoint be_bytes (n : nat) (x : N) : list N :=
  match n with
  | O => []
  | S n => be_bytes n (x / 256) ++ [x mod 256]
  end.

Definition pad (msg : list N) : list N :=
  let len := N.of_nat (length msg) in
  let zeros := N.to_nat ((119 - len mod 64) mod 64) in
  msg ++ [128] ++ replicate zeros 0 ++ be_bytes 8 (8 * len).

Fixpoint words (bytes : list N) : list N :=
  match bytes with
  | a :: b :: c :: d :: rest => (((a * 256 + b) * 256 + c) * 256 + d) :: words rest
  | _ => []
  end.

(** The message schedule: the 16 words of a block, extended to 64. *)
Fixpoint schedule (n : nat) (w : list N) : list N :=
  match n with
  | O => w
  | S n =>
      let t := length w in
      let at_ k := nth (t - k) w 0 in
      schedule n (w ++ [w32 (sigma1 (at_ 2%nat) + at_ 7%nat + sigma0 (at_ 15%nat) + at_ 16%nat)])
  end.

Definition round (s : list N) (kw : N * N) : list N :=
  match s with
  | [a; b; c; d; e; f; g; h] =>
      let t1 := h + Sigma1 e + Ch e f g + kw.1 + kw.2 in
      let t2 := Sigma0 a + Maj a b c in
      [w32 (t1 + t2); a; b; c; w32 (d + t1); e; f; g]
  | _ => s
  end.

Definition compress (h block : list N) : list N :=
  zip_with (λ a b, w32 (a + b)) h (foldl round h (zip K (schedule 48 block))).

Fixpoint blocks (n : nat) (ws : list N) : list (list N) :=
  match n with
  | O => []
  | S n => take 16 ws :: blocks n (drop 16 ws)
  end.

Definition bytes_of_string (s : string) : list N := N_of_ascii <$> list_ascii_of_string s.

Definition sum (msg : string) : list N :=
  let ws := words (pad (bytes_of_string msg)) in
  foldl compress H0 (blocks (Nat.div (length ws) 16) ws) ≫= be_bytes 4.

(** [%x] of a byte slice. *)
Definition hex_digit (d : N) : ascii :=
  nth (N.to_nat d) (list_ascii_of_string "0123456789abcdef") "0"%char.

Definition hex (bs : list N) : string :=
  string_of_list_ascii (bs ≫= λ b, [hex_digit (b / 16); hex_digit (b mod 16)]).
End Sha256.

(** [fmt.Sprintf("%x", sha256(...))]. *)
Definition sha256_hex (s : string) : string := Sha256.hex (Sha256.sum s).

Example sha256_abc : sha256_hex "abc" =
  "ba7816bf8f01cfea414140de5dae2223b00361a396177a9cb410ff61f20015ad".
Proof. vm_compute. reflexivity. Qed.

Example sha256_two_blocks :
  sha256_hex "abcdbcdecdefdefgefghfghighijhijkijkljklmklmnlmnomnopnopq" =
  "248d6a61d20638b8e5c026930c3e6039a33ce45964ff2167f6ecedd419db06c1".
Proof. vm_compute. reflexivity. Qed.

(** ** The canonical form *)

Section canonical.
Context {gr : GoRange}.
Implicit Types (def : WorkflowDef) (st : StateDef) (tr : TransitionDef).

(** The newline that ends each record. *)
Definition nl : string := String.String (ascii_of_N 10) EmptyString.

(** [slices.Sorted(maps.Keys(m))]; the keys come in the order of site [n]. *)
Definition sorted_keys {V} (n : nat) (m : gmap string V) : list string :=
  sort_strings (range n m).*1.

Definition hash_header def : string :=
  sprintf "agg:%s|wf:%s|ver:%d|init:%s"
    [FStr (def_AggregateType def); FStr (def_WorkflowType def); FInt (def_Version def);
     FStr (def_InitialState def)] +:+ nl
  +:+ sprintf "terminals:%v" [FStrs (sort_strings (def_TerminalStates def))] +:+ nl.

Definition hash_state st : string :=
  sprintf "state:%s|init:%v|term:%v|wait:%v|parent:%s|children:%v|initialChild:%s|compound:%v|parallel:%v|entry:%s|exit:%s"
    [FStr (sd_Name st); FBool (sd_IsInitial st); FBool (sd_IsTerminal st);
     FBool (sd_IsWait st); FStr (sd_Parent st); FStrs (sort_strings (sd_Children st));
     FStr (sd_InitialChild st); FBool (sd_IsCompound st); FBool (sd_IsParallel st);
     FStr (sd_EntryActivity st); FStr (sd_ExitActivity st)] +:+ nl.

Definition hash_signal (signals : gmap string string) (sigKey : string) : string :=
  sprintf "sig:%s->%s" [FStr sigKey; FStr (str_of (signals !! sigKey))] +:+ nl.

Definition hash_activity (a : ActivityDef) : string :=
  sprintf "act:%s|mode:%v|timeout:%d" [FStr (ad_Name a); FStr (ad_Mode a); FInt (ad_Timeout a)]
    +:+ nl
  +:+ String.concat "" (hash_signal (gm_map (ad_ResultSignals a))
                          <$> sorted_keys 22 (gm_map (ad_ResultSignals a))).

(** [actMap]: the last activity of each name. *)
Definition act_map (acts : list ActivityDef) : gmap string ActivityDef :=
  foldl (λ m a, <[ad_Name a := a]> m) ∅ acts.

Definition hash_activities (acts : list ActivityDef) : string :=
  String.concat "" ((λ actName,
      match act_map acts !! actName with Some a => hash_activity a | None => "" end)
    <$> sort_strings (ad_Name <$> acts)).

Definition hash_transition tr : string :=
  sprintf "tr:%s|srcs:%v|target:%s|event:%s|trigger:%s|key:%s|history:%s|priority:%d"
    [FStr (tr_Name tr); FStrs (sort_strings (tr_Sources tr)); FStr (tr_Target tr);
     FStr (tr_Event tr); FStr (tr_TriggerType tr); FStr (tr_TriggerKey tr);
     FStr (tr_HistoryMode tr); FInt (tr_Priority tr)] +:+ nl
  +:+ hash_activities (tr_Activities tr).

Definition canonical def : string :=
  hash_header def
  +:+ String.concat "" ((λ name, hash_state (state_at def name)) <$> sorted_keys 20 (def_States def))
  +:+ String.concat "" ((λ name,
        match def_Transitions def !! name with Some tr => hash_transition tr | None => "" end)
        <$> sorted_keys 21 (def_Transitions def)).

Definition computeHash def : string := sha256_hex (canonical def).

Definition HashDefinition def : string := computeHash def.
End canonical.

(** ** The canonical form does not see the iteration order *)

Lemma sorted_keys_canonical (r1 r2 : GoRange) {V} n (m : gmap string V) :
  sorted_keys (gr := r1) n m = sorted_keys (gr := r2) n m.
Proof. apply sort_strings_canonical. by rewrite !range_perm. Qed.

Lemma hash_activities_canonical (r1 r2 : GoRange) acts :
  hash_activities (gr := r1) acts = hash_activities (gr := r2) acts.
Proof.
  unfold hash_activities, hash_activity. f_equal. apply list_fmap_ext. intros _ name _.
  case_match; [|done]. by rewrite (sorted_keys_canonical r1 r2).
Qed.

Lemma canonical_order_independent (r1 r2 : GoRange) def :
  canonical (gr := r1) def = canonical (gr := r2) def.
Proof.
  unfold canonical, hash_transition. rewrite !(sorted_keys_canonical r1 r2).
  do 3 f_equal. apply list_fmap_ext. intros _ name _.
  case_match; [|done]. by rewrite (hash_activities_canonical r1 r2).
Qed.

(** What the canonical form keeps of a transition. *)
Definition hash_erase (tr : TransitionDef) : TransitionDef :=
  mkTransitionDef (tr_Name tr) (tr_Sources tr) (tr_Target tr) [] (tr_Event tr) []
    ((λ a, mkActivityDef (ad_Name a) (ad_Mode a) None (ad_ResultSignals a) (ad_Timeout a))
       <$> tr_Activities tr)
    None None None (tr_TriggerType tr) (tr_TriggerKey tr) false (tr_HistoryMode tr)
    (tr_Priority tr).

Lemma act_map_fmap (f : ActivityDef → ActivityDef) acts :
  (∀ a, ad_Name (f a) = ad_Name a) → act_map (f <$> acts) = f <$> act_map acts.
Proof.
  intros Hf. unfold act_map.
  assert (∀ m : gmap string ActivityDef,
    foldl (λ m a, <[ad_Name a := a]> m) (f <$> m) (f <$> acts)
    = f <$> foldl (λ m a, <[ad_Name a := a]> m) m acts) as Hfold.
  { induction acts as [|a acts IH]; intros m; simpl; [done|].
    by rewrite Hf, <-fmap_insert, IH. }
  rewrite <-(Hfold ∅). by rewrite fmap_empty.
Qed.

Lemma hash_transition_erase `{gr : GoRange} tr :
  hash_transition (hash_erase tr) = hash_transition tr.
Proof.
  unfold hash_transition, hash_erase. simpl. do 2 f_equal.
  unfold hash_activities. rewrite <-list_fmap_compose.
  rewrite act_map_fmap by done. f_equal.
  rewrite (list_fmap_ext _ ad_Name) by done.
  apply list_fmap_ext. intros _ name _. rewrite lookup_fmap.
  by destruct (act_map _ !! name).
Qed.

(** C39: The hash of a definition does not depend on the order in which its maps
    are iterated. *)
Theorem computeHash_order_independent (r1 r2 : GoRange) def :
  computeHash (gr := r1) def = computeHash (gr := r2) def.
Proof. unfold computeHash. by rewrite (canonical_order_independent r1 r2). Qed.

(** The hash does not depend on the routes, guards, tasks, children and
    self-transition flags of the transitions, nor on the retry policies of
    their activities: definitions that differ only there hash alike, and
    [Register] takes the second for the first. *)
Theorem computeHash_forgets (gr : GoRange) def :
  computeHash (def <| def_Transitions := hash_erase <$> def_Transitions def |>)
  = computeHash def.
Proof.
  unfold computeHash, canonical. f_equal. do 2 f_equal. simpl. f_equal.
  assert (sorted_keys 21 (hash_erase <$> def_Transitions def)
          = sorted_keys 21 (def_Transitions def)) as ->.
  { apply sort_strings_canonical. rewrite !range_perm, map_to_list_fmap.
    rewrite <-list_fmap_compose. by apply Permutation_refl'. }
  apply list_fmap_ext. intros _ name _. rewrite lookup_fmap.
  destruct (def_Transitions def !! name); simpl; [|done]. apply hash_transition_erase.
Qed.
