(* ===== verification/Validate.v ===== *)
(** * Validate: structural and reachability checks of a definition

    Models [internal/graph/validate.go].  A check returns [Some err] for a Go
    error and [None] for nil.  The two functions that follow links of the
    definition are bounded: the outer [option] of their result is [None] when
    the bound is met.  [checkReachability] never meets it; [checkDeadEnds]
    meets it exactly when the Go loop does not end (a cycle of Parent links).
    Each [range] has a site number of its own. *)

From S2P Require Import Prelude Errors Types.

Section validate.
Context {gr : GoRange}.
Implicit Types (def : WorkflowDef) (name : string) (st : StateDef) (tr : TransitionDef).

(** ** The checks *)

Definition checkInitialState def : option error :=
  let initialCount := foldl (λ n '(_, st), if sd_IsInitial st then S n else n) 0
                        (range 0 (def_States def)) in
  if decide (initialCount = 0) then
    Some (ValidationError ErrNoInitialState "flowstep: no initial state defined")
  else if decide (1 < initialCount) then
    Some (ValidationError ErrMultipleInitialStates
            "flowstep: multiple initial states defined")
  else None.

Definition checkTerminalStates def : option error :=
  match first_some (λ '(_, st), if sd_IsTerminal st then Some tt else None)
          (range 1 (def_States def)) with
  | Some _ => None
  | None => Some (ValidationError ErrNoTerminalStates
                    "flowstep: no terminal states defined")
  end.

(** The body of the loop of [checkUnknownStates]. *)
Definition unknownStates_entry def (e : string * TransitionDef) : option error :=
  let '(name, tr) := e in
  let unknown (fmt s : string) : option error :=
    match def_States def !! s with
    | Some _ => None
    | None => Some (ValidationError ErrUnknownState (sprintf fmt [FStr name; FStr s]))
    end in
  match first_some (unknown "flowstep: transition %q references unknown source state %q")
          (tr_Sources tr) with
  | Some err => Some err
  | None =>
      match (if decide (tr_Target tr = "") then None
             else unknown "flowstep: transition %q references unknown target state %q"
                    (tr_Target tr)) with
      | Some err => Some err
      | None =>
          first_some (λ route,
              if decide (rt_Target route = "") then None
              else unknown
                     "flowstep: transition %q route references unknown target state %q"
                     (rt_Target route))
            (tr_Routes tr)
      end
  end.

Definition checkUnknownStates def : option error :=
  first_some (unknownStates_entry def) (range 2 (def_Transitions def)).

Definition orphanedChildren_entry def (e : string * StateDef) : option error :=
  let '(name, st) := e in
  if decide (sd_Parent st = "") then None
  else match def_States def !! sd_Parent st with
       | Some _ => None
       | None => Some (ValidationError ErrOrphanedChild
                         (sprintf "flowstep: state %q has Parent %q which does not exist"
                            [FStr name; FStr (sd_Parent st)]))
       end.

Definition checkOrphanedChildren def : option error :=
  first_some (orphanedChildren_entry def) (range 3 (def_States def)).

Definition compoundStates_entry (e : string * StateDef) : option error :=
  let '(name, st) := e in
  if negb (sd_IsCompound st) then None
  else if sd_IsParallel st then None
  else if decide (sd_InitialChild st = "") then
    Some (ValidationError ErrCompoundStateNoInitialChild
            (sprintf "flowstep: compound state %q has no InitialChild" [FStr name]))
  else if negb (contains (sd_Children st) (sd_InitialChild st)) then
    Some (ValidationError ErrCompoundStateNoInitialChild
            (sprintf "flowstep: compound state %q InitialChild %q is not in Children"
               [FStr name; FStr (sd_InitialChild st)]))
  else None.

Definition checkCompoundStates def : option error :=
  first_some compoundStates_entry (range 4 (def_States def)).

(** [st.Parent != ""] and its parent exists and is parallel. *)
Definition nested_in_parallel def st : bool :=
  if decide (sd_Parent st = "") then false
  else match def_States def !! sd_Parent st with
       | Some parent => sd_IsParallel parent
       | None => false
       end.

Definition parallelStates_entry def (e : string * StateDef) : option error :=
  let '(name, st) := e in
  if negb (sd_IsParallel st) then None
  else if nested_in_parallel def st then
    Some (ValidationError ErrNestedParallelState
            (sprintf "flowstep: parallel state %q is nested inside parallel state %q (not supported)"
               [FStr name; FStr (sd_Parent st)]))
  else if decide (length (sd_Children st) = 0) then
    Some (ValidationError ErrParallelStateNoRegions
            (sprintf "flowstep: parallel state %q has no regions (children)" [FStr name]))
  else
    first_some (λ childName,
        match def_States def !! childName with
        | None => None
        | Some child =>
            if sd_IsParallel child then
              Some (ValidationError ErrNestedParallelState
                      (sprintf "flowstep: parallel state %q has nested parallel child %q (not supported)"
                         [FStr name; FStr childName]))
            else if negb (sd_IsCompound child) then
              Some (ValidationError ErrParallelRegionNotCompound
                      (sprintf "flowstep: parallel state %q child %q is not a compound state (region)"
                         [FStr name; FStr childName]))
            else None
        end)
      (sd_Children st).

Definition checkParallelStates def : option error :=
  first_some (parallelStates_entry def) (range 5 (def_States def)).

Definition compoundNotTerminal_entry (e : string * StateDef) : option error :=
  let '(name, st) := e in
  if sd_IsCompound st && sd_IsTerminal st then
    Some (ValidationError ErrDeadEndState
            (sprintf "flowstep: compound state %q cannot be terminal" [FStr name]))
  else None.

Definition checkCompoundNotTerminal def : option error :=
  first_some compoundNotTerminal_entry (range 6 (def_States def)).

Definition initialNotCompound_entry (e : string * StateDef) : option error :=
  let '(name, st) := e in
  if sd_IsInitial st && sd_IsCompound st then
    Some (ValidationError ErrDeadEndState
            (sprintf "flowstep: initial state %q cannot be compound (initial state must be a leaf)"
               [FStr name]))
  else None.

Definition checkInitialNotCompound def : option error :=
  first_some initialNotCompound_entry (range 7 (def_States def)).

Definition waitLeafOnly_entry (e : string * StateDef) : option error :=
  let '(name, st) := e in
  if sd_IsWait st && sd_IsCompound st then
    Some (ValidationError ErrDeadEndState
            (sprintf "flowstep: compound state %q cannot be a wait state (IsWait must be set on leaf states only)"
               [FStr name]))
  else None.

Definition checkWaitLeafOnly def : option error :=
  first_some waitLeafOnly_entry (range 8 (def_States def)).

(** ** Dead ends *)

(** [for _, tr := range def.Transitions { if slices.Contains(tr.Sources, s) {...} }] *)
Definition hasOutgoing def name : bool :=
  existsb (λ '(_, tr), contains (tr_Sources tr) name) (range 9 (def_Transitions def)).

(** The [for current != ""] loop, for at most [fuel] iterations. *)
Fixpoint ancestorHasOutgoing (fuel : nat) def (current : string) : option bool :=
  if decide (current = "") then Some false
  else match fuel with
       | 0 => None
       | S fuel =>
           if hasOutgoing def current then Some true
           else match def_States def !! current with
                | Some ancestor => ancestorHasOutgoing fuel def (sd_Parent ancestor)
                | None => Some false
                end
       end.

Definition hasOutgoingOrAncestorHas (fuel : nat) def name parent : option bool :=
  if hasOutgoing def name then Some true else ancestorHasOutgoing fuel def parent.

Fixpoint deadEnds_loop (fuel : nat) def (l : list (string * StateDef)) :
    option (option error) :=
  match l with
  | [] => Some None
  | (name, st) :: l =>
      if sd_IsTerminal st then deadEnds_loop fuel def l
      else if sd_IsCompound st then deadEnds_loop fuel def l
      else
        match hasOutgoingOrAncestorHas fuel def name (sd_Parent st) with
        | None => None
        | Some true => deadEnds_loop fuel def l
        | Some false =>
            Some (Some (ValidationError ErrDeadEndState
              (sprintf "flowstep: non-terminal state %q has no outgoing transitions"
                 [FStr name])))
        end
  end.

(** Two more iterations than there are states decide whether the walk ends. *)
Definition walk_fuel def : nat := S (S (size (def_States def))).

Definition checkDeadEnds def : option (option error) :=
  deadEnds_loop (walk_fuel def) def (range 10 (def_States def)).

(** ** Reachability *)

(** The variables [reachable] and [queue] of [checkReachability]. *)
Abbreviation bfs_state := (gset string * list string)%type.

(** The closure [enqueue]; [fuel] bounds its recursion depth. *)
Fixpoint enqueue (fuel : nat) def name (s : bfs_state) : option bfs_state :=
  match fuel with
  | 0 => None
  | S fuel =>
      let '(reachable, queue) := s in
      if decide (name ∈ reachable) then Some s
      else
        let s := ({[ name ]} ∪ reachable, queue ++ [name]) in
        match def_States def !! name with
        | Some st =>
            if sd_IsCompound st then
              if sd_IsParallel st then
                foldl (λ acc child, acc ≫= enqueue fuel def child) (Some s) (sd_Children st)
              else if decide (sd_InitialChild st = "") then Some s
              else enqueue fuel def (sd_InitialChild st) s
            else Some s
        | None => Some s
        end
  end.

(** The targets one transition enqueues when [current] is among its sources. *)
Definition transition_targets (current : string) tr : list string :=
  if contains (tr_Sources tr) current then
    (if decide (tr_Target tr = "") then [] else [tr_Target tr])
      ++ (rt_Target <$> tr_Routes tr)
  else [].

(** The body of the queue loop after [queue = queue[1:]]. *)
Definition bfs_step (fuel : nat) def (current : string) (s : bfs_state) : option bfs_state :=
  foldl (λ acc '(_, tr),
      foldl (λ acc target, acc ≫= enqueue fuel def target) acc
        (transition_targets current tr))
    (Some s) (range 11 (def_Transitions def)).

(** The queue loop: [fuel] iterations, each with recursion depth [depth]. *)
Fixpoint bfs (fuel depth : nat) def (s : bfs_state) : option (gset string) :=
  match s with
  | (reachable, []) => Some reachable
  | (reachable, current :: queue) =>
      match fuel with
      | 0 => None
      | S fuel => bfs_step depth def current (reachable, queue) ≫= bfs fuel depth def
      end
  end.

(** Every name the search can meet. *)
Definition universe def : gset string :=
  {[ def_InitialState def ]}
  ∪ list_to_set ((map_to_list (def_States def)).*2 ≫= λ st, sd_InitialChild st :: sd_Children st)
  ∪ list_to_set ((map_to_list (def_Transitions def)).*2
                   ≫= λ tr, tr_Target tr :: (rt_Target <$> tr_Routes tr)).

Definition reach_fuel def : nat := S (size (universe def)).

Definition reachable_states def : option (gset string) :=
  enqueue (reach_fuel def) def (def_InitialState def) (∅, [])
    ≫= bfs (reach_fuel def) (reach_fuel def) def.

Definition checkReachability def : option (option error) :=
  if decide (def_InitialState def = "") then Some None
  else
    match reachable_states def with
    | None => None
    | Some reachable =>
        Some (first_some (λ '(name, _),
            if decide (name ∈ reachable) then None
            else Some (ValidationError ErrUnreachableState
                   (sprintf "flowstep: state %q is unreachable from initial state"
                      [FStr name])))
          (range 12 (def_States def)))
    end.

(** ** Validate *)

(** [if err := check(def); err != nil { return err }] for each check in turn. *)
Definition and_then (c : option error) (k : option (option error)) : option (option error) :=
  match c with Some err => Some (Some err) | None => k end.

Definition Validate def : option (option error) :=
  and_then (checkInitialState def) $
  and_then (checkTerminalStates def) $
  and_then (checkUnknownStates def) $
  and_then (checkOrphanedChildren def) $
  and_then (checkCompoundStates def) $
  and_then (checkParallelStates def) $
  and_then (checkCompoundNotTerminal def) $
  and_then (checkInitialNotCompound def) $
  and_then (checkWaitLeafOnly def) $
  match checkDeadEnds def with
  | None => None
  | Some err => and_then err (checkReachability def)
  end.

(** ** Specification

    [edge def p q]: being in [p] leads to [q], by entering the children of a
    compound state or by an outgoing transition. *)

Inductive entry_edge def : string → string → Prop :=
  | entry_region p st c :
      def_States def !! p = Some st → sd_IsCompound st = true → sd_IsParallel st = true →
      c ∈ sd_Children st → entry_edge def p c
  | entry_initial p st :
      def_States def !! p = Some st → sd_IsCompound st = true → sd_IsParallel st = false →
      sd_InitialChild st ≠ "" → entry_edge def p (sd_InitialChild st).

Inductive transition_edge def : string → string → Prop :=
  | edge_target p name tr :
      def_Transitions def !! name = Some tr → p ∈ tr_Sources tr →
      tr_Target tr ≠ "" → transition_edge def p (tr_Target tr)
  | edge_route p name tr route :
      def_Transitions def !! name = Some tr → p ∈ tr_Sources tr →
      route ∈ tr_Routes tr → transition_edge def p (rt_Target route).

Definition edge def (p q : string) : Prop := entry_edge def p q ∨ transition_edge def p q.

(** The names reachable from the initial state. *)
Definition reachable def (q : string) : Prop := rtc (edge def) (def_InitialState def) q.

(** The parent link of a state. *)
Definition parent_of def name : option string :=
  match def_States def !! name with
  | Some st => if decide (sd_Parent st = "") then None else Some (sd_Parent st)
  | None => None
  end.

(** [a] is a proper ancestor of [s]. *)
Definition ancestor def (s a : string) : Prop := tc (λ x y, parent_of def x = Some y) s a.

Definition outgoing def name : Prop :=
  ∃ n tr, def_Transitions def !! n = Some tr ∧ name ∈ tr_Sources tr.

(** What a valid definition is, clause by clause. *)
Record valid_def def : Prop := {
  v_initial : ∃ n st, def_States def !! n = Some st ∧ sd_IsInitial st = true ∧
      ∀ n' st', def_States def !! n' = Some st' → sd_IsInitial st' = true → n' = n;
  v_terminal : ∃ n st, def_States def !! n = Some st ∧ sd_IsTerminal st = true;
  v_sources : ∀ n tr s, def_Transitions def !! n = Some tr → s ∈ tr_Sources tr →
      is_Some (def_States def !! s);
  v_target : ∀ n tr, def_Transitions def !! n = Some tr → tr_Target tr ≠ "" →
      is_Some (def_States def !! tr_Target tr);
  v_routes : ∀ n tr r, def_Transitions def !! n = Some tr → r ∈ tr_Routes tr →
      rt_Target r ≠ "" → is_Some (def_States def !! rt_Target r);
  v_parents : ∀ n st, def_States def !! n = Some st → sd_Parent st ≠ "" →
      is_Some (def_States def !! sd_Parent st);
  v_compound : ∀ n st, def_States def !! n = Some st →
      sd_IsCompound st = true → sd_IsParallel st = false →
      sd_InitialChild st ≠ "" ∧ sd_InitialChild st ∈ sd_Children st;
  v_parallel : ∀ n st, def_States def !! n = Some st → sd_IsParallel st = true →
      (∀ p, sd_Parent st ≠ "" → def_States def !! sd_Parent st = Some p →
         sd_IsParallel p = false) ∧
      sd_Children st ≠ [] ∧
      (∀ c cst, c ∈ sd_Children st → def_States def !! c = Some cst →
         sd_IsParallel cst = false ∧ sd_IsCompound cst = true);
  v_compound_not_terminal : ∀ n st, def_States def !! n = Some st →
      sd_IsCompound st = true → sd_IsTerminal st = false;
  v_initial_not_compound : ∀ n st, def_States def !! n = Some st →
      sd_IsInitial st = true → sd_IsCompound st = false;
  v_wait_leaf : ∀ n st, def_States def !! n = Some st →
      sd_IsWait st = true → sd_IsCompound st = false;
  v_no_dead_end : ∀ n st, def_States def !! n = Some st →
      sd_IsTerminal st = false → sd_IsCompound st = false →
      outgoing def n ∨ ∃ a, ancestor def n a ∧ outgoing def a;
  v_reachable : def_InitialState def ≠ "" → ∀ n, is_Some (def_States def !! n) →
      reachable def n
}.

(** ** The loops over states and transitions *)

Lemma checkInitialState_spec def :
  checkInitialState def = None ↔
  ∃ n st, def_States def !! n = Some st ∧ sd_IsInitial st = true ∧
    ∀ n' st', def_States def !! n' = Some st' → sd_IsInitial st' = true → n' = n.
Proof.
  unfold checkInitialState.
  set (initial := λ e : string * StateDef, sd_IsInitial e.2 = true).
  assert (∀ l n, foldl (λ n '(_, st), if sd_IsInitial st then S n else n) n l
                 = n + length (filter initial l)) as ->.
  { induction l as [|[k st] l IH]; intros n; simpl; [lia|].
    rewrite IH, filter_cons. case_decide as Hd; unfold initial in Hd; simpl in Hd.
    - rewrite Hd. simpl. lia.
    - by destruct (sd_IsInitial st). }
  simpl. pose proof (range_keys_NoDup 0 (def_States def)) as Hnd.
  assert (∀ n st, (n, st) ∈ filter initial (range 0 (def_States def)) ↔
            def_States def !! n = Some st ∧ sd_IsInitial st = true) as Hin.
  { intros n st. rewrite list_elem_of_filter, elem_of_range. unfold initial. simpl. tauto. }
  assert (NoDup (filter initial (range 0 (def_States def))).*1) as Hnd'.
  { eapply sublist_NoDup; [exact Hnd|]. apply fmap_sublist, sublist_filter. }
  destruct (filter initial (range 0 (def_States def))) as [|[n1 st1] [|[n2 st2] l]] eqn:E;
    simpl in *.
  - split; [done|]. intros (n & st & Hn & Hi & _).
    exfalso. eapply elem_of_nil. by apply (Hin n st).
  - split; [intros _|done]. destruct (Hin n1 st1) as [[? ?] _]; [by left|].
    exists n1, st1. split_and!; [done..|]. intros n' st' Hn' Hi'.
    assert ((n', st') ∈ [(n1, st1)]) as Heq by (by apply Hin).
    apply list_elem_of_singleton in Heq. by simplify_eq.
  - split; [done|]. intros (n & st & Hn & Hi & Hall).
    destruct (Hin n1 st1) as [[? ?] _]; [by left|].
    destruct (Hin n2 st2) as [[? ?] _]; [by right; left|].
    assert (n1 = n) by eauto. assert (n2 = n) by eauto. subst.
    apply NoDup_cons in Hnd' as [Hnot _]. exfalso. apply Hnot. by left.
Qed.

Lemma checkTerminalStates_spec def :
  checkTerminalStates def = None ↔
  ∃ n st, def_States def !! n = Some st ∧ sd_IsTerminal st = true.
Proof.
  unfold checkTerminalStates. split.
  - intros Hc. destruct (first_some _ _) eqn:E; [|done].
    apply first_some_Some in E as ([n st] & Hin%elem_of_range & Hst).
    exists n, st. split; [done|]. by destruct (sd_IsTerminal st).
  - intros (n & st & Hn & Ht).
    destruct (first_some _ _) eqn:E; [done|].
    rewrite first_some_range_None in E. specialize (E _ _ Hn). by rewrite Ht in E.
Qed.

Lemma unknown_lookup def (s : string) (err : error) :
  match def_States def !! s with Some _ => None | None => Some err end = None
  ↔ is_Some (def_States def !! s).
Proof. rewrite is_Some_alt. by destruct (def_States def !! s). Qed.

Lemma unknownStates_entry_spec def name tr :
  unknownStates_entry def (name, tr) = None ↔
  (∀ s, s ∈ tr_Sources tr → is_Some (def_States def !! s)) ∧
  (tr_Target tr ≠ "" → is_Some (def_States def !! tr_Target tr)) ∧
  (∀ r, r ∈ tr_Routes tr → rt_Target r ≠ "" → is_Some (def_States def !! rt_Target r)).
Proof.
  unfold unknownStates_entry.
  destruct (first_some _ (tr_Sources tr)) eqn:Es.
  { split; [done|]. intros (Hs & _).
    assert (first_some (λ s, match def_States def !! s with
        | Some _ => None
        | None => Some (ValidationError ErrUnknownState
            (sprintf "flowstep: transition %q references unknown source state %q"
               [FStr name; FStr s])) end) (tr_Sources tr) = None); [|congruence].
    apply first_some_None. intros s Hin. by apply unknown_lookup, Hs. }
  rewrite first_some_None in Es. setoid_rewrite unknown_lookup in Es.
  destruct (decide (tr_Target tr = "")) as [Ht|Ht].
  - rewrite first_some_None. split.
    + intros Hr. split_and!; [done..|]. intros r Hin Hne. specialize (Hr r Hin).
      rewrite decide_False in Hr by done. by apply unknown_lookup in Hr.
    + intros (_ & _ & Hr) r Hin. case_decide; [done|]. apply unknown_lookup. eauto.
  - destruct (def_States def !! tr_Target tr) eqn:Et.
    + rewrite first_some_None. split.
      * intros Hr. split_and!; [done|eauto|]. intros r Hin Hne. specialize (Hr r Hin).
        rewrite decide_False in Hr by done. by apply unknown_lookup in Hr.
      * intros (_ & _ & Hr) r Hin. case_decide; [done|]. apply unknown_lookup. eauto.
    + split; [done|]. intros (_ & Hs & _). by destruct (Hs Ht).
Qed.

Lemma orphanedChildren_entry_spec def name st :
  orphanedChildren_entry def (name, st) = None ↔
  (sd_Parent st ≠ "" → is_Some (def_States def !! sd_Parent st)).
Proof.
  unfold orphanedChildren_entry. case_decide; [naive_solver|].
  rewrite unknown_lookup. tauto.
Qed.

Lemma compoundStates_entry_spec name st :
  compoundStates_entry (name, st) = None ↔
  (sd_IsCompound st = true → sd_IsParallel st = false →
   sd_InitialChild st ≠ "" ∧ sd_InitialChild st ∈ sd_Children st).
Proof.
  unfold compoundStates_entry.
  destruct (sd_IsCompound st), (sd_IsParallel st); simpl; try naive_solver.
  case_decide; [naive_solver|].
  destruct (contains _ _) eqn:E; simpl; autorewrite with flow_rw in E; naive_solver.
Qed.

Lemma nested_in_parallel_false def st :
  nested_in_parallel def st = false ↔
  ∀ p, sd_Parent st ≠ "" → def_States def !! sd_Parent st = Some p → sd_IsParallel p = false.
Proof.
  unfold nested_in_parallel. case_decide; [naive_solver|].
  destruct (def_States def !! sd_Parent st); naive_solver.
Qed.

Lemma nested_in_parallel_true def st :
  nested_in_parallel def st = true →
  ∃ p, def_States def !! sd_Parent st = Some p ∧ sd_IsParallel p = true.
Proof.
  unfold nested_in_parallel. case_decide; [done|].
  destruct (def_States def !! sd_Parent st); naive_solver.
Qed.

Lemma parallelStates_entry_spec def name st :
  parallelStates_entry def (name, st) = None ↔
  (sd_IsParallel st = true →
   (∀ p, sd_Parent st ≠ "" → def_States def !! sd_Parent st = Some p →
      sd_IsParallel p = false) ∧
   sd_Children st ≠ [] ∧
   (∀ c cst, c ∈ sd_Children st → def_States def !! c = Some cst →
      sd_IsParallel cst = false ∧ sd_IsCompound cst = true)).
Proof.
  unfold parallelStates_entry.
  destruct (sd_IsParallel st); simpl; [|naive_solver].
  pose proof (nested_in_parallel_false def st) as Hnested.
  destruct (nested_in_parallel def st); [naive_solver|].
  case_decide as Hlen; [apply nil_length_inv in Hlen; naive_solver|].
  rewrite first_some_None. split.
  - intros Hc _. split_and!; [by apply Hnested|intros Heq; by rewrite Heq in Hlen|].
    intros c cst Hin Hcst. specialize (Hc c Hin). rewrite Hcst in Hc.
    by destruct (sd_IsParallel cst), (sd_IsCompound cst).
  - intros Hall c Hin. destruct (def_States def !! c) as [cst|] eqn:Hcst; [|done].
    destruct Hall as (_ & _ & Hall); [done|].
    by destruct (Hall c cst Hin Hcst) as [-> ->].
Qed.

Lemma compoundNotTerminal_entry_spec name st :
  compoundNotTerminal_entry (name, st) = None ↔
  (sd_IsCompound st = true → sd_IsTerminal st = false).
Proof.
  unfold compoundNotTerminal_entry.
  destruct (sd_IsCompound st), (sd_IsTerminal st); naive_solver.
Qed.

Lemma initialNotCompound_entry_spec name st :
  initialNotCompound_entry (name, st) = None ↔
  (sd_IsInitial st = true → sd_IsCompound st = false).
Proof.
  unfold initialNotCompound_entry.
  destruct (sd_IsInitial st), (sd_IsCompound st); naive_solver.
Qed.

Lemma waitLeafOnly_entry_spec name st :
  waitLeafOnly_entry (name, st) = None ↔
  (sd_IsWait st = true → sd_IsCompound st = false).
Proof.
  unfold waitLeafOnly_entry. destruct (sd_IsWait st), (sd_IsCompound st); naive_solver.
Qed.

(** ** Dead ends *)

Lemma hasOutgoing_spec def name : hasOutgoing def name = true ↔ outgoing def name.
Proof.
  unfold hasOutgoing, outgoing. rewrite existsb_exists. split.
  - intros ([n tr] & Hin%list_elem_of_In%elem_of_range & Hc%contains_true). eauto.
  - intros (n & tr & Hn & Hin). exists (n, tr). split.
    + by apply list_elem_of_In, elem_of_range.
    + by apply contains_true.
Qed.

Lemma parent_of_dom def x y : parent_of def x = Some y → x ∈ dom (def_States def).
Proof.
  unfold parent_of. rewrite elem_of_dom. destruct (def_States def !! x); [eauto|done].
Qed.

Lemma parent_of_ne def x y : parent_of def x = Some y → y ≠ "".
Proof. unfold parent_of. by repeat case_match; intros; simplify_eq. Qed.

(** The loop answers [true] exactly when the start or an ancestor of it has an
    outgoing transition, if it answers at all. *)
Lemma ancestorHasOutgoing_spec fuel def current b :
  ancestorHasOutgoing fuel def current = Some b →
  b = true ↔ current ≠ "" ∧ ∃ a, rtc (λ x y, parent_of def x = Some y) current a ∧ outgoing def a.
Proof.
  revert current. induction fuel as [|fuel IH]; intros current; simpl;
    (case_decide; [intros; simplify_eq; naive_solver|]); [done|].
  destruct (hasOutgoing def current) eqn:Ho.
  { intros; simplify_eq. split; [|done]. intros _. split; [done|].
    exists current. split; [done|]. by apply hasOutgoing_spec. }
  assert (¬ outgoing def current) as Hno by (rewrite <-hasOutgoing_spec; congruence).
  assert (∀ a, rtc (λ x y, parent_of def x = Some y) current a → outgoing def a →
             ∃ y, parent_of def current = Some y ∧
                  rtc (λ x y, parent_of def x = Some y) y a) as Hstep.
  { intros a Hr Ha. inversion Hr; subst; [done|]. eauto. }
  destruct (def_States def !! current) as [anc|] eqn:Hanc.
  - intros Hb%IH. rewrite Hb. unfold parent_of in Hstep |- *. rewrite Hanc in Hstep.
    split.
    + intros (Hne & a & Hr & Ha). split; [done|]. exists a. split; [|done].
      eapply rtc_l; [|exact Hr]. simpl. rewrite Hanc. by rewrite decide_False.
    + intros (_ & a & Hr & Ha). destruct (Hstep a Hr Ha) as (y & Hy & Hr').
      case_decide; simplify_eq. eauto.
  - intros; simplify_eq. split; [done|]. intros (_ & a & Hr & Ha).
    destruct (Hstep a Hr Ha) as (y & Hy & _). unfold parent_of in Hy.
    by rewrite Hanc in Hy.
Qed.

(** The walk of [ancestorHasOutgoing]: it goes on from a state without outgoing
    transitions to its parent. *)
Definition walk_next def name : option string :=
  if hasOutgoing def name then None else parent_of def name.

Lemma walk_next_dom def x y : walk_next def x = Some y → x ∈ dom (def_States def).
Proof. unfold walk_next. case_match; [done|]. apply parent_of_dom. Qed.

Lemma ancestorHasOutgoing_None fuel def current :
  ancestorHasOutgoing fuel def current = None →
  current ≠ "" ∧ is_Some (steps (walk_next def) (pred fuel) current).
Proof.
  revert current. induction fuel as [|fuel IH]; intros current; simpl;
    (case_decide; [done|]); [by eauto|].
  destruct (hasOutgoing def current) eqn:Ho; [done|].
  destruct (def_States def !! current) as [anc|] eqn:Hanc; [|done].
  intros Hn. split; [done|]. destruct fuel as [|fuel]; simpl; [by eauto|].
  apply IH in Hn as [Hne Hs].
  unfold walk_next, parent_of. by rewrite Ho, Hanc, decide_False.
Qed.

Lemma steps_ancestorHasOutgoing fuel def current :
  current ≠ "" → is_Some (steps (walk_next def) fuel current) →
  ancestorHasOutgoing fuel def current = None.
Proof.
  revert current. induction fuel as [|fuel IH]; intros current Hne; simpl;
    (rewrite decide_False by done); [done|].
  destruct (walk_next def current) as [y|] eqn:Hy; [|by intros [? ?]].
  intros Hs. unfold walk_next in Hy. destruct (hasOutgoing def current); [done|].
  pose proof (parent_of_ne _ _ _ Hy) as Hyne. unfold parent_of in Hy.
  destruct (def_States def !! current); [|done]. case_decide; simplify_eq.
  by apply IH.
Qed.

(** Running out of [walk_fuel] means that the loop does not end... *)
Lemma ancestorHasOutgoing_diverges def current :
  ancestorHasOutgoing (walk_fuel def) def current = None →
  ∀ fuel, ancestorHasOutgoing fuel def current = None.
Proof.
  intros [Hne Hs]%ancestorHasOutgoing_None fuel.
  apply steps_ancestorHasOutgoing; [done|].
  eapply (steps_pigeonhole _ (dom (def_States def))); [apply walk_next_dom|].
  by rewrite size_dom.
Qed.

(** ... and then no ancestor has an outgoing transition. *)
Lemma diverges_no_outgoing def current a :
  (∀ fuel, is_Some (steps (walk_next def) fuel current)) →
  rtc (λ x y, parent_of def x = Some y) current a → ¬ outgoing def a.
Proof.
  intros Hs Hr. induction Hr as [x|x y z Hxy Hr IH].
  - specialize (Hs 1). simpl in Hs. unfold walk_next in Hs.
    rewrite <-hasOutgoing_spec. by destruct (hasOutgoing def x); [destruct Hs|].
  - apply IH. intros fuel. specialize (Hs (S fuel)). simpl in Hs.
    unfold walk_next in Hs at 1. destruct (hasOutgoing def x); [by destruct Hs|].
    by rewrite Hxy in Hs.
Qed.

Lemma walk_true_iff def name st :
  def_States def !! name = Some st →
  hasOutgoingOrAncestorHas (walk_fuel def) def name (sd_Parent st) = Some true ↔
  outgoing def name ∨ ∃ a, ancestor def name a ∧ outgoing def a.
Proof.
  intros Hst. unfold hasOutgoingOrAncestorHas.
  destruct (hasOutgoing def name) eqn:Ho.
  { apply hasOutgoing_spec in Ho. naive_solver. }
  assert (¬ outgoing def name) as Hno by (rewrite <-hasOutgoing_spec; congruence).
  assert (∀ a, ancestor def name a ↔ sd_Parent st ≠ "" ∧
            rtc (λ x y, parent_of def x = Some y) (sd_Parent st) a) as Hanc.
  { intros a. unfold ancestor. split.
    - intros Ht. inversion Ht as [? ? Hy|? y ? Hy Hr]; subst; unfold parent_of in Hy;
        rewrite Hst in Hy; case_decide; simplify_eq; split; auto using tc_rtc, rtc_refl.
    - intros [Hne Hr]. eapply tc_rtc_r; [|exact Hr]. apply tc_once.
      unfold parent_of. by rewrite Hst, decide_False. }
  destruct (ancestorHasOutgoing _ _ _) as [b|] eqn:Hb.
  - pose proof (ancestorHasOutgoing_spec _ _ _ _ Hb) as Hspec. setoid_rewrite Hanc.
    destruct b; naive_solver.
  - split; [done|]. intros [?|(a & Ha & Hout)]; [done|]. exfalso.
    apply Hanc in Ha as [Hne Hr]. eapply diverges_no_outgoing; [|exact Hr|done].
    intros fuel. apply ancestorHasOutgoing_None in Hb as [_ Hs].
    eapply (steps_pigeonhole _ (dom (def_States def))); [apply walk_next_dom|].
    by rewrite size_dom.
Qed.

Lemma deadEnds_loop_spec def l :
  (∀ n st, (n, st) ∈ l → def_States def !! n = Some st) →
  deadEnds_loop (walk_fuel def) def l = Some None ↔
  ∀ n st, (n, st) ∈ l → sd_IsTerminal st = false → sd_IsCompound st = false →
    outgoing def n ∨ ∃ a, ancestor def n a ∧ outgoing def a.
Proof.
  induction l as [|[name st] l IH]; intros Hl; simpl.
  { split; [|done]. intros _ n st ?%elem_of_nil. done. }
  assert (∀ n st, (n, st) ∈ l → def_States def !! n = Some st) as Hl'.
  { intros. apply Hl. by right. }
  specialize (IH Hl'). pose proof (walk_true_iff def name st (Hl _ _ ltac:(by left))) as Hw.
  assert (∀ Q : string → StateDef → Prop,
            (∀ n st', (n, st') ∈ (name, st) :: l → Q n st') ↔
            Q name st ∧ (∀ n st', (n, st') ∈ l → Q n st')) as Hall.
  { intros Q. setoid_rewrite elem_of_cons. naive_solver. }
  rewrite Hall.
  destruct (sd_IsTerminal st); [naive_solver|].
  destruct (sd_IsCompound st); [naive_solver|].
  destruct (hasOutgoingOrAncestorHas _ _ _ _) as [[]|]; naive_solver.
Qed.

Lemma checkDeadEnds_spec def :
  checkDeadEnds def = Some None ↔
  ∀ n st, def_States def !! n = Some st → sd_IsTerminal st = false →
    sd_IsCompound st = false → outgoing def n ∨ ∃ a, ancestor def n a ∧ outgoing def a.
Proof.
  unfold checkDeadEnds. rewrite deadEnds_loop_spec.
  - by setoid_rewrite elem_of_range.
  - intros n st. by rewrite elem_of_range.
Qed.

(** The loop over the states diverges as a whole when one walk does. *)
Lemma deadEnds_loop_diverges def l :
  deadEnds_loop (walk_fuel def) def l = None →
  ∀ fuel, deadEnds_loop fuel def l = None.
Proof.
  intros Hl fuel. induction l as [|[name st] l IH]; simpl in *; [done|].
  destruct (sd_IsTerminal st); [auto|]. destruct (sd_IsCompound st); [auto|].
  unfold hasOutgoingOrAncestorHas in *.
  destruct (hasOutgoing def name); [auto|].
  destruct (ancestorHasOutgoing (walk_fuel def) def (sd_Parent st)) as [b|] eqn:Hb.
  - destruct b; [|done].
    destruct (ancestorHasOutgoing fuel def (sd_Parent st)) as [b'|] eqn:Hb'; [|done].
    pose proof (ancestorHasOutgoing_spec _ _ _ _ Hb) as H1.
    pose proof (ancestorHasOutgoing_spec _ _ _ _ Hb') as H2.
    destruct b'; [auto|]. naive_solver.
  - by rewrite ancestorHasOutgoing_diverges.
Qed.

(** ** The breadth-first search

    [grown seeds s s']: going from [s] to [s'] marked the seeds and what they
    enter, put exactly the newly marked names at the end of the queue, and left
    the new part closed under entering. *)

Record grown def (seeds : list string) (s s' : bfs_state) : Prop := {
  g_sub : s.1 ⊆ s'.1;
  g_seeds : ∀ x, x ∈ seeds → x ∈ s'.1;
  g_queue : ∃ new, s'.2 = s.2 ++ new ∧ ∀ x, x ∈ new ↔ x ∈ s'.1 ∧ x ∉ s.1;
  g_size : size s'.1 + length s.2 = size s.1 + length s'.2;
  g_sound : ∀ x, x ∈ s'.1 → x ∉ s.1 → ∃ y, y ∈ seeds ∧ rtc (entry_edge def) y x;
  g_closed : ∀ p q, p ∈ s'.1 → p ∉ s.1 → entry_edge def p q → q ∈ s'.1
}.

Lemma grown_refl def s : grown def [] s s.
Proof.
  constructor; try done.
  - by intros x ?%elem_of_nil.
  - exists []. rewrite app_nil_r. split; [done|]. intros x. rewrite elem_of_nil. tauto.
Qed.

Lemma grown_marked def name (s : bfs_state) : name ∈ s.1 → grown def [name] s s.
Proof.
  intros Hin. constructor; try done.
  - by intros x ->%list_elem_of_singleton.
  - exists []. rewrite app_nil_r. split; [done|]. intros x. rewrite elem_of_nil. tauto.
Qed.

Lemma grown_trans def l1 l2 s1 s2 s3 :
  grown def l1 s1 s2 → grown def l2 s2 s3 → grown def (l1 ++ l2) s1 s3.
Proof.
  intros [Hsub1 Hseed1 (n1 & Hq1 & Hn1) Hsz1 Hsnd1 Hcl1]
    [Hsub2 Hseed2 (n2 & Hq2 & Hn2) Hsz2 Hsnd2 Hcl2].
  constructor.
  - set_solver.
  - intros x [?|?]%elem_of_app; eauto.
  - exists (n1 ++ n2). rewrite Hq2, Hq1, app_assoc. split; [done|].
    intros x. rewrite elem_of_app, Hn1, Hn2. destruct (decide (x ∈ s2.1)); set_solver.
  - lia.
  - intros x Hx Hnx. destruct (decide (x ∈ s2.1)) as [Hx2|Hx2].
    + destruct (Hsnd1 x Hx2 Hnx) as (y & ? & ?). exists y. rewrite elem_of_app. eauto.
    + destruct (Hsnd2 x Hx Hx2) as (y & ? & ?). exists y. rewrite elem_of_app. eauto.
  - intros p q Hp Hnp He. destruct (decide (p ∈ s2.1)) as [Hp2|Hp2]; [|by eapply Hcl2].
    apply Hsub2. by eapply Hcl1.
Qed.

Lemma foldl_bind_None {A B} (f : B → A → option A) l :
  foldl (λ acc x, acc ≫= f x) None l = None.
Proof. by induction l. Qed.

Lemma grown_fold def (f : string → bfs_state → option bfs_state) l s s' :
  (∀ x s s', f x s = Some s' → grown def [x] s s') →
  foldl (λ acc x, acc ≫= f x) (Some s) l = Some s' → grown def l s s'.
Proof.
  intros Hf. revert s. induction l as [|x l IH]; intros s; simpl.
  { intros [= ->]. apply grown_refl. }
  destruct (f x s) as [s1|] eqn:Hx; [|by rewrite foldl_bind_None].
  intros Hl%IH. apply (grown_trans _ [x] l s s1 s'); auto.
Qed.

(** What entering a name enqueues next. *)
Definition entry_list def name : list string :=
  match def_States def !! name with
  | Some st =>
      if sd_IsCompound st then
        if sd_IsParallel st then sd_Children st
        else if decide (sd_InitialChild st = "") then [] else [sd_InitialChild st]
      else []
  | None => []
  end.

Lemma entry_list_spec def p q : entry_edge def p q ↔ q ∈ entry_list def p.
Proof.
  unfold entry_list. split.
  - intros [p' st c Hst Hc Hp Hin|p' st Hst Hc Hp Hne]; rewrite Hst, Hc, Hp; [done|].
    rewrite decide_False by done. by apply list_elem_of_singleton.
  - destruct (def_States def !! p) as [st|] eqn:Hst; [|by intros ?%elem_of_nil].
    destruct (sd_IsCompound st) eqn:Hc; [|by intros ?%elem_of_nil].
    destruct (sd_IsParallel st) eqn:Hp; [intros; by econstructor|].
    case_decide; [by intros ?%elem_of_nil|]. intros ->%list_elem_of_singleton.
    by eapply entry_initial.
Qed.

Lemma enqueue_S fuel def name R Q :
  enqueue (S fuel) def name (R, Q) =
  if decide (name ∈ R) then Some (R, Q)
  else foldl (λ acc x, acc ≫= enqueue fuel def x) (Some ({[ name ]} ∪ R, Q ++ [name]))
         (entry_list def name).
Proof.
  simpl. case_decide; [done|]. unfold entry_list.
  destruct (def_States def !! name) as [st|]; [|done].
  destruct (sd_IsCompound st); [|done]. destruct (sd_IsParallel st); [done|].
  by case_decide.
Qed.

Lemma enqueue_grown fuel def name s s' :
  enqueue fuel def name s = Some s' → grown def [name] s s'.
Proof.
  revert name s s'. induction fuel as [|fuel IH]; intros name [R Q] s'; [done|].
  rewrite enqueue_S. case_decide as Hin.
  { intros [= <-]. by apply grown_marked. }
  intros Hf%(grown_fold def); [|done].
  destruct Hf as [Hsub Hseed (new & Hq & Hn) Hsz Hsnd Hcl]; simpl in *.
  constructor; simpl.
  - set_solver.
  - intros x ->%list_elem_of_singleton. set_solver.
  - exists (name :: new). rewrite Hq, <-app_assoc. split; [done|].
    intros x. rewrite elem_of_cons, Hn. destruct (decide (x = name)); set_solver.
  - rewrite size_union in Hsz by set_solver. rewrite size_singleton, length_app in Hsz.
    simpl in Hsz. lia.
  - intros x Hx Hnx. exists name. split; [by left|].
    destruct (decide (x = name)) as [->|Hne]; [apply rtc_refl|].
    destruct (Hsnd x Hx) as (y & Hy & Hr); [set_solver|].
    eapply rtc_l; [by apply entry_list_spec|done].
  - intros p q Hp Hnp He. destruct (decide (p = name)) as [->|Hne].
    + apply Hseed. by apply entry_list_spec.
    + eapply Hcl; [done|set_solver|done].
Qed.

Definition all_targets current (l : list (string * TransitionDef)) : list string :=
  l ≫= λ e, transition_targets current e.2.

Lemma bfs_step_flat fuel def current s :
  bfs_step fuel def current s =
  foldl (λ acc x, acc ≫= enqueue fuel def x) (Some s)
    (all_targets current (range 11 (def_Transitions def))).
Proof.
  unfold bfs_step. generalize (range 11 (def_Transitions def)) as l.
  generalize (Some s) as acc. intros acc l. revert acc.
  induction l as [|[n tr] l IH]; intros acc; simpl; [done|].
  by rewrite IH, foldl_app.
Qed.

Lemma transition_edge_targets def p q :
  transition_edge def p q ↔ q ∈ all_targets p (range 11 (def_Transitions def)).
Proof.
  unfold all_targets, transition_targets. rewrite list_elem_of_bind. split.
  - intros [p' n tr Htr Hs Hne|p' n tr route Htr Hs Hr]; exists (n, tr); simpl;
      rewrite elem_of_range, (proj2 (contains_true _ _)) by done; split; try done;
      apply elem_of_app.
    + left. rewrite decide_False by done. by left.
    + right. apply list_elem_of_fmap. eauto.
  - intros ([n tr] & Hq & Htr%elem_of_range). simpl in Hq.
    destruct (contains _ _) eqn:Hs; [|by apply elem_of_nil in Hq].
    apply contains_true in Hs. apply elem_of_app in Hq as [Hq|Hq].
    + case_decide; [by apply elem_of_nil in Hq|].
      apply list_elem_of_singleton in Hq as ->. by eapply edge_target.
    + apply list_elem_of_fmap in Hq as (r & -> & Hr). by eapply edge_route.
Qed.

(** The loop invariant of the search. *)
Record bfs_inv def (s : bfs_state) : Prop := {
  bi_init : def_InitialState def ∈ s.1;
  bi_queue : ∀ x, x ∈ s.2 → x ∈ s.1;
  bi_sound : ∀ x, x ∈ s.1 → reachable def x;
  bi_entry : ∀ p q, p ∈ s.1 → entry_edge def p q → q ∈ s.1;
  bi_done : ∀ p q, p ∈ s.1 → transition_edge def p q → p ∈ s.2 ∨ q ∈ s.1
}.

Lemma rtc_entry_reachable def x y :
  reachable def x → rtc (entry_edge def) x y → reachable def y.
Proof.
  intros Hx Hr. unfold reachable in *. etrans; [exact Hx|].
  eapply rtc_subrel; [|exact Hr]. by left.
Qed.

Lemma bfs_inv_init fuel def s :
  enqueue fuel def (def_InitialState def) (∅, []) = Some s → bfs_inv def s.
Proof.
  intros [Hsub Hseed (new & Hq & Hn) Hsz Hsnd Hcl]%enqueue_grown. simpl in *.
  constructor.
  - apply Hseed. by left.
  - intros x. rewrite Hq. by intros [? _]%Hn.
  - intros x Hx. destruct (Hsnd x Hx) as (y & ->%list_elem_of_singleton & Hr); [set_solver|].
    eapply rtc_entry_reachable; [apply rtc_refl|done].
  - intros p q Hp. apply Hcl; [done|set_solver].
  - intros p q Hp _. left. rewrite Hq. apply Hn. set_solver.
Qed.

Lemma bfs_inv_step fuel def current R Q s' :
  bfs_inv def (R, current :: Q) → bfs_step fuel def current (R, Q) = Some s' →
  bfs_inv def s'.
Proof.
  rewrite bfs_step_flat. intros [Hi Hqu Hso He Hd] Hf. simpl in *.
  apply (grown_fold def) in Hf; [|apply enqueue_grown].
  destruct Hf as [Hsub Hseed (new & Hq & Hn) Hsz Hsnd Hcl]; simpl in *.
  setoid_rewrite <-transition_edge_targets in Hseed.
  setoid_rewrite <-transition_edge_targets in Hsnd.
  assert (current ∈ R) as Hcur by (apply Hqu; by left).
  constructor.
  - by apply Hsub.
  - intros x. rewrite Hq. intros [Hx|[? _]%Hn]%elem_of_app; [|done].
    apply Hsub, Hqu. by right.
  - intros x Hx. destruct (decide (x ∈ R)) as [HxR|HxR]; [by apply Hso|].
    destruct (Hsnd x Hx HxR) as (y & Hy & Hr). eapply rtc_entry_reachable; [|exact Hr].
    eapply rtc_r; [by apply Hso|]. by right.
  - intros p q Hp Hpq. destruct (decide (p ∈ R)); [|by eapply Hcl]. apply Hsub. eauto.
  - intros p q Hp Hpq. rewrite Hq, elem_of_app.
    destruct (decide (p ∈ R)) as [HpR|HpR]; [|left; right; by apply Hn].
    destruct (Hd p q HpR Hpq) as [[->|HpQ]%elem_of_cons|?]; [|tauto|right; by apply Hsub].
    right. by apply Hseed.
Qed.

Lemma reachable_closed def (R : gset string) :
  def_InitialState def ∈ R → (∀ p q, p ∈ R → edge def p q → q ∈ R) →
  ∀ x, reachable def x → x ∈ R.
Proof.
  intros Hi Hcl. apply (rtc_ind_r (.∈ R)); [done|]. intros y z _ Hyz Hy. eauto.
Qed.

Lemma bfs_spec fuel depth def s R :
  bfs_inv def s → bfs fuel depth def s = Some R → ∀ x, x ∈ R ↔ reachable def x.
Proof.
  assert (∀ R', bfs_inv def (R', []) → ∀ x, x ∈ R' ↔ reachable def x) as Hend.
  { intros R' [Hi _ Hso He Hd] x. simpl in *. split; [apply Hso|].
    apply reachable_closed; [done|]. intros p q Hp [Hpq|Hpq]; [by eapply He|].
    by destruct (Hd _ _ Hp Hpq) as [?%elem_of_nil|]. }
  revert s. induction fuel as [|fuel IH]; intros [R' [|current Q]] Hinv; simpl; try done;
    try (intros [= <-]; by apply Hend).
  destruct (bfs_step depth def current (R', Q)) eqn:E; simpl; [|done].
  apply IH. by eapply bfs_inv_step.
Qed.

(** ** The search ends within its bounds *)

Lemma universe_init def : def_InitialState def ∈ universe def.
Proof. unfold universe. set_solver. Qed.

Lemma universe_edge def p q : edge def p q → q ∈ universe def.
Proof.
  assert (∀ n st x, def_States def !! n = Some st → x = sd_InitialChild st ∨ x ∈ sd_Children st →
            x ∈ universe def) as Hst.
  { intros n st x Hn Hx. unfold universe. apply elem_of_union_l, elem_of_union_r.
    apply elem_of_list_to_set, list_elem_of_bind. exists st. split; [set_solver|].
    apply list_elem_of_fmap. exists (n, st). by rewrite elem_of_map_to_list. }
  assert (∀ n tr x, def_Transitions def !! n = Some tr →
            x = tr_Target tr ∨ x ∈ rt_Target <$> tr_Routes tr → x ∈ universe def) as Htr.
  { intros n tr x Hn Hx. unfold universe. apply elem_of_union_r.
    apply elem_of_list_to_set, list_elem_of_bind. exists tr. split; [set_solver|].
    apply list_elem_of_fmap. exists (n, tr). by rewrite elem_of_map_to_list. }
  intros [[]|[]]; eauto using list_elem_of_fmap_2.
Qed.

Lemma size_difference_insert (U R : gset string) x :
  x ∈ U → x ∉ R → S (size (U ∖ ({[ x ]} ∪ R))) = size (U ∖ R).
Proof.
  intros HU HR.
  assert (U ∖ R = {[ x ]} ∪ (U ∖ ({[ x ]} ∪ R))) as ->.
  { apply set_eq. intros y. rewrite !elem_of_union, !elem_of_difference, !elem_of_union,
      !elem_of_singleton. destruct (decide (y = x)) as [->|Hne]; tauto. }
  assert ({[ x ]} ## U ∖ ({[ x ]} ∪ R)) as Hdisj by set_solver.
  by rewrite (size_union _ _ Hdisj), size_singleton.
Qed.

Lemma enqueue_total fuel def name R Q :
  name ∈ universe def → R ⊆ universe def → size (universe def ∖ R) < fuel →
  ∃ s', enqueue fuel def name (R, Q) = Some s' ∧ s'.1 ⊆ universe def.
Proof.
  revert name R Q. induction fuel as [|fuel IH]; intros name R Q Hname HR Hf; [lia|].
  rewrite enqueue_S. case_decide as Hin; [eauto|].
  assert (size (universe def ∖ ({[ name ]} ∪ R)) < fuel) as Hf'.
  { pose proof (size_difference_insert (universe def) R name Hname Hin). lia. }
  assert (Forall (.∈ universe def) (entry_list def name)) as Hl.
  { apply Forall_forall. intros q Hq. apply (universe_edge def name). left.
    by apply entry_list_spec. }
  assert (({[ name ]} ∪ R) ⊆ universe def) as HR' by set_solver.
  generalize (Q ++ [name]) as Q'. revert HR' Hf'. generalize ({[ name ]} ∪ R) as R'.
  induction Hl as [|x l Hx Hl IHl]; intros R' HR' Hf' Q'; simpl; [eauto|].
  destruct (IH x R' Q' Hx HR' Hf') as ([R2 Q2] & Heq & HR2). rewrite Heq.
  apply IHl; [done|]. apply enqueue_grown in Heq as [Hsub _ _ _ _ _]. simpl in *.
  eapply Nat.le_lt_trans; [|exact Hf']. apply subseteq_size. set_solver.
Qed.

Lemma enqueue_fold_total fuel def l R Q :
  Forall (.∈ universe def) l → R ⊆ universe def → size (universe def ∖ R) < fuel →
  ∃ s', foldl (λ acc x, acc ≫= enqueue fuel def x) (Some (R, Q)) l = Some s' ∧
        s'.1 ⊆ universe def.
Proof.
  intros Hl. revert R Q. induction Hl as [|x l Hx Hl IHl]; intros R Q HR Hf; simpl; [eauto|].
  destruct (enqueue_total fuel def x R Q Hx HR Hf) as ([R2 Q2] & Heq & HR2). rewrite Heq.
  apply IHl; [done|]. apply enqueue_grown in Heq as [Hsub _ _ _ _ _]. simpl in *.
  eapply Nat.le_lt_trans; [|exact Hf]. apply subseteq_size. set_solver.
Qed.

Lemma bfs_total fuel depth def R Q :
  R ⊆ universe def → size (universe def) < depth →
  length Q + size (universe def ∖ R) ≤ fuel → is_Some (bfs fuel depth def (R, Q)).
Proof.
  intros HR Hd. revert R Q HR. induction fuel as [|fuel IH]; intros R Q HR Hf;
    destruct Q as [|current Q]; simpl in *; [eauto|lia|eauto|].
  rewrite bfs_step_flat.
  destruct (enqueue_fold_total depth def
              (all_targets current (range 11 (def_Transitions def))) R Q)
    as ([R' Q'] & Heq & HR').
  - apply Forall_forall. intros q Hq. apply (universe_edge def current). right.
    by apply transition_edge_targets.
  - done.
  - eapply Nat.le_lt_trans; [|exact Hd]. apply subseteq_size. set_solver.
  - rewrite Heq. simpl. apply IH; [done|].
    apply (grown_fold def) in Heq as [Hsub _ _ Hsz _ _]; [|apply enqueue_grown].
    simpl in *. pose proof (size_difference (universe def) R HR).
    pose proof (size_difference (universe def) R' HR').
    pose proof (subseteq_size _ _ HR'). lia.
Qed.

Lemma reachable_states_spec def :
  ∃ R, reachable_states def = Some R ∧ ∀ x, x ∈ R ↔ reachable def x.
Proof.
  unfold reachable_states.
  destruct (enqueue_total (reach_fuel def) def (def_InitialState def) ∅ [])
    as ([R Q] & Heq & HR).
  - apply universe_init.
  - set_solver.
  - unfold reach_fuel. rewrite difference_empty_L. lia.
  - rewrite Heq. simpl.
    destruct (bfs_total (reach_fuel def) (reach_fuel def) def R Q) as [R' HR'].
    + done.
    + unfold reach_fuel. lia.
    + pose proof (enqueue_grown _ _ _ _ _ Heq) as [_ _ _ Hsz _ _].
      cbn [fst snd length] in Hsz. rewrite size_empty in Hsz. pose proof (size_difference (universe def) R HR).
      pose proof (subseteq_size R _ HR). unfold reach_fuel. lia.
    + exists R'. split; [done|]. eapply bfs_spec; [|exact HR'].
      by eapply bfs_inv_init.
Qed.

Lemma checkReachability_spec def :
  ∃ err, checkReachability def = Some err ∧
    (err = None ↔ (def_InitialState def ≠ "" →
                   ∀ n, is_Some (def_States def !! n) → reachable def n)).
Proof.
  unfold checkReachability. case_decide as Hi.
  { eexists. split; [done|]. naive_solver. }
  destruct (reachable_states_spec def) as (R & -> & HR).
  eexists. split; [done|]. rewrite first_some_range_None. split.
  - intros Hall _ n [st Hst]. specialize (Hall n st Hst). simpl in Hall.
    apply HR. by case_decide.
  - intros Hall n st Hst. rewrite decide_True; [done|]. apply HR. eauto.
Qed.

(** ** Errors tell the truth

    [violation def s] is what a [ValidationError] with sentinel [s] claims. *)

Definition violation def (s : sentinel) : Prop :=
  match s with
  | ErrNoInitialState => ∀ n st, def_States def !! n = Some st → sd_IsInitial st = false
  | ErrMultipleInitialStates => ∃ n1 n2 st1 st2, n1 ≠ n2 ∧
      def_States def !! n1 = Some st1 ∧ sd_IsInitial st1 = true ∧
      def_States def !! n2 = Some st2 ∧ sd_IsInitial st2 = true
  | ErrNoTerminalStates => ∀ n st, def_States def !! n = Some st → sd_IsTerminal st = false
  | ErrUnknownState => ∃ n tr x, def_Transitions def !! n = Some tr ∧
      def_States def !! x = None ∧
      (x ∈ tr_Sources tr ∨ x ≠ "" ∧ (x = tr_Target tr ∨ x ∈ rt_Target <$> tr_Routes tr))
  | ErrOrphanedChild => ∃ n st, def_States def !! n = Some st ∧ sd_Parent st ≠ "" ∧
      def_States def !! sd_Parent st = None
  | ErrCompoundStateNoInitialChild => ∃ n st, def_States def !! n = Some st ∧
      sd_IsCompound st = true ∧ sd_IsParallel st = false ∧
      (sd_InitialChild st = "" ∨ sd_InitialChild st ∉ sd_Children st)
  | ErrNestedParallelState => ∃ n st m pst, def_States def !! n = Some st ∧
      sd_IsParallel st = true ∧ def_States def !! m = Some pst ∧ sd_IsParallel pst = true ∧
      (m = sd_Parent st ∨ m ∈ sd_Children st)
  | ErrParallelStateNoRegions => ∃ n st, def_States def !! n = Some st ∧
      sd_IsParallel st = true ∧ sd_Children st = []
  | ErrParallelRegionNotCompound => ∃ n st c cst, def_States def !! n = Some st ∧
      sd_IsParallel st = true ∧ c ∈ sd_Children st ∧ def_States def !! c = Some cst ∧
      sd_IsCompound cst = false
  | ErrDeadEndState => ∃ n st, def_States def !! n = Some st ∧
      (sd_IsCompound st = true ∧
         (sd_IsTerminal st = true ∨ sd_IsInitial st = true ∨ sd_IsWait st = true) ∨
       sd_IsCompound st = false ∧ sd_IsTerminal st = false ∧ ¬ outgoing def n ∧
         ∀ a, ancestor def n a → ¬ outgoing def a)
  | ErrUnreachableState => ∃ n, is_Some (def_States def !! n) ∧ ¬ reachable def n
  | _ => False
  end.

(** An error that tells the truth about [def]. *)
Definition truthful def (e : error) : Prop :=
  ∃ s d, e = ValidationError s d ∧ violation def s.

Ltac truthful_by := eexists _, _; split; [reflexivity|cbn [violation]].

Lemma unknownStates_truthful def name tr e :
  def_Transitions def !! name = Some tr →
  unknownStates_entry def (name, tr) = Some e → truthful def e.
Proof.
  unfold unknownStates_entry. intros Htr.
  destruct (first_some _ (tr_Sources tr)) eqn:Es.
  { intros [= <-]. apply first_some_Some in Es as (x & Hx & Hu).
    destruct (def_States def !! x) eqn:Hnone; simplify_eq. truthful_by.
    exists name, tr, x. auto 10. }
  clear Es. case_decide as Ht.
  - intros (r & Hr & Hu)%first_some_Some. case_decide; [done|].
    destruct (def_States def !! rt_Target r) eqn:Hnone; simplify_eq.
    eexists _, _; split; [done|]. exists name, tr, (rt_Target r). split_and!; [done..|].
    right. split; [done|]. right. by apply list_elem_of_fmap_2.
  - destruct (def_States def !! tr_Target tr) eqn:Hnone.
    + intros (r & Hr & Hu)%first_some_Some. case_decide; [done|].
      destruct (def_States def !! rt_Target r) eqn:Hnone'; simplify_eq.
      eexists _, _; split; [done|]. exists name, tr, (rt_Target r). split_and!; [done..|].
      right. split; [done|]. right. by apply list_elem_of_fmap_2.
    + intros; simplify_eq. truthful_by. exists name, tr, (tr_Target tr). auto 10.
Qed.

Lemma parallelStates_truthful def name st e :
  def_States def !! name = Some st →
  parallelStates_entry def (name, st) = Some e → truthful def e.
Proof.
  unfold parallelStates_entry. intros Hst.
  destruct (sd_IsParallel st) eqn:Hp; simpl; [|done].
  destruct (nested_in_parallel def st) eqn:Hn.
  { intros; simplify_eq. apply nested_in_parallel_true in Hn as (p & ? & ?).
    truthful_by. exists name, st, (sd_Parent st), p. auto 10. }
  case_decide as Hlen.
  { intros; simplify_eq. apply nil_length_inv in Hlen. truthful_by. exists name, st. auto 10. }
  intros (c & Hc & He)%first_some_Some.
  destruct (def_States def !! c) as [cst|] eqn:Hcst; [|done].
  destruct (sd_IsParallel cst) eqn:Hcp; simplify_eq.
  { truthful_by. exists name, st, c, cst. auto 10. }
  destruct (sd_IsCompound cst) eqn:Hcc; simplify_eq/=. truthful_by.
  exists name, st, c, cst. auto 10.
Qed.

Lemma initialState_truthful def e : checkInitialState def = Some e → truthful def e.
Proof.
  unfold checkInitialState. set (count := foldl _ _ _).
  assert (∀ l n, foldl (λ n '(_, st), if sd_IsInitial st then S n else n) n l
            = n + length (filter (λ e : string * StateDef, sd_IsInitial e.2 = true) l)) as Hf.
  { induction l as [|[k st] l IH]; intros n; simpl; [lia|].
    rewrite IH, filter_cons. case_decide as Hd; simpl in *; destruct (sd_IsInitial st);
      try done; simpl; lia. }
  unfold count. rewrite Hf. clear Hf count. simpl.
  set (l := filter _ _).
  assert (∀ n st, (n, st) ∈ l ↔ def_States def !! n = Some st ∧ sd_IsInitial st = true) as Hin.
  { intros n st. unfold l. rewrite list_elem_of_filter, elem_of_range. simpl. tauto. }
  assert (NoDup l.*1) as Hnd.
  { eapply sublist_NoDup; [exact (range_keys_NoDup 0 (def_States def))|].
    apply fmap_sublist, sublist_filter. }
  clearbody l. destruct l as [|[n1 st1] [|[n2 st2] l]]; simpl in *; intros; simplify_eq.
  - eexists _, _; split; [done|]. simpl. intros n st Hst.
    destruct (sd_IsInitial st) eqn:Hi; [|done].
    exfalso. eapply elem_of_nil. by apply (Hin n st).
  - eexists _, _; split; [done|]. exists n1, n2, st1, st2.
    destruct (Hin n1 st1) as [[? ?] _]; [by left|].
    destruct (Hin n2 st2) as [[? ?] _]; [by right; left|].
    split_and!; try done. apply NoDup_cons in Hnd as [Hnot _]. intros ->. apply Hnot. by left.
Qed.

Lemma deadEnds_truthful def l e :
  (∀ n st, (n, st) ∈ l → def_States def !! n = Some st) →
  deadEnds_loop (walk_fuel def) def l = Some (Some e) → truthful def e.
Proof.
  induction l as [|[name st] l IH]; intros Hl; simpl; [done|].
  assert (∀ n st, (n, st) ∈ l → def_States def !! n = Some st) as Hl'.
  { intros. apply Hl. by right. }
  destruct (sd_IsTerminal st) eqn:Ht; [auto|]. destruct (sd_IsCompound st) eqn:Hc; [auto|].
  pose proof (walk_true_iff def name st (Hl _ _ ltac:(by left))) as Hw.
  destruct (hasOutgoingOrAncestorHas _ _ _ _) as [[]|]; [auto| |done].
  intros; simplify_eq. eexists _, _; split; [done|]. exists name, st.
  split; [apply Hl; by left|]. right. split_and!; try done; naive_solver.
Qed.

Lemma reachability_truthful def e : checkReachability def = Some (Some e) → truthful def e.
Proof.
  unfold checkReachability. case_decide; [done|].
  destruct (reachable_states_spec def) as (R & -> & HR).
  intros Hs. injection Hs as Hs.
  apply first_some_Some in Hs as ([n st] & Hin%elem_of_range & He).
  case_decide as Hn; simplify_eq. eexists _, _; split; [done|]. exists n.
  split; [eauto|]. by rewrite <-HR.
Qed.

Lemma and_then_None c k : and_then c k = Some None ↔ c = None ∧ k = Some None.
Proof. destruct c; simpl; naive_solver. Qed.

(** ** Main theorems *)

Lemma Validate_spec def : Validate def = Some None ↔ valid_def def.
Proof.
  unfold Validate. rewrite !and_then_None.
  assert (match checkDeadEnds def with
          | None => None
          | Some err => and_then err (checkReachability def)
          end = Some None
          ↔ checkDeadEnds def = Some None ∧ checkReachability def = Some None) as ->.
  { destruct (checkDeadEnds def) as [err|]; [|naive_solver].
    rewrite and_then_None. naive_solver. }
  assert (checkReachability def = Some None ↔
            (def_InitialState def ≠ "" →
             ∀ n, is_Some (def_States def !! n) → reachable def n)) as ->.
  { destruct (checkReachability_spec def) as (err & -> & <-). naive_solver. }
  rewrite checkDeadEnds_spec, checkInitialState_spec, checkTerminalStates_spec.
  unfold checkUnknownStates, checkOrphanedChildren, checkCompoundStates,
    checkParallelStates, checkCompoundNotTerminal, checkInitialNotCompound,
    checkWaitLeafOnly.
  rewrite (first_some_range_iff 2 _ _ _ (unknownStates_entry_spec def)),
    (first_some_range_iff 3 _ _ _ (orphanedChildren_entry_spec def)),
    (first_some_range_iff 4 _ _ _ compoundStates_entry_spec),
    (first_some_range_iff 5 _ _ _ (parallelStates_entry_spec def)),
    (first_some_range_iff 6 _ _ _ compoundNotTerminal_entry_spec),
    (first_some_range_iff 7 _ _ _ initialNotCompound_entry_spec),
    (first_some_range_iff 8 _ _ _ waitLeafOnly_entry_spec).
  split.
  - intros (Hi & Ht & Hu & Ho & Hc & Hp & Hnt & Hni & Hw & Hd & Hr).
    constructor; try done; try (intros n tr x Htr; apply (Hu n tr Htr));
      try (intros n tr Htr; apply (Hu n tr Htr)); eauto.
  - intros []. split_and!; try done. intros n tr Htr. split_and!; eauto.
Qed.

(** C7: [Validate] accepts a definition exactly when the definition satisfies
    the thirteen clauses of [valid_def]: one initial state, a terminal state,
    no dangling name in a transition or Parent link, well-formed compound and
    parallel states, no dead end (own or bubbled outgoing transitions), and
    every state reachable.  It holds for every map iteration order, and in
    particular the breadth-first search computes reachability. *)
Theorem Validate_accepts_iff_valid def : Validate def = Some None ↔ valid_def def.
Proof. apply Validate_spec. Qed.

(** when [Validate] rejects a definition, the error is a [ValidationError]
    and what its sentinel claims is true of the definition, so a caller that
    tests the error with [errors.Is] is told a real defect. *)
Theorem Validate_error_truthful def e :
  Validate def = Some (Some e) → ∃ s d, e = ValidationError s d ∧ violation def s.
Proof.
  change (Validate def = Some (Some e) → truthful def e). unfold Validate.
  assert (∀ c k, and_then c k = Some (Some e) → c = Some e ∨ k = Some (Some e)) as Hand.
  { intros [e'|] k; simpl; naive_solver. }
  intros [Hc|Hk]%Hand; [by apply initialState_truthful|].
  apply Hand in Hk as [Hc|Hk].
  { unfold checkTerminalStates in Hc. destruct (first_some _ _) eqn:E; simplify_eq.
    rewrite first_some_range_None in E. truthful_by. intros n st Hst.
    specialize (E n st Hst). simpl in E. by destruct (sd_IsTerminal st). }
  apply Hand in Hk as [([n tr] & Hin%elem_of_range & Hc)%first_some_Some|Hk].
  { by eapply unknownStates_truthful. }
  apply Hand in Hk as [([n st] & Hin%elem_of_range & Hc)%first_some_Some|Hk].
  { simpl in Hc. case_decide; [done|].
    destruct (def_States def !! sd_Parent st) eqn:Hp; simplify_eq. truthful_by. eauto. }
  apply Hand in Hk as [([n st] & Hin%elem_of_range & Hc)%first_some_Some|Hk].
  { simpl in Hc. destruct (sd_IsCompound st) eqn:?, (sd_IsParallel st) eqn:?; simplify_eq/=.
    case_decide; simplify_eq; [truthful_by; eauto 10|].
    destruct (contains _ _) eqn:Hcont; simplify_eq/=. apply contains_false in Hcont.
    truthful_by. eauto 10. }
  apply Hand in Hk as [([n st] & Hin%elem_of_range & Hc)%first_some_Some|Hk].
  { by eapply parallelStates_truthful. }
  apply Hand in Hk as [([n st] & Hin%elem_of_range & Hc)%first_some_Some|Hk].
  { simpl in Hc. destruct (sd_IsCompound st) eqn:?, (sd_IsTerminal st) eqn:?; simplify_eq/=.
    truthful_by. exists n, st. auto 10. }
  apply Hand in Hk as [([n st] & Hin%elem_of_range & Hc)%first_some_Some|Hk].
  { simpl in Hc. destruct (sd_IsInitial st) eqn:?, (sd_IsCompound st) eqn:?; simplify_eq/=.
    truthful_by. exists n, st. auto 10. }
  apply Hand in Hk as [([n st] & Hin%elem_of_range & Hc)%first_some_Some|Hk].
  { simpl in Hc. destruct (sd_IsWait st) eqn:?, (sd_IsCompound st) eqn:?; simplify_eq/=.
    truthful_by. exists n, st. auto 10. }
  destruct (checkDeadEnds def) as [[e'|]|] eqn:Hde; [|simpl in Hk|done].
  - simplify_eq/=. eapply deadEnds_truthful; [|exact Hde].
    intros n st. by rewrite elem_of_range.
  - by apply reachability_truthful.
Qed.

(** when the model of [Validate] gives no answer, the Go loop of
    [checkDeadEnds] does not end, whatever bound one allows it. *)
Theorem Validate_diverges def :
  Validate def = None →
  ∀ fuel, deadEnds_loop fuel def (range 10 (def_States def)) = None.
Proof.
  assert (∀ c k, and_then c k = None → k = None) as Hand by (intros [] ?; simpl; done).
  unfold Validate. intros Hv. do 9 apply Hand in Hv.
  apply deadEnds_loop_diverges.
  destruct (checkDeadEnds def) as [err|] eqn:Hde; [|done].
  apply Hand in Hv. by destruct (checkReachability_spec def) as (? & ? & _); congruence.
Qed.

End validate.

(** The verdict does not depend on the map iteration order. *)
Corollary Validate_order_independent (r1 r2 : GoRange) def :
  Validate (gr := r1) def = Some None ↔ Validate (gr := r2) def = Some None.
Proof. by rewrite !Validate_spec. Qed.
