(* ===== verification/Compile.v ===== *)
(** * Compile: the compiled machine

    Models [internal/graph/compiled.go] except the hash ([Hash.v]): ancestor
    chains, the lowest common ancestor, initial leaves, the region index and the
    index of transitions by source state.  Both recursive functions keep the
    memo tables of the code.  [resolveInitialLeaf] is bounded; the bound is met
    exactly when the Go recursion does not end. *)

From S2P Require Import Prelude Errors Types Hash Validate.

Record CompiledTransition := mkCompiledTransition {
  ct_Def : TransitionDef;
  ct_GuardNames : list string
}.

Record CompiledMachine := mkCompiledMachine {
  cm_Definition : WorkflowDef;
  cm_Ancestry : gmap string (list string);
  cm_DepthMap : gmap string nat;
  cm_InitialLeafMap : gmap string string;
  cm_RegionIndex : gmap string (list string);
  cm_DefinitionHash : string;
  cm_TransitionsByState : gmap string (list CompiledTransition)
}.

(** [cm.Ancestry[s]]: nil for a missing name. *)
Definition ancestry_of (ancestry : gmap string (list string)) (s : string) : list string :=
  default [] (ancestry !! s).

(** [LCA]: the first ancestor of [stateA] that is an ancestor of [stateB]; the
    Go pair ["", false] is [None]. *)
Definition LCA (cm : CompiledMachine) (stateA stateB : string) : option string :=
  let ancestorsA := ancestry_of (cm_Ancestry cm) stateA in
  let ancestorsB := ancestry_of (cm_Ancestry cm) stateB in
  if decide (length ancestorsA = 0) then None
  else if decide (length ancestorsB = 0) then None
  else first_some (λ a, if contains ancestorsB a then Some a else None) ancestorsA.

Section compile.
Context {gr : GoRange}.
Implicit Types (def : WorkflowDef) (name : string).

(** ** Ancestors *)

Abbreviation ancestry_memo := (gmap string (list string)).

Definition circular_error name : error :=
  ValidationError ErrCircularHierarchy
    (sprintf "flowstep: circular parent-child hierarchy detected at state %q" [FStr name]).

(** [buildAncestry]; [fuel] bounds the recursion depth, [visiting] holds the
    names whose calls are open. *)
Fixpoint buildAncestry (fuel : nat) def name (memo : ancestry_memo) (visiting : gset string) :
    option (result (list string * ancestry_memo)) :=
  match memo !! name with
  | Some ch => Some (Ok (ch, memo))
  | None =>
      match parent_of def name with
      | None => Some (Ok ([], <[name := []]> memo))
      | Some parent =>
          if decide (name ∈ visiting) then Some (Err (circular_error name))
          else
            match fuel with
            | 0 => None
            | S fuel =>
                match buildAncestry fuel def parent memo ({[ name ]} ∪ visiting) with
                | None => None
                | Some (Err e) => Some (Err e)
                | Some (Ok (parentChain, memo)) =>
                    let ch := parent :: parentChain in
                    Some (Ok (ch, <[name := ch]> memo))
                end
            end
      end
  end.

(** The loop that fills [Ancestry] and [DepthMap]. *)
Fixpoint ancestry_loop def (l : list (string * StateDef)) (memo : ancestry_memo)
    (ancestry : gmap string (list string)) (depth : gmap string nat) :
    option (result (gmap string (list string) * gmap string nat)) :=
  match l with
  | [] => Some (Ok (ancestry, depth))
  | (name, _) :: l =>
      match buildAncestry (size (def_States def)) def name memo ∅ with
      | None => None
      | Some (Err e) => Some (Err e)
      | Some (Ok (ch, memo)) =>
          ancestry_loop def l memo
            (if decide (0 < length ch) then <[name := ch]> ancestry else ancestry)
            (<[name := length ch]> depth)
      end
  end.

(** ** Initial leaves *)

(** [resolveInitialLeaf] with its memo table. *)
Fixpoint resolveInitialLeaf (fuel : nat) def name (memo : gmap string string) :
    option (string * gmap string string) :=
  match memo !! name with
  | Some leaf => Some (leaf, memo)
  | None =>
      let st := state_at def name in
      if negb (sd_IsCompound st) || bool_decide (sd_InitialChild st = "") then Some (name, memo)
      else
        match fuel with
        | 0 => None
        | S fuel =>
            match resolveInitialLeaf fuel def (sd_InitialChild st) memo with
            | None => None
            | Some (leaf, memo) => Some (leaf, <[name := leaf]> memo)
            end
        end
  end.

Definition leaf_fuel def : nat := S (size (def_States def)).
#[global] Arguments leaf_fuel : simpl never.

(** The states with an entry in [InitialLeafMap]. *)
Definition has_leaf_entry (st : StateDef) : bool :=
  sd_IsCompound st && negb (sd_IsParallel st) && negb (bool_decide (sd_InitialChild st = "")).

(** The loop that fills [InitialLeafMap]. *)
Fixpoint leaf_loop def (l : list (string * StateDef)) (memo leaves : gmap string string) :
    option (gmap string string) :=
  match l with
  | [] => Some leaves
  | (name, st) :: l =>
      if has_leaf_entry st then
        match resolveInitialLeaf (leaf_fuel def) def name memo with
        | None => None
        | Some (leaf, memo) => leaf_loop def l memo (<[name := leaf]> leaves)
        end
      else leaf_loop def l memo leaves
  end.

(** ** The remaining indices *)

Definition region_index def : gmap string (list string) :=
  foldl (λ m '(name, st), if sd_IsParallel st then <[name := sd_Children st]> m else m)
    ∅ (range 31 (def_States def)).

Definition resolveGuardNames (guards : list Guard) : list string :=
  (λ g, match g_Name g with Some n => n | None => g_Type g end) <$> guards.

Definition compileTransition (tr : TransitionDef) : CompiledTransition :=
  mkCompiledTransition tr (resolveGuardNames (tr_Guards tr)).

(** [append(cm.TransitionsByState[src], ct)] for each source of a transition. *)
Definition index_transition (m : gmap string (list CompiledTransition)) (tr : TransitionDef) :
    gmap string (list CompiledTransition) :=
  foldl (λ m src, <[src := default [] (m !! src) ++ [compileTransition tr]]> m)
    m (tr_Sources tr).

Definition transitions_by_state def : gmap string (list CompiledTransition) :=
  let indexed := foldl (λ m '(_, tr), index_transition m tr) ∅ (range 33 (def_Transitions def)) in
  foldl (λ m '(name, _), match m !! name with Some _ => m | None => <[name := []]> m end)
    indexed (range 34 (def_States def)).

(** ** Compile *)

Definition Compile def : option (result CompiledMachine) :=
  match ancestry_loop def (range 30 (def_States def)) ∅ ∅ ∅ with
  | None => None
  | Some (Err e) => Some (Err e)
  | Some (Ok (ancestry, depth)) =>
      match leaf_loop def (range 32 (def_States def)) ∅ ∅ with
      | None => None
      | Some leaves =>
          Some (Ok (mkCompiledMachine def ancestry depth leaves (region_index def)
                      (computeHash def) (transitions_by_state def)))
      end
  end.

(** ** Ancestor chains are right *)

Abbreviation parent_chain def := (chain (parent_of def)).

Definition memo_ok def (memo : ancestry_memo) : Prop :=
  map_Forall (λ n ch, parent_chain def n ch) memo.

Definition acyclic def : Prop := ∀ name, ∃ l, parent_chain def name l.

(** A call answers within its bound: with the parent chain, or with the error
    when there is none. *)
Lemma buildAncestry_spec fuel def name memo visiting :
  memo_ok def memo →
  (∀ v, v ∈ visiting → tc (λ x y, parent_of def x = Some y) v name) →
  visiting ⊆ dom (def_States def) →
  size (dom (def_States def) ∖ visiting) ≤ fuel →
  ∃ r, buildAncestry fuel def name memo visiting = Some r ∧
    match r with
    | Ok (ch, memo') => parent_chain def name ch ∧ memo_ok def memo'
    | Err e => (∃ d, e = ValidationError ErrCircularHierarchy d) ∧ ∀ l, ¬ parent_chain def name l
    end.
Proof.
  revert name memo visiting. induction fuel as [|fuel IH]; intros name memo visiting
    Hmemo Hvis Hsub Hfuel; simpl.
  all: destruct (memo !! name) as [ch|] eqn:Hch; [eexists; split; [done|]; split; [by apply Hmemo|done]|].
  all: destruct (parent_of def name) as [parent|] eqn:Hp;
    [|eexists; split; [done|]; simpl; split; [by constructor|];
      apply map_Forall_insert_2; [by constructor|done]].
  all: case_decide as Hin; [eexists; split; [done|]; simpl; split; [by eexists|];
    intros l Hl; apply (chain_not_elem _ _ _ Hl), (chain_tc _ _ _ _ Hl), Hvis, Hin|].
  all: pose proof (parent_of_dom _ _ _ Hp) as Hdom.
  - exfalso. assert (name ∈ dom (def_States def) ∖ visiting) as Hd by set_solver.
    assert (dom (def_States def) ∖ visiting ≡ ∅) as He by (apply size_empty_iff; lia).
    set_solver.
  - destruct (IH parent memo ({[ name ]} ∪ visiting)) as (r & -> & Hr).
    + done.
    + intros v [->%elem_of_singleton|Hv]%elem_of_union; [by apply tc_once|].
      eapply tc_r; [by apply Hvis|done].
    + set_solver.
    + pose proof (size_difference_insert _ visiting name Hdom Hin). lia.
    + destruct r as [[pc memo']|e]; (eexists; split; [done|]); simpl in *.
      * destruct Hr as [Hc Hm]. assert (parent_chain def name (parent :: pc)) by by econstructor.
        split; [done|]. by apply map_Forall_insert_2.
      * destruct Hr as [He Hn]. split; [done|]. intros l Hl. inversion Hl; simplify_eq.
        by eapply Hn.
Qed.

Lemma buildAncestry_top def name memo :
  memo_ok def memo →
  ∃ r, buildAncestry (size (def_States def)) def name memo ∅ = Some r ∧
    match r with
    | Ok (ch, memo') => parent_chain def name ch ∧ memo_ok def memo'
    | Err e => (∃ d, e = ValidationError ErrCircularHierarchy d) ∧ ∀ l, ¬ parent_chain def name l
    end.
Proof.
  intros Hm. apply buildAncestry_spec; [done|by intros v ?%elem_of_empty|set_solver|].
  rewrite difference_empty_L, size_dom. lia.
Qed.

Lemma ancestry_loop_spec def l memo ancestry depth :
  memo_ok def memo →
  ∃ r, ancestry_loop def l memo ancestry depth = Some r ∧
    match r with
    | Ok (ancestry', depth') =>
        (∀ n, n ∉ l.*1 → ancestry' !! n = ancestry !! n ∧ depth' !! n = depth !! n) ∧
        (∀ n, n ∈ l.*1 → ∃ ch, parent_chain def n ch ∧ depth' !! n = Some (length ch) ∧
           ((ancestry' !! n = Some ch ∧ ch ≠ []) ∨ (ch = [] ∧ ancestry' !! n = ancestry !! n)))
    | Err e => (∃ d, e = ValidationError ErrCircularHierarchy d) ∧
        ∃ n, n ∈ l.*1 ∧ ∀ l, ¬ parent_chain def n l
    end.
Proof.
  revert memo ancestry depth. induction l as [|[name st] l IH]; intros memo ancestry depth Hm; simpl.
  { eexists; split; [done|]. split; [done|]. by intros n ?%elem_of_nil. }
  destruct (buildAncestry_top def name memo Hm) as ([[ch memo']|e] & -> & Hr).
  - destruct Hr as [Hc Hm'].
    set (ancestry1 := if decide (0 < length ch) then _ else _).
    destruct (IH memo' ancestry1 (<[name := length ch]> depth) Hm')
      as ([[ancestry' depth']|e] & -> & Hr); (eexists; split; [done|]).
    + destruct Hr as [Hout Hin].
      assert (∀ n, n ≠ name → ancestry1 !! n = ancestry !! n) as Hne.
      { intros n Hn. unfold ancestry1. case_decide; [|done]. by rewrite lookup_insert_ne. }
      split.
      * intros n [Hn1 Hn2]%not_elem_of_cons. destruct (Hout n Hn2) as [-> ->].
        rewrite lookup_insert_ne by done. auto.
      * intros n Hn. destruct (decide (n ∈ l.*1)) as [Hl|Hl].
        { destruct (Hin n Hl) as (ch' & Hch' & Hd & Ha). exists ch'. split_and!; [done..|].
          destruct Ha as [?|[-> Ha]]; [by left|]. right. split; [done|].
          rewrite Ha. destruct (decide (n = name)) as [->|]; [|by apply Hne].
          assert (ch = []) as -> by (by eapply chain_unique). done. }
        apply elem_of_cons in Hn as [->|?]; [|done].
        destruct (Hout name Hl) as [Ha Hd]. exists ch. rewrite Hd, lookup_insert_eq.
        split_and!; [done..|]. unfold ancestry1 in Ha. case_decide as Hlen.
        -- left. rewrite Ha, lookup_insert_eq. split; [done|]. intros ->. simpl in Hlen. lia.
        -- right. split; [|done]. destruct ch; [done|simpl in Hlen; lia].
    + destruct Hr as (He & n & Hn & Hno). split; [done|]. exists n. split; [by right|done].
  - eexists; split; [done|]. destruct Hr as [He Hno]. split; [done|].
    exists name. split; [by left|done].
Qed.

(** ** Initial leaves are right *)

Definition initial_next def name : option string :=
  let st := state_at def name in
  if negb (sd_IsCompound st) || bool_decide (sd_InitialChild st = "") then None
  else Some (sd_InitialChild st).

Abbreviation initial_chain def := (chain (initial_next def)).

(** [leaf] is where the initial-child links from [name] end. *)
Definition initial_leaf def name (leaf : string) : Prop :=
  ∃ l, initial_chain def name l ∧ last (name :: l) = Some leaf.

Lemma initial_next_dom def x y : initial_next def x = Some y → x ∈ dom (def_States def).
Proof.
  unfold initial_next, state_at. rewrite elem_of_dom.
  destruct (def_States def !! x); [eauto|done].
Qed.

Lemma initial_leaf_unique def name l1 l2 :
  initial_leaf def name l1 → initial_leaf def name l2 → l1 = l2.
Proof.
  intros (c1 & H1 & E1) (c2 & H2 & E2).
  assert (c1 = c2) as -> by (by eapply chain_unique). congruence.
Qed.

Lemma initial_leaf_self def name : initial_next def name = None → initial_leaf def name name.
Proof. intros. exists []. split; [by constructor|done]. Qed.

Lemma initial_leaf_step def name next leaf :
  initial_next def name = Some next → initial_leaf def next leaf → initial_leaf def name leaf.
Proof.
  intros Hn (l & Hc & Hl). exists (next :: l). split; [by econstructor|].
  by rewrite last_cons_cons.
Qed.

Lemma initial_leaf_end def name leaf : initial_leaf def name leaf → initial_next def leaf = None.
Proof.
  intros (l & Hc & Hl). revert leaf Hl. induction Hc as [x Hx|x y l Hx Hc IH]; intros leaf.
  - by intros [= <-].
  - rewrite last_cons_cons. apply IH.
Qed.

Definition leaf_memo_ok def (memo : gmap string string) : Prop :=
  map_Forall (initial_leaf def) memo.

Lemma resolveInitialLeaf_sound fuel def name memo leaf memo' :
  leaf_memo_ok def memo → resolveInitialLeaf fuel def name memo = Some (leaf, memo') →
  initial_leaf def name leaf ∧ leaf_memo_ok def memo'.
Proof.
  revert name memo leaf memo'. induction fuel as [|fuel IH]; intros name memo leaf memo' Hm; simpl.
  all: destruct (memo !! name) eqn:Hmem; [intros; simplify_eq; split; [by apply Hm|done]|].
  all: destruct (negb _ || _) eqn:Hleaf;
    [intros; simplify_eq; split; [|done]; apply initial_leaf_self; unfold initial_next;
     by rewrite Hleaf|].
  - done.
  - destruct (resolveInitialLeaf _ _ _ _) as [[leaf1 memo1]|] eqn:Hr; [|done].
    intros; simplify_eq. apply IH in Hr as [H1 H2]; [|done].
    assert (initial_leaf def name leaf).
    { eapply initial_leaf_step; [|exact H1]. unfold initial_next. by rewrite Hleaf. }
    split; [done|]. by apply map_Forall_insert_2.
Qed.

Lemma resolveInitialLeaf_total fuel def name memo l :
  initial_chain def name l → length l ≤ fuel →
  is_Some (resolveInitialLeaf fuel def name memo).
Proof.
  intros Hc. revert fuel memo. induction Hc as [x Hx|x y l Hx Hc IH]; intros fuel memo Hf;
    destruct fuel as [|fuel]; simpl in *; try lia; destruct (memo !! x); eauto;
    unfold initial_next in Hx; destruct (negb _ || _); simplify_eq; eauto.
  destruct (IH fuel memo) as [[leaf m] ->]; [lia|eauto].
Qed.

(** Without an end of the initial-child links the recursion runs forever. *)
Lemma resolveInitialLeaf_diverges fuel def name memo :
  leaf_memo_ok def memo → (∀ l, ¬ initial_chain def name l) →
  resolveInitialLeaf fuel def name memo = None.
Proof.
  intros Hm Hno. destruct (resolveInitialLeaf fuel def name memo) as [[leaf m]|] eqn:E; [|done].
  apply resolveInitialLeaf_sound in E as [(l & Hl & _) _]; [|done]. by destruct (Hno l).
Qed.

Lemma resolveInitialLeaf_spec def name memo leaf :
  leaf_memo_ok def memo → initial_leaf def name leaf →
  ∃ memo', resolveInitialLeaf (leaf_fuel def) def name memo = Some (leaf, memo') ∧
           leaf_memo_ok def memo'.
Proof.
  intros Hm Hl. pose proof Hl as (l & Hc & _).
  destruct (resolveInitialLeaf_total (leaf_fuel def) def name memo l Hc) as [[leaf' memo'] Hr].
  { apply (chain_length_le _ (dom (def_States def))) in Hc; [|apply initial_next_dom].
    rewrite size_dom in Hc. unfold leaf_fuel. lia. }
  pose proof Hr as [H1 H2]%resolveInitialLeaf_sound; [|done].
  rewrite Hr. assert (leaf' = leaf) as -> by (by eapply initial_leaf_unique). eauto.
Qed.

Lemma leaf_loop_spec def l memo leaves leaves' :
  leaf_memo_ok def memo → NoDup l.*1 → leaf_loop def l memo leaves = Some leaves' →
  ∀ n, match (list_to_map l : gmap string StateDef) !! n with
       | Some st => if has_leaf_entry st then ∃ leaf, leaves' !! n = Some leaf ∧ initial_leaf def n leaf
                    else leaves' !! n = leaves !! n
       | None => leaves' !! n = leaves !! n
       end.
Proof.
  revert memo leaves. induction l as [|[name st] l IH]; intros memo leaves Hm Hnd; cbn [leaf_loop].
  { intros [= <-] n. by rewrite list_to_map_nil, lookup_empty. }
  rewrite fmap_cons in Hnd. apply NoDup_cons in Hnd as [Hnot Hnd].
  assert ((list_to_map l : gmap string StateDef) !! name = None) as Hnone.
  { by apply not_elem_of_list_to_map_1. }
  destruct (has_leaf_entry st) eqn:He.
  - destruct (resolveInitialLeaf _ _ _ _) as [[leaf memo']|] eqn:Hr; [|done].
    apply resolveInitialLeaf_sound in Hr as [Hleaf Hm']; [|done].
    intros Hl n. rewrite list_to_map_cons. pose proof (IH _ _ Hm' Hnd Hl n) as Hn.
    destruct (decide (n = name)) as [->|Hne].
    + rewrite lookup_insert_eq, He. rewrite Hnone, lookup_insert_eq in Hn. eauto.
    + rewrite lookup_insert_ne by done. rewrite lookup_insert_ne in Hn by done. done.
  - intros Hl n. rewrite list_to_map_cons. pose proof (IH _ _ Hm Hnd Hl n) as Hn.
    destruct (decide (n = name)) as [->|Hne].
    + rewrite lookup_insert_eq, He. by rewrite Hnone in Hn.
    + by rewrite lookup_insert_ne by done.
Qed.

Lemma leaf_loop_total def l memo leaves :
  leaf_memo_ok def memo →
  (∀ n st, (n, st) ∈ l → has_leaf_entry st = true → ∃ leaf, initial_leaf def n leaf) →
  is_Some (leaf_loop def l memo leaves).
Proof.
  revert memo leaves. induction l as [|[name st] l IH]; intros memo leaves Hm Hl; cbn [leaf_loop]; [eauto|].
  assert (∀ n st, (n, st) ∈ l → has_leaf_entry st = true → ∃ leaf, initial_leaf def n leaf) as Hl'.
  { intros n st' Hin. apply Hl. by right. }
  destruct (has_leaf_entry st) eqn:He; [|by apply IH].
  destruct (Hl name st) as [leaf Hleaf]; [by left|done|].
  destruct (resolveInitialLeaf_spec def name memo leaf Hm Hleaf) as (memo' & -> & Hm').
  by apply IH.
Qed.

(** ** The indices are right *)

Lemma list_to_map_range {V} n (m : gmap string V) : list_to_map (range n m) = m.
Proof.
  rewrite <-(list_to_map_to_list m) at 2. apply list_to_map_proper.
  - apply range_keys_NoDup.
  - apply range_perm.
Qed.

Lemma index_transition_lookup (m : gmap string (list CompiledTransition)) tr s ct :
  ct ∈ default [] (index_transition m tr !! s) ↔
  ct ∈ default [] (m !! s) ∨ s ∈ tr_Sources tr ∧ ct = compileTransition tr.
Proof.
  unfold index_transition. revert m. induction (tr_Sources tr) as [|src l IH]; intros m; simpl.
  { rewrite elem_of_nil. tauto. }
  rewrite IH, elem_of_cons. destruct (decide (src = s)) as [->|Hne].
  - rewrite lookup_insert_eq. simpl. rewrite elem_of_app, list_elem_of_singleton. tauto.
  - rewrite lookup_insert_ne by done. assert (s ≠ src) by congruence. tauto.
Qed.

Lemma transitions_by_state_spec def s ct :
  ct ∈ default [] (transitions_by_state def !! s) ↔
  ∃ n tr, def_Transitions def !! n = Some tr ∧ s ∈ tr_Sources tr ∧ ct = compileTransition tr.
Proof.
  unfold transitions_by_state. set (indexed := foldl _ ∅ _).
  assert (∀ (l : list (string * StateDef)) m,
    default [] (foldl (λ (m : gmap string (list CompiledTransition)) '(name, _),
        match m !! name with Some _ => m | None => <[name := []]> m end) m l !! s)
    = default [] (m !! s)) as ->.
  { induction l as [|[n st] l IH]; intros m; simpl; [done|]. rewrite IH.
    destruct (m !! n) eqn:Hn; [done|]. destruct (decide (n = s)) as [->|].
    - by rewrite lookup_insert_eq, Hn.
    - by rewrite lookup_insert_ne. }
  unfold indexed. clear indexed.
  setoid_rewrite <-(elem_of_range 33).
  assert (∀ (l : list (string * TransitionDef)) m,
    ct ∈ default [] (foldl (λ m '(_, tr), index_transition m tr) m l !! s) ↔
    ct ∈ default [] (m !! s) ∨
    ∃ n tr, (n, tr) ∈ l ∧ s ∈ tr_Sources tr ∧ ct = compileTransition tr) as ->.
  { induction l as [|[n tr] l IH]; intros m; simpl.
    - split; [by left|]. intros [?|(n & tr & Hn & _)]; [done|by apply elem_of_nil in Hn].
    - rewrite IH, index_transition_lookup. split.
      + intros [[?|[Hs Hct]]|(n' & tr' & Hin & ?)]; [by left|right|right].
        * exists n, tr. split; [by left|done].
        * exists n', tr'. split; [by right|done].
      + intros [?|(n' & tr' & Hin & Hs & Hct)]; [by left; left|].
        apply elem_of_cons in Hin as [[= -> ->]|Hin]; [left; right; done|right; eauto]. }
  rewrite lookup_empty. simpl. rewrite elem_of_nil. tauto.
Qed.

Lemma transitions_by_state_total def s :
  is_Some (def_States def !! s) → is_Some (transitions_by_state def !! s).
Proof.
  intros Hs. unfold transitions_by_state. apply (elem_of_range_keys 34) in Hs.
  generalize (foldl (λ m '(_, tr), index_transition m tr) ∅ (range 33 (def_Transitions def))) as m.
  induction (range 34 (def_States def)) as [|[n st] l IH]; intros m; simpl in *;
    [by apply elem_of_nil in Hs|].
  apply elem_of_cons in Hs as [->|Hs]; [|by apply IH].
  assert (∀ m', is_Some (m' !! n) → is_Some (foldl (λ (m : gmap string (list CompiledTransition))
      '(name, _), match m !! name with Some _ => m | None => <[name := []]> m end) m' l !! n))
    as Hkeep.
  { clear. induction l as [|[k st] l IH]; intros m' Hm'; simpl; [done|]. apply IH.
    destruct (m' !! k); [done|]. destruct (decide (k = n)) as [->|].
    - rewrite lookup_insert_eq. eauto.
    - by rewrite lookup_insert_ne. }
  apply Hkeep. destruct (m !! n) eqn:E; [by rewrite E; eauto|]. rewrite lookup_insert_eq. eauto.
Qed.

Lemma region_fold (l : list (string * StateDef)) (m : gmap string (list string)) n :
  NoDup l.*1 →
  foldl (λ m '(name, st), if sd_IsParallel st then <[name := sd_Children st]> m else m) m l !! n
  = match (list_to_map l : gmap string StateDef) !! n with
    | Some st => if sd_IsParallel st then Some (sd_Children st) else m !! n
    | None => m !! n
    end.
Proof.
  revert m. induction l as [|[k st] l IH]; intros m Hnd; [done|].
  rewrite fmap_cons in Hnd. apply NoDup_cons in Hnd as [Hnot Hnd].
  rewrite list_to_map_cons. simpl foldl. rewrite IH by done.
  destruct (decide (n = k)) as [->|Hne].
  - rewrite lookup_insert_eq, (not_elem_of_list_to_map_1 _ _ Hnot).
    destruct (sd_IsParallel st); [apply lookup_insert_eq|done].
  - rewrite lookup_insert_ne by done.
    destruct (sd_IsParallel st); [by rewrite lookup_insert_ne|done].
Qed.

Lemma region_index_spec def n cs :
  region_index def !! n = Some cs ↔
  ∃ st, def_States def !! n = Some st ∧ sd_IsParallel st = true ∧ cs = sd_Children st.
Proof.
  unfold region_index. rewrite region_fold by apply range_keys_NoDup.
  rewrite list_to_map_range, lookup_empty.
  destruct (def_States def !! n) as [st|]; [|by split; [|intros (? & ? & _)]].
  destruct (sd_IsParallel st) eqn:Hp; split.
  - intros [= <-]. eauto.
  - by intros (? & [= <-] & _ & ->).
  - done.
  - intros (? & [= <-] & ? & _). congruence.
Qed.

(** ** Compiled machines *)

(** What [Compile] promises the runtime about each table. *)
Record compiled (cm : CompiledMachine) : Prop := {
  co_ancestry : ∀ n, parent_chain (cm_Definition cm) n (ancestry_of (cm_Ancestry cm) n);
  co_depth : ∀ n st, def_States (cm_Definition cm) !! n = Some st →
      cm_DepthMap cm !! n = Some (length (ancestry_of (cm_Ancestry cm) n));
  co_leaf : ∀ n leaf, cm_InitialLeafMap cm !! n = Some leaf ↔
      (∃ st, def_States (cm_Definition cm) !! n = Some st ∧ has_leaf_entry st = true) ∧
      initial_leaf (cm_Definition cm) n leaf;
  co_region : ∀ n cs, cm_RegionIndex cm !! n = Some cs ↔
      ∃ st, def_States (cm_Definition cm) !! n = Some st ∧ sd_IsParallel st = true ∧
            cs = sd_Children st;
  co_index : ∀ s ct, ct ∈ default [] (cm_TransitionsByState cm !! s) ↔
      ∃ n tr, def_Transitions (cm_Definition cm) !! n = Some tr ∧ s ∈ tr_Sources tr ∧
              ct = compileTransition tr;
  co_hash : cm_DefinitionHash cm = computeHash (cm_Definition cm)
}.

Lemma Compile_spec def cm :
  Compile def = Some (Ok cm) → cm_Definition cm = def ∧ compiled cm.
Proof.
  unfold Compile.
  destruct (ancestry_loop_spec def (range 30 (def_States def)) ∅ ∅ ∅) as (r & -> & Hr).
  { apply map_Forall_empty. }
  destruct r as [[ancestry depth]|e]; [|done]. destruct Hr as [Hout Hin].
  destruct (leaf_loop _ _ _ _) as [leaves|] eqn:Hl; [|done].
  intros [= <-]. split; [done|].
  pose proof (leaf_loop_spec def _ _ _ _ (map_Forall_empty _)
                (range_keys_NoDup 32 (def_States def)) Hl) as Hleaf.
  rewrite list_to_map_range in Hleaf.
  assert (∀ n, parent_chain def n (ancestry_of ancestry n) ∧
            (is_Some (def_States def !! n) →
             depth !! n = Some (length (ancestry_of ancestry n)))) as Hanc.
  { intros n. unfold ancestry_of.
    destruct (decide (n ∈ (range 30 (def_States def)).*1)) as [Hn|Hn].
    - destruct (Hin n Hn) as (ch & Hc & Hd & [[Ha _]|[-> Ha]]); rewrite Ha; simpl; [done|].
      by rewrite lookup_empty.
    - destruct (Hout n Hn) as [-> _]. rewrite lookup_empty. rewrite elem_of_range_keys in Hn.
      split; [|done]. constructor. unfold parent_of.
      destruct (def_States def !! n); [|done]. by destruct Hn. }
  constructor; simpl.
  - intros n. apply Hanc.
  - intros n st Hst. apply Hanc. eauto.
  - intros n leaf. specialize (Hleaf n). destruct (def_States def !! n) as [st|] eqn:Hst.
    + destruct (has_leaf_entry st) eqn:He.
      * destruct Hleaf as (leaf' & Hl' & Hil). rewrite Hl'. split.
        -- intros [= <-]. eauto.
        -- intros [_ Hil']. f_equal. by eapply initial_leaf_unique.
      * rewrite Hleaf, lookup_empty. split; [done|].
        intros [(st' & [= <-] & ?) _]. congruence.
    + rewrite Hleaf, lookup_empty. split; [done|]. by intros [(st' & ? & _) _].
  - apply region_index_spec.
  - apply transitions_by_state_spec.
  - done.
Qed.

(** C16: A compiled machine says of its definition what it is built to say: the
    ancestors of a state are its parent chain and its depth is the length of
    that chain, a compound state's initial leaf is where its initial children
    lead, a parallel state's regions are its children, the transitions indexed
    under a state are exactly those that name it as a source, with their guard
    names, and the hash is that of the definition. *)
Theorem Compile_correct def cm :
  Compile def = Some (Ok cm) → cm_Definition cm = def ∧ compiled cm.
Proof. apply Compile_spec. Qed.

(** [Compile] fails exactly when the parent chain of some state does not end,
    and then with ErrCircularHierarchy. *)
Theorem Compile_error_iff_cyclic def :
  ((∃ e, Compile def = Some (Err e)) ↔
     ∃ n, is_Some (def_States def !! n) ∧ ∀ l, ¬ parent_chain def n l) ∧
  (∀ e, Compile def = Some (Err e) → errors_Is e ErrCircularHierarchy = true).
Proof.
  unfold Compile.
  destruct (ancestry_loop_spec def (range 30 (def_States def)) ∅ ∅ ∅) as (r & -> & Hr).
  { apply map_Forall_empty. }
  destruct r as [[ancestry depth]|e'].
  - assert (∀ e, match leaf_loop def (range 32 (def_States def)) ∅ ∅ with
                 | Some leaves => Some (Ok (mkCompiledMachine def ancestry depth leaves
                     (region_index def) (computeHash def) (transitions_by_state def)))
                 | None => None end ≠ Some (Err e)) as Hno.
    { intros e. by destruct (leaf_loop _ _ _ _). }
    split; [|by intros e ?%Hno]. split; [by intros (e & ?%Hno)|].
    intros (n & Hn & Hnone). destruct Hr as [_ Hin].
    destruct (Hin n) as (ch & Hc & _); [by apply elem_of_range_keys|]. by destruct (Hnone ch).
  - destruct Hr as ((d & ->) & n & Hn & Hnone). split.
    + split; [|by eauto]. intros _. exists n. by rewrite elem_of_range_keys in Hn.
    + intros e [= <-]. by apply errors_Is_validation.
Qed.

(** The hierarchy of a definition that [Build] wired: a child's Parent is the
    state that lists it, initial children are children, and a parallel state has
    no initial child. *)
Record well_nested def : Prop := {
  wn_children : ∀ p st c, def_States def !! p = Some st → c ∈ sd_Children st →
      parent_of def c = Some p;
  wn_initial : ∀ p st, def_States def !! p = Some st → sd_IsCompound st = true →
      sd_InitialChild st ≠ "" → sd_InitialChild st ∈ sd_Children st
}.

Lemma initial_next_parent def p c :
  well_nested def → initial_next def p = Some c → parent_of def c = Some p.
Proof.
  intros [Hch Hin] Hn. unfold initial_next, state_at in Hn.
  destruct (def_States def !! p) as [st|] eqn:Hp; simpl in Hn; [|done].
  destruct (sd_IsCompound st) eqn:Hc; simpl in Hn; [|done].
  case_bool_decide as He; simplify_eq. eauto.
Qed.

Lemma initial_steps_depth def n x y lx ly :
  well_nested def → steps (initial_next def) n x = Some y →
  parent_chain def x lx → parent_chain def y ly → length ly = n + length lx.
Proof.
  intros Hw. revert x lx. induction n as [|n IH]; intros x lx Hs Hx Hy; simpl in *.
  - simplify_eq. by rewrite (chain_unique _ _ _ _ Hx Hy).
  - destruct (initial_next def x) as [z|] eqn:Hz; [|done].
    rewrite (IH z (x :: lx) Hs); [simpl; lia| |done].
    econstructor; [by apply initial_next_parent|done].
Qed.

(** In an acyclic, well-nested hierarchy every initial-child chain ends. *)
Lemma initial_leaf_exists def name :
  well_nested def → acyclic def → ∃ leaf, initial_leaf def name leaf.
Proof.
  intros Hw Hacyc. destruct (steps (initial_next def) (S (size (def_States def))) name) as [y|] eqn:Hs.
  - exfalso. destruct (Hacyc name) as [lx Hx]. destruct (Hacyc y) as [ly Hy].
    pose proof (initial_steps_depth _ _ _ _ _ _ Hw Hs Hx Hy) as Hlen.
    apply (chain_length_le _ (dom (def_States def))) in Hy; [|apply parent_of_dom].
    rewrite size_dom in Hy. lia.
  - apply steps_None_chain in Hs as (l & Hl & _).
    destruct (last (name :: l)) as [leaf|] eqn:Hlast; [by exists leaf, l|].
    by apply last_None in Hlast.
Qed.

Lemma Compile_returns def :
  well_nested def → acyclic def → ∃ cm, Compile def = Some (Ok cm).
Proof.
  intros Hw Hacyc. unfold Compile.
  destruct (ancestry_loop_spec def (range 30 (def_States def)) ∅ ∅ ∅) as (r & -> & Hr).
  { apply map_Forall_empty. }
  destruct r as [[ancestry depth]|e].
  - destruct (leaf_loop_total def (range 32 (def_States def)) ∅ ∅) as [leaves ->]; [| |by eexists].
    + apply map_Forall_empty.
    + intros n st _ _. by apply initial_leaf_exists.
  - destruct Hr as (_ & n & _ & Hno). destruct (Hacyc n) as [l Hl]. by destruct (Hno l).
Qed.

(** C17: [Compile] returns a machine for every definition whose hierarchy is well
    nested and acyclic, whatever the order of its maps. *)
Theorem Compile_total def :
  well_nested def → acyclic def → ∃ cm, Compile def = Some (Ok cm).
Proof. apply Compile_returns. Qed.

(** A leaf that initial children lead to is a state of a valid definition, and
    it is atomic or parallel. *)
Lemma initial_leaf_state def name leaf :
  valid_def def → well_nested def → is_Some (def_States def !! name) →
  initial_leaf def name leaf →
  ∃ st, def_States def !! leaf = Some st ∧ (sd_IsCompound st = true → sd_IsParallel st = true).
Proof.
  intros Hv Hw Hname Hl. pose proof (initial_leaf_end _ _ _ Hl) as Hend.
  destruct Hl as (l & Hc & Hlast). assert (is_Some (def_States def !! leaf)) as [st Hst].
  { clear Hend. revert leaf Hlast. induction Hc as [x Hx|x y l Hx Hc IH]; intros leaf.
    - by intros [= <-].
    - rewrite last_cons_cons. apply IH. apply initial_next_parent in Hx; [|done].
      apply parent_of_dom in Hx. by apply elem_of_dom. }
  exists st. split; [done|]. intros Hcomp. destruct (sd_IsParallel st) eqn:Hp; [done|].
  destruct (v_compound _ Hv _ _ Hst Hcomp Hp) as [Hne _].
  unfold initial_next, state_at in Hend. rewrite Hst in Hend. simpl in Hend.
  rewrite Hcomp in Hend. simpl in Hend. by rewrite bool_decide_eq_false_2 in Hend.
Qed.

(** ** Lowest common ancestors *)

Lemma ancestry_elem cm n a :
  compiled cm → a ∈ ancestry_of (cm_Ancestry cm) n ↔ ancestor (cm_Definition cm) n a.
Proof. intros [Hanc _ _ _ _ _]. apply chain_tc, Hanc. Qed.

Lemma first_common (la lb : list string) :
  match first_some (λ a, if contains lb a then Some a else None) la with
  | Some x => ∃ l1 l2, la = l1 ++ x :: l2 ∧ x ∈ lb ∧ ∀ c, c ∈ l1 → c ∉ lb
  | None => ∀ c, c ∈ la → c ∉ lb
  end.
Proof.
  induction la as [|a la IH]; simpl; [by intros c ?%elem_of_nil|].
  destruct (contains lb a) eqn:Hc; autorewrite with flow_rw in Hc.
  - exists [], la. split_and!; try done. by intros c ?%elem_of_nil.
  - destruct (first_some _ la) as [x|].
    + destruct IH as (l1 & l2 & -> & Hx & Hno). exists (a :: l1), l2. split_and!; try done.
      intros c [->|?]%elem_of_cons; auto.
    + intros c [->|?]%elem_of_cons; auto.
Qed.

Lemma LCA_first cm a b :
  LCA cm a b = first_some (λ x, if contains (ancestry_of (cm_Ancestry cm) b) x then Some x else None)
                 (ancestry_of (cm_Ancestry cm) a).
Proof.
  unfold LCA. case_decide as Ha.
  { apply nil_length_inv in Ha. by rewrite Ha. }
  case_decide as Hb; [|done]. apply nil_length_inv in Hb. rewrite Hb. symmetry.
  apply first_some_None. intros x _. destruct (contains [] x) eqn:Hc; [|done].
  apply contains_true in Hc. by apply elem_of_nil in Hc.
Qed.

Lemma LCA_spec cm a b :
  compiled cm →
  match LCA cm a b with
  | Some l =>
      ancestor (cm_Definition cm) a l ∧ ancestor (cm_Definition cm) b l ∧
      ∀ c, ancestor (cm_Definition cm) a c → ancestor (cm_Definition cm) b c →
           c = l ∨ ancestor (cm_Definition cm) l c
  | None => ∀ c, ancestor (cm_Definition cm) a c → ¬ ancestor (cm_Definition cm) b c
  end.
Proof.
  intros Hc. rewrite LCA_first.
  pose proof (first_common (ancestry_of (cm_Ancestry cm) a) (ancestry_of (cm_Ancestry cm) b)) as Hf.
  destruct (first_some _ _) as [l|].
  - destruct Hf as (l1 & l2 & Heq & Hl & Hno).
    pose proof (co_ancestry _ Hc a) as Hca. rewrite Heq in Hca.
    apply chain_suffix in Hca as Hcl.
    rewrite <-!(ancestry_elem cm) by done. rewrite Heq. split_and!; [set_solver|done|].
    intros c. rewrite <-!(ancestry_elem cm) by done. rewrite Heq.
    intros [Hc1|[->|Hc2]%elem_of_cons]%elem_of_app Hcb; [by destruct (Hno c)|by left|].
    right. by rewrite (chain_unique _ _ _ _ (co_ancestry _ Hc l) Hcl).
  - intros c. rewrite <-!(ancestry_elem cm) by done. apply Hf.
Qed.

(** C18: [LCA] answers with the lowest common ancestor: a common ancestor that is
    below every other one, or that there is none. *)
Theorem LCA_lowest cm a b :
  compiled cm →
  match LCA cm a b with
  | Some l =>
      ancestor (cm_Definition cm) a l ∧ ancestor (cm_Definition cm) b l ∧
      ∀ c, ancestor (cm_Definition cm) a c → ancestor (cm_Definition cm) b c →
           c = l ∨ ancestor (cm_Definition cm) l c
  | None => ∀ c, ancestor (cm_Definition cm) a c → ¬ ancestor (cm_Definition cm) b c
  end.
Proof. apply LCA_spec. Qed.
End compile.

#[export] Hint Resolve co_ancestry co_leaf co_region co_index : flow.
