(* ===== verification/Builder.v ===== *)
(** * Builder: the fluent construction of a definition

    Models [internal/builder/builder.go] and [Define] of [flowstep.go].  A
    functional option is a function on the record it configures; a method that
    mutates a builder returns the builder it leaves. *)

From S2P Require Import Prelude Errors Types Validate Compile.

(** ** Transitions *)

Record transitionBuilder := mkTB {
  tb_name : string;
  tb_sources : list string;
  tb_target : string;
  tb_event : string;
  tb_guards : list Guard;
  tb_condition : option Condition;
  tb_isDefault : bool;
  tb_routes : list Types.Route;
  tb_activities : list ActivityDef;
  tb_taskDef : option TaskDef;
  tb_childDef : option ChildDef;
  tb_childrenDef : option ChildrenDef;
  tb_triggerType : string;
  tb_triggerKey : string;
  tb_allowSelf : bool;
  tb_historyMode : string;
  tb_priority : Z
}.

#[export] Instance transitionBuilder_eta : Eta transitionBuilder := λ r,
  mkTB (tb_name r) (tb_sources r) (tb_target r) (tb_event r) (tb_guards r) (tb_condition r)
    (tb_isDefault r) (tb_routes r) (tb_activities r) (tb_taskDef r) (tb_childDef r)
    (tb_childrenDef r) (tb_triggerType r) (tb_triggerKey r) (tb_allowSelf r)
    (tb_historyMode r) (tb_priority r).

(** The zero builder, and one for a direct transition. *)
Definition tb_zero : transitionBuilder :=
  mkTB "" [] "" "" [] None false [] [] None None None "" "" false "" 0.

Definition TransitionOption : Type := transitionBuilder → transitionBuilder.

Definition From (states : list string) : TransitionOption := λ tb,
  tb <| tb_sources := tb_sources tb ++ states |>.
Definition To (state : string) : TransitionOption := λ tb, tb <| tb_target := state |>.
Definition Event (eventType : string) : TransitionOption := λ tb, tb <| tb_event := eventType |>.
Definition Guards (guards : list Guard) : TransitionOption := λ tb,
  tb <| tb_guards := tb_guards tb ++ guards |>.
Definition OnSignal (signalName : string) : TransitionOption := λ tb,
  tb <| tb_triggerType := TriggerSignal |> <| tb_triggerKey := signalName |>.
Definition OnTaskCompleted (taskType : string) : TransitionOption := λ tb,
  tb <| tb_triggerType := TriggerTaskCompleted |> <| tb_triggerKey := taskType |>.
Definition OnChildCompleted (childWorkflowType : string) : TransitionOption := λ tb,
  tb <| tb_triggerType := TriggerChildCompleted |> <| tb_triggerKey := childWorkflowType |>.
Definition OnChildrenJoined : TransitionOption := λ tb,
  tb <| tb_triggerType := TriggerChildrenJoined |>.
Definition OnTimeout : TransitionOption := λ tb, tb <| tb_triggerType := TriggerTimeout |>.
Definition EmitTask (taskDef : TaskDef) : TransitionOption := λ tb,
  tb <| tb_taskDef := Some taskDef |>.
Definition SpawnChild (childDef : ChildDef) : TransitionOption := λ tb,
  tb <| tb_childDef := Some childDef |>.
Definition SpawnChildren (childrenDef : ChildrenDef) : TransitionOption := λ tb,
  tb <| tb_childrenDef := Some childrenDef |>.
Definition AllowSelfTransition : TransitionOption := λ tb, tb <| tb_allowSelf := true |>.
Definition WithHistory (mode : string) : TransitionOption := λ tb, tb <| tb_historyMode := mode |>.
Definition Priority (p : Z) : TransitionOption := λ tb, tb <| tb_priority := p |>.
Definition When (cond : Condition) : TransitionOption := λ tb, tb <| tb_condition := Some cond |>.
Definition Default : TransitionOption := λ tb, tb <| tb_isDefault := true |>.

Definition apply_options (opts : list TransitionOption) (tb : transitionBuilder) :
    transitionBuilder := foldl (λ tb opt, opt tb) tb opts.

(** A route is built by options on a builder of its own. *)
Definition Route (opts : list TransitionOption) : TransitionOption := λ tb,
  let sub := apply_options opts tb_zero in
  tb <| tb_routes := tb_routes tb ++ [mkRoute (tb_condition sub) (tb_target sub) (tb_isDefault sub)] |>.

Definition Dispatch (name : string) : TransitionOption := λ tb,
  tb <| tb_activities := tb_activities tb ++ [mkActivityDef name FireAndForget None None 0] |>.
Definition DispatchAndWait (name : string) : TransitionOption := λ tb,
  tb <| tb_activities := tb_activities tb ++ [mkActivityDef name AwaitResult None None 0] |>.

(** ** States *)

Definition StateModifier : Type := StateDef → StateDef.

Definition Parent (parentName : string) : StateModifier := λ sd, sd <| sd_Parent := parentName |>.
Definition InitialChild (childName : string) : StateModifier := λ sd,
  sd <| sd_InitialChild := childName |>.
Definition EntryActivityOpt (name : string) : StateModifier := λ sd,
  sd <| sd_EntryActivity := name |>.
Definition ExitActivityOpt (name : string) : StateModifier := λ sd,
  sd <| sd_ExitActivity := name |>.

Inductive StateOption := mkStateOption (so_def : StateDef) (so_nested : list StateOption).

Definition so_def (so : StateOption) : StateDef := let '(mkStateOption def _) := so in def.

(** [StateOption.Def] *)
Definition Def (so : StateOption) : StateDef := so_def so.

Definition modified (sd : StateDef) (mods : list StateModifier) : StateOption :=
  mkStateOption (foldl (λ sd m, m sd) sd mods) [].

Definition named (name : string) : StateDef := StateDef_zero <| sd_Name := name |>.

Definition Initial (name : string) : StateOption :=
  mkStateOption ((named name) <| sd_IsInitial := true |>) [].
Definition Terminal (name : string) (mods : list StateModifier) : StateOption :=
  modified ((named name) <| sd_IsTerminal := true |>) mods.
Definition State (name : string) (mods : list StateModifier) : StateOption :=
  modified (named name) mods.
Definition WaitState (name : string) (mods : list StateModifier) : StateOption :=
  modified ((named name) <| sd_IsWait := true |>) mods.
Definition CompoundState (name : string) (mods : list StateModifier) : StateOption :=
  modified ((named name) <| sd_IsCompound := true |>) mods.

Record ParallelStateBuilder := mkPSB { psb_name : string; psb_nested : list StateOption }.

Definition ParallelState (name : string) : ParallelStateBuilder := mkPSB name [].

(** [child := st; if child.def.Parent == "" { child.def.Parent = regionName }] *)
Definition adopt (regionName : string) (st : StateOption) : StateOption :=
  let '(mkStateOption def nested) := st in
  if decide (sd_Parent def = "") then mkStateOption (def <| sd_Parent := regionName |>) nested
  else st.

Definition Region (p : ParallelStateBuilder) (regionName : string) (states : list StateOption) :
    ParallelStateBuilder :=
  let initialChild := match states with st :: _ => sd_Name (so_def st) | [] => "" end in
  let regionDef := (named regionName) <| sd_IsCompound := true |> <| sd_Parent := psb_name p |>
                     <| sd_InitialChild := initialChild |> in
  mkPSB (psb_name p)
    (psb_nested p ++ [mkStateOption regionDef []] ++ (adopt regionName <$> states)).

Definition Done (p : ParallelStateBuilder) : StateOption :=
  mkStateOption ((named (psb_name p)) <| sd_IsParallel := true |> <| sd_IsCompound := true |>)
    (psb_nested p).

(** [flattenStates]: each state, then its nested ones. *)
Fixpoint flattenState (so : StateOption) : list StateOption :=
  let '(mkStateOption def nested) := so in
  mkStateOption def [] ::
    (fix flattenStates (states : list StateOption) : list StateOption :=
       match states with
       | [] => []
       | so :: states => flattenState so ++ flattenStates states
       end) nested.

Definition flattenStates (states : list StateOption) : list StateOption :=
  states ≫= flattenState.

(** ** Definitions *)

Record DefBuilder := mkDefBuilder {
  b_aggregateType : string;
  b_workflowType : string;
  b_version : Z;
  b_states : list StateOption;
  b_transitions : list (string * list TransitionOption);
  b_validateFn : option (WorkflowDef → option (option error));
  b_errDupTransition : error
}.

#[export] Instance DefBuilder_eta : Eta DefBuilder := λ r,
  mkDefBuilder (b_aggregateType r) (b_workflowType r) (b_version r) (b_states r)
    (b_transitions r) (b_validateFn r) (b_errDupTransition r).

Definition New (aggregateType workflowType : string)
    (validateFn : option (WorkflowDef → option (option error))) (errDupTransition : error) :
    DefBuilder :=
  mkDefBuilder aggregateType workflowType 1 [] [] validateFn errDupTransition.

Definition Version (b : DefBuilder) (v : Z) : DefBuilder := b <| b_version := v |>.
Definition States (b : DefBuilder) (states : list StateOption) : DefBuilder :=
  b <| b_states := b_states b ++ states |>.
Definition Transition (b : DefBuilder) (name : string) (opts : list TransitionOption) :
    DefBuilder := b <| b_transitions := b_transitions b ++ [(name, opts)] |>.

(** The first loop of [Build]. *)
Definition collect_state (def : WorkflowDef) (so : StateOption) : WorkflowDef :=
  let sd := so_def so in
  let def := def <| def_States := <[sd_Name sd := sd]> (def_States def) |> in
  let def := if sd_IsInitial sd then def <| def_InitialState := sd_Name sd |> else def in
  if sd_IsTerminal sd
  then def <| def_TerminalStates := def_TerminalStates def ++ [sd_Name sd] |> else def.

(** [parent.Children = append(parent.Children, name); parent.IsCompound = true] *)
Definition adopt_child (parent : StateDef) (name : string) : StateDef :=
  parent <| sd_Children := sd_Children parent ++ [name] |> <| sd_IsCompound := true |>.

(** The body of the wiring loop; it reads the parent as the loop has left it. *)
Definition wire_child (states : gmap string StateDef) (e : string * StateDef) :
    gmap string StateDef :=
  let '(name, st) := e in
  if decide (sd_Parent st = "") then states
  else
    match states !! sd_Parent st with
    | None => states
    | Some parent => <[sd_Parent st := adopt_child parent name]> states
    end.

Definition transition_of (tb : transitionBuilder) : TransitionDef :=
  mkTransitionDef (tb_name tb) (tb_sources tb) (tb_target tb) (tb_routes tb) (tb_event tb)
    (tb_guards tb) (tb_activities tb) (tb_taskDef tb) (tb_childDef tb) (tb_childrenDef tb)
    (tb_triggerType tb) (tb_triggerKey tb) (tb_allowSelf tb) (tb_historyMode tb)
    (tb_priority tb).

Definition duplicate_error (name : string) (e : error) : error :=
  Errorf "flowstep: duplicate transition %q: %w" [FStr name] (Some e).

(** The loop over transitions. *)
Fixpoint collect_transitions (errDup : error) (l : list (string * list TransitionOption))
    (m : gmap string TransitionDef) : result (gmap string TransitionDef) :=
  match l with
  | [] => Ok m
  | (name, opts) :: l =>
      match m !! name with
      | Some _ => Err (duplicate_error name errDup)
      | None =>
          let tb := apply_options opts
                      (tb_zero <| tb_name := name |> <| tb_triggerType := TriggerDirect |>) in
          collect_transitions errDup l (<[tb_name tb := transition_of tb]> m)
      end
  end.

Section build.
Context {gr : GoRange}.

(** The definition before validation. *)
Definition assemble (b : DefBuilder) (transitions : gmap string TransitionDef) : WorkflowDef :=
  let empty := mkDefinition (b_aggregateType b) (b_workflowType b) (b_version b) ∅ ∅ "" [] [] in
  let def := foldl collect_state empty (flattenStates (b_states b)) in
  let def := def <| def_States := foldl wire_child (def_States def) (range 110 (def_States def)) |> in
  def <| def_Transitions := transitions |>.

Definition Build (b : DefBuilder) : option (result WorkflowDef) :=
  match collect_transitions (b_errDupTransition b) (b_transitions b) ∅ with
  | Err e => Some (Err e)
  | Ok transitions =>
      let def := assemble b transitions in
      match b_validateFn b with
      | None => Some (Ok def)
      | Some validate =>
          match validate def with
          | None => None
          | Some (Some err) => Some (Err err)
          | Some None => Some (Ok def)
          end
      end
  end.

(** [Define] of [flowstep.go] *)
Definition Define (aggregateType workflowType : string) : DefBuilder :=
  New aggregateType workflowType (Some Validate) (Sentinel ErrDuplicateTransition).
End build.

(** ** The hierarchy is wired right *)

Section wiring.
Context {gr : GoRange}.
Implicit Types (st : StateDef).

(** The names in [l] whose parent is [k], in order. *)
Definition children_in (l : list (string * StateDef)) (k : string) : list string :=
  (filter (λ e : string * StateDef, sd_Parent e.2 = k ∧ k ≠ "") l).*1.

Lemma adopt_fold st names :
  foldl adopt_child st names =
  st <| sd_Children := sd_Children st ++ names |>
     <| sd_IsCompound := sd_IsCompound st || negb (bool_decide (names = [])) |>.
Proof.
  revert st. induction names as [|n names IH]; intros st; cbn [foldl].
  - rewrite app_nil_r, orb_false_r. by destruct st.
  - rewrite IH. cbn. rewrite <-app_assoc. by destruct (sd_IsCompound st).
Qed.

Lemma wire_lookup l (m : gmap string StateDef) k :
  foldl wire_child m l !! k = (λ st, foldl adopt_child st (children_in l k)) <$> m !! k.
Proof.
  revert m. induction l as [|[name st] l IH]; intros m; cbn [foldl].
  { by destruct (m !! k). }
  rewrite IH. unfold wire_child, children_in. rewrite filter_cons. cbn [snd].
  destruct (decide (sd_Parent st = "")) as [He|He].
  { rewrite decide_False; [done|]. rewrite He. by intros [<- ?]. }
  destruct (decide (sd_Parent st = k ∧ k ≠ "")) as [[<- _]|Hk].
  - cbn. destruct (m !! sd_Parent st) as [parent|] eqn:Hm; [|by rewrite Hm].
    by rewrite lookup_insert_eq.
  - destruct (m !! sd_Parent st) as [parent|] eqn:Hm; [|done].
    rewrite lookup_insert_ne; [done|]. intros Heq. apply Hk. split; [done|congruence].
Qed.

(** The states of a definition while they are collected: each under its name,
    as an option describes it. *)
Definition collected (opts : list StateOption) (m : gmap string StateDef) : Prop :=
  ∀ n st, m !! n = Some st → sd_Name st = n ∧ ∃ so, so ∈ opts ∧ so_def so = st.

Lemma collect_states_spec opts sos def :
  (∀ so, so ∈ sos → so ∈ opts) → collected opts (def_States def) →
  collected opts (def_States (foldl collect_state def sos)) ∧
  def_AggregateType (foldl collect_state def sos) = def_AggregateType def ∧
  def_WorkflowType (foldl collect_state def sos) = def_WorkflowType def ∧
  def_Version (foldl collect_state def sos) = def_Version def.
Proof.
  revert def. induction sos as [|so sos IH]; intros def Hsub Hc; cbn [foldl]; [done|].
  destruct (IH (collect_state def so)) as (H1 & H2 & H3 & H4).
  - intros so' ?. apply Hsub. by right.
  - intros n st. unfold collect_state.
    assert (∀ d : WorkflowDef, def_States d = <[sd_Name (so_def so) := so_def so]> (def_States def) →
      def_States d !! n = Some st → sd_Name st = n ∧ ∃ so, so ∈ opts ∧ so_def so = st) as Hd.
    { intros d ->. rewrite lookup_insert. case_decide as Hn; [|apply Hc].
      intros [= <-]. split; [done|]. exists so. split; [apply Hsub; by left|done]. }
    by destruct (sd_IsInitial _), (sd_IsTerminal _); apply Hd.
  - rewrite H2, H3, H4. split; [done|]. unfold collect_state.
    by destruct (sd_IsInitial _), (sd_IsTerminal _).
Qed.

(** Transitions are filed under the names they carry. *)
Lemma collect_transitions_keyed errDup l m m' :
  (∀ n tr, m !! n = Some tr → tr_Name tr = n) → collect_transitions errDup l m = Ok m' →
  ∀ n tr, m' !! n = Some tr → tr_Name tr = n.
Proof.
  revert m. induction l as [|[name opts] l IH]; intros m Hm; cbn [collect_transitions]; [by intros [= <-]|].
  destruct (m !! name); [done|]. apply IH. intros n tr. rewrite lookup_insert.
  case_decide as Hn; [|apply Hm]. by intros [= <-].
Qed.

(** What the assembled definition is, before validation. *)
Record assembled (b : DefBuilder) (def : WorkflowDef) : Prop := {
  as_header : def_AggregateType def = b_aggregateType b ∧
      def_WorkflowType def = b_workflowType b ∧ def_Version def = b_version b;
  as_keyed : ∀ n tr, def_Transitions def !! n = Some tr → tr_Name tr = n;
  as_named : ∀ n st, def_States def !! n = Some st → sd_Name st = n;
  as_options : ∀ n st, def_States def !! n = Some st →
      ∃ so kids, so ∈ flattenStates (b_states b) ∧ st = foldl adopt_child (so_def so) kids ∧
        NoDup kids ∧ ∀ c, c ∈ kids ↔ parent_of def c = Some n
}.

Lemma assemble_spec b transitions :
  collect_transitions (b_errDupTransition b) (b_transitions b) ∅ = Ok transitions →
  assembled b (assemble b transitions).
Proof.
  intros Htr. unfold assemble. cbv zeta. set (def := foldl collect_state _ _).
  destruct (collect_states_spec (flattenStates (b_states b)) (flattenStates (b_states b))
    (mkDefinition (b_aggregateType b) (b_workflowType b) (b_version b) ∅ ∅ "" [] []))
    as (Hc & H1 & H2 & H3); [done|by intros n st; cbn; rewrite lookup_empty|]. fold def in Hc, H1, H2, H3.
  constructor; cbn; rewrite ?H1, ?H2, ?H3; [done|..].
  - eapply collect_transitions_keyed; [|exact Htr]. intros n tr. by rewrite lookup_empty.
  - intros n st. rewrite wire_lookup. destruct (def_States def !! n) as [st0|] eqn:Hn; [|done].
    cbn. intros [= <-]. rewrite adopt_fold. cbn. by apply (Hc n st0).
  - intros n st. rewrite wire_lookup. destruct (def_States def !! n) as [st0|] eqn:Hn; [|done].
    cbn. intros [= <-]. destruct (Hc n st0 Hn) as [_ (so & Hso & <-)].
    exists so, (children_in (range 110 (def_States def)) n). split_and!; [done|done| |].
    + unfold children_in. eapply sublist_NoDup; [apply (range_keys_NoDup 110 (def_States def))|].
      apply fmap_sublist, sublist_filter.
    + intros c. unfold children_in, parent_of. cbn. rewrite wire_lookup, list_elem_of_fmap. split.
      * intros ([c' cst] & -> & [[Hp Hne] Hin%elem_of_range]%list_elem_of_filter). cbn in *.
        rewrite Hin. cbn. rewrite adopt_fold. cbn. rewrite Hp. by rewrite decide_False.
      * destruct (def_States def !! c) as [cst|] eqn:Hcs; cbn; [|done]. rewrite adopt_fold. cbn.
        case_decide as He; [done|]. intros [= <-]. exists (c, cst). split; [done|].
        apply list_elem_of_filter. split; [done|]. by apply elem_of_range.
Qed.

(** The options as the constructors of this package make them: no children yet,
    and parallel states without an initial child. *)
Definition plain_options (b : DefBuilder) : Prop :=
  ∀ so, so ∈ flattenStates (b_states b) →
    sd_Children (so_def so) = [] ∧
    (sd_IsParallel (so_def so) = true → sd_InitialChild (so_def so) = "").

Lemma Build_spec b def :
  Build b = Some (Ok def) → plain_options b →
  (∀ n tr, def_Transitions def !! n = Some tr → tr_Name tr = n) ∧
  (∀ n st, def_States def !! n = Some st → sd_Name st = n ∧ NoDup (sd_Children st) ∧
     (sd_Children st ≠ [] → sd_IsCompound st = true) ∧
     ∀ c, c ∈ sd_Children st ↔ parent_of def c = Some n) ∧
  (b_validateFn b = Some Validate → valid_def def ∧ well_nested def).
Proof.
  unfold Build. cbv zeta.
  destruct (collect_transitions _ _ _) as [transitions|e] eqn:Htr; [|done].
  pose proof (assemble_spec b transitions Htr) as Has.
  set (d := assemble b transitions) in *.
  intros Hb Hplain.
  assert (def = d ∧ (b_validateFn b = Some Validate → valid_def d)) as [-> Hvalid].
  { destruct (b_validateFn b) as [validate|]; [|by injection Hb as <-].
    destruct (validate d) as [[err|]|] eqn:Hv; [done| |done]. injection Hb as <-.
    split; [done|]. intros [= ->]. by apply Validate_spec. }
  destruct Has as [_ Hk Hn Ho].
  assert (∀ n st, def_States d !! n = Some st → sd_Name st = n ∧ NoDup (sd_Children st) ∧
     (sd_Children st ≠ [] → sd_IsCompound st = true) ∧
     ∀ c, c ∈ sd_Children st ↔ parent_of d c = Some n) as Hstates.
  { intros n st Hst. split; [by apply Hn|]. destruct (Ho n st Hst) as (so & kids & Hso & -> & Hnd & Hc).
    destruct (Hplain so Hso) as [Hnil _]. rewrite adopt_fold. cbn. rewrite Hnil. cbn.
    split_and!; [done| |done]. intros Hne. rewrite bool_decide_eq_false_2 by done. apply orb_true_r. }
  split_and!; [done|done|]. intros Hval. pose proof (Hvalid Hval) as Hv. split; [done|].
  constructor.
  - intros p st c Hst. by apply (Hstates p st Hst).
  - intros p st Hst Hcomp Hne. destruct (sd_IsParallel st) eqn:Hpar.
    + exfalso. destruct (Ho p st Hst) as (so & kids & Hso & -> & _).
      rewrite adopt_fold in Hpar, Hne. cbn in Hpar, Hne. by destruct (Hplain so Hso) as [_ Hp]; rewrite Hp in Hne.
    + by apply (v_compound _ Hv _ _ Hst).
Qed.

(** C25: A definition that [Build] returns has its transitions and states filed
    under their names, and its hierarchy wired: a state lists exactly the states
    that name it as parent, each once, and is compound when there is one.  When
    it was started by [Define] it is moreover valid and well nested. *)
Theorem Build_correct b def :
  Build b = Some (Ok def) → plain_options b →
  (∀ n tr, def_Transitions def !! n = Some tr → tr_Name tr = n) ∧
  (∀ n st, def_States def !! n = Some st → sd_Name st = n ∧ NoDup (sd_Children st) ∧
     (sd_Children st ≠ [] → sd_IsCompound st = true) ∧
     ∀ c, c ∈ sd_Children st ↔ parent_of def c = Some n) ∧
  (b_validateFn b = Some Validate → valid_def def ∧ well_nested def).
Proof. apply Build_spec. Qed.

(** Options that do not rename the transition, as all of this package's. *)
Definition keeps_name (opts : list TransitionOption) : Prop :=
  Forall (λ opt : TransitionOption, ∀ tb, tb_name (opt tb) = tb_name tb) opts.

Lemma apply_options_name opts tb : keeps_name opts → tb_name (apply_options opts tb) = tb_name tb.
Proof.
  unfold apply_options. intros Hk. revert tb. induction Hk as [|opt opts Ho _ IH]; intros tb; cbn; [done|].
  by rewrite IH, Ho.
Qed.

Lemma collect_transitions_spec errDup l m :
  Forall (λ t, keeps_name t.2) l → NoDup l.*1 →
  match collect_transitions errDup l m with
  | Ok _ => ∀ n, n ∈ l.*1 → m !! n = None
  | Err e => ∃ n, n ∈ l.*1 ∧ is_Some (m !! n) ∧ e = duplicate_error n errDup
  end.
Proof.
  intros Hk Hnd. revert m. induction l as [|[name opts] l IH]; intros m; cbn [collect_transitions].
  { by intros n ?%elem_of_nil. }
  apply Forall_cons in Hk as [Hname Hk]. apply NoDup_cons in Hnd as [Hn Hnd].
  destruct (m !! name) eqn:Hm.
  { exists name. split; [by left|]. split; [by eexists|done]. }
  cbv zeta. set (tb := apply_options opts _).
        assert (tb_name tb = name) as Htb by (unfold tb; by rewrite apply_options_name). rewrite Htb. set (x := transition_of _).
  specialize (IH Hk Hnd (<[name := x]> m)). cbn.
  destruct (collect_transitions errDup l (<[name:=x]> m)) as [m'|e].
  - intros n [->|Hin]%elem_of_cons; [done|]. specialize (IH n Hin).
    by apply lookup_insert_None in IH as [? _].
  - destruct IH as (n & Hin & Hsome & He). exists n. split; [by right|]. split; [|done].
    rewrite lookup_insert_ne in Hsome; [done|]. intros <-. done.
Qed.

(** [Build] refuses a definition with two transitions of one name, with the
    duplicate-transition error; with distinct names it fails only on what
    validation reports. *)
Theorem Build_duplicates b :
  Forall (λ t, keeps_name t.2) (b_transitions b) →
  (NoDup (b_transitions b).*1 → ∀ e, Build b = Some (Err e) →
     ∃ validate def, b_validateFn b = Some validate ∧ validate def = Some (Some e)) ∧
  (¬ NoDup (b_transitions b).*1 → ∃ n, Build b = Some (Err (duplicate_error n (b_errDupTransition b)))).
Proof.
  intros Hk. split.
  - intros Hnd e. unfold Build. cbv zeta.
    pose proof (collect_transitions_spec (b_errDupTransition b) (b_transitions b) ∅ Hk Hnd) as Hc.
    destruct (collect_transitions _ _ _) as [m|e'].
    + destruct (b_validateFn b) as [validate|]; [|done].
      destruct (validate _) as [[err|]|] eqn:Hv; [|done|done]. intros [= <-]. eauto.
    + destruct Hc as (n & _ & [? ?] & _). done.
  - intros Hdup. assert (∀ l (m : gmap string TransitionDef), Forall (λ t, keeps_name t.2) l →
      (¬ NoDup l.*1 ∨ ∃ n, n ∈ l.*1 ∧ is_Some (m !! n)) →
      ∃ n, collect_transitions (b_errDupTransition b) l m
           = Err (duplicate_error n (b_errDupTransition b))) as Hfail.
    { induction l as [|[name opts] l IH]; intros m Hkl Hd; cbn [collect_transitions].
      - destruct Hd as [Hd|(n & ?%elem_of_nil & _)]; [|done]. destruct Hd. constructor.
      - apply Forall_cons in Hkl as [Hname Hkl]. destruct (m !! name) eqn:Hm; [by eexists|].
        cbv zeta. set (tb := apply_options opts _).
        assert (tb_name tb = name) as Htb by (unfold tb; by rewrite apply_options_name). rewrite Htb. apply IH; [done|]. cbn in Hd.
        destruct (decide (name ∈ l.*1)) as [Hin|Hin].
        { right. exists name. by rewrite lookup_insert_eq. }
        destruct Hd as [Hd|(n & [->|Hn]%elem_of_cons & Hs)].
        + left. intros Hnd. apply Hd. by constructor.
        + rewrite Hm in Hs. by destruct Hs.
        + right. exists n. split; [done|]. rewrite lookup_insert_ne; [done|]. by intros ->. }
    destruct (Hfail (b_transitions b) ∅ Hk (or_introl Hdup)) as [n Hn]. exists n.
    unfold Build. cbv zeta. by rewrite Hn.
Qed.
End wiring.
