(* ===== verification/Spawn.v ===== *)
(** * Spawn: detection of cycles between workflow types

    Models [internal/graph/spawn.go]: the spawn graph of the registered
    definitions and the three-colour depth-first search over it, with its
    [colour] map and its [path] slice. *)

From S2P Require Import Prelude Errors Types.

Section spawn.
Context {gr : GoRange}.
Implicit Types (def : WorkflowDef) (adj : gmap string (list string)) (node : string).

(** ** The spawn graph *)

(** The workflow types one transition spawns, in the order they are appended. *)
Definition spawned (tr : TransitionDef) : list string :=
  match tr_ChildDef tr with
  | Some c => if decide (cd_WorkflowType c = "") then [] else [cd_WorkflowType c]
  | None => []
  end ++
  match tr_ChildrenDef tr with
  | Some c => if decide (csd_WorkflowType c = "") then [] else [csd_WorkflowType c]
  | None => []
  end.

Definition add_definition adj def : gmap string (list string) :=
  let wt := def_WorkflowType def in
  let adj := match adj !! wt with Some _ => adj | None => <[wt := []]> adj end in
  foldl (λ adj '(_, tr), <[wt := default [] (adj !! wt) ++ spawned tr]> adj)
    adj (range 40 (def_Transitions def)).

Definition spawn_graph (definitions : list WorkflowDef) : gmap string (list string) :=
  foldl add_definition ∅ definitions.

(** ** The search *)

(** The variables [colour] and [path]. *)
Abbreviation dfs_state := (gmap string nat * list string)%type.

Definition colour_of (colour : gmap string nat) node : nat := default 0 (colour !! node).

(** [path[cycleStart:]] for the first occurrence of [node] in [path]. *)
Fixpoint path_from (path : list string) node : list string :=
  match path with
  | [] => []
  | n :: path' => if decide (n = node) then path else path_from path' node
  end.

Definition cycle_error (path : list string) (neighbour : string) : error :=
  ValidationError ErrSpawnCycle
    (sprintf "flowstep: spawn cycle detected: %s"
       [FStr (String.concat " → " (path_from path neighbour) +:+ " → " +:+ neighbour)]).

(** The closure [dfs]; [fuel] bounds its recursion depth. *)
Fixpoint dfs (fuel : nat) adj node (s : dfs_state) : option (result dfs_state) :=
  match fuel with
  | 0 => None
  | S fuel =>
      let visit (acc : option (result dfs_state)) (neighbour : string) :=
        match acc with
        | Some (Ok (colour, path)) =>
            match colour_of colour neighbour with
            | 1 => Some (Err (cycle_error path neighbour))
            | 0 => dfs fuel adj neighbour (colour, path)
            | _ => acc
            end
        | _ => acc
        end in
      match foldl visit (Some (Ok (<[node := 1]> s.1, s.2 ++ [node]))) (default [] (adj !! node)) with
      | Some (Ok (colour, path)) => Some (Ok (<[node := 2]> colour, removelast path))
      | r => r
      end
  end.

(** Every node the search can meet. *)
Definition spawn_nodes adj : gset string :=
  dom adj ∪ list_to_set ((map_to_list adj).*2 ≫= id).

(** The loop over the nodes of the graph. *)
Fixpoint dfs_all (fuel : nat) adj (nodes : list (string * list string)) (s : dfs_state) :
    option (option error) :=
  match nodes with
  | [] => Some None
  | (node, _) :: nodes =>
      match colour_of s.1 node with
      | 0 =>
          match dfs fuel adj node s with
          | None => None
          | Some (Err e) => Some (Some e)
          | Some (Ok s) => dfs_all fuel adj nodes s
          end
      | _ => dfs_all fuel adj nodes s
      end
  end.

Definition DetectSpawnCycles (definitions : list WorkflowDef) : option (option error) :=
  let adj := spawn_graph definitions in
  dfs_all (size (spawn_nodes adj)) adj (range 41 adj) (∅, []).

(** ** The graph is the spawn relation of the definitions *)

(** [wt] spawns [child] through some transition of a definition of type [wt]. *)
Definition spawns (definitions : list WorkflowDef) (wt child : string) : Prop :=
  ∃ def n tr, def ∈ definitions ∧ def_WorkflowType def = wt ∧
    def_Transitions def !! n = Some tr ∧ child ∈ spawned tr.

Lemma spawned_spec tr child :
  child ∈ spawned tr ↔ child ≠ "" ∧
    ((∃ c, tr_ChildDef tr = Some c ∧ cd_WorkflowType c = child) ∨
     (∃ c, tr_ChildrenDef tr = Some c ∧ csd_WorkflowType c = child)).
Proof.
  unfold spawned. rewrite elem_of_app.
  destruct (tr_ChildDef tr), (tr_ChildrenDef tr); repeat case_decide;
    rewrite ?elem_of_nil, ?list_elem_of_singleton; naive_solver.
Qed.

Definition succ adj (x y : string) : Prop := y ∈ default [] (adj !! x).

Lemma add_definition_succ adj def x y :
  succ (add_definition adj def) x y ↔
  succ adj x y ∨ x = def_WorkflowType def ∧
    ∃ n tr, def_Transitions def !! n = Some tr ∧ y ∈ spawned tr.
Proof.
  unfold add_definition. set (wt := def_WorkflowType def).
  set (adj1 := match adj !! wt with Some _ => adj | None => <[wt := []]> adj end).
  assert (succ adj1 x y ↔ succ adj x y) as <-.
  { unfold adj1, succ. destruct (adj !! wt) eqn:Hwt; [done|].
    destruct (decide (x = wt)) as [->|Hne].
    - by rewrite lookup_insert_eq, Hwt.
    - by rewrite lookup_insert_ne. }
  assert ((∃ n tr, def_Transitions def !! n = Some tr ∧ y ∈ spawned tr) ↔
          ∃ e, e ∈ range 40 (def_Transitions def) ∧ y ∈ spawned e.2) as ->.
  { split.
    - intros (n & tr & Htr & Hy). exists (n, tr). by rewrite elem_of_range.
    - intros ([n tr] & Htr%elem_of_range & Hy). eauto. }
  clearbody adj1. revert adj1.
  induction (range 40 (def_Transitions def)) as [|[n tr] l IH]; intros adj1; simpl.
  { split; [by left|]. by intros [?|(_ & e & ?%elem_of_nil & _)]. }
  rewrite IH. assert (succ (<[wt := default [] (adj1 !! wt) ++ spawned tr]> adj1) x y ↔
    succ adj1 x y ∨ x = wt ∧ y ∈ spawned tr) as ->.
  { unfold succ. destruct (decide (x = wt)) as [->|Hne].
    - rewrite lookup_insert_eq. simpl. rewrite elem_of_app. tauto.
    - rewrite lookup_insert_ne by done. tauto. }
  split.
  - intros [[?|[-> ?]]|[-> (e & ? & ?)]]; [by left|right|right]; (split; [done|]).
    + exists (n, tr). split; [by left|done].
    + exists e. split; [by right|done].
  - intros [?|[-> (e & [->|?]%elem_of_cons & ?)]]; [by left; left|left; right; done|].
    right. split; [done|]. eauto.
Qed.

Lemma spawn_graph_succ definitions x y :
  succ (spawn_graph definitions) x y ↔ spawns definitions x y.
Proof.
  unfold spawn_graph.
  assert (∀ adj, succ (foldl add_definition adj definitions) x y ↔
            succ adj x y ∨ spawns definitions x y) as Hfold.
  { induction definitions as [|def l IH]; intros adj; simpl.
    - split; [by left|]. intros [?|(d & _ & _ & ?%elem_of_nil & _)]; done.
    - rewrite IH, add_definition_succ. unfold spawns. setoid_rewrite elem_of_cons. split.
      + intros [[?|[-> (n & tr & ? & ?)]]|(d & n & tr & ? & ? & ?)]; [by left|right..].
        * exists def, n, tr. auto.
        * exists d, n, tr. tauto.
      + intros [?|(d & n & tr & [->|?] & <- & ? & ?)]; [by left; left|left; right|right].
        * eauto.
        * exists d, n, tr. auto. }
  rewrite Hfold. unfold succ at 1. rewrite lookup_empty. simpl. rewrite elem_of_nil. tauto.
Qed.

(** ** The search is right *)

Abbreviation grey colour x := (colour_of colour x = 1).
Abbreviation black colour x := (colour_of colour x = 2).
Abbreviation white colour x := (colour_of colour x = 0).

Lemma colour_insert colour n k x :
  colour_of (<[n := k]> colour) x = if decide (x = n) then k else colour_of colour x.
Proof.
  unfold colour_of. case_decide as Hx.
  - by rewrite Hx, lookup_insert_eq.
  - by rewrite lookup_insert_ne.
Qed.

(** The grey nodes are the open calls; what is black is closed and has no
    cycle. *)
Record dfs_inv adj (colour : gmap string nat) (path : list string) : Prop := {
  di_path : ∀ x, grey colour x ↔ x ∈ path;
  di_range : ∀ x, white colour x ∨ grey colour x ∨ black colour x;
  di_closed : ∀ x y, black colour x → succ adj x y → black colour y;
  di_acyclic : ∀ x, black colour x → ¬ tc (succ adj) x x
}.

(** The nodes not yet coloured. *)
Definition uncoloured adj (colour : gmap string nat) : gset string :=
  filter (λ x, white colour x) (spawn_nodes adj).

Definition keeps (c c' : gmap string nat) : Prop :=
  ∀ x, ¬ white c x → colour_of c' x = colour_of c x.

Lemma keeps_trans c1 c2 c3 : keeps c1 c2 → keeps c2 c3 → keeps c1 c3.
Proof. intros H1 H2 x Hx. rewrite H2; [by apply H1|]. by rewrite (H1 x Hx). Qed.

Lemma keeps_uncoloured adj c c' : keeps c c' → size (uncoloured adj c') ≤ size (uncoloured adj c).
Proof.
  intros Hk. apply subseteq_size. intros x. unfold uncoloured. rewrite !elem_of_filter.
  intros [Hw ?]. split; [|done]. destruct (decide (white c x)) as [|Hn]; [done|].
  by rewrite (Hk x Hn) in Hw.
Qed.

Lemma uncoloured_insert adj c n k :
  n ∈ spawn_nodes adj → white c n → k ≠ 0 →
  size (uncoloured adj (<[n := k]> c)) < size (uncoloured adj c).
Proof.
  intros Hn Hw Hk. apply subset_size. split.
  - intros x. unfold uncoloured. rewrite !elem_of_filter, colour_insert.
    case_decide; [intros [? _]; done|done].
  - intros Hsub. specialize (Hsub n). unfold uncoloured in Hsub.
    rewrite !elem_of_filter, colour_insert, decide_True in Hsub by done.
    destruct Hsub; [done|]. by destruct Hk.
Qed.

Lemma succ_node adj x y : succ adj x y → y ∈ spawn_nodes adj.
Proof.
  unfold succ. destruct (adj !! x) as [l|] eqn:Hx; simpl; [|by intros ?%elem_of_nil].
  intros Hy. apply elem_of_union_r, elem_of_list_to_set, list_elem_of_bind.
  exists l. split; [done|]. apply list_elem_of_fmap. exists (x, l).
  by rewrite elem_of_map_to_list.
Qed.

(** What a call of the search, or a loop over neighbours, achieves. *)
Definition dfs_post adj (s : dfs_state) (done : list string) (r : option (result dfs_state)) : Prop :=
  match r with
  | None => False
  | Some (Ok (c', p')) =>
      p' = s.2 ∧ dfs_inv adj c' p' ∧ keeps s.1 c' ∧ ∀ x, x ∈ done → black c' x
  | Some (Err e) => errors_Is e ErrSpawnCycle = true ∧ ∃ x, tc (succ adj) x x
  end.

Definition dfs_pre adj node (s : dfs_state) : Prop :=
  dfs_inv adj s.1 s.2 ∧ ∀ x, x ∈ s.2 → tc (succ adj) x node.

Lemma dfs_finish adj node c p c' :
  dfs_inv adj (<[node := 1]> c) (p ++ [node]) → white c node → dfs_inv adj c p →
  keeps (<[node := 1]> c) c' → dfs_inv adj c' (p ++ [node]) →
  (∀ x, x ∈ default [] (adj !! node) → black c' x) →
  dfs_inv adj (<[node := 2]> c') p ∧ keeps c (<[node := 2]> c').
Proof.
  intros _ Hw Hinv Hk [Hpath Hrange Hcl Hac] Hsucc.
  assert (node ∉ p) as Hnp. { intros Hin. apply (di_path _ _ _ Hinv) in Hin. congruence. }
  assert (¬ black c' node) as Hnb.
  { rewrite Hk; rewrite colour_insert, decide_True by done; lia. }
  assert (∀ x y, black c' x → tc (succ adj) x y → black c' y) as Htc.
  { intros x y Hx Ht. induction Ht; eauto. }
  assert (∀ y, tc (succ adj) node y → black c' y) as Hnode.
  { intros y Ht. inversion Ht as [? ? Hs|? z ? Hs Ht']; subst; eauto. }
  split; [constructor|].
  - intros x. rewrite colour_insert. case_decide as Hx.
    + subst. split; [lia|done].
    + rewrite Hpath, elem_of_app, list_elem_of_singleton. tauto.
  - intros x. rewrite colour_insert. case_decide; [lia|]. apply Hrange.
  - intros x y. rewrite !colour_insert. intros Hx Hxy.
    destruct (decide (y = node)); [done|]. destruct (decide (x = node)) as [->|].
    + by apply Hsucc.
    + by eapply Hcl.
  - intros x. rewrite colour_insert. case_decide as Hxn; [|by apply Hac].
    subst. intros _ Ht. by apply Hnb, Hnode.
  - intros x Hx. rewrite colour_insert. case_decide as Hxn; [by subst|].
    assert (colour_of (<[node := 1]> c) x = colour_of c x) as Heq.
    { rewrite colour_insert. by rewrite decide_False. }
    rewrite (Hk x); [done|]. by rewrite Heq.
Qed.

Lemma dfs_open adj node c p :
  dfs_inv adj c p → white c node → dfs_inv adj (<[node := 1]> c) (p ++ [node]).
Proof.
  intros [Hpath Hrange Hcl Hac] Hw. constructor.
  - intros x. rewrite colour_insert, elem_of_app, list_elem_of_singleton, <-Hpath.
    case_decide; [tauto|]. tauto.
  - intros x. rewrite colour_insert. case_decide; [lia|]. apply Hrange.
  - intros x y. rewrite !colour_insert. case_decide; [lia|]. intros Hx Hxy.
    pose proof (Hcl _ _ Hx Hxy). case_decide; [subst; congruence|done].
  - intros x. rewrite colour_insert. case_decide; [lia|]. apply Hac.
Qed.

Lemma dfs_spec fuel adj node s :
  dfs_pre adj node s → white s.1 node → node ∈ spawn_nodes adj →
  size (uncoloured adj s.1) ≤ fuel → dfs_post adj s [node] (dfs fuel adj node s).
Proof.
  revert node s. induction fuel as [|fuel IH]; intros node [c p] [Hinv Hreach] Hw Hnode Hf; simpl in *.
  { pose proof (uncoloured_insert adj c node 1 Hnode Hw ltac:(done)). lia. }
  pose proof (dfs_open adj node c p Hinv Hw) as Hopen.
  assert (size (uncoloured adj (<[node := 1]> c)) ≤ fuel) as Hf1.
  { pose proof (uncoloured_insert adj c node 1 Hnode Hw ltac:(done)). lia. }
  set (visit := λ (acc : option (result dfs_state)) neighbour, _).
  assert (∀ l c1, (∀ n, n ∈ l → succ adj node n) → dfs_inv adj c1 (p ++ [node]) →
            size (uncoloured adj c1) ≤ fuel →
            dfs_post adj (c1, p ++ [node]) l (foldl visit (Some (Ok (c1, p ++ [node]))) l)) as Hloop.
  { assert (∀ l e, foldl visit (Some (Err e)) l = Some (Err e)) as Herr.
    { intros l e. induction l; done. }
    induction l as [|n l IHl]; intros c1 Hl Hinv1 Hf2; simpl.
    { split_and!; try done. by intros x ?%elem_of_nil. }
    assert (succ adj node n) as Hn by (apply Hl; by left).
    assert (∀ x, x ∈ p ++ [node] → tc (succ adj) x n) as Hreach1.
    { intros x [Hx| ->%list_elem_of_singleton]%elem_of_app; [|by apply tc_once].
      eapply tc_r; [by apply Hreach|done]. }
    assert (∀ n0, n0 ∈ l → succ adj node n0) as Hl' by (intros; apply Hl; by right).
    destruct (di_range _ _ _ Hinv1 n) as [Hc|[Hc|Hc]]; rewrite Hc.
    - pose proof (IH n (c1, p ++ [node]) ltac:(by split) Hc (succ_node _ _ _ Hn) Hf2) as Hpost.
      destruct (dfs fuel adj n _) as [[[c2 p2]|e]|]; simpl in Hpost; [|by rewrite Herr|done].
      destruct Hpost as (-> & Hinv2 & Hk & Hb).
      pose proof (keeps_uncoloured adj _ _ Hk). specialize (IHl c2 Hl' Hinv2 ltac:(lia)).
      destruct (foldl visit _ l) as [[[c3 p3]|e]|]; simpl in *; [|done|done].
      destruct IHl as (-> & Hinv3 & Hk3 & Hb3). split_and!; try done.
      + by eapply keeps_trans.
      + intros x [->|Hx]%elem_of_cons; [|by apply Hb3].
        rewrite Hk3; rewrite Hb by (by left); done.
    - rewrite Herr. simpl. split; [done|]. exists n.
      apply Hreach1. by apply (di_path _ _ _ Hinv1).
    - specialize (IHl c1 Hl' Hinv1 Hf2).
      destruct (foldl visit _ l) as [[[c3 p3]|e]|]; simpl in *; [|done|done].
      destruct IHl as (-> & Hinv3 & Hk3 & Hb3). split_and!; try done.
      intros x [->|Hx]%elem_of_cons; [|by apply Hb3]. rewrite Hk3; lia. }
  specialize (Hloop (default [] (adj !! node)) (<[node := 1]> c) (λ n Hn, Hn) Hopen Hf1).
  destruct (foldl visit _ _) as [[[c2 p2]|e]|]; simpl in *; [|done|done].
  destruct Hloop as (-> & Hinv2 & Hk & Hb). rewrite removelast_last.
  destruct (dfs_finish adj node c p c2) as [Hinv3 Hk3]; try done.
  split_and!; try done. intros x ->%list_elem_of_singleton.
  by rewrite colour_insert, decide_True.
Qed.

Lemma dfs_all_spec adj nodes c :
  dfs_inv adj c [] → (∀ n l, (n, l) ∈ nodes → n ∈ spawn_nodes adj) →
  match dfs_all (size (spawn_nodes adj)) adj nodes (c, []) with
  | None => False
  | Some (Some e) => errors_Is e ErrSpawnCycle = true ∧ ∃ x, tc (succ adj) x x
  | Some None => ∃ c', dfs_inv adj c' [] ∧ keeps c c' ∧ ∀ n l, (n, l) ∈ nodes → black c' n
  end.
Proof.
  revert c. induction nodes as [|[n l] nodes IH]; intros c Hinv Hn; simpl.
  { exists c. split_and!; try done. by intros ? ? ?%elem_of_nil. }
  assert (∀ n l, (n, l) ∈ nodes → n ∈ spawn_nodes adj) as Hn'.
  { intros n' l' ?. apply (Hn n' l'). by right. }
  destruct (di_range _ _ _ Hinv n) as [Hc|[Hc|Hc]]; rewrite Hc.
  - pose proof (dfs_spec (size (spawn_nodes adj)) adj n (c, [])) as Hpost.
    destruct (dfs _ adj n _) as [[[c2 p2]|e]|]; simpl in Hpost.
    + destruct Hpost as (-> & Hinv2 & Hk & Hb); try done.
      * split; [done|]. by intros x ?%elem_of_nil.
      * apply (Hn n l). by left.
      * apply subseteq_size. intros x. unfold uncoloured. rewrite elem_of_filter. tauto.
      * specialize (IH c2 Hinv2 Hn'). destruct (dfs_all _ _ _ _) as [[e|]|]; try done.
        destruct IH as (c3 & Hinv3 & Hk3 & Hb3). exists c3. split_and!; [done|by eapply keeps_trans|].
        intros n' l' [[= -> ->]|Hin]%elem_of_cons; [|by eapply Hb3].
        rewrite Hk3; rewrite Hb by (by left); done.
    + apply Hpost; [|done| |].
      * split; [done|]. by intros x ?%elem_of_nil.
      * apply (Hn n l). by left.
      * apply subseteq_size. intros x. unfold uncoloured. rewrite elem_of_filter. tauto.
    + apply Hpost; [|done| |].
      * split; [done|]. by intros x ?%elem_of_nil.
      * apply (Hn n l). by left.
      * apply subseteq_size. intros x. unfold uncoloured. rewrite elem_of_filter. tauto.
  - apply (di_path _ _ _ Hinv) in Hc. by apply elem_of_nil in Hc.
  - specialize (IH c Hinv Hn'). destruct (dfs_all _ _ _ _) as [[e|]|]; try done.
    destruct IH as (c3 & Hinv3 & Hk3 & Hb3). exists c3. split_and!; try done.
    intros n' l' [[= -> ->]|Hin]%elem_of_cons; [|by eapply Hb3]. rewrite Hk3; lia.
Qed.

Lemma DetectSpawnCycles_spec definitions :
  ∃ r, DetectSpawnCycles definitions = Some r ∧
    match r with
    | None => ∀ wt, ¬ tc (spawns definitions) wt wt
    | Some e => errors_Is e ErrSpawnCycle = true ∧ ∃ wt, tc (spawns definitions) wt wt
    end.
Proof.
  unfold DetectSpawnCycles. set (adj := spawn_graph definitions).
  assert (∀ x y, tc (succ adj) x y ↔ tc (spawns definitions) x y) as Htc.
  { intros x y. split; intros Ht; (induction Ht; [apply tc_once|eapply tc_l; [|done]]);
      by apply spawn_graph_succ. }
  pose proof (dfs_all_spec adj (range 41 adj) ∅) as Hall.
  destruct (dfs_all _ _ _ _) as [r|]; [|exfalso; apply Hall].
  - eexists; split; [done|]. destruct r as [e|].
    + destruct Hall as [He [x Hx]].
      * constructor; try done; intros x; unfold colour_of; rewrite lookup_empty; simpl; try lia.
        rewrite elem_of_nil. lia.
      * intros n l Hin%elem_of_range. apply elem_of_union_l, elem_of_dom. eauto.
      * split; [done|]. exists x. by apply Htc.
    + destruct Hall as (c & Hinv & _ & Hb).
      * constructor; try done; intros x; unfold colour_of; rewrite lookup_empty; simpl; try lia.
        rewrite elem_of_nil. lia.
      * intros n l Hin%elem_of_range. apply elem_of_union_l, elem_of_dom. eauto.
      * intros wt Ht. apply Htc in Ht.
        assert (∃ l, adj !! wt = Some l) as [l Hl].
        { assert (∃ y, succ adj wt y) as [y Hy] by (inversion Ht; eauto).
          unfold succ in Hy. destruct (adj !! wt); [eauto|by apply elem_of_nil in Hy]. }
        apply (di_acyclic _ _ _ Hinv wt); [|done]. eapply Hb. by apply elem_of_range.
  - constructor; try done; intros x; unfold colour_of; rewrite lookup_empty; simpl; try lia.
    rewrite elem_of_nil. lia.
  - intros n l Hin%elem_of_range. apply elem_of_union_l, elem_of_dom. eauto.
Qed.

(** C21: [DetectSpawnCycles] answers for every set of definitions: with
    ErrSpawnCycle when some workflow type can spawn itself through a chain of
    child workflows, with no error when none can. *)
Theorem DetectSpawnCycles_correct definitions :
  ∃ r, DetectSpawnCycles definitions = Some r ∧
    match r with
    | None => ∀ wt, ¬ tc (spawns definitions) wt wt
    | Some e => errors_Is e ErrSpawnCycle = true ∧ ∃ wt, tc (spawns definitions) wt wt
    end.
Proof. apply DetectSpawnCycles_spec. Qed.
End spawn.
