(* ===== verification/Registry.v ===== *)
(** * Registry: registered definitions and their compiled machines

    Models the state of [Engine] in [internal/runtime/runtime.go] ([New],
    [Register], [compiledFor]); the mutex makes each operation one step. *)

From S2P Require Import Prelude Errors Types Hash Validate Compile Spawn.

Record registry := mkRegistry {
  rg_versions : gmap string (gmap Z WorkflowDef);
  rg_latest : gmap string WorkflowDef;
  rg_compiled : gmap string (gmap Z CompiledMachine);
  rg_latestCompiled : gmap string CompiledMachine
}.

#[export] Instance registry_eta : Eta registry := λ r,
  mkRegistry (rg_versions r) (rg_latest r) (rg_compiled r) (rg_latestCompiled r).

(** [New] *)
Definition New : registry := mkRegistry ∅ ∅ ∅ ∅.

(** [m[a][v]] of a map of maps: a missing outer entry reads as an empty map. *)
Definition lookup2 {V} (m : gmap string (gmap Z V)) (a : string) (v : Z) : option V :=
  m !! a ≫= λ vs, vs !! v.

(** [if _, ok := m[a]; !ok { m[a] = make(...) }; m[a][v] = x] *)
Definition insert2 {V} (m : gmap string (gmap Z V)) (a : string) (v : Z) (x : V) :
    gmap string (gmap Z V) :=
  <[a := <[v := x]> (default ∅ (m !! a))]> m.

(** [compiledFor] *)
Definition compiledFor (r : registry) (aggregateType : string) (version : Z) :
    option CompiledMachine :=
  if decide (version = 0%Z) then rg_latestCompiled r !! aggregateType
  else lookup2 (rg_compiled r) aggregateType version.

Section registry.
Context {gr : GoRange}.
Implicit Types (r : registry) (def : WorkflowDef) (cm : CompiledMachine).

(** Every registered definition, in the order of the two loops. *)
Definition all_definitions r : list WorkflowDef :=
  range 90 (rg_versions r) ≫= λ '(_, versions), (range 91 versions).*2.

(** The same content is already registered under this version. *)
Definition already_registered r def : bool :=
  match lookup2 (rg_compiled r) (def_AggregateType def) (def_Version def) with
  | Some existing => bool_decide (cm_DefinitionHash existing = HashDefinition def)
  | None => false
  end.

(** The map updates of a successful registration. *)
Definition commit_registration r def cm : registry :=
  let a := def_AggregateType def in
  let v := def_Version def in
  let newer (current : option Z) := match current with Some c => bool_decide (c < v)%Z | None => true end in
  mkRegistry
    (insert2 (rg_versions r) a v def)
    (if newer (def_Version <$> rg_latest r !! a) then <[a := def]> (rg_latest r) else rg_latest r)
    (insert2 (rg_compiled r) a v cm)
    (if newer ((λ c, def_Version (cm_Definition c)) <$> rg_latestCompiled r !! a)
     then <[a := cm]> (rg_latestCompiled r) else rg_latestCompiled r).

(** [Register]: the new registry and the error; [None] when [Validate] or
    [Compile] does not return. *)
Definition Register r def : option (registry * option error) :=
  match Validate def with
  | None => None
  | Some (Some err) => Some (r, Some err)
  | Some None =>
      if already_registered r def then Some (r, None)
      else
        match Compile def with
        | None => None
        | Some (Err err) => Some (r, Some err)
        | Some (Ok cm) =>
            match DetectSpawnCycles (all_definitions r ++ [def]) with
            | None => None
            | Some (Some err) => Some (r, Some err)
            | Some None => Some (commit_registration r def cm, None)
            end
        end
  end.

(** A sequence of registrations, in a row. *)
Fixpoint register_all r (defs : list WorkflowDef) : option registry :=
  match defs with
  | [] => Some r
  | def :: defs => Register r def ≫= λ '(r, _), register_all r defs
  end.

(** ** Lookups *)

Lemma lookup2_insert2 {V} (m : gmap string (gmap Z V)) a v x a' v' :
  lookup2 (insert2 m a v x) a' v' =
  if decide (a' = a ∧ v' = v) then Some x else lookup2 m a' v'.
Proof.
  unfold lookup2, insert2. destruct (decide (a' = a)) as [->|Ha].
  - rewrite lookup_insert_eq. cbn. destruct (decide (v' = v)) as [->|Hv].
    + by rewrite lookup_insert_eq, decide_True.
    + rewrite lookup_insert_ne, decide_False by naive_solver. by destruct (m !! a).
  - by rewrite lookup_insert_ne, decide_False by naive_solver.
Qed.

Lemma elem_of_all_definitions r def :
  def ∈ all_definitions r ↔ ∃ a v, lookup2 (rg_versions r) a v = Some def.
Proof.
  unfold all_definitions, lookup2. rewrite list_elem_of_bind. split.
  - intros ([a vs] & ([v def'] & -> & Hv%elem_of_range)%list_elem_of_fmap & Ha%elem_of_range).
    exists a, v. by rewrite Ha.
  - intros (a & v & H). destruct (rg_versions r !! a) as [vs|] eqn:Ha; [|done].
    exists (a, vs). split; [|by apply elem_of_range].
    apply list_elem_of_fmap. exists (v, def). split; [done|]. by apply elem_of_range.
Qed.

(** ** The invariant *)

(** What holds of every registry: entries are valid, compiled, filed under their
    own type and version; both maps agree; the latest entries carry the highest
    version; and no workflow type spawns itself through registered ones. *)
Record registry_ok r : Prop := {
  ro_entry : ∀ a v cm, lookup2 (rg_compiled r) a v = Some cm →
      compiled cm ∧ valid_def (cm_Definition cm) ∧
      lookup2 (rg_versions r) a v = Some (cm_Definition cm);
  ro_filed : ∀ a v def, lookup2 (rg_versions r) a v = Some def →
      def_AggregateType def = a ∧ def_Version def = v ∧
      is_Some (lookup2 (rg_compiled r) a v);
  ro_latest : ∀ a cm, rg_latestCompiled r !! a = Some cm →
      compiled cm ∧ valid_def (cm_Definition cm) ∧
      is_Some (lookup2 (rg_compiled r) a (def_Version (cm_Definition cm))) ∧
      rg_latest r !! a = Some (cm_Definition cm) ∧
      ∀ v, is_Some (lookup2 (rg_compiled r) a v) → (v ≤ def_Version (cm_Definition cm))%Z;
  ro_has_latest : ∀ a, is_Some (rg_latestCompiled r !! a) ↔
      ∃ v, is_Some (lookup2 (rg_compiled r) a v);
  ro_latest_agree : ∀ a, is_Some (rg_latest r !! a) ↔ is_Some (rg_latestCompiled r !! a);
  ro_acyclic : ∀ wt, ¬ tc (spawns (all_definitions r)) wt wt
}.

Lemma spawns_mono defs1 defs2 x y :
  (∀ d, d ∈ defs1 → d ∈ defs2) → tc (spawns defs1) x y → tc (spawns defs2) x y.
Proof.
  intros Hsub Ht. assert (∀ x y, spawns defs1 x y → spawns defs2 x y) as Hs.
  { intros x' y' (d & n & tr & Hd & ?). exists d, n, tr. split; [by apply Hsub|done]. }
  induction Ht; [by apply tc_once, Hs|]. eapply tc_l; [by apply Hs|done].
Qed.

Lemma registry_ok_New : registry_ok New.
Proof.
  constructor; unfold lookup2; cbn; intros *; rewrite ?lookup_empty; try done.
  - split; [by intros [? ?]|]. by intros [v [? ?]].
  - intros Ht. assert (∃ y, spawns (all_definitions New) wt y) as (y & d & n & tr & Hd & _)
      by (inversion Ht; eauto).
    apply elem_of_all_definitions in Hd as (a & v & H). done.
Qed.

Lemma lookup_if_insert_ne {V} (b : bool) (m : gmap string V) a a' x :
  a' ≠ a → (if b then <[a := x]> m else m) !! a' = m !! a'.
Proof. intros. destruct b; [by rewrite lookup_insert_ne|done]. Qed.

Lemma lookup2_insert2_ne {V} (m : gmap string (gmap Z V)) a v x a' v' :
  a' ≠ a → lookup2 (insert2 m a v x) a' v' = lookup2 m a' v'.
Proof. intros. rewrite lookup2_insert2, decide_False; [done|]. by intros [? _]. Qed.

Lemma commit_registration_ok r def cm :
  registry_ok r → valid_def def → compiled cm → cm_Definition cm = def →
  (∀ wt, ¬ tc (spawns (all_definitions r ++ [def])) wt wt) →
  registry_ok (commit_registration r def cm).
Proof.
  intros [He Hf Hl Hh Hag Hac] Hv Hc <- Hno.
  set (a := def_AggregateType (cm_Definition cm)). set (v := def_Version (cm_Definition cm)).
  assert (def_Version <$> rg_latest r !! a =
          (λ c, def_Version (cm_Definition c)) <$> rg_latestCompiled r !! a) as Hsame.
  { destruct (rg_latestCompiled r !! a) as [c|] eqn:E.
    - destruct (Hl a c E) as (_ & _ & _ & -> & _). done.
    - destruct (rg_latest r !! a) eqn:E'; [|done].
      destruct (proj1 (Hag a)) as [? ?]; [eauto|congruence]. }
  constructor; unfold commit_registration; fold a v; cbn; rewrite ?Hsame.
  - intros a' v' cm'. rewrite !lookup2_insert2. case_decide as Hd; [|apply He].
    intros [= <-]. done.
  - intros a' v' d. rewrite !lookup2_insert2. case_decide as Hd; [|apply Hf].
    intros [= <-]. by destruct Hd as [-> ->].
  - intros a' cm'. destruct (decide (a' = a)) as [->|Hne].
    2: { rewrite !lookup_if_insert_ne by done. intros (H1 & H2 & H3 & H4 & H5)%Hl.
         rewrite lookup2_insert2_ne by done. split_and!; try done.
         intros v'. rewrite lookup2_insert2_ne by done. apply H5. }
    destruct (rg_latestCompiled r !! a) as [c|] eqn:E; cbn.
    + case_bool_decide as Hlt.
      * rewrite !lookup_insert_eq. intros [= <-]. rewrite lookup2_insert2, decide_True by done.
        split_and!; try done. intros v'. rewrite lookup2_insert2. case_decide as Hd.
        -- by destruct Hd as [_ ->].
        -- intros Hv'. destruct (Hl a c E) as (_ & _ & _ & _ & Hmax). specialize (Hmax v' Hv').
           unfold v in Hlt |- *. lia.
      * rewrite E. intros [= <-]. destruct (Hl a c E) as (H1 & H2 & H3 & H4 & H5).
        split_and!; try done.
        -- rewrite lookup2_insert2. by case_decide.
        -- intros v'. rewrite lookup2_insert2. case_decide as Hd; [|apply H5].
           destruct Hd as [_ ->]. lia.
    + rewrite !lookup_insert_eq. intros [= <-]. rewrite lookup2_insert2, decide_True by done.
      split_and!; try done. intros v'. rewrite lookup2_insert2. case_decide as Hd.
      * by destruct Hd as [_ ->].
      * intros Hv'. exfalso. assert (is_Some (rg_latestCompiled r !! a)) as [? ?]; [|congruence].
        apply Hh. by exists v'.
  - intros a'. destruct (decide (a' = a)) as [->|Hne].
    + split; [intros _; exists v; by rewrite lookup2_insert2, decide_True|intros _].
      destruct (rg_latestCompiled r !! a) as [c|] eqn:E; cbn; [case_bool_decide|];
        rewrite ?lookup_insert_eq, ?E; eauto.
    + rewrite lookup_if_insert_ne by done. rewrite Hh.
      split; intros [v' Hv']; exists v'; by rewrite lookup2_insert2_ne in *.
  - intros a'. destruct (decide (a' = a)) as [->|Hne].
    + case_match; [|apply Hag]. rewrite !lookup_insert_eq. by split.
    + rewrite !lookup_if_insert_ne by done. apply Hag.
  - intros wt Ht. apply (Hno wt). eapply spawns_mono; [|exact Ht].
    intros d (a' & v' & Hd)%elem_of_all_definitions. cbn in Hd. rewrite lookup2_insert2 in Hd.
    apply elem_of_app. case_decide; simplify_eq; [right; by left|left].
    apply elem_of_all_definitions. eauto.
Qed.

(** ** Registration *)

Lemma Register_spec r def r' e :
  registry_ok r → Register r def = Some (r', e) →
  registry_ok r' ∧
  match e with
  | Some _ => r' = r
  | None =>
      (∃ cm, lookup2 (rg_compiled r') (def_AggregateType def) (def_Version def) = Some cm ∧
         cm_DefinitionHash cm = HashDefinition def ∧ (r' = r ∨ cm_Definition cm = def)) ∧
      ∀ a v, (a, v) ≠ (def_AggregateType def, def_Version def) →
        lookup2 (rg_compiled r') a v = lookup2 (rg_compiled r) a v
  end.
Proof.
  intros Hok. unfold Register. destruct (Validate def) as [[err|]|] eqn:Hv; [by intros [= <- <-]| |done].
  apply Validate_spec in Hv.
  destruct (already_registered r def) eqn:Ha.
  { intros [= <- <-]. split; [done|]. split; [|done]. unfold already_registered in Ha.
    destruct (lookup2 _ _ _) as [cm|]; [|done]. apply bool_decide_eq_true in Ha.
    exists cm. by split_and!; [| |left]. }
  destruct (Compile def) as [[cm|err]|] eqn:Hc; [|by intros [= <- <-]|done].
  pose proof (Compile_spec _ _ Hc) as [Hdef Hcomp].
  destruct (DetectSpawnCycles_spec (all_definitions r ++ [def])) as (o & -> & Ho).
  destruct o as [err|]; [by intros [= <- <-]|]. intros [= <- <-].
  split; [by apply commit_registration_ok|]. unfold commit_registration. cbn. split.
  - exists cm. rewrite lookup2_insert2, decide_True by done. split_and!; [done| |by right].
    rewrite (co_hash _ Hcomp), Hdef. done.
  - intros a v Hne. rewrite lookup2_insert2, decide_False; [done|]. naive_solver.
Qed.

(** C19: Registration keeps the registry consistent.  A rejected definition
    changes nothing; an accepted one is afterwards found under its type and
    version with its content hash, and no other version is touched. *)
Theorem Register_correct r def r' e :
  registry_ok r → Register r def = Some (r', e) →
  registry_ok r' ∧
  match e with
  | Some _ => r' = r
  | None =>
      (∃ cm, lookup2 (rg_compiled r') (def_AggregateType def) (def_Version def) = Some cm ∧
         cm_DefinitionHash cm = HashDefinition def ∧ (r' = r ∨ cm_Definition cm = def)) ∧
      ∀ a v, (a, v) ≠ (def_AggregateType def, def_Version def) →
        lookup2 (rg_compiled r') a v = lookup2 (rg_compiled r) a v
  end.
Proof. apply Register_spec. Qed.

(** [Register] answers for every well-nested acyclic definition it can
    validate, and when it rejects one there is a reason: with it a workflow type
    would spawn itself. *)
Theorem Register_answers r def :
  valid_def def → well_nested def → acyclic def →
  ∃ r' e, Register r def = Some (r', e) ∧
    (is_Some e → ∃ wt, tc (spawns (all_definitions r ++ [def])) wt wt).
Proof.
  intros Hv Hw Hac. unfold Register.
  assert (Validate def = Some None) as -> by (by apply Validate_spec).
  destruct (already_registered r def); [exists r, None; split; [done|by intros [? ?]]|].
  destruct (Compile_returns def Hw Hac) as [cm ->].
  destruct (DetectSpawnCycles_spec (all_definitions r ++ [def])) as (o & -> & Ho).
  destruct o as [err|].
  - exists r, (Some err). split; [done|]. intros _. apply Ho.
  - eexists _, None. split; [done|]. by intros [? ?].
Qed.

Lemma register_all_ok r defs r' :
  registry_ok r → register_all r defs = Some r' → registry_ok r'.
Proof.
  revert r. induction defs as [|def defs IH]; intros r Hok; cbn; [by intros [= <-]|].
  destruct (Register r def) as [[r1 e]|] eqn:Hr; cbn; [|done].
  apply IH. by eapply Register_spec.
Qed.

(** C20: In a registry built by any sequence of registrations, every machine the
    engine can look up is compiled from a valid definition; a version finds the
    machine of that version, version 0 one with the highest version registered
    for the type; and no workflow type spawns itself. *)
Theorem compiledFor_registered defs r aggregateType version cm :
  register_all New defs = Some r → compiledFor r aggregateType version = Some cm →
  compiled cm ∧ valid_def (cm_Definition cm) ∧
  (version ≠ 0%Z → def_AggregateType (cm_Definition cm) = aggregateType ∧
                   def_Version (cm_Definition cm) = version) ∧
  (version = 0%Z → ∀ v, v ≠ 0%Z → is_Some (compiledFor r aggregateType v) →
                   (v ≤ def_Version (cm_Definition cm))%Z) ∧
  (∀ wt, ¬ tc (spawns (all_definitions r)) wt wt).
Proof.
  intros Hr%register_all_ok; [|apply registry_ok_New].
  unfold compiledFor. case_decide as Hz; intros Hcm.
  - destruct (ro_latest _ Hr _ _ Hcm) as (Hc & Hv & _ & _ & Hmax).
    split_and!; [done|done|done| |apply Hr]. intros _ v Hvz. rewrite decide_False by done.
    apply Hmax.
  - destruct (ro_entry _ Hr _ _ _ Hcm) as (Hc & Hv & Hver).
    destruct (ro_filed _ Hr _ _ _ Hver) as (Ha & Hvn & _).
    split_and!; [done|done|done|done|apply Hr].
Qed.
(** Re-registering a type's latest version with other content replaces the
    machine found under the version number but not the one version 0 stands
    for: the two lookups of the same version then answer differently, and new
    instances keep starting on the replaced definition. *)
Theorem Register_stale_latest r def r' stored latest :
  let a := def_AggregateType def in
  Register r def = Some (r', None) → def_Version def ≠ 0%Z →
  compiledFor r a (def_Version def) = Some stored →
  cm_DefinitionHash stored ≠ HashDefinition def →
  compiledFor r a 0 = Some latest → (def_Version def ≤ def_Version (cm_Definition latest))%Z →
  (∃ cm, compiledFor r' a (def_Version def) = Some cm ∧ cm_Definition cm = def) ∧
  compiledFor r' a 0 = Some latest.
Proof.
  intros a Hreg Hz Hst Hhash Hl Hle. unfold compiledFor in *. rewrite !decide_False in * by done.
  rewrite !decide_True in * by done. unfold Register in Hreg.
  destruct (Validate def) as [[err|]|]; [done| |done].
  unfold already_registered in Hreg. fold a in Hreg. rewrite Hst, bool_decide_eq_false_2 in Hreg by done.
  destruct (Compile def) as [[cm|err]|] eqn:Hc; [|done..].
  pose proof (Compile_spec _ _ Hc) as [Hdef _].
  destruct (DetectSpawnCycles _) as [[err|]|]; [done| |done]. injection Hreg as <-.
  unfold commit_registration. cbn. fold a. split.
  - exists cm. by rewrite lookup2_insert2, decide_True.
  - rewrite Hl. cbn. by rewrite bool_decide_eq_false_2 by lia.
Qed.
End registry.
