(* ===== verification/Helpers.v ===== *)
(** * Helpers: the pure parts of a transition

    Models the functions of [internal/runtime/helpers.go] that compute without
    calling a dependency: route resolution is in [Executor.v] with the guards it
    runs next to; here are the exit and entry sequences, the recording of
    history, parallel entry and exit, and the set of states a task may dangle
    from. *)

From S2P Require Import Prelude Errors Types Hash Validate Compile.

(** ** Identifiers *)

(** [generateID] of the bytes [rand.Read] fills in. *)
Definition generateID (b : list N) : string := Sha256.hex b.

(** Different bytes give different identifiers. *)
Lemma generateID_inj b1 b2 :
  Forall (λ x, x < 256)%N b1 → Forall (λ x, x < 256)%N b2 → generateID b1 = generateID b2 → b1 = b2.
Proof.
  assert (∀ d e, (d < 16)%N → (e < 16)%N → Sha256.hex_digit d = Sha256.hex_digit e → d = e) as Hdigit.
  { intros d e Hd He. assert (∀ n, n < 16 → ∀ m, m < 16 →
      Sha256.hex_digit (N.of_nat n) = Sha256.hex_digit (N.of_nat m) → n = m) as Hall.
    { intros n Hn m Hm. do 16 (destruct n as [|n]; [do 16 (destruct m as [|m]; [done|]); lia|]); lia. }
    intros Heq. specialize (Hall (N.to_nat d) ltac:(lia) (N.to_nat e) ltac:(lia)).
    rewrite !N2Nat.id in Hall. specialize (Hall Heq). lia. }
  intros H1. revert b2. induction H1 as [|x b1 Hx _ IH]; intros b2 H2; destruct H2 as [|y b2 Hy H2];
    unfold generateID, Sha256.hex; cbn; try done.
  intros [= Hhi Hlo Hrest]. apply Hdigit in Hhi, Hlo; try (apply N.Div0.div_lt_upper_bound; lia);
    try (apply N.mod_lt; lia).
  f_equal; [|by apply IH]. rewrite (N.div_mod x 16), (N.div_mod y 16) by lia. congruence.
Qed.

(** ** Exit and entry sequences *)

(** The loop of [computeExitSequence]: ancestors until [lca]. *)
Fixpoint until (lca : string) (l : list string) : list string :=
  match l with
  | [] => []
  | a :: l => if decide (a = lca) then [] else a :: until lca l
  end.

Definition computeExitSequence (source lca : string) (ancestry : gmap string (list string)) :
    list string :=
  source :: until lca (ancestry_of ancestry source).

(** [for i, a := range chain { if a == lca { lcaIdx = i; break } }] *)
Fixpoint index_of (x : string) (l : list string) : nat :=
  match l with
  | [] => 0
  | a :: l => if decide (a = x) then 0 else S (index_of x l)
  end.

(** [for i, s := range l { result[n-1-i] = s }] *)
Fixpoint fill_reversed (n i : nat) (l : list string) (result : list string) : list string :=
  match l with
  | [] => result
  | s :: l => fill_reversed n (S i) l (<[n - 1 - i := s]> result)
  end.

Definition computeEntrySequence (lca target : string) (ancestry : gmap string (list string)) :
    list string :=
  let ch := ancestry_of ancestry target in
  let fromLCA := take (index_of lca ch) ch in
  let n := length fromLCA in
  <[n := target]> (fill_reversed n 0 fromLCA (replicate (n + 1) "")).

(** ** History *)

(** The first state of the exit path whose parent is [stateName]. *)
Definition direct_child (def : WorkflowDef) (exitSeq : list string) (stateName : string) : string :=
  str_of (first_some (λ s, if decide (sd_Parent (state_at def s) = stateName) then Some s else None)
            exitSeq).

Definition record_one (def : WorkflowDef) (sourceLeaf : string) (exitSeq : list string)
    (instance : WorkflowInstance) (stateName : string) : WorkflowInstance :=
  if negb (sd_IsCompound (state_at def stateName)) then instance
  else
    let directChild := direct_child def exitSeq stateName in
    if decide (directChild = "") then instance
    else
      instance
        <| wi_ShallowHistory :=
             Some (<[stateName := directChild]> (gm_map (wi_ShallowHistory instance))) |>
        <| wi_DeepHistory :=
             Some (<[stateName := sourceLeaf]> (gm_map (wi_DeepHistory instance))) |>.

Definition recordHistory (instance : WorkflowInstance) (sourceLeaf : string)
    (exitSeq : list string) (def : WorkflowDef) : WorkflowInstance :=
  foldl (record_one def sourceLeaf exitSeq) instance exitSeq.

(** ** Parallel states *)

(** [leaf := region; if l, ok := InitialLeafMap[region]; ok { leaf = l }] *)
Definition region_leaf (cm : CompiledMachine) (region : string) : string :=
  default region (cm_InitialLeafMap cm !! region).

(** [cm.RegionIndex[parallelState]] *)
Definition regions_of (cm : CompiledMachine) (parallelState : string) : list string :=
  default [] (cm_RegionIndex cm !! parallelState).

Definition is_parallel (cm : CompiledMachine) (s : string) : bool :=
  bool_decide (is_Some (cm_RegionIndex cm !! s)).

Definition enterParallelRegions (instance : WorkflowInstance) (cm : CompiledMachine)
    (parallelState : string) : WorkflowInstance :=
  let newAIP := foldl (λ m region, <[region := region_leaf cm region]> m) ∅
                  (regions_of cm parallelState) in
  instance <| wi_ActiveInParallel := Some newAIP |>.

Definition computeParallelEntrySequence (cm : CompiledMachine) (lca parallelState : string) :
    list string :=
  let parentSeq := computeEntrySequence lca parallelState (cm_Ancestry cm) in
  let extra := foldl (λ extra region,
                 let extra := extra ++ [region] in
                 match cm_InitialLeafMap cm !! region with
                 | Some leaf => extra ++ [leaf]
                 | None => extra
                 end) [] (regions_of cm parallelState) in
  parentSeq ++ extra.

Section helpers.
Context {gr : GoRange}.

(** The keys of [ActiveInParallel], sorted: the loop at site [n] collects them. *)
Definition sorted_regions (n : nat) (instance : WorkflowInstance) : list string :=
  sort_strings (range n (gm_map (wi_ActiveInParallel instance))).*1.

(** [instance.ActiveInParallel[region]] *)
Definition active_leaf (instance : WorkflowInstance) (region : string) : string :=
  str_of (gm_get (wi_ActiveInParallel instance) region).

Definition computeParallelExitSequence (instance : WorkflowInstance) (parallelState : string) :
    list string :=
  let seq := foldl (λ seq region,
               let leaf := active_leaf instance region in
               let seq := seq ++ [leaf] in
               if decide (leaf ≠ region) then seq ++ [region] else seq)
               [] (sorted_regions 50 instance) in
  seq ++ [parallelState].

Definition activeStates (instance : WorkflowInstance) : list string :=
  foldl (λ states '(_, leaf), states ++ [leaf]) [wi_CurrentState instance]
    (range 51 (gm_map (wi_ActiveInParallel instance))).

(** ** The states below the exited ones *)

(** [visit] with its [seen] map; [fuel] bounds the recursion depth. *)
Fixpoint visit (fuel : nat) (def : WorkflowDef) (seen : gmap string bool) (name : string) :
    option (gmap string bool) :=
  match seen !! name with
  | Some true => Some seen
  | _ =>
      let seen := <[name := true]> seen in
      match def_States def !! name with
      | None => Some seen
      | Some st =>
          match fuel with
          | 0 => None
          | S fuel => foldl (λ acc child, acc ≫= λ seen, visit fuel def seen child)
                        (Some seen) (sd_Children st)
          end
      end
  end.

Definition collectSubtreeStates (roots : list string) (def : WorkflowDef) : option (list string) :=
  seen ← foldl (λ acc r, acc ≫= λ seen, visit (size (def_States def)) def seen r) (Some ∅) roots;
  Some (range 52 seen).*1.
End helpers.

(** ** Sequences are right *)

Lemma index_of_until x l : take (index_of x l) l = until x l.
Proof. induction l as [|a l IH]; simpl; [done|]. case_decide; simpl; congruence. Qed.

Lemma fill_reversed_spec (l : list string) n i done' rest :
  length l + i = n → length done' = i → length rest = length l →
  fill_reversed n i l (rest ++ done' ++ [""]) = reverse l ++ done' ++ [""].
Proof.
  revert i done' rest. induction l as [|s l IH]; intros i done' rest Hn Hd Hr; simpl in *.
  - by apply nil_length_inv in Hr as ->.
  - destruct (exists_last (l := rest)) as (rest' & x & ->); [by destruct rest|].
    rewrite length_app in Hr. simpl in Hr. rewrite <-(app_assoc rest').
    replace (n - 1 - i) with (length rest' + 0) by lia. rewrite insert_app_r. simpl.
    change (s :: done' ++ [""]) with ((s :: done') ++ [""]).
    rewrite (IH (S i) (s :: done') rest'); [|simpl; lia..].
    rewrite reverse_cons, <-app_assoc. done.
Qed.

(** The index arithmetic of [computeEntrySequence] reverses the path. *)
Lemma computeEntrySequence_reverse lca target ancestry :
  computeEntrySequence lca target ancestry =
  reverse (until lca (ancestry_of ancestry target)) ++ [target].
Proof.
  unfold computeEntrySequence. rewrite index_of_until.
  set (l := until lca _). rewrite replicate_add. simpl.
  pose proof (fill_reversed_spec l (length l) 0 [] (replicate (length l) "")) as Hfill.
  simpl in Hfill. rewrite Hfill; [|lia|done|by rewrite length_replicate].
  pose proof (insert_app_r (reverse l) [""] 0 target) as Hins.
  by rewrite length_reverse, Nat.add_0_r in Hins.
Qed.

Lemma until_app lca l1 l2 : lca ∉ l1 → until lca (l1 ++ lca :: l2) = l1.
Proof.
  induction l1 as [|a l1 IH]; simpl; intros Hn.
  - by rewrite decide_True.
  - apply not_elem_of_cons in Hn as [? ?]. rewrite decide_False by done. by rewrite IH.
Qed.

Lemma until_notin lca l : lca ∉ l → until lca l = l.
Proof.
  induction l as [|a l IH]; simpl; intros Hn; [done|].
  apply not_elem_of_cons in Hn as [? ?]. rewrite decide_False by done. by rewrite IH.
Qed.

Lemma until_prefix lca l : ∃ k, l = until lca l ++ k.
Proof.
  induction l as [|a l IH]; simpl; [by exists []|].
  case_decide; [by eexists|]. destruct IH as [k Hk]. exists k. simpl. by rewrite <-Hk.
Qed.

(** The states an instance is in when its leaf is [s]: [s] and its ancestors,
    innermost first. *)
Definition configuration (cm : CompiledMachine) (s : string) : list string :=
  s :: ancestry_of (cm_Ancestry cm) s.


Lemma computeExit_split cm source lca :
  computeExitSequence source lca (cm_Ancestry cm) = source :: until lca (ancestry_of (cm_Ancestry cm) source).
Proof. done. Qed.

Section sequences.
Context {gr : GoRange}.

Lemma ancestry_split cm s l :
  compiled cm → ancestor (cm_Definition cm) s l →
  ancestry_of (cm_Ancestry cm) s =
    until l (ancestry_of (cm_Ancestry cm) s) ++ configuration cm l.
Proof.
  intros Hc Ha. apply (ancestry_elem cm) in Ha; [|done].
  apply list_elem_of_split_l in Ha as (l1 & l2 & Heq & Hn).
  pose proof (co_ancestry _ Hc s) as Hs. rewrite Heq in Hs |- *. rewrite until_app by done.
  apply chain_suffix in Hs. unfold configuration. do 2 f_equal.
  by rewrite (chain_unique _ _ _ _ (co_ancestry _ Hc l) Hs).
Qed.

Lemma ancestor_ne def s a : ancestor def s a → a ≠ "".
Proof. induction 1; [by eapply parent_of_ne|done]. Qed.

Lemma ancestry_no_lca cm s :
  compiled cm → until "" (ancestry_of (cm_Ancestry cm) s) = ancestry_of (cm_Ancestry cm) s.
Proof.
  intros Hc. apply until_notin. intros Hin. apply (ancestry_elem cm) in Hin; [|done].
  by apply ancestor_ne in Hin.
Qed.

End sequences.

(** ** History is right *)

Section history.
Context {gr : GoRange}.
Implicit Types (instance : WorkflowInstance) (def : WorkflowDef).

(** What the loop of [recordHistory] writes at the key [c]: something when the
    state is compound and one of its children is on the path too. *)
Definition records def (seq : list string) (c : string) : bool :=
  sd_IsCompound (state_at def c) && negb (bool_decide (direct_child def seq c = "")).

Lemma record_one_spec def leaf seq instance s :
  let i' := record_one def leaf seq instance s in
  (∀ c, gm_get (wi_ShallowHistory i') c =
    if decide (c = s ∧ records def seq c = true) then Some (direct_child def seq c)
    else gm_get (wi_ShallowHistory instance) c) ∧
  (∀ c, gm_get (wi_DeepHistory i') c =
    if decide (c = s ∧ records def seq c = true) then Some leaf
    else gm_get (wi_DeepHistory instance) c) ∧
  i' = instance <| wi_ShallowHistory := wi_ShallowHistory i' |>
                <| wi_DeepHistory := wi_DeepHistory i' |>.
Proof.
  cbv zeta. unfold record_one, records.
  destruct (sd_IsCompound (state_at def s)) eqn:Hc; simpl.
  2: { split_and!; [intros c; rewrite decide_False; [done|intros [-> H]; by rewrite Hc in H]..|].
       by destruct instance. }
  case_decide as Hd; simpl.
  { split_and!; [intros c; rewrite decide_False; [done|]..|by destruct instance].
    all: intros [-> [_ H]%andb_true_iff]; by rewrite bool_decide_eq_true_2 in H. }
  assert (∀ c, c = s → sd_IsCompound (state_at def c) &&
      negb (bool_decide (direct_child def seq c = "")) = true) as Hr.
  { intros c ->. rewrite Hc. by rewrite bool_decide_eq_false_2. }
  split_and!; [| |done]; intros c; unfold gm_get; simpl; (case_decide as Hcs;
    [destruct Hcs as [-> _]; by rewrite lookup_insert_eq|]);
    rewrite lookup_insert_ne; [done| |done|]; intros <-; apply Hcs; split; auto.
Qed.

Lemma record_fold def leaf seq l instance :
  let i' := foldl (record_one def leaf seq) instance l in
  (∀ c, gm_get (wi_ShallowHistory i') c =
    if decide (c ∈ l ∧ records def seq c = true) then Some (direct_child def seq c)
    else gm_get (wi_ShallowHistory instance) c) ∧
  (∀ c, gm_get (wi_DeepHistory i') c =
    if decide (c ∈ l ∧ records def seq c = true) then Some leaf
    else gm_get (wi_DeepHistory instance) c) ∧
  i' = instance <| wi_ShallowHistory := wi_ShallowHistory i' |>
                <| wi_DeepHistory := wi_DeepHistory i' |>.
Proof.
  revert instance. induction l as [|s l IH]; intros instance; cbn [foldl].
  { split_and!; [intros c; rewrite decide_False; [done|by intros [?%elem_of_nil _]]..|].
    by destruct instance. }
  destruct (IH (record_one def leaf seq instance s)) as (HS & HD & HE). clear IH.
  destruct (record_one_spec def leaf seq instance s) as (HS1 & HD1 & HE1).
  split_and!; [intros c; rewrite HS, HS1|intros c; rewrite HD, HD1|].
  1,2: destruct (decide (records def seq c = true)) as [Hr|Hr];
    [destruct (decide (c ∈ l)); [rewrite !decide_True by (by try split; try right); done|]|];
    [destruct (decide (c = s))|];
    [rewrite decide_False, !decide_True by (by try split; try (subst; left); try intros []); done| |];
    rewrite !decide_False; try done; try (intros [[]%elem_of_cons ?]; done); by intros [? ?].
  rewrite HE, HE1. by destruct instance.
Qed.

(** In a walk the predecessor of [c] is the only name before it that leads to it. *)
Lemma chain_predecessor {A} (f : A → option A) x l l1 d c l2 :
  chain f x l → x :: l = l1 ++ d :: c :: l2 → f d = Some c ∧ ∀ y, y ∈ l1 → f y ≠ Some c.
Proof.
  intros Hc Heq. assert (∀ y l1' l2', x :: l = l1' ++ y :: l2' → chain f y l2') as Hsuf.
  { intros y l1' l2' E. destruct l1' as [|z l1']; simpl in E; simplify_eq; [done|].
    by eapply chain_suffix. }
  pose proof (chain_NoDup _ _ _ Hc) as Hnd. split.
  { specialize (Hsuf d l1 (c :: l2) Heq). by inversion Hsuf. }
  intros y (a & b & ->)%list_elem_of_split Hy. rewrite Heq in Hnd.
  rewrite <-app_assoc in Heq, Hnd. simpl in Heq, Hnd. specialize (Hsuf y a _ Heq).
  apply NoDup_app in Hnd as (_ & _ & [_ Hnd]%NoDup_cons).
  destruct b as [|z b]; simpl in *; inversion Hsuf; simplify_eq.
  - apply NoDup_cons in Hnd as [Hnd _]. by apply Hnd; left.
  - apply NoDup_cons in Hnd as [Hnd _]. apply Hnd. set_solver.
Qed.

Lemma exit_path cm source lca :
  ∃ k, configuration cm source = computeExitSequence source lca (cm_Ancestry cm) ++ k.
Proof.
  unfold configuration, computeExitSequence.
  destruct (until_prefix lca (ancestry_of (cm_Ancestry cm) source)) as [k Hk].
  exists k. simpl. by rewrite <-Hk.
Qed.

Lemma parent_of_sd def x c : c ≠ "" → sd_Parent (state_at def x) = c ↔ parent_of def x = Some c.
Proof.
  intros Hc. unfold state_at, parent_of. destruct (def_States def !! x) as [st|]; simpl.
  - case_decide; naive_solver.
  - split; [by intros <-|done].
Qed.

Lemma direct_child_pred cm source lca l1 d c l2 :
  compiled cm → computeExitSequence source lca (cm_Ancestry cm) = l1 ++ d :: c :: l2 →
  direct_child (cm_Definition cm) (l1 ++ d :: c :: l2) c = d.
Proof.
  intros Hc Hseq. destruct (exit_path cm source lca) as [k Hk].
  rewrite Hseq, <-app_assoc in Hk. simpl in Hk.
  destruct (chain_predecessor _ _ _ _ _ _ _ (co_ancestry _ Hc source) Hk) as [Hd Hbefore].
  pose proof (parent_of_ne _ _ _ Hd) as Hne.
  unfold direct_child. rewrite first_some_app.
  replace (first_some _ l1) with (@None string).
  2: { symmetry. apply first_some_None. intros y Hy. rewrite decide_False; [done|].
       intros Hp. apply (Hbefore y Hy). by apply parent_of_sd. }
  simpl. rewrite decide_True; [done|]. by apply parent_of_sd.
Qed.

Lemma direct_child_source cm source lca :
  compiled cm → source ≠ "" →
  direct_child (cm_Definition cm) (computeExitSequence source lca (cm_Ancestry cm)) source = "".
Proof.
  intros Hc Hne. unfold direct_child.
  replace (first_some _ _) with (@None string); [done|]. symmetry.
  apply first_some_None. intros y Hy. rewrite decide_False; [done|].
  intros Hp. apply parent_of_sd in Hp; [|done].
  assert (y ∈ configuration cm source) as Hin.
  { destruct (exit_path cm source lca) as [k ->]. set_solver. }
  assert (ancestor (cm_Definition cm) source source) as Hcyc.
  { unfold configuration in Hin. apply elem_of_cons in Hin as [->|Hin]; [by apply tc_once|].
    apply (ancestry_elem cm) in Hin; [|done]. by eapply tc_r. }
  apply (ancestry_elem cm) in Hcyc; [|done].
  by eapply chain_not_elem, Hcyc; apply Hc.
Qed.

Lemma recordHistory_path_spec cm source lca instance :
  compiled cm → source ≠ "" →
  let seq := computeExitSequence source lca (cm_Ancestry cm) in
  let def := cm_Definition cm in
  let i' := recordHistory instance source seq def in
  (∀ l1 d c l2, seq = l1 ++ d :: c :: l2 → sd_IsCompound (state_at def c) = true →
     gm_get (wi_ShallowHistory i') c = Some d ∧ gm_get (wi_DeepHistory i') c = Some source) ∧
  (∀ c, c ∉ tail seq ∨ sd_IsCompound (state_at def c) = false →
     gm_get (wi_ShallowHistory i') c = gm_get (wi_ShallowHistory instance) c ∧
     gm_get (wi_DeepHistory i') c = gm_get (wi_DeepHistory instance) c) ∧
  i' = instance <| wi_ShallowHistory := wi_ShallowHistory i' |>
                <| wi_DeepHistory := wi_DeepHistory i' |>.
Proof.
  intros Hc Hne. cbv zeta. set (seq := computeExitSequence source lca (cm_Ancestry cm)).
  set (def := cm_Definition cm).
  destruct (record_fold def source seq seq instance) as (HS & HD & HE).
  unfold recordHistory. split_and!; [| |done].
  - intros l1 d c l2 Hseq Hcomp.
    assert (direct_child def seq c = d) as Hdc.
    { rewrite Hseq. by eapply direct_child_pred. }
    assert (d ≠ "") as Hd.
    { assert (d ∈ configuration cm source) as Hin.
      { destruct (exit_path cm source lca) as [k ->]. fold seq. rewrite Hseq. set_solver. }
      unfold configuration in Hin. apply elem_of_cons in Hin as [->|Hin]; [done|].
      apply (ancestry_elem cm) in Hin; [|done]. by eapply ancestor_ne. }
    assert (c ∈ seq ∧ records def seq c = true) as Hr.
    { split; [rewrite Hseq; set_solver|]. unfold records. rewrite Hcomp, Hdc.
      by rewrite bool_decide_eq_false_2. }
    by rewrite HS, HD, !decide_True, Hdc.
  - intros c Hc'. rewrite HS, HD, !decide_False; [done|..].
    all: intros [Hin [Hcomp Hdc]%andb_true_iff].
    all: destruct Hc' as [Hnt|Hnc]; [|by rewrite Hnc in Hcomp].
    all: unfold seq, computeExitSequence in Hin, Hnt; simpl in Hnt.
    all: apply elem_of_cons in Hin as [->|?]; [|done].
    all: rewrite bool_decide_eq_true_2 in Hdc; [done|by apply direct_child_source].
Qed.

(** C12: Leaving a leaf records, for each compound state of the exit path entered
    through a child, that child as its shallow history and the leaf as its deep
    history; every other entry and every other field is untouched. *)
Theorem recordHistory_path cm source lca instance :
  compiled cm → source ≠ "" →
  let seq := computeExitSequence source lca (cm_Ancestry cm) in
  let def := cm_Definition cm in
  let i' := recordHistory instance source seq def in
  (∀ l1 d c l2, seq = l1 ++ d :: c :: l2 → sd_IsCompound (state_at def c) = true →
     gm_get (wi_ShallowHistory i') c = Some d ∧ gm_get (wi_DeepHistory i') c = Some source) ∧
  (∀ c, c ∉ tail seq ∨ sd_IsCompound (state_at def c) = false →
     gm_get (wi_ShallowHistory i') c = gm_get (wi_ShallowHistory instance) c ∧
     gm_get (wi_DeepHistory i') c = gm_get (wi_DeepHistory instance) c) ∧
  i' = instance <| wi_ShallowHistory := wi_ShallowHistory i' |>
                <| wi_DeepHistory := wi_DeepHistory i' |>.
Proof. apply recordHistory_path_spec. Qed.
End history.

(** ** The collected subtrees are right *)

Definition child_of (def : WorkflowDef) (x y : string) : Prop :=
  ∃ st, def_States def !! x = Some st ∧ y ∈ sd_Children st.

(** The names seen so far. *)
Abbreviation seen_set seen := (dom (D := gset string) seen).

Record visited (def : WorkflowDef) (roots : list string) (seen seen' : gmap string bool) : Prop := {
  vi_true : map_Forall (λ _ b, b = true) seen';
  vi_mono : seen_set seen ⊆ seen_set seen';
  vi_roots : ∀ r, r ∈ roots → r ∈ seen_set seen';
  vi_reach : ∀ x, x ∈ seen_set seen' → x ∈ seen_set seen ∨ ∃ r, r ∈ roots ∧ rtc (child_of def) r x;
  vi_closed : ∀ x y, x ∈ seen_set seen' → x ∉ seen_set seen → child_of def x y → y ∈ seen_set seen'
}.

(** The states a call may still expand. *)
Abbreviation unseen def seen := (size (dom (D := gset string) (def_States def) ∖ seen_set seen)).

Lemma unseen_mono def (seen seen' : gmap string bool) :
  seen_set seen ⊆ seen_set seen' → unseen def seen' ≤ unseen def seen.
Proof. intros Hsub. apply subseteq_size. set_solver. Qed.

Lemma visit_fold fuel def l seen :
  (∀ seen name, map_Forall (λ _ b, b = true) seen → unseen def seen ≤ fuel →
     ∃ seen', visit fuel def seen name = Some seen' ∧ visited def [name] seen seen') →
  map_Forall (λ _ b, b = true) seen → unseen def seen ≤ fuel →
  ∃ seen', foldl (λ acc child, acc ≫= λ seen, visit fuel def seen child) (Some seen) l = Some seen' ∧
    visited def l seen seen'.
Proof.
  intros Hvisit. revert seen. induction l as [|n l IH]; intros seen Ht Hf; cbn [foldl].
  { exists seen. split; [done|]. constructor; try done; set_solver. }
  destruct (Hvisit seen n Ht Hf) as (seen1 & Hs1 & [Ht1 Hm1 Hr1 Hre1 Hc1]).
  cbn [mbind option_bind]. rewrite Hs1.
  destruct (IH seen1 Ht1) as (seen2 & Hs2 & [Ht2 Hm2 Hr2 Hre2 Hc2]).
  { pose proof (unseen_mono def seen seen1 Hm1). lia. }
  exists seen2. split; [done|]. constructor; [done|set_solver|..].
  - intros r [->|Hr]%elem_of_cons; [apply Hm2, Hr1; by left|by apply Hr2].
  - intros x [Hx|(r & Hr & Hx)]%Hre2.
    + apply Hre1 in Hx as [Hx|(r & ->%list_elem_of_singleton & Hx)]; [by left|right].
      exists n. split; [by left|done].
    + right. exists r. split; [by right|done].
  - intros x y Hx Hnx Hxy. destruct (decide (x ∈ seen_set seen1)) as [H1|H1].
    + apply Hm2. by eapply Hc1.
    + by eapply Hc2.
Qed.

Lemma visit_spec fuel def seen name :
  map_Forall (λ _ b, b = true) seen → unseen def seen ≤ fuel →
  ∃ seen', visit fuel def seen name = Some seen' ∧ visited def [name] seen seen'.
Proof.
  revert seen name. induction fuel as [|fuel IH]; intros seen name Ht Hf; cbn [visit].
  all: destruct (seen !! name) as [b|] eqn:Hseen;
    [rewrite (Ht _ _ Hseen); exists seen; split; [done|]; apply elem_of_dom_2 in Hseen;
     constructor; set_solver|].
  all: assert (map_Forall (λ _ b, b = true) (<[name := true]> seen)) as Ht1
    by (by apply map_Forall_insert_2).
  all: assert (name ∉ seen_set seen) as Hn by (by apply not_elem_of_dom).
  all: destruct (def_States def !! name) as [st|] eqn:Hst.
  2, 4: exists (<[name := true]> seen); split; [done|];
    (constructor; [done|set_solver|set_solver| |]);
    [intros x; rewrite dom_insert, elem_of_union, elem_of_singleton;
     intros [->|?]; [right; exists name; split; [by left|done]|by left]
    |intros x y; rewrite dom_insert, elem_of_union, elem_of_singleton;
     intros [->|?] ? (st & ? & _); congruence].
  - exfalso. assert (name ∈ dom (def_States def) ∖ seen_set seen) as Hd.
    { apply elem_of_dom_2 in Hst. set_solver. }
    assert (dom (def_States def) ∖ seen_set seen ≡ ∅) by (apply size_empty_iff; lia). set_solver.
  - assert (unseen def (<[name := true]> seen) ≤ fuel) as Hf1.
    { apply elem_of_dom_2 in Hst.
      assert (unseen def (<[name := true]> seen) < unseen def seen); [|lia].
      rewrite dom_insert. apply subset_size. set_solver. }
    destruct (visit_fold fuel def (sd_Children st) (<[name := true]> seen) (IH) Ht1 Hf1)
      as (seen' & Hs & [Ht2 Hm2 Hr2 Hre2 Hc2]).
    exists seen'. split; [done|]. rewrite dom_insert in Hm2. constructor; [done|set_solver|set_solver| |].
    + intros x [Hx|(r & Hr & Hx)]%Hre2.
      * rewrite dom_insert, elem_of_union, elem_of_singleton in Hx. destruct Hx as [->|?]; [right|by left].
        exists name. split; [by left|done].
      * right. exists name. split; [by left|]. eapply rtc_l; [|done]. by exists st.
    + intros x y Hx Hnx Hxy. destruct (decide (x = name)) as [->|Hne].
      * destruct Hxy as (st' & ? & ?). simplify_eq. by apply Hr2.
      * apply (Hc2 x y Hx); [|done]. rewrite dom_insert. set_solver.
Qed.

(** Collecting the states whose tasks may dangle ends, and yields the exited
    states and all their descendants, each once. *)
Theorem collectSubtreeStates_descendants {gr : GoRange} roots def :
  ∃ l, collectSubtreeStates roots def = Some l ∧ NoDup l ∧
    ∀ s, s ∈ l ↔ ∃ r, r ∈ roots ∧ rtc (child_of def) r s.
Proof.
  unfold collectSubtreeStates.
  destruct (visit_fold (size (def_States def)) def roots ∅) as (seen & -> & [Ht Hm Hr Hre Hc]).
  { intros. by apply visit_spec. }
  { apply map_Forall_empty. }
  { rewrite dom_empty_L, difference_empty_L, size_dom. lia. }
  eexists; split; [done|]. split; [apply range_keys_NoDup|].
  intros s. rewrite elem_of_range_keys, <-elem_of_dom. split.
  - intros [Hs|Hs]%Hre; [set_solver|done].
  - intros (r & Hin%Hr & Hrs). induction Hrs as [|x y z Hxy _ IH]; [done|].
    apply IH. eapply Hc; [done| |done]. set_solver.
Qed.

(** ** Entering and leaving a parallel state *)

Section parallel.
Context {gr : GoRange}.
Implicit Types (instance : WorkflowInstance) (cm : CompiledMachine).

Lemma foldl_insert_lookup {V} (f : string → V) (l : list string) (m : gmap string V) k :
  foldl (λ m x, <[x := f x]> m) m l !! k = if decide (k ∈ l) then Some (f k) else m !! k.
Proof.
  revert m. induction l as [|x l IH]; intros m; cbn [foldl].
  { rewrite decide_False; [done|]. by intros ?%elem_of_nil. }
  rewrite IH. destruct (decide (k ∈ l)) as [Hl|Hl].
  { by rewrite decide_True by by right. }
  destruct (decide (k = x)) as [->|Hne].
  - rewrite lookup_insert_eq, decide_True; [done|by left].
  - rewrite lookup_insert_ne, decide_False; [done| |done]. by intros [?|?]%elem_of_cons.
Qed.

Lemma enterParallelRegions_lookup instance cm p r :
  gm_get (wi_ActiveInParallel (enterParallelRegions instance cm p)) r =
  if decide (r ∈ regions_of cm p) then Some (region_leaf cm r) else None.
Proof.
  unfold enterParallelRegions, gm_get. cbn. by rewrite foldl_insert_lookup, lookup_empty.
Qed.

Lemma elem_of_activeStates instance s :
  s ∈ activeStates instance ↔
  s = wi_CurrentState instance ∨ ∃ r, gm_get (wi_ActiveInParallel instance) r = Some s.
Proof.
  unfold activeStates, gm_get. set (m := gm_map _).
  assert (∀ l acc, s ∈ foldl (λ states '(_, leaf), states ++ [leaf]) acc l ↔
                   s ∈ acc ∨ s ∈ (l : list (string * string)).*2) as ->.
  { induction l as [|[r leaf] l IH]; intros acc; cbn [foldl fmap list_fmap snd].
    - rewrite elem_of_nil. tauto.
    - rewrite IH, elem_of_app, list_elem_of_singleton, elem_of_cons. tauto. }
  rewrite list_elem_of_singleton, list_elem_of_fmap. f_equiv. split.
  - intros ([r leaf] & -> & Hin%elem_of_range). by exists r.
  - intros [r Hr]. exists (r, s). by rewrite elem_of_range.
Qed.

Lemma sorted_regions_enter n instance cm p :
  NoDup (regions_of cm p) →
  sorted_regions n (enterParallelRegions instance cm p) = sort_strings (regions_of cm p).
Proof.
  intros Hnd. apply sort_strings_canonical, NoDup_Permutation; [apply range_keys_NoDup|done|].
  intros r. rewrite elem_of_range_keys.
  pose proof (enterParallelRegions_lookup instance cm p r) as Hr. unfold gm_get in Hr. rewrite Hr.
  case_decide; split; done.
Qed.

(** A region of a valid machine is left at a leaf below it. *)
Lemma region_has_leaf cm p r :
  compiled cm → valid_def (cm_Definition cm) → well_nested (cm_Definition cm) →
  r ∈ regions_of cm p → ∃ leaf, cm_InitialLeafMap cm !! r = Some leaf ∧ leaf ≠ r.
Proof.
  intros Hc Hv Hw Hr. unfold regions_of in Hr.
  destruct (cm_RegionIndex cm !! p) as [cs|] eqn:Hp; [|by apply elem_of_nil in Hr].
  apply (co_region _ Hc) in Hp as (st & Hst & Hpar & ->). simpl in Hr.
  destruct (v_parallel _ Hv _ _ Hst Hpar) as (_ & _ & Hreg).
  pose proof (wn_children _ Hw _ _ _ Hst Hr) as Hparent.
  pose proof (parent_of_dom _ _ _ Hparent) as [rst Hrst]%elem_of_dom.
  destruct (Hreg _ _ Hr Hrst) as [Hnp Hcomp].
  destruct (v_compound _ Hv _ _ Hrst Hcomp Hnp) as [Hic _].
  destruct (initial_leaf_exists (cm_Definition cm) r Hw) as [leaf Hleaf].
  { intros n. eexists. apply Hc. }
  exists leaf. split.
  - apply (co_leaf _ Hc). split; [|done]. exists rst. split; [done|].
    unfold has_leaf_entry. rewrite Hcomp, Hnp. by rewrite bool_decide_eq_false_2.
  - intros ->. pose proof (initial_leaf_end _ _ _ Hleaf) as Hend.
    unfold initial_next, state_at in Hend. rewrite Hrst in Hend. simpl in Hend.
    rewrite Hcomp in Hend. simpl in Hend. by rewrite bool_decide_eq_false_2 in Hend.
Qed.

(** C13: Entering a parallel state enters every region and its initial leaf after
    the state itself; leaving it at once exits the same states, leaf before
    region and regions in alphabetical order, then the state. *)
Theorem parallel_entry_exit cm instance lca p :
  compiled cm → valid_def (cm_Definition cm) → well_nested (cm_Definition cm) →
  NoDup (regions_of cm p) →
  computeParallelEntrySequence cm lca p =
    computeEntrySequence lca p (cm_Ancestry cm) ++
    (regions_of cm p ≫= λ r, [r; region_leaf cm r]) ∧
  computeParallelExitSequence (enterParallelRegions instance cm p) p =
    (sort_strings (regions_of cm p) ≫= λ r, [region_leaf cm r; r]) ++ [p].
Proof.
  intros Hc Hv Hw Hnd.
  assert (∀ r, r ∈ regions_of cm p → ∃ leaf, cm_InitialLeafMap cm !! r = Some leaf ∧ leaf ≠ r)
    as Hleaf by (intros; by eapply region_has_leaf).
  split.
  - unfold computeParallelEntrySequence. f_equal.
    assert (∀ l acc, (∀ r, r ∈ l → r ∈ regions_of cm p) →
      foldl (λ extra region, match cm_InitialLeafMap cm !! region with
        | Some leaf => (extra ++ [region]) ++ [leaf] | None => extra ++ [region] end) acc l
      = acc ++ (l ≫= λ r, [r; region_leaf cm r])) as Hfold; [|by apply Hfold].
    induction l as [|r l IH]; intros acc Hl; cbn [foldl]; [by rewrite app_nil_r|].
    destruct (Hleaf r) as (leaf & Hr & _); [by apply Hl; left|].
    rewrite Hr, IH by (intros ? ?; apply Hl; by right). rewrite bind_cons. unfold region_leaf at 2.
    rewrite Hr. simpl. by rewrite <-!app_assoc.
  - unfold computeParallelExitSequence. f_equal. rewrite sorted_regions_enter by done.
    assert (∀ l acc, (∀ r, r ∈ l → r ∈ regions_of cm p) →
      foldl (λ seq region,
         if decide (active_leaf (enterParallelRegions instance cm p) region ≠ region)
         then (seq ++ [active_leaf (enterParallelRegions instance cm p) region]) ++ [region]
         else seq ++ [active_leaf (enterParallelRegions instance cm p) region]) acc l
      = acc ++ (l ≫= λ r, [region_leaf cm r; r])) as Hfold.
    { induction l as [|r l IH]; intros acc Hl; cbn [foldl]; [by rewrite app_nil_r|].
      assert (r ∈ regions_of cm p) as Hr by (by apply Hl; left).
      destruct (Hleaf r Hr) as (leaf & Hlk & Hne).
      assert (active_leaf (enterParallelRegions instance cm p) r = leaf) as Hal.
      { unfold active_leaf. rewrite enterParallelRegions_lookup, decide_True by done.
        unfold region_leaf. by rewrite Hlk. }
      rewrite Hal, decide_True, IH by (done || (intros ? ?; apply Hl; by right)).
      rewrite bind_cons. unfold region_leaf at 2. rewrite Hlk. simpl. by rewrite <-!app_assoc. }
    rewrite Hfold; [done|]. intros r. by rewrite elem_of_sort_strings.
Qed.
End parallel.
