(* ===== verification/Observer.v ===== *)
(** * Observer: delivery of notifications

    Models [internal/runtime/observer.go].  An observer is user code; what
    matters of it here is which of the four interfaces of [types/observer.go] it
    implements. *)

From S2P Require Import Prelude Errors Types.

Record Observer := mkObserver {
  ob_id : nat;
  ob_transition : bool;
  ob_guard : bool;
  ob_activity : bool;
  ob_infrastructure : bool
}.

#[export] Instance Observer_eq_dec : EqDecision Observer.
Proof. solve_decision. Defined.

Record ObserverRegistry := mkObservers {
  or_transition : list Observer;
  or_guard : list Observer;
  or_activity : list Observer;
  or_infrastructure : list Observer
}.

#[export] Instance ObserverRegistry_eta : Eta ObserverRegistry := λ r,
  mkObservers (or_transition r) (or_guard r) (or_activity r) (or_infrastructure r).

(** The body of the loop of [NewObserverRegistry]. *)
Definition add_observer (r : ObserverRegistry) (o : Observer) : ObserverRegistry :=
  let r := if ob_transition o then r <| or_transition := or_transition r ++ [o] |> else r in
  let r := if ob_guard o then r <| or_guard := or_guard r ++ [o] |> else r in
  let r := if ob_activity o then r <| or_activity := or_activity r ++ [o] |> else r in
  if ob_infrastructure o then r <| or_infrastructure := or_infrastructure r ++ [o] |> else r.

Definition NewObserverRegistry (observers : list Observer) : ObserverRegistry :=
  foldl add_observer (mkObservers [] [] [] []) observers.

(** The deliveries of one notification, in order; a nil registry delivers
    nothing. *)
Definition notify (r : option ObserverRegistry) (n : Notification) : list (Observer * Notification) :=
  match r with
  | None => []
  | Some r =>
      (λ o, (o, n)) <$>
        match n with
        | NTransition _ _ => or_transition r
        | NGuardFailed _ _ _ _ => or_guard r
        | NActivityDispatched _ => or_activity r
        | NPostCommitError _ _ => or_infrastructure r
        end
  end.

(** The interface a notification is for. *)
Definition listens (o : Observer) (n : Notification) : bool :=
  match n with
  | NTransition _ _ => ob_transition o
  | NGuardFailed _ _ _ _ => ob_guard o
  | NActivityDispatched _ => ob_activity o
  | NPostCommitError _ _ => ob_infrastructure o
  end.

(** A notification reaches exactly the observers that implement its interface,
    each as often as it was registered, in registration order. *)
Lemma notify_spec observers n :
  notify (Some (NewObserverRegistry observers)) n =
  (λ o, (o, n)) <$> filter (λ o, listens o n = true) observers.
Proof.
  unfold NewObserverRegistry.
  assert (∀ r, let r' := foldl add_observer r observers in
    or_transition r' = or_transition r ++ filter (λ o, ob_transition o = true) observers ∧
    or_guard r' = or_guard r ++ filter (λ o, ob_guard o = true) observers ∧
    or_activity r' = or_activity r ++ filter (λ o, ob_activity o = true) observers ∧
    or_infrastructure r' = or_infrastructure r ++ filter (λ o, ob_infrastructure o = true) observers)
    as Hfold.
  { induction observers as [|o l IH]; intros r; cbn [foldl].
    - cbn. by rewrite !app_nil_r.
    - destruct (IH (add_observer r o)) as (-> & -> & -> & ->). rewrite !filter_cons.
      unfold add_observer.
      destruct (ob_transition o), (ob_guard o), (ob_activity o), (ob_infrastructure o); cbn;
        rewrite <-?app_assoc; done. }
  destruct (Hfold (mkObservers [] [] [] [])) as (H1 & H2 & H3 & H4).
  destruct n; cbn [notify]; rewrite ?H1, ?H2, ?H3, ?H4; done.
Qed.
