(* ===== verification/Effects.v ===== *)
(** * Effects: the engine's calls and the programs that make them

    The engine ([internal/runtime/]) is written against interfaces
    ([types/interfaces.go]): stores, a transaction provider, a bus, an activity
    runner, a clock, observers.  What stands behind them is not the engine's
    code, so an engine operation is a program over the interface: a tree of
    calls, each with a continuation for every reply.  [runs] gives the traces of
    a program under any replies at all (any store, any interleaving with other
    engines on the same store, any failure); [wp] is a program logic for
    properties of all traces; [exec] runs a program on a concrete world. *)

From S2P Require Import Prelude Errors Types Hash Validate Compile.

(** ** Dependencies that may be absent

    [Deps] with a nil [EventBus], [TaskStore], ..., and the optional interfaces
    that the engine detects by type assertion. *)
Class Config := mkConfig {
  has_EventBus : bool;
  has_ActivityRunner : bool;
  is_ActivityResolver : bool;   (* ActivityRunner implements ActivityResolver *)
  has_ActivityStore : bool;
  has_TaskStore : bool;
  is_TaskInvalidator : bool;    (* TaskStore implements TaskInvalidator *)
  has_ChildStore : bool;
  hasSavepoints : bool          (* TxProvider implements SavepointProvider *)
}.

(** A transaction handle is whatever [Begin] returns; [None] is nil. *)
Abbreviation tx := (option nat).

(** ** Calls *)

Inductive call :=
  (* the engine's own shared state *)
  | ShutdownLoad
  | WgAdd
  | WgDone
  | CompiledFor (aggregateType : string) (version : Z)
  (* clock and random identifiers *)
  | Now
  | GenerateID
  (* TxProvider and SavepointProvider *)
  | Begin
  | Commit (t : tx)
  | Rollback (t : tx)
  | Savepoint (t : tx) (name : string)
  | RollbackTo (t : tx) (name : string)
  (* InstanceStore *)
  | InstanceGet (aggregateType aggregateID : string)
  | InstanceCreate (t : tx) (instance : WorkflowInstance)
  | InstanceUpdate (t : tx) (instance : WorkflowInstance)
  (* EventStore and EventBus *)
  | EventAppend (t : tx) (event : DomainEvent)
  | EventEmit (event : DomainEvent)
  (* TaskStore and TaskInvalidator *)
  | TaskCreate (t : tx) (task : PendingTask)
  | TaskGet (taskID : string)
  | TaskComplete (t : tx) (taskID choice actorID : string)
  | InvalidateByStates (t : tx) (aggregateType aggregateID : string) (states : list string)
  (* ChildStore *)
  | ChildCreate (t : tx) (relation : ChildRelation)
  | ChildGetByChild (aggregateType aggregateID : string)
  | ChildGetByGroup (groupID : string)
  | ChildComplete (t : tx) (aggregateType aggregateID terminalState : string)
  (* ActivityStore, ActivityRunner, ActivityResolver and Activity *)
  | ActivityCreate (t : tx) (invocation : ActivityInvocation)
  | ActivityDispatch (invocation : ActivityInvocation)
  | ActivityResolve (name : string)
  | ActivityExecute (name : string) (input : ActivityInput)
  (* observers, and the user function of a side effect *)
  | Notify (n : Notification)
  | UserFn.

(** What a call returns; a Go [error] result is an [option error]. *)
Definition reply (c : call) : Type :=
  match c with
  | ShutdownLoad | ActivityResolve _ => bool
  | WgAdd | WgDone | Notify _ => unit
  | CompiledFor _ _ => option CompiledMachine
  | Now => time
  | GenerateID => string
  | Begin => result tx
  | InstanceGet _ _ => result WorkflowInstance
  | TaskGet _ => result PendingTask
  | ChildGetByChild _ _ => result ChildRelation
  | ChildGetByGroup _ => result (list ChildRelation)
  | UserFn => result value
  | _ => option error
  end.

(** ** Programs *)

Inductive prog (A : Type) :=
  | Ret (a : A)
  | Vis (c : call) (k : reply c → prog A).
Arguments Ret {A} a.
Arguments Vis {A} c k.

#[export] Instance prog_ret : MRet prog := @Ret.

#[export] Instance prog_bind : MBind prog := λ A B f,
  fix go (p : prog A) : prog B :=
    match p with
    | Ret a => f a
    | Vis c k => Vis c (λ r, go (k r))
    end.

Definition perform (c : call) : prog (reply c) := Vis c Ret.

(** [x, err := p; if err != nil { return h(err) }; q] *)
Definition try {A B} (p : prog (result A)) (h : error → prog B) (q : A → prog B) : prog B :=
  p ≫= λ r, match r with Ok a => q a | Err e => h e end.

(** [if err := p; err != nil { return h(err) }; q] *)
Definition check {B} (p : prog (option error)) (h : error → prog B) (q : prog B) : prog B :=
  p ≫= λ r, match r with None => q | Some e => h e end.

Notation "x ⇐ p 'orelse' h ; q" := (try p h (λ x, q))
  (at level 20, p at level 100, h at level 100, q at level 200, right associativity,
   format "'[v' x  ⇐  p  'orelse'  h ; '/' q ']'") : flow_scope.
Notation "'must' p 'orelse' h ; q" := (check p h q)
  (at level 20, p at level 100, h at level 100, q at level 200, right associativity,
   format "'[v' 'must'  p  'orelse'  h ; '/' q ']'") : flow_scope.

(** [return nil, fmt.Errorf(format, args..., err)] *)
Definition fail {A} (format : string) (args : list farg) (e : error) : prog (result A) :=
  Ret (Err (Errorf format args (Some e))).

(** [return nil, err] *)
Definition ret_err {A} (e : error) : prog (result A) := Ret (Err e).

(** A [for _, x := range l] loop whose body may return early. *)
Fixpoint for_each {A B R} (l : list A) (s : B) (body : A → B → prog (B + R)) : prog (B + R) :=
  match l with
  | [] => Ret (inl s)
  | x :: l => r ← body x s; match r with inl s => for_each l s body | inr out => Ret (inr out) end
  end.

(** ** Traces *)

Record event := Ev { ev_call : call; ev_reply : reply ev_call }.

(** [runs p t a]: with the replies of [t], [p] makes the calls of [t] and
    returns [a]. *)
Fixpoint runs {A} (p : prog A) (t : list event) (a : A) : Prop :=
  match p with
  | Ret a' => t = [] ∧ a' = a
  | Vis c k => ∃ (r : reply c) t', t = Ev c r :: t' ∧ runs (k r) t' a
  end.

Lemma runs_bind {A B} (p : prog A) (f : A → prog B) t b :
  runs (p ≫= f) t b ↔ ∃ t1 t2 a, t = t1 ++ t2 ∧ runs p t1 a ∧ runs (f a) t2 b.
Proof.
  revert t. induction p as [a|c k IH]; intros t; simpl.
  - split.
    + intros. by exists [], t, a.
    + by intros (? & ? & ? & -> & [-> ->] & ?).
  - split.
    + intros (r & t' & -> & (t1 & t2 & a & -> & ? & ?)%IH). exists (Ev c r :: t1), t2, a. eauto 8.
    + intros (? & t2 & a & -> & (r & t1 & -> & ?) & ?). exists r, (t1 ++ t2). split; [done|].
      apply IH. eauto 8.
Qed.

(** ** A concrete world *)

(** [exec h p w]: run [p] in the world [w], each call answered by [h]. *)
Fixpoint exec {W A} (h : ∀ c, W → reply c * W) (p : prog A) (w : W) : A * W :=
  match p with
  | Ret a => (a, w)
  | Vis c k => let '(r, w) := h c w in exec h (k r) w
  end.

Lemma exec_bind {W A B} (h : ∀ c, W → reply c * W) (p : prog A) (f : A → prog B) w :
  exec h (p ≫= f) w = let '(a, w) := exec h p w in exec h (f a) w.
Proof. revert w. induction p as [a|c k IH]; intros w; simpl; [done|]. destruct (h c w). apply IH. Qed.

(** Every run in a world is one of the traces of the program. *)
Lemma exec_runs {W A} (h : ∀ c, W → reply c * W) (p : prog A) w :
  ∃ t, runs p t (exec h p w).1.
Proof.
  revert w. induction p as [a|c k IH]; intros w; simpl; [by exists []|].
  destruct (h c w) as [r w']. destruct (IH r w') as [t Ht]. exists (Ev c r :: t), r, t. done.
Qed.

(** The trace of that run. *)
Fixpoint trace_of {W A} (h : ∀ c, W → reply c * W) (p : prog A) (w : W) : list event :=
  match p with
  | Ret _ => []
  | Vis c k => let '(r, w) := h c w in Ev c r :: trace_of h (k r) w
  end.

Lemma trace_of_runs {W A} (h : ∀ c, W → reply c * W) (p : prog A) w :
  runs p (trace_of h p w) (exec h p w).1.
Proof.
  revert w. induction p as [a|c k IH]; intros w; cbn; [done|].
  destruct (h c w) as [r w']. by exists r, (trace_of h (k r) w').
Qed.

(** ** A program logic

    A monitor watches the calls of a program: [m_pre s c] says that in the
    monitor's state [s] the call [c] is allowed, [m_env s c r] that the reply [r]
    is one the property considers, [m_step] is the state after it. *)
Record monitor (S : Type) := mkMonitor {
  m_pre : S → call → Prop;
  m_env : S → ∀ c, reply c → Prop;
  m_step : S → ∀ c, reply c → S
}.
Arguments m_pre {S} _ _ _.
Arguments m_env {S} _ _ _ _.
Arguments m_step {S} _ _ _ _.

Section wp.
Context {S : Type} (M : monitor S).

(** [wp p s Q]: from the monitor state [s] every call of [p] is allowed, and
    when [p] returns, [Q] holds of the result and the state. *)
Fixpoint wp {A} (p : prog A) (s : S) (Q : A → S → Prop) : Prop :=
  match p with
  | Ret a => Q a s
  | Vis c k => m_pre M s c ∧ ∀ r, m_env M s c r → wp (k r) (m_step M s c r) Q
  end.

Lemma wp_mono {A} (p : prog A) s (Q Q' : A → S → Prop) :
  wp p s Q → (∀ a s, Q a s → Q' a s) → wp p s Q'.
Proof.
  revert s. induction p as [a|c k IH]; simpl; intros s Hp HQ; [by apply HQ|].
  destruct Hp as [Hpre Hp]. split; [done|]. intros r Hr. apply (IH r); [by apply Hp|done].
Qed.

Lemma wp_bind {A B} (p : prog A) (f : A → prog B) s Q :
  wp p s (λ a s, wp (f a) s Q) → wp (p ≫= f) s Q.
Proof.
  revert s. induction p as [a|c k IH]; simpl; intros s Hp; [done|].
  destruct Hp as [Hpre Hp]. split; [done|]. intros r Hr. by apply IH, Hp.
Qed.

Lemma wp_perform c s (Q : reply c → S → Prop) :
  m_pre M s c → (∀ r, m_env M s c r → Q r (m_step M s c r)) → wp (perform c) s Q.
Proof. done. Qed.

Lemma wp_try {A B} (p : prog (result A)) (h : error → prog B) (q : A → prog B) s Q :
  wp p s (λ r s, match r with Ok a => wp (q a) s Q | Err e => wp (h e) s Q end) →
  wp (try p h q) s Q.
Proof. intros Hp. apply wp_bind. eapply wp_mono; [exact Hp|]. by intros [a|e]. Qed.

Lemma wp_check {B} (p : prog (option error)) (h : error → prog B) (q : prog B) s Q :
  wp p s (λ r s, match r with None => wp q s Q | Some e => wp (h e) s Q end) →
  wp (check p h q) s Q.
Proof. intros Hp. apply wp_bind. eapply wp_mono; [exact Hp|]. by intros [e|]. Qed.

(** A loop with an invariant. *)
Lemma wp_for_each {A B R} (I : B → S → Prop) (l : list A) b s
    (body : A → B → prog (B + R)) (Q : B + R → S → Prop) :
  (∀ x b s, x ∈ l → I b s → wp (body x b) s (λ r s, match r with
      | inl b => I b s | inr out => Q (inr out) s end)) →
  I b s → (∀ b s, I b s → Q (inl b) s) → wp (for_each l b body) s Q.
Proof.
  intros Hbody HI HQ. revert b s HI. induction l as [|x l IH]; intros b s HI; simpl; [by apply HQ|].
  apply wp_bind. eapply wp_mono; [apply Hbody; [by left|done]|].
  intros [b'|out] s' H; [|done]. apply IH; [|done]. intros. apply Hbody; [by right|done].
Qed.

(** The states of the monitor along a trace. *)
Fixpoint after (s : S) (t : list event) : S :=
  match t with
  | [] => s
  | Ev c r :: t => after (m_step M s c r) t
  end.

Fixpoint considered (s : S) (t : list event) : Prop :=
  match t with
  | [] => True
  | Ev c r :: t => m_env M s c r ∧ considered (m_step M s c r) t
  end.

Fixpoint allowed (s : S) (t : list event) : Prop :=
  match t with
  | [] => True
  | Ev c r :: t => m_pre M s c ∧ allowed (m_step M s c r) t
  end.

(** The logic speaks about every trace. *)
Lemma wp_sound {A} (p : prog A) s Q t a :
  wp p s Q → runs p t a → considered s t → allowed s t ∧ Q a (after s t).
Proof.
  revert s t. induction p as [a'|c k IH]; simpl; intros s t Hp Hr Henv.
  - destruct Hr as [-> ->]. done.
  - destruct Hr as (r & t' & -> & Hr). destruct Hp as [Hpre Hp]. destruct Henv as [He Henv].
    destruct (IH r _ t' (Hp r He) Hr Henv) as [Hal HQ]. done.
Qed.

(** A run that is not over is watched up to where it is. *)
Lemma wp_sound_prefix {A} (p : prog A) s Q t rest a :
  wp p s Q → runs p (t ++ rest) a → considered s t → allowed s t.
Proof.
  revert s t. induction p as [a'|c k IH]; simpl; intros s t Hp Hr Henv.
  - destruct Hr as [[-> _]%app_eq_nil _]. done.
  - destruct Hr as (r & t' & Heq & Hr). destruct t as [|ev t]; [done|]. injection Heq as -> <-.
    destruct Hp as [Hpre Hp]. destruct Henv as [He Henv]. split; [done|]. by eapply IH; [by apply Hp|..].
Qed.
End wp.

(** ** Programs that make only calls of one kind *)

Fixpoint calls_only {A} (P : call → Prop) (p : prog A) : Prop :=
  match p with
  | Ret _ => True
  | Vis c k => P c ∧ ∀ r, calls_only P (k r)
  end.

Lemma calls_only_bind {A B} P (p : prog A) (f : A → prog B) :
  calls_only P p → (∀ a, calls_only P (f a)) → calls_only P (p ≫= f).
Proof.
  intros Hp Hf. induction p as [a|c k IH]; [apply Hf|].
  destruct Hp as [Hc Hk]. split; [exact Hc|]. intros r. by apply IH, Hk.
Qed.

Lemma calls_only_for_each {A B R} P (l : list A) (b : B) (body : A → B → prog (B + R)) :
  (∀ x b, calls_only P (body x b)) → calls_only P (for_each l b body).
Proof.
  intros Hb. revert b. induction l as [|x l IH]; intros b; cbn [for_each]; [done|].
  apply calls_only_bind; [done|]. by intros [].
Qed.

(** A program whose calls a monitor allows in every state, and that its monitor
    does not follow, is known by what it returns. *)
Lemma wp_calls {A} (M : monitor ()) P (p : prog A) (Q : A → () → Prop) :
  (∀ s c, P c → m_pre M s c) → calls_only P p → (∀ t a, runs p t a → Q a ()) → wp M p () Q.
Proof.
  intros HP. induction p as [a|c k IH]; intros Hc HQ.
  { by apply (HQ [] a). }
  destruct Hc as [Hc Hk]. split; [by apply HP|]. intros r _. destruct (m_step M () c r).
  apply IH; [apply Hk|]. intros t a Hr. apply (HQ (Ev c r :: t)). by exists r, t.
Qed.
