(* ===== verification/Memstore.v ===== *)
(** * Memstore: the in-memory stores

    Models [adapters/memstore/]: five stores, each a map or a slice behind a
    mutex (one step per method), and the no-op transaction provider, with the
    contract of [types.InstanceStore] as a type class that the in-memory store
    implements. *)

From Stdlib Require Import Ascii.
From S2P Require Import Prelude Errors Types Effects.

(** ** Loops that select *)

Section select.
Context {gr : GoRange}.

(** [for _, x := range m { if p(x) { result = append(result, x) } }] *)
Definition select_map {K} `{Countable K} {V} (n : nat) (p : V → bool) (m : gmap K V) : list V :=
  foldl (λ result '(_, x), if p x then result ++ [x] else result) [] (range n m).

Lemma elem_of_select_map {K} `{Countable K} {V} n (p : V → bool) (m : gmap K V) x :
  x ∈ select_map n p m ↔ p x = true ∧ ∃ k, m !! k = Some x.
Proof.
  unfold select_map.
  assert (∀ l acc, x ∈ foldl (λ result '(_, x), if p x then result ++ [x] else result) acc l ↔
    x ∈ acc ∨ p x = true ∧ x ∈ (l : list (K * V)).*2) as ->.
  { induction l as [|[k y] l IH]; intros acc; cbn [foldl fmap list_fmap snd].
    - rewrite elem_of_nil. tauto.
    - rewrite IH, elem_of_cons. destruct (p y) eqn:Hp.
      + rewrite elem_of_app, list_elem_of_singleton. split; [intros [[?| ->]|?]|intros [?|[? [->|?]]]]; tauto.
      + split; [tauto|]. intros [?|[? [->|?]]]; [tauto|congruence|tauto]. }
  rewrite elem_of_nil. split.
  - intros [[]|[Hp ([k y] & -> & Hk%elem_of_range)%list_elem_of_fmap]]. eauto.
  - intros [Hp [k Hk]]. right. split; [done|]. apply list_elem_of_fmap. exists (k, x).
    by rewrite elem_of_range.
Qed.
End select.

(** The same over a slice. *)
Definition select_slice {V} (p : V → bool) (l : list V) : list V :=
  foldl (λ result x, if p x then result ++ [x] else result) [] l.

Lemma select_slice_filter {V} (p : V → bool) (l : list V) :
  select_slice p l = filter (λ x, p x = true) l.
Proof.
  unfold select_slice. assert (∀ acc, foldl (λ result x, if p x then result ++ [x] else result) acc l =
    acc ++ filter (λ x, p x = true) l) as ->; [|done].
  induction l as [|x l IH]; intros acc; cbn [foldl].
  - by rewrite app_nil_r.
  - rewrite IH, filter_cons. destruct (p x); cbn [decide decide_rel]; case_decide; try done.
    by rewrite <-app_assoc.
Qed.

(** ** Instances *)

Module Instances.

Abbreviation store := (gmap string WorkflowInstance).

Definition key (aggregateType aggregateID : string) : string :=
  aggregateType +:+ ":" +:+ aggregateID.

Definition key_of (i : WorkflowInstance) : string := key (wi_AggregateType i) (wi_AggregateID i).

Definition Get (s : store) (aggregateType aggregateID : string) : result WorkflowInstance :=
  match s !! key aggregateType aggregateID with
  | None => Err (Sentinel ErrInstanceNotFound)
  | Some inst => Ok inst
  end.

Definition Create (s : store) (instance : WorkflowInstance) : store * option error :=
  (<[key_of instance := instance]> s, None).

Definition Update (s : store) (instance : WorkflowInstance) : store * option error :=
  match s !! key_of instance with
  | None => (s, Some (Sentinel ErrInstanceNotFound))
  | Some existing =>
      if negb (IsZero (wi_LastReadUpdatedAt instance)) &&
         negb (bool_decide (wi_UpdatedAt existing = wi_LastReadUpdatedAt instance))
      then (s, Some (Sentinel ErrConcurrentModification))
      else (<[key_of instance := instance]> s, None)
  end.

Definition ListStuck {gr : GoRange} (s : store) : list WorkflowInstance :=
  select_map 100 wi_IsStuck s.

End Instances.

(** ** Events *)

Module Events.

Abbreviation store := (list DomainEvent).

Definition Append (s : store) (event : DomainEvent) : store * option error := (s ++ [event], None).

Definition ListByCorrelation (s : store) (correlationID : string) : list DomainEvent :=
  select_slice (λ e, bool_decide (ev_CorrelationID e = correlationID)) s.

Definition ListByAggregate (s : store) (aggregateType aggregateID : string) : list DomainEvent :=
  select_slice (λ e, bool_decide (ev_AggregateType e = aggregateType) &&
                     bool_decide (ev_AggregateID e = aggregateID)) s.

End Events.

(** ** Tasks *)

Module Tasks.

Abbreviation store := (gmap string PendingTask).

Definition Create (s : store) (task : PendingTask) : store * option error :=
  (<[pt_ID task := task]> s, None).

Definition Get (s : store) (taskID : string) : result PendingTask :=
  match s !! taskID with None => Err (Sentinel ErrTaskNotFound) | Some task => Ok task end.

(** [now] is the wall clock. *)
Definition Complete (now : time) (s : store) (taskID choice actorID : string) :
    store * option error :=
  match s !! taskID with
  | None => (s, Some (Sentinel ErrTaskNotFound))
  | Some task =>
      if decide (pt_Status task = TaskStatusCompleted) then
        (s, Some (Sentinel ErrTaskAlreadyCompleted))
      else
        let task := task <| pt_Status := TaskStatusCompleted |>
                         <| pt_Choice := choice |>
                         <| pt_CompletedBy := actorID |>
                         <| pt_CompletedAt := Some now |> in
        (<[taskID := task]> s, None)
  end.

(** A task the invalidation of [states] cancels. *)
Definition dangles (aggregateType aggregateID : string) (states : list string) (t : PendingTask) :
    bool :=
  bool_decide (pt_AggregateType t = aggregateType) && bool_decide (pt_AggregateID t = aggregateID) &&
  bool_decide (pt_Status t = TaskStatusPending) && contains states (pt_State t).

Section tasks.
Context {gr : GoRange}.

Definition GetByAggregate (s : store) (aggregateType aggregateID : string) : list PendingTask :=
  select_map 101 (λ t, bool_decide (pt_AggregateType t = aggregateType) &&
                       bool_decide (pt_AggregateID t = aggregateID)) s.

Definition ListPending (s : store) : list PendingTask :=
  select_map 102 (λ t, bool_decide (pt_Status t = TaskStatusPending)) s.

(** The loop updates the entries of the map it ranges over. *)
Definition InvalidateByStates (s : store) (aggregateType aggregateID : string)
    (states : list string) : store * option error :=
  if decide (length states = 0) then (s, None)
  else
    (foldl (λ s '(id, t),
        if dangles aggregateType aggregateID states t
        then <[id := t <| pt_Status := TaskStatusCancelled |>]> s else s) s (range 103 s), None).

Definition ListExpired (now : time) (s : store) : list PendingTask :=
  select_map 104 (λ t, bool_decide (pt_Status t = TaskStatusPending) &&
                       negb (IsZero (pt_ExpiresAt t)) && bool_decide (pt_ExpiresAt t < now)%Z) s.

End tasks.
End Tasks.

(** ** Children *)

Module Children.

Abbreviation store := (list ChildRelation).

Definition is_child (childAggregateType childAggregateID : string) (c : ChildRelation) : bool :=
  bool_decide (cr_ChildAggregateType c = childAggregateType) &&
  bool_decide (cr_ChildAggregateID c = childAggregateID).

Definition not_found : error := Errorf "flowstep: child relation not found" [] None.

Definition Create (s : store) (relation : ChildRelation) : store * option error :=
  (s ++ [relation], None).

Definition GetByChild (s : store) (childAggregateType childAggregateID : string) :
    result ChildRelation :=
  match first_some (λ c, if is_child childAggregateType childAggregateID c then Some c else None) s with
  | Some c => Ok c
  | None => Err not_found
  end.

Definition GetByParent (s : store) (parentAggregateType parentAggregateID : string) :
    list ChildRelation :=
  select_slice (λ c, bool_decide (cr_ParentAggregateType c = parentAggregateType) &&
                     bool_decide (cr_ParentAggregateID c = parentAggregateID)) s.

Definition GetByGroup (s : store) (groupID : string) : list ChildRelation :=
  select_slice (λ c, bool_decide (cr_GroupID c = groupID)) s.

(** The first relation of the child is completed in place. *)
Fixpoint Complete (now : time) (s : store) (childAggregateType childAggregateID terminalState : string) :
    store * option error :=
  match s with
  | [] => ([], Some not_found)
  | c :: s =>
      if is_child childAggregateType childAggregateID c then
        ((c <| cr_Status := ChildStatusCompleted |>
            <| cr_ChildTerminalState := terminalState |>
            <| cr_CompletedAt := Some now |>) :: s, None)
      else
        let '(s, err) := Complete now s childAggregateType childAggregateID terminalState in
        (c :: s, err)
  end.

End Children.

(** ** Activities *)

Module Activities.

Abbreviation store := (gmap string ActivityInvocation).

Definition not_found : error := Errorf "flowstep: activity invocation not found" [] None.

Definition Create (s : store) (invocation : ActivityInvocation) : store * option error :=
  (<[inv_ID invocation := invocation]> s, None).

Definition Get (s : store) (invocationID : string) : result ActivityInvocation :=
  match s !! invocationID with None => Err not_found | Some inv => Ok inv end.

Definition UpdateStatus (s : store) (invocationID status : string)
    (r : option ActivityResult) : store * option error :=
  match s !! invocationID with
  | None => (s, Some not_found)
  | Some inv => (<[invocationID := inv <| inv_Status := status |> <| inv_Result := r |>]> s, None)
  end.

(** What [ListRetryable] selects. *)
Definition retryable (inv : ActivityInvocation) : bool :=
  bool_decide (inv_Status inv = ActivityStatusFailed) &&
  bool_decide (is_Some (inv_RetryPolicy inv)) && bool_decide (inv_Attempts inv < inv_MaxAttempts inv)%Z.

Section activities.
Context {gr : GoRange}.

Definition ListByAggregate (s : store) (aggregateType aggregateID : string) :
    list ActivityInvocation :=
  select_map 105 (λ i, bool_decide (inv_AggregateType i = aggregateType) &&
                       bool_decide (inv_AggregateID i = aggregateID)) s.

Definition ListPending (s : store) : list ActivityInvocation :=
  select_map 106 (λ i, bool_decide (inv_Status i = ActivityStatusScheduled)) s.

Definition ListFailed (s : store) : list ActivityInvocation :=
  select_map 107 (λ i, bool_decide (inv_Status i = ActivityStatusFailed)) s.

Definition ListRetryable (s : store) : list ActivityInvocation := select_map 108 retryable s.

End activities.
End Activities.

(** ** The contract of an instance store

    [types/interfaces.go]: "Update MUST use optimistic locking".  A store need
    not keep all of an instance: [store_Read i] is what it gives back of a
    created [i], [store_Merge old i] of [i] written over one that it gave as
    [old].  [plain] holds of the aggregate types whose instances the store keeps
    apart, [good] of the instances it can represent, [ok] of its reachable
    states. *)

Class InstanceStore (St : Type) := {
  store_Get : St → string → string → result WorkflowInstance;
  store_Create : St → WorkflowInstance → St * option error;
  store_Update : St → WorkflowInstance → St * option error;
  store_Read : WorkflowInstance → WorkflowInstance;
  store_Merge : WorkflowInstance → WorkflowInstance → WorkflowInstance
}.

Definition same_key (i j : WorkflowInstance) : Prop :=
  wi_AggregateType i = wi_AggregateType j ∧ wi_AggregateID i = wi_AggregateID j.

Class InstanceStoreLaws (St : Type) `{InstanceStore St} (plain : string → Prop)
    (good : WorkflowInstance → Prop) (ok : St → Prop) := {
  create_ok : ∀ s i s', ok s → good i → store_Create s i = (s', None) → ok s';
  update_ok : ∀ s i s', ok s → good i → store_Update s i = (s', None) → ok s';
  merge_key : ∀ old i, same_key i old → same_key (store_Merge old i) old;
  get_create : ∀ s i s', ok s → good i → store_Create s i = (s', None) →
    store_Get s' (wi_AggregateType i) (wi_AggregateID i) = Ok (store_Read i);
  get_update : ∀ s i s' old, ok s → good i → store_Update s i = (s', None) →
    store_Get s (wi_AggregateType i) (wi_AggregateID i) = Ok old →
    store_Get s' (wi_AggregateType i) (wi_AggregateID i) = Ok (store_Merge old i);
  create_failed : ∀ s i s' e, store_Create s i = (s', Some e) → s' = s;
  update_failed : ∀ s i s' e, store_Update s i = (s', Some e) → s' = s;
  update_conflict : ∀ s i old, ok s → good i →
    store_Get s (wi_AggregateType i) (wi_AggregateID i) = Ok old →
    wi_LastReadUpdatedAt i ≠ 0%Z → wi_UpdatedAt old ≠ wi_LastReadUpdatedAt i →
    ∃ e, store_Update s i = (s, Some e) ∧ errors_Is e ErrConcurrentModification = true;
  update_accepted : ∀ s i old, ok s → good i →
    store_Get s (wi_AggregateType i) (wi_AggregateID i) = Ok old →
    wi_UpdatedAt old = wi_LastReadUpdatedAt i → ∃ s', store_Update s i = (s', None);
  get_frame : ∀ s i s' at' aid, ok s → good i →
    store_Create s i = (s', None) ∨ store_Update s i = (s', None) →
    plain at' → plain (wi_AggregateType i) →
    (at', aid) ≠ (wi_AggregateType i, wi_AggregateID i) →
    store_Get s' at' aid = store_Get s at' aid
}.

(** *** What the store must keep of an instance *)

(** The part of an instance the statechart is about. *)
Record chart := mkChart {
  ch_type : string;
  ch_id : string;
  ch_version : Z;
  ch_state : string;
  ch_shallow : gomap string;
  ch_deep : gomap string;
  ch_regions : gomap string
}.

Definition chart_of (i : WorkflowInstance) : chart :=
  mkChart (wi_AggregateType i) (wi_AggregateID i) (wi_WorkflowVersion i) (wi_CurrentState i)
    (wi_ShallowHistory i) (wi_DeepHistory i) (wi_ActiveInParallel i).

(** The store gives back what it was given, as far as the statechart goes, and does
    not round the time of a version that an accepted update has read. *)
Class InstanceStoreCharts (St : Type) `{InstanceStore St} (good : WorkflowInstance → Prop) := {
  read_chart : ∀ i, chart_of (store_Read i) = chart_of i;
  merge_chart : ∀ old i, wi_AggregateType i = wi_AggregateType old →
    wi_AggregateID i = wi_AggregateID old → wi_WorkflowVersion i = wi_WorkflowVersion old →
    chart_of (store_Merge old i) = chart_of i;
  read_time : ∀ i v, good i → wi_LastReadUpdatedAt i = wi_UpdatedAt v →
    wi_UpdatedAt (store_Read v) = wi_UpdatedAt v
}.

(** *** What a client of the contract may rely on *)

Section locking.
Context {St : Type} `{InstanceStoreLaws St plain good ok}.

(** Updates as they reach the store, in any interleaving of their authors: the
    store at the end and the updates it accepted. *)
Fixpoint run_updates (s : St) (l : list WorkflowInstance) : St * list WorkflowInstance :=
  match l with
  | [] => (s, [])
  | i :: l =>
      match store_Update s i with
      | (s, None) => let '(s, accepted) := run_updates s l in (s, i :: accepted)
      | (s, Some _) => run_updates s l
      end
  end.

(** Each accepted update had read what the one before it had left. *)
Inductive lock_chain : WorkflowInstance → list WorkflowInstance → Prop :=
  | lock_chain_nil old : lock_chain old []
  | lock_chain_cons old i l :
      wi_LastReadUpdatedAt i = wi_UpdatedAt old → lock_chain (store_Merge old i) l →
      lock_chain old (i :: l).

(** What a list of updates leaves of [old]. *)
Definition latest (old : WorkflowInstance) (l : list WorkflowInstance) : WorkflowInstance :=
  foldl store_Merge old l.

Lemma run_updates_spec s old l :
  ok s → store_Get s (wi_AggregateType old) (wi_AggregateID old) = Ok old →
  Forall (λ i, good i ∧ same_key i old ∧ wi_LastReadUpdatedAt i ≠ 0%Z) l →
  let '(s', accepted) := run_updates s l in
  lock_chain old accepted ∧ ok s' ∧
  store_Get s' (wi_AggregateType old) (wi_AggregateID old) = Ok (latest old accepted).
Proof.
  revert s old. induction l as [|i l IH]; intros s old Hok Hget Hall; cbn.
  { split; [constructor|done]. }
  apply Forall_cons in Hall as ((Hgood & Hkey & Hz) & Hall). pose proof Hkey as [Ht Hid].
  destruct (store_Update s i) as [s1 [e|]] eqn:Hup.
  - apply update_failed in Hup as ->. by apply IH.
  - assert (wi_UpdatedAt old = wi_LastReadUpdatedAt i) as Hread.
    { destruct (decide (wi_UpdatedAt old = wi_LastReadUpdatedAt i)) as [|Hne]; [done|].
      destruct (update_conflict s i old) as (e & He & _); try done; [by rewrite Ht, Hid|congruence]. }
    pose proof (update_ok s i s1 Hok Hgood Hup) as Hok1.
    pose proof (get_update s i s1 old Hok Hgood Hup) as Hget1. rewrite Ht, Hid in Hget1.
    specialize (Hget1 Hget). destruct (merge_key old i Hkey) as [Hmt Hmid].
    specialize (IH s1 (store_Merge old i) Hok1). rewrite Hmt, Hmid in IH. specialize (IH Hget1).
    destruct (run_updates s1 l) as [s2 accepted]. destruct IH as (Hc & Hok2 & Hg).
    { eapply Forall_impl; [exact Hall|]. intros j (? & [? ?] & ?). split_and!; try done.
      split; congruence. }
    split_and!; [by constructor|done..].
Qed.

End locking.

(** *** The in-memory store keeps the contract *)

(** The string has no [':']. *)
Definition no_colon (s : string) : Prop := no_char ":" s.

#[export] Instance mem_instance_store : InstanceStore Instances.store := {
  store_Get := Instances.Get;
  store_Create := Instances.Create;
  store_Update := Instances.Update;
  store_Read := λ i, i;
  store_Merge := λ _ i, i
}.

(** Keys tell aggregates apart when no type contains the separator. *)
Lemma key_inj at1 aid1 at2 aid2 :
  no_colon at1 → no_colon at2 → Instances.key at1 aid1 = Instances.key at2 aid2 →
  at1 = at2 ∧ aid1 = aid2.
Proof. apply (sep_inj ":"). Qed.

Lemma mem_Update_inv (s s' : Instances.store) i :
  Instances.Update s i = (s', None) → s' = <[Instances.key_of i := i]> s.
Proof. unfold Instances.Update. case_match; [|done]. case_match; [done|]. by intros [= <-]. Qed.

Lemma mem_Get_inserted (s : Instances.store) i :
  Instances.Get (<[Instances.key_of i := i]> s) (wi_AggregateType i) (wi_AggregateID i) = Ok i.
Proof. unfold Instances.Get, Instances.key_of. by rewrite lookup_insert_eq. Qed.

#[export] Instance mem_instance_store_laws :
  InstanceStoreLaws Instances.store no_colon (λ _, True) (λ _, True).
Proof.
  constructor; cbn; try done.
  - intros s i s' _ _ [= <-]. apply mem_Get_inserted.
  - intros s i s' old _ _ ->%mem_Update_inv _. apply mem_Get_inserted.
  - intros s i s' e. unfold Instances.Update. by repeat case_match; intros [= <- ?].
  - intros s i old _ _ Hold Hz Hne. unfold Instances.Get in Hold.
    unfold Instances.Update, Instances.key_of. destruct (s !! _) as [old'|]; [|done].
    injection Hold as ->. unfold IsZero. rewrite !bool_decide_eq_false_2 by done. by eexists.
  - intros s i old _ _ Hold Heq. unfold Instances.Get in Hold.
    unfold Instances.Update, Instances.key_of. destruct (s !! _) as [old'|]; [|done].
    injection Hold as ->. rewrite (bool_decide_eq_true_2 (wi_UpdatedAt old = _)) by done.
    rewrite andb_false_r. by eexists.
  - intros s i s' at' aid _ _ Hs Hp1 Hp2 Hne.
    assert (s' = <[Instances.key_of i := i]> s) as ->.
    { destruct Hs as [[= <-]|Hs%mem_Update_inv]; done. }
    unfold Instances.Get, Instances.key_of. rewrite lookup_insert_ne; [done|].
    intros [Ha Hb]%key_inj; [congruence|done..].
Qed.

#[export] Instance mem_charts : InstanceStoreCharts Instances.store (λ _, True).
Proof. by constructor. Qed.

(** Without that restriction the store confuses aggregates: the aggregate
    [b:c] of type [a] reads, and an update of it would overwrite, the instance
    created for the aggregate [c] of type [a:b]. *)
Theorem Create_confuses s instance a b c :
  let stored := instance <| wi_AggregateType := a +:+ ":" +:+ b |> <| wi_AggregateID := c |> in
  let other := instance <| wi_AggregateType := a |> <| wi_AggregateID := b +:+ ":" +:+ c |> in
  let s' := (Instances.Create s stored).1 in
  Instances.Get s' a (b +:+ ":" +:+ c) = Ok stored ∧
  (wi_LastReadUpdatedAt instance = wi_UpdatedAt instance →
   Instances.Get (Instances.Update s' other).1 (a +:+ ":" +:+ b) c = Ok other).
Proof.
  assert (Instances.key (a +:+ ":" +:+ b) c = Instances.key a (b +:+ ":" +:+ c)) as Hkey.
  { assert (∀ x y z, (x +:+ y) +:+ z = x +:+ (y +:+ z)) as Hassoc.
    { intros x y z. induction x as [|ch x IH]; [done|]. change (String ch ((x +:+ y) +:+ z) =
        String ch (x +:+ (y +:+ z))). by rewrite IH. }
    unfold Instances.key. by rewrite !Hassoc. }
  cbv zeta. unfold Instances.Create, Instances.Update, Instances.Get, Instances.key_of. cbn.
  rewrite Hkey, lookup_insert_eq. split; [done|]. intros ->. cbn.
  rewrite bool_decide_eq_true_2, andb_false_r by done. cbn. by rewrite lookup_insert_eq.
Qed.

(** ** Tasks *)

Section tasks.
Context {gr : GoRange}.

Lemma InvalidateByStates_spec s aggregateType aggregateID states :
  let s' := (Tasks.InvalidateByStates s aggregateType aggregateID states).1 in
  ∀ id, s' !! id =
    (λ t, if Tasks.dangles aggregateType aggregateID states t
          then t <| pt_Status := TaskStatusCancelled |> else t) <$> s !! id.
Proof.
  cbv zeta. intros id. unfold Tasks.InvalidateByStates.
  set (p := Tasks.dangles aggregateType aggregateID states).
  set (cancel := λ t, if p t then t <| pt_Status := TaskStatusCancelled |> else t).
  case_decide as Hlen; cbn.
  { apply nil_length_inv in Hlen as ->. destruct (s !! id) as [t|]; cbn; [|done].
    unfold cancel, p, Tasks.dangles.
    assert (contains [] (pt_State t) = false) as -> by (apply contains_false, not_elem_of_nil).
    by rewrite andb_false_r. }
  assert (∀ (l : list (string * PendingTask)) (m : Tasks.store), NoDup l.*1 →
    (∀ k t, (k, t) ∈ l → m !! k = Some t) →
    foldl (λ s '(id, t), if p t then <[id := t <| pt_Status := TaskStatusCancelled |>]> s else s) m l !! id
    = if decide (id ∈ l.*1) then cancel <$> m !! id else m !! id) as Hfold.
  { induction l as [|[k t] l IH]; intros m Hnd Hm; cbn [foldl fmap list_fmap fst].
    { by rewrite decide_False by apply not_elem_of_nil. }
    apply NoDup_cons in Hnd as [Hk Hnd]. rewrite IH; [|done|].
    - pose proof (Hm k t ltac:(by left)) as Hmk. destruct (decide (id = k)) as [->|Hne].
      + rewrite decide_False, decide_True by (done || by left). rewrite Hmk. cbn. unfold cancel.
        destruct (p t); [by rewrite lookup_insert_eq|done].
      + assert ((if p t then <[k:=t <| pt_Status := TaskStatusCancelled |>]> m else m) !! id = m !! id)
          as -> by (destruct (p t); [by rewrite lookup_insert_ne|done]).
        destruct (decide (id ∈ l.*1)); [by rewrite decide_True by by right|].
        rewrite decide_False; [done|]. by intros [?|?]%elem_of_cons.
    - intros k' t' Hin. assert (k' ≠ k).
      { intros ->. apply Hk. apply list_elem_of_fmap. by exists (k, t'). }
      destruct (p t); [rewrite lookup_insert_ne by done|]; apply Hm; by right. }
  rewrite Hfold; [|apply range_keys_NoDup|by intros ? ? ?%elem_of_range].
  case_decide as Hin; [done|]. rewrite elem_of_range_keys in Hin.
  destruct (s !! id); [|done]. exfalso. eauto.
Qed.

(** Invalidation cancels exactly the pending tasks of the aggregate that
    belong to one of the states, and changes nothing else. *)
Theorem InvalidateByStates_exact s aggregateType aggregateID states :
  let s' := (Tasks.InvalidateByStates s aggregateType aggregateID states).1 in
  ∀ id, s' !! id =
    (λ t, if Tasks.dangles aggregateType aggregateID states t
          then t <| pt_Status := TaskStatusCancelled |> else t) <$> s !! id.
Proof. apply InvalidateByStates_spec. Qed.

(** A task is completed once: the first completion of a task that is not
    completed records its choice and actor, and from then on every completion
    fails with ErrTaskAlreadyCompleted and neither completions nor
    invalidations change it. *)
Theorem Complete_once s id task now choice actor :
  s !! id = Some task → pt_Status task ≠ TaskStatusCompleted →
  ∃ s1 task1, Tasks.Complete now s id choice actor = (s1, None) ∧ s1 !! id = Some task1 ∧
    pt_Status task1 = TaskStatusCompleted ∧ pt_Choice task1 = choice ∧
    pt_CompletedBy task1 = actor ∧
    (∀ now' choice' actor', ∃ e, Tasks.Complete now' s1 id choice' actor' = (s1, Some e) ∧
       errors_Is e ErrTaskAlreadyCompleted = true) ∧
    (∀ at' aid states, (Tasks.InvalidateByStates s1 at' aid states).1 !! id = Some task1).
Proof.
  intros Htask Hst. unfold Tasks.Complete at 1. rewrite Htask, decide_False by done.
  eexists _, _. split; [done|]. rewrite lookup_insert_eq. split_and!; [done..| |].
  - intros now' choice' actor'. unfold Tasks.Complete. rewrite lookup_insert_eq.
    rewrite decide_True by done. by eexists.
  - intros at' aid states. rewrite (InvalidateByStates_spec _ at' aid states id), lookup_insert_eq.
    cbn. unfold Tasks.dangles. cbn.
    by rewrite (bool_decide_eq_false_2 (TaskStatusCompleted = TaskStatusPending)), andb_false_r.
Qed.
End tasks.
