(* ===== verification/SideEffects.v ===== *)
(** * SideEffects: events that store non-deterministic results

    Models [types/side_effect.go]: the two event kinds that carry the result of
    an operation for a later replay, and their parsers. *)

From S2P Require Import Prelude Errors Types.

Definition EventTypeSideEffect : string := "SideEffect".
Definition EventTypeActivityOutcome : string := "ActivityOutcome".

Definition PayloadKeySideEffectName : string := "_side_effect_name".
Definition PayloadKeySideEffectResult : string := "_side_effect_result".
Definition PayloadKeyActivityID : string := "_activity_id".
Definition PayloadKeyActivityName : string := "_activity_name".
Definition PayloadKeyActivityResult : string := "_activity_result".
Definition PayloadKeyTransitionPath : string := "_transition_path".

(** A failed type assertion yields the zero value. *)
Definition as_string (v : option value) : string :=
  match v with Some (VStr s) => s | _ => "" end.

Definition as_map (v : option value) : option (gomap value) :=
  match v with Some (VMap m) => Some m | _ => None end.

(** [m[k]] of a [map[string]any]: nil for a missing key. *)
Definition any_at (m : gomap value) (k : string) : value := default VNil (gm_get m k).

(** The fields an engine event leaves zero are filled by [outcome_event]. *)
Definition outcome_event (id aggregateType aggregateID workflowType : string)
    (workflowVersion : Z) (eventType correlationID : string) (payload : gmap string value)
    (now : time) : DomainEvent :=
  mkDomainEvent id aggregateType aggregateID workflowType workflowVersion eventType
    correlationID "" "" None None "" None (Some payload) now 0.

Definition NewSideEffectEvent (id aggregateType aggregateID workflowType : string)
    (workflowVersion : Z) (correlationID name : string) (result : value) (now : time) :
    DomainEvent :=
  outcome_event id aggregateType aggregateID workflowType workflowVersion EventTypeSideEffect
    correlationID
    {[ PayloadKeySideEffectName := VStr name; PayloadKeySideEffectResult := result ]} now.

Definition ParseSideEffect (event : DomainEvent) : option (string * value) :=
  if decide (ev_EventType event ≠ EventTypeSideEffect) then None
  else Some (as_string (gm_get (ev_Payload event) PayloadKeySideEffectName),
             any_at (ev_Payload event) PayloadKeySideEffectResult).

Definition NewActivityOutcomeEvent (id aggregateType aggregateID workflowType : string)
    (workflowVersion : Z) (correlationID activityID activityName : string)
    (result : ActivityResult) (transitionPath : string) (now : time) : DomainEvent :=
  let resultPayload := {[ "output" := VMap (ar_Output result);
                          "error" := VStr (ar_Error result) ]} in
  outcome_event id aggregateType aggregateID workflowType workflowVersion
    EventTypeActivityOutcome correlationID
    {[ PayloadKeyActivityID := VStr activityID;
       PayloadKeyActivityName := VStr activityName;
       PayloadKeyActivityResult := VMap (Some resultPayload);
       PayloadKeyTransitionPath := VStr transitionPath ]} now.

Definition ParseActivityOutcome (event : DomainEvent) :
    option (string * string * ActivityResult * string) :=
  if decide (ev_EventType event ≠ EventTypeActivityOutcome) then None
  else
    let p := ev_Payload event in
    let result :=
      match as_map (gm_get p PayloadKeyActivityResult) with
      | Some resultMap =>
          mkActivityResult (default None (as_map (gm_get resultMap "output")))
            (as_string (gm_get resultMap "error"))
      | None => mkActivityResult None ""
      end in
    Some (as_string (gm_get p PayloadKeyActivityID),
          as_string (gm_get p PayloadKeyActivityName), result,
          as_string (gm_get p PayloadKeyTransitionPath)).

(** What a side-effect or activity-outcome event stores is what its parser
    reads back, and neither parser accepts an event of the other kind. *)
Theorem outcome_events_round_trip id at' aid wt v cid now :
  (∀ name result,
     ParseSideEffect (NewSideEffectEvent id at' aid wt v cid name result now) =
       Some (name, result) ∧
     ParseActivityOutcome (NewSideEffectEvent id at' aid wt v cid name result now) = None) ∧
  (∀ actID actName result path,
     ParseActivityOutcome (NewActivityOutcomeEvent id at' aid wt v cid actID actName result path now) =
       Some (actID, actName, result, path) ∧
     ParseSideEffect (NewActivityOutcomeEvent id at' aid wt v cid actID actName result path now) = None).
Proof.
  split; [done|]. intros actID actName [output err] path. by split.
Qed.
