(* ===== verification/Executor.v ===== *)
(** * Executor: transitions of a flat or hierarchical state

    Models [internal/runtime/executor.go] with the effectful helpers it uses
    ([runGuards], [resolveRoute], [runSyncActivity]) and [checkShutdown].  The
    instance the Go code mutates through a pointer is passed on as a value. *)

From S2P Require Import Prelude Errors Types Hash Validate Compile Helpers Effects SideEffects.

(** ** Routes and guards *)

(** The loop of [resolveRoute]: the first condition that holds decides, the last
    default is remembered. *)
Fixpoint resolveRoute_loop (routes : list Route) (defaultTarget : string)
    (aggregate : WorkflowInstance) (params : gomap value) : result string :=
  match routes with
  | [] =>
      if decide (defaultTarget ≠ "") then Ok defaultTarget
      else Err (Errorf "flowstep: no condition matched and no default route: %w" []
                  (Some (Sentinel ErrNoMatchingRoute)))
  | route :: routes =>
      if rt_IsDefault route then resolveRoute_loop routes (rt_Target route) aggregate params
      else
        match rt_Condition route with
        | None => resolveRoute_loop routes defaultTarget aggregate params
        | Some cond =>
            match c_Evaluate cond aggregate params with
            | Err err => Err (Errorf "flowstep: condition evaluation failed: %w" [] (Some err))
            | Ok true => Ok (rt_Target route)
            | Ok false => resolveRoute_loop routes defaultTarget aggregate params
            end
        end
  end.

Definition resolveRoute (tr : TransitionDef) (aggregate : WorkflowInstance)
    (params : gomap value) : result string :=
  resolveRoute_loop (tr_Routes tr) "" aggregate params.

(** [runGuards]: [i] is the index of the first of [guards] in [ct.Def.Guards];
    [Compile] gives every guard a name. *)
Fixpoint runGuards_loop (workflowType : string) (ct : CompiledTransition)
    (aggregate : WorkflowInstance) (params : gomap value) (i : nat) (guards : list Guard) :
    prog (option error) :=
  match guards with
  | [] => Ret None
  | guard :: guards =>
      match g_Check guard aggregate params with
      | None => runGuards_loop workflowType ct aggregate params (S i) guards
      | Some err =>
          let guardName := str_of (ct_GuardNames ct !! i) in
          _ ← perform (Notify (NGuardFailed workflowType (tr_Name (ct_Def ct)) guardName err));
          Ret (Some (GuardError guardName err))
      end
  end.

Definition runGuards (workflowType : string) (ct : CompiledTransition)
    (aggregate : WorkflowInstance) (params : gomap value) : prog (option error) :=
  runGuards_loop workflowType ct aggregate params 0 (tr_Guards (ct_Def ct)).

(** [for _, c := range cm.TransitionsByState[s] { if c.Def.Name == name { ct = c; break } }] *)
Definition find_compiled (cm : CompiledMachine) (s name : string) : option CompiledTransition :=
  first_some (λ c, if decide (tr_Name (ct_Def c) = name) then Some c else None)
    (default [] (cm_TransitionsByState cm !! s)).

(** The source a transition fires from: the leaf, or its nearest ancestor that is
    a source. *)
Definition effective_source (cm : CompiledMachine) (sources : list string) (leaf : string) :
    option string :=
  if contains sources leaf then Some leaf
  else first_some (λ a, if contains sources a then Some a else None)
         (ancestry_of (cm_Ancestry cm) leaf).

Definition is_terminal_state (def : WorkflowDef) (s : string) : bool :=
  match def_States def !! s with Some st => sd_IsTerminal st | None => false end.

Definition terminal_error (instance : WorkflowInstance) : error :=
  Errorf "flowstep: workflow %s/%s is in terminal state %q: %w"
    [FStr (wi_AggregateType instance); FStr (wi_AggregateID instance);
     FStr (wi_CurrentState instance)] (Some (Sentinel ErrAlreadyTerminal)).

Section executor.
Context {gr : GoRange} {cfg : Config}.
Implicit Types (cm : CompiledMachine) (instance : WorkflowInstance) (params : gomap value).

(** ** Shutdown *)

Definition checkShutdown : prog (option error) :=
  down ← perform ShutdownLoad;
  Ret (if (down : bool)
       then Some (Errorf "flowstep: engine is shut down: %w" [] (Some (Sentinel ErrEngineShutdown)))
       else None).

(** The prologue of every public operation: the shutdown check, then
    [e.wg.Add(1)] and the deferred [e.wg.Done()]. *)
Definition operation {A} (body : prog (result A)) : prog (result A) :=
  must checkShutdown orelse ret_err;
  _ ← perform WgAdd;
  r ← body;
  _ ← perform WgDone;
  Ret r.

(** ** Validation *)

Definition validateTransition cm instance (transitionName : string) params :
    prog (result (CompiledTransition * string)) :=
  let def := cm_Definition cm in
  match def_Transitions def !! transitionName with
  | None =>
      fail "flowstep: transition %q not found in workflow %q: %w"
        [FStr transitionName; FStr (def_WorkflowType def)] (Sentinel ErrInvalidTransition)
  | Some tr =>
      if is_terminal_state def (wi_CurrentState instance) then ret_err (terminal_error instance)
      else
        match effective_source cm (tr_Sources tr) (wi_CurrentState instance) with
        | None =>
            fail "flowstep: transition %q not valid from state %q (expected one of %v): %w"
              [FStr transitionName; FStr (wi_CurrentState instance); FStrs (tr_Sources tr)]
              (Sentinel ErrInvalidTransition)
        | Some effectiveSource =>
            match find_compiled cm effectiveSource transitionName with
            | None =>
                fail "flowstep: compiled transition %q missing for state %q: %w"
                  [FStr transitionName; FStr effectiveSource] (Sentinel ErrInvalidTransition)
            | Some ct =>
                must runGuards (def_WorkflowType def) ct instance params orelse ret_err;
                if decide (0 < length (tr_Routes tr)) then
                  match resolveRoute tr instance params with
                  | Err err => ret_err err
                  | Ok resolved => Ret (Ok (ct, resolved))
                  end
                else Ret (Ok (ct, tr_Target tr))
            end
        end
  end.

(** ** Commit *)

(** [if leaf, ok := cm.InitialLeafMap[s]; ok { s = leaf }] *)
Definition initial_leaf_or_self cm (s : string) : string := default s (cm_InitialLeafMap cm !! s).

(** Step 1 of [commitTransition]: the target, by history or initial leaf. *)
Definition resolve_target cm instance (historyMode targetState : string) : string :=
  if decide (historyMode = HistoryShallow) then
    match gm_get (wi_ShallowHistory instance) targetState with
    | Some recorded => initial_leaf_or_self cm recorded
    | None => initial_leaf_or_self cm targetState
    end
  else if decide (historyMode = HistoryDeep) then
    match gm_get (wi_DeepHistory instance) targetState with
    | Some recorded => recorded
    | None => initial_leaf_or_self cm targetState
    end
  else initial_leaf_or_self cm targetState.

(** The event a transition of [instance] writes; causation, error and sequence
    number are left zero. *)
Definition transition_event cm instance (id eventType actorID transitionName : string)
    (payload : gomap value) (now : time) : DomainEvent :=
  mkDomainEvent id (wi_AggregateType instance) (wi_AggregateID instance)
    (def_WorkflowType (cm_Definition cm)) (def_Version (cm_Definition cm)) eventType
    (wi_CorrelationID instance) "" actorID (copyMap (wi_StateData instance))
    (copyMap (wi_StateData instance)) transitionName None payload now 0.

(** Step 3: the states to exit and to enter. *)
Definition exit_sequence cm (sourceLeaf resolvedTarget : string) : list string :=
  computeExitSequence sourceLeaf (str_of (LCA cm sourceLeaf resolvedTarget)) (cm_Ancestry cm).

Definition entry_sequence cm (sourceLeaf resolvedTarget : string) : list string :=
  let lca := str_of (LCA cm sourceLeaf resolvedTarget) in
  if is_parallel cm resolvedTarget then computeParallelEntrySequence cm lca resolvedTarget
  else computeEntrySequence lca resolvedTarget (cm_Ancestry cm).

Definition activity_input cm instance (transitionName sourceState eventID : string) params :
    ActivityInput :=
  mkActivityInput (def_WorkflowType (cm_Definition cm)) (wi_AggregateType instance)
    (wi_AggregateID instance) (wi_CorrelationID instance) params 0 transitionName sourceState
    eventID.

(** [runSyncActivity]: nothing happens when the runner cannot resolve the name. *)
Definition runSyncActivity (activityName : string) (input : ActivityInput) : prog (option error) :=
  if negb has_ActivityRunner then Ret None
  else if negb is_ActivityResolver then Ret None
  else
    ok ← perform (ActivityResolve activityName);
    if (ok : bool) then perform (ActivityExecute activityName input) else Ret None.

(** Step 5: exit activities; a failure rolls back and aborts. *)
Definition run_exit_activities cm (t : tx) (actInput : ActivityInput) (exitSeq : list string) :
    prog (unit + error) :=
  for_each exitSeq () (λ stateName _,
    let st := state_at (cm_Definition cm) stateName in
    if decide (sd_ExitActivity st = "") then Ret (inl ())
    else
      failure ← runSyncActivity (sd_ExitActivity st) actInput;
      match failure with
      | None => Ret (inl ())
      | Some err =>
          _ ← perform (Rollback t);
          Ret (inr (Errorf "flowstep: exit activity %q failed for state %q: %w"
                      [FStr (sd_ExitActivity st); FStr stateName] (Some err)))
      end).

Definition stuck_reason (activity stateName : string) (err : error) : string :=
  sprintf "entry activity %q failed for state %q: %v"
    [FStr activity; FStr stateName; FStr (error_text err)].

Definition stuck_error (reason : string) : error := Errorf "flowstep: %s" [FStr reason] None.

(** [instance] marked stuck at [sourceLeaf]. *)
Definition mark_stuck instance (sourceLeaf reason : string) (now : time) : WorkflowInstance :=
  instance <| wi_LastReadUpdatedAt := wi_UpdatedAt instance |>
           <| wi_CurrentState := sourceLeaf |>
           <| wi_IsStuck := true |>
           <| wi_StuckReason := reason |>
           <| wi_UpdatedAt := now |>.

(** How the loop over entry activities ends early: at a savepoint, with the
    reason, or aborted, with the error to return. *)
Definition entry_failure : Type := string + error.

(** Step 6: entry activities; a failure leaves the instance stuck. *)
Definition run_entry_activities cm instance (t : tx) (actInput : ActivityInput)
    (sourceLeaf : string) (now : time) (entrySeq : list string) : prog (unit + entry_failure) :=
  for_each entrySeq () (λ stateName _,
    let st := state_at (cm_Definition cm) stateName in
    if decide (sd_EntryActivity st = "") then Ret (inl ())
    else
      _ ← (if hasSavepoints then perform (Savepoint t ("entry_" +:+ stateName)) else Ret None);
      failure ← runSyncActivity (sd_EntryActivity st) actInput;
      match failure with
      | None => Ret (inl ())
      | Some err =>
          let stuckReason := stuck_reason (sd_EntryActivity st) stateName err in
          if hasSavepoints then
            _ ← perform (RollbackTo t ("entry_" +:+ stateName));
            Ret (inr (inl stuckReason))
          else
            _ ← perform (Rollback t);
            began ← perform Begin;
            _ ← match began with
                | Ok stuckTx =>
                    _ ← perform (InstanceUpdate stuckTx
                                   (mark_stuck instance sourceLeaf stuckReason now));
                    perform (Commit stuckTx)
                | Err _ => Ret None
                end;
            Ret (inr (inr (stuck_error stuckReason)))
      end).

(** [collectSubtreeStates], which always ends
    ([Helpers.v]). *)
Definition exited_states cm (exitSeq : list string) : list string :=
  default [] (collectSubtreeStates exitSeq (cm_Definition cm)).

(** Step 7: cancel the tasks of every exited state. *)
Definition invalidate_tasks cm instance (t : tx) (exitSeq : list string) : prog unit :=
  if has_TaskStore && is_TaskInvalidator then
    let exitedStates := exited_states cm exitSeq in
    if decide (0 < length exitedStates) then
      invErr ← perform (InvalidateByStates t (wi_AggregateType instance)
                          (wi_AggregateID instance) exitedStates);
      match (invErr : option error) with
      | Some err => perform (Notify (NPostCommitError "TaskInvalidator.InvalidateByStates" err))
      | None => Ret ()
      end
    else Ret ()
  else Ret ().

(** Step 8: the instance after the transition. *)
Definition moved_instance cm instance (resolvedTarget : string) (now : time) : WorkflowInstance :=
  let i := instance <| wi_LastReadUpdatedAt := wi_UpdatedAt instance |>
                    <| wi_CurrentState := resolvedTarget |> in
  let i := if is_parallel cm resolvedTarget then enterParallelRegions i cm resolvedTarget
           else i <| wi_ActiveInParallel := None |> in
  i <| wi_UpdatedAt := now |>.

(** The tail every commit ends with: append the event, update the instance,
    commit; any failure before the commit rolls back. *)
Definition persist (t : tx) (event : DomainEvent) instance : prog (option error) :=
  must perform (EventAppend t event) orelse (λ err,
    _ ← perform (Rollback t); Ret (Some (Errorf "flowstep: append event: %w" [] (Some err))));
  must perform (InstanceUpdate t instance) orelse (λ err,
    _ ← perform (Rollback t); Ret (Some (Errorf "flowstep: update instance: %w" [] (Some err))));
  must perform (Commit t) orelse (λ err,
    Ret (Some (Errorf "flowstep: commit tx: %w" [] (Some err))));
  Ret None.

Definition commitTransition cm instance (ct : CompiledTransition)
    (targetState transitionName actorID : string) params :
    prog (result (DomainEvent * WorkflowInstance)) :=
  let sourceLeaf := wi_CurrentState instance in
  now ← perform Now;
  let resolvedTarget := resolve_target cm instance (tr_HistoryMode (ct_Def ct)) targetState in
  eventID ← perform GenerateID;
  let event := transition_event cm instance eventID (tr_Event (ct_Def ct)) actorID
                 transitionName params now in
  let exitSeq := exit_sequence cm sourceLeaf resolvedTarget in
  let entrySeq := entry_sequence cm sourceLeaf resolvedTarget in
  let instance := recordHistory instance sourceLeaf exitSeq (cm_Definition cm) in
  let actInput := activity_input cm instance transitionName sourceLeaf eventID params in
  t ⇐ perform Begin orelse fail "flowstep: begin tx: %w" [];
  exited ← run_exit_activities cm t actInput exitSeq;
  match exited with
  | inr err => ret_err err
  | inl _ =>
      entered ← run_entry_activities cm instance t actInput sourceLeaf now entrySeq;
      match entered with
      | inr (inr err) => ret_err err
      | inr (inl stuckReason) =>
          _ ← invalidate_tasks cm instance t exitSeq;
          must persist t event (mark_stuck instance sourceLeaf stuckReason now) orelse ret_err;
          ret_err (stuck_error stuckReason)
      | inl _ =>
          _ ← invalidate_tasks cm instance t exitSeq;
          let instance := moved_instance cm instance resolvedTarget now in
          must persist t event instance orelse ret_err;
          Ret (Ok (event, instance))
      end
  end.

(** ** Instances *)

Definition new_instance cm (aggregateType aggregateID id correlationID : string) (now : time) :
    WorkflowInstance :=
  let def := cm_Definition cm in
  mkWorkflowInstance id (def_WorkflowType def) (def_Version def) aggregateType aggregateID
    (initial_leaf_or_self cm (def_InitialState def)) (Some ∅) correlationID false "" None 0
    now now (Some ∅) (Some ∅) None 0 0.

Definition createInstance cm (aggregateType aggregateID : string) :
    prog (result WorkflowInstance) :=
  now ← perform Now;
  id ← perform GenerateID;
  correlationID ← perform GenerateID;
  let newInstance := new_instance cm aggregateType aggregateID id correlationID now in
  t ⇐ perform Begin orelse fail "flowstep: begin tx for create: %w" [];
  must perform (InstanceCreate t newInstance) orelse (λ err,
    _ ← perform (Rollback t); fail "flowstep: create instance: %w" [] err);
  must perform (Commit t) orelse fail "flowstep: commit create: %w" [];
  Ret (Ok newInstance).

Definition no_workflow (aggregateType : string) : error :=
  Errorf "flowstep: no workflow registered for aggregate type %q" [FStr aggregateType] None.

Definition no_version (version : Z) (aggregateType : string) : error :=
  Errorf "flowstep: no workflow version %d registered for aggregate type %q"
    [FInt version; FStr aggregateType] None.

Definition loadInstanceAndCompiled (aggregateType aggregateID : string) :
    prog (result (CompiledMachine * WorkflowInstance)) :=
  got ← perform (InstanceGet aggregateType aggregateID);
  match (got : result WorkflowInstance) with
  | Err err =>
      if negb (errors_Is err ErrInstanceNotFound) then
        fail "flowstep: get instance: %w" [] err
      else
        latest ← perform (CompiledFor aggregateType 0);
        match (latest : option CompiledMachine) with
        | None => ret_err (no_workflow aggregateType)
        | Some cm =>
            instance ⇐ createInstance cm aggregateType aggregateID orelse ret_err;
            Ret (Ok (cm, instance))
        end
  | Ok instance =>
      found ← perform (CompiledFor aggregateType (wi_WorkflowVersion instance));
      match (found : option CompiledMachine) with
      | None => ret_err (no_version (wi_WorkflowVersion instance) aggregateType)
      | Some cm => Ret (Ok (cm, instance))
      end
  end.

(** ** Admin recovery *)

Definition forced_instance cm instance (targetState : string) (now : time) : WorkflowInstance :=
  let i := instance <| wi_LastReadUpdatedAt := wi_UpdatedAt instance |>
                    <| wi_CurrentState := targetState |>
                    <| wi_IsStuck := false |>
                    <| wi_StuckReason := "" |>
                    <| wi_ShallowHistory := Some ∅ |>
                    <| wi_DeepHistory := Some ∅ |>
                    <| wi_ActiveInParallel := None |> in
  let i := if is_parallel cm targetState then enterParallelRegions i cm targetState else i in
  i <| wi_UpdatedAt := now |>.

(** [EventBus.Emit] after the commit: a failure is a warning. *)
Definition emit_event (event : DomainEvent) : prog (list PostCommitWarning) :=
  if has_EventBus then
    emitErr ← perform (EventEmit event);
    match (emitErr : option error) with
    | Some err =>
        _ ← perform (Notify (NPostCommitError "EventBus.Emit" err));
        Ret [mkPostCommitWarning "EventBus.Emit" err]
    | None => Ret []
    end
  else Ret [].

Definition ForceState (aggregateType aggregateID targetState actorID reason : string) :
    prog (result TransitionResult) :=
  operation (
    instance ⇐ perform (InstanceGet aggregateType aggregateID)
      orelse fail "flowstep: get instance: %w" [];
    found ← perform (CompiledFor aggregateType (wi_WorkflowVersion instance));
    match (found : option CompiledMachine) with
    | None => ret_err (no_version (wi_WorkflowVersion instance) aggregateType)
    | Some cm =>
        let def := cm_Definition cm in
        if decide (is_Some (def_States def !! targetState)) then
          let targetState := initial_leaf_or_self cm targetState in
          now ← perform Now;
          let previousState := wi_CurrentState instance in
          eventID ← perform GenerateID;
          let event := mkDomainEvent eventID aggregateType aggregateID (def_WorkflowType def)
                         (def_Version def) "StateForced" (wi_CorrelationID instance) "" actorID
                         (copyMap (wi_StateData instance)) (copyMap (wi_StateData instance))
                         "_force_state" None
                         (Some {[ "_reason" := VStr reason; "_from" := VStr previousState;
                                  "_to" := VStr targetState ]}) now 0 in
          let instance := forced_instance cm instance targetState now in
          t ⇐ perform Begin orelse fail "flowstep: begin tx: %w" [];
          must persist t event instance orelse ret_err;
          warnings ← emit_event event;
          Ret (Ok (mkTransitionResult instance event previousState targetState "_force_state"
                     [] None [] (is_terminal_state def targetState) warnings))
        else
          fail "flowstep: target state %q not found in workflow %q: %w"
            [FStr targetState; FStr (def_WorkflowType def)] (Sentinel ErrInvalidTransition)
    end).

(** ** Side effects *)

(** The user function runs after the instance is known to exist and before the
    transaction; its result is stored as an event. *)
Definition SideEffect (aggregateType aggregateID name : string) : prog (result value) :=
  operation (
    instance ⇐ perform (InstanceGet aggregateType aggregateID)
      orelse fail "flowstep: SideEffect get instance: %w" [];
    result ⇐ perform UserFn orelse ret_err;
    eventID ← perform GenerateID;
    now ← perform Now;
    let event := NewSideEffectEvent eventID aggregateType aggregateID
                   (wi_WorkflowType instance) (wi_WorkflowVersion instance)
                   (wi_CorrelationID instance) name result now in
    t ⇐ perform Begin orelse fail "flowstep: SideEffect begin tx: %w" [];
    must perform (EventAppend t event) orelse (λ err,
      _ ← perform (Rollback t); fail "flowstep: SideEffect append event: %w" [] err);
    must perform (Commit t) orelse fail "flowstep: SideEffect commit tx: %w" [];
    Ret (Ok result)).

(** ** The life of an operation *)

(** An operation that finds the engine shut down makes no other call and fails;
    any other is in flight exactly from its first to its last call. *)
Lemma runs_operation {A} (body : prog (result A)) t r :
  runs (operation body) t r →
  (t = [Ev ShutdownLoad true] ∧ ∃ e, r = Err e ∧ errors_Is e ErrEngineShutdown = true) ∨
  ∃ t', t = Ev ShutdownLoad false :: Ev WgAdd () :: t' ++ [Ev WgDone ()] ∧ runs body t' r.
Proof.
  intros ([] & t1 & -> & Hr).
  - destruct Hr as [-> <-]. left. split; [done|]. by eexists.
  - destruct Hr as ([] & t2 & -> & Hr).
    change (runs (body ≫= λ r, perform WgDone ≫= λ _, Ret r) t2 r) in Hr.
    apply runs_bind in Hr as (t3 & t4 & r' & -> & Hb & ([] & t5 & -> & Hr)).
    destruct Hr as [-> ->]. right. by exists t3.
Qed.
End executor.
