(* ===== verification/Dispatcher.v ===== *)
(** * Dispatcher: what follows a commit

    Models [internal/runtime/dispatcher.go]: the event is published, activities
    dispatched, tasks created and children spawned after the commit; every
    failure there becomes a warning of a successful result. *)

From S2P Require Import Prelude Errors Types Hash Validate Compile Helpers Effects Executor.

Section dispatcher.
Context {gr : GoRange} {cfg : Config}.
Implicit Types (cm : CompiledMachine) (instance : WorkflowInstance) (params : gomap value).

(** A post-commit failure: collected as a warning and reported to observers. *)
Definition warn_on (operation : string) (p : prog (option error)) : prog (list PostCommitWarning) :=
  failure ← p;
  match (failure : option error) with
  | Some err =>
      _ ← perform (Notify (NPostCommitError operation err));
      Ret [mkPostCommitWarning operation err]
  | None => Ret []
  end.

(** The invocation of one activity of a transition; its [ResultSignals] are left
    nil, as the code leaves them. *)
Definition activity_invocation cm instance (id : string) (actDef : ActivityDef) params
    (now : time) : ActivityInvocation :=
  let wt := def_WorkflowType (cm_Definition cm) in
  mkActivityInvocation id (ad_Name actDef) wt (wi_AggregateType instance)
    (wi_AggregateID instance) (wi_CorrelationID instance) (ad_Mode actDef)
    (mkActivityInput wt (wi_AggregateType instance) (wi_AggregateID instance)
       (wi_CorrelationID instance) params now "" "" "")
    (ad_RetryPolicy actDef) None (ad_Timeout actDef) ActivityStatusScheduled None 0
    (match ad_RetryPolicy actDef with Some p => rp_MaxAttempts p | None => 1%Z end)
    None now None None.

Fixpoint dispatch_activities cm instance params (now : time) (activities : list ActivityDef) :
    prog (list string * list PostCommitWarning) :=
  match activities with
  | [] => Ret ([], [])
  | actDef :: activities =>
      id ← perform GenerateID;
      let invocation := activity_invocation cm instance id actDef params now in
      created ← (if has_ActivityStore
                 then warn_on "ActivityStore.Create" (perform (ActivityCreate None invocation))
                 else Ret []);
      dispatchErr ← perform (ActivityDispatch invocation);
      out ← match (dispatchErr : option error) with
            | Some err =>
                _ ← perform (Notify (NPostCommitError "ActivityRunner.Dispatch" err));
                Ret ([], [mkPostCommitWarning "ActivityRunner.Dispatch" err])
            | None =>
                _ ← perform (Notify (NActivityDispatched invocation));
                Ret ([ad_Name actDef], [])
            end;
      rest ← dispatch_activities cm instance params now activities;
      Ret (out.1 ++ rest.1, created ++ out.2 ++ rest.2)
  end.

Definition pending_task cm instance (id : string) (td : TaskDef) (now : time) : PendingTask :=
  mkPendingTask id (def_WorkflowType (cm_Definition cm)) (wi_AggregateType instance)
    (wi_AggregateID instance) (wi_CorrelationID instance) (td_Type td) (td_Description td)
    (td_Options td) (wi_CurrentState instance) "" (td_Timeout td)
    (if decide (0 < td_Timeout td)%Z then (now + td_Timeout td)%Z else 0%Z)
    None "" "" TaskStatusPending now.

Definition create_task cm instance (def : option TaskDef) (now : time) :
    prog (option PendingTask * list PostCommitWarning) :=
  match def with
  | Some td =>
      if has_TaskStore then
        id ← perform GenerateID;
        let task := pending_task cm instance id td now in
        warnings ← warn_on "TaskStore.Create" (perform (TaskCreate None task));
        Ret (match warnings with [] => Some task | _ => None end, warnings)
      else Ret (None, [])
  | None => Ret (None, [])
  end.

Definition child_relation cm instance (id groupID childType childAggID joinPolicy : string)
    (now : time) : ChildRelation :=
  mkChildRelation id groupID (def_WorkflowType (cm_Definition cm)) (wi_AggregateType instance)
    (wi_AggregateID instance) childType childType childAggID (wi_CorrelationID instance)
    ChildStatusActive "" joinPolicy now None.

(** One relation: the child's aggregate ID is drawn before the relation's. *)
Definition spawn_one cm instance (groupID childType joinPolicy : string) (now : time) :
    prog (list ChildRelation * list PostCommitWarning) :=
  childAggID ← perform GenerateID;
  id ← perform GenerateID;
  let relation := child_relation cm instance id groupID childType childAggID joinPolicy now in
  warnings ← warn_on "ChildStore.Create" (perform (ChildCreate None relation));
  Ret (match warnings with [] => [relation] | _ => [] end, warnings).

Fixpoint spawn_group cm instance (groupID childType joinPolicy : string) (now : time)
    (inputs : list (gomap value)) : prog (list ChildRelation * list PostCommitWarning) :=
  match inputs with
  | [] => Ret ([], [])
  | _ :: inputs =>
      one ← spawn_one cm instance groupID childType joinPolicy now;
      rest ← spawn_group cm instance groupID childType joinPolicy now inputs;
      Ret (one.1 ++ rest.1, one.2 ++ rest.2)
  end.

(** Step 4: a single child, then a group. *)
Definition spawn_children cm instance (tr : TransitionDef) (now : time) :
    prog (list ChildRelation * list PostCommitWarning) :=
  single ← match tr_ChildDef tr with
           | Some cd =>
               if has_ChildStore then spawn_one cm instance "" (cd_WorkflowType cd) "" now
               else Ret ([], [])
           | None => Ret ([], [])
           end;
  group ← match tr_ChildrenDef tr with
          | Some csd =>
              if has_ChildStore then
                groupID ← perform GenerateID;
                spawn_group cm instance groupID (csd_WorkflowType csd) (jp_Mode (csd_Join csd))
                  now (csd_InputsFn csd VNil)
              else Ret ([], [])
          | None => Ret ([], [])
          end;
  Ret (single.1 ++ group.1, single.2 ++ group.2).

Definition runPostCommit cm instance (ct : CompiledTransition) (event : DomainEvent)
    (previousState : string) params (start : time) : prog (result TransitionResult) :=
  let now := ev_CreatedAt event in
  let targetState := wi_CurrentState instance in
  emitted ← emit_event event;
  acts ← (if decide (0 < length (tr_Activities (ct_Def ct)) ∧ has_ActivityRunner = true)
          then dispatch_activities cm instance params now (tr_Activities (ct_Def ct))
          else Ret ([], []));
  task ← create_task cm instance (tr_TaskDef (ct_Def ct)) now;
  children ← spawn_children cm instance (ct_Def ct) now;
  let result :=
    mkTransitionResult instance event previousState targetState (ev_TransitionName event)
      acts.1 task.1 children.1 (is_terminal_state (cm_Definition cm) targetState)
      (emitted ++ acts.2 ++ task.2 ++ children.2) in
  finished ← perform Now;
  _ ← perform (Notify (NTransition result (finished - start)%Z));
  Ret (Ok result).
End dispatcher.
