(* ===== verification/Parallel.v ===== *)
(** * Parallel: transitions inside and out of a parallel state

    Models [internal/runtime/parallel.go], and [Engine.Transition] of
    [executor.go], which chooses between the two kinds of state. *)

From S2P Require Import Prelude Errors Types Hash Validate Compile Helpers Effects Executor.
From S2P Require Import Dispatcher.

Record parallelCandidate := mkCandidate {
  pc_region : string;
  pc_leafState : string;
  pc_ct : CompiledTransition;
  pc_effectiveSrc : string;
  pc_targetState : string
}.

(** The source of a transition for one region: its leaf, or an ancestor of the
    leaf below [parallelState].  The code marks no source by [""]. *)
Fixpoint bounded_ancestor (sources : list string) (parallelState : string) (l : list string) :
    string :=
  match l with
  | [] => ""
  | ancestor :: l =>
      if decide (ancestor = parallelState) then ""
      else if contains sources ancestor then ancestor
      else bounded_ancestor sources parallelState l
  end.

Definition region_source (cm : CompiledMachine) (sources : list string)
    (parallelState leafState : string) : string :=
  if contains sources leafState then leafState
  else bounded_ancestor sources parallelState (ancestry_of (cm_Ancestry cm) leafState).

Section parallel.
Context {gr : GoRange} {cfg : Config}.
Implicit Types (cm : CompiledMachine) (instance : WorkflowInstance) (params : gomap value).

(** ** Candidates *)

Fixpoint collect_regions cm instance (parallelState transitionName : string) (tr : TransitionDef)
    params (regions : list string) (candidates : list parallelCandidate) :
    prog (result (list parallelCandidate)) :=
  match regions with
  | [] => Ret (Ok candidates)
  | region :: regions =>
      let leafState := active_leaf instance region in
      let effectiveSrc := region_source cm (tr_Sources tr) parallelState leafState in
      if decide (effectiveSrc = "") then
        collect_regions cm instance parallelState transitionName tr params regions candidates
      else
        match find_compiled cm effectiveSrc transitionName with
        | None =>
            collect_regions cm instance parallelState transitionName tr params regions candidates
        | Some ct =>
            must runGuards (def_WorkflowType (cm_Definition cm)) ct instance params orelse ret_err;
            let target := if decide (0 < length (tr_Routes tr))
                          then resolveRoute tr instance params else Ok (tr_Target tr) in
            match target with
            | Err err => ret_err err
            | Ok targetState =>
                collect_regions cm instance parallelState transitionName tr params regions
                  (candidates ++ [mkCandidate region leafState ct effectiveSrc targetState])
            end
        end
  end.

Definition collectParallelCandidates cm instance (parallelState transitionName : string) params :
    prog (result (list parallelCandidate)) :=
  match def_Transitions (cm_Definition cm) !! transitionName with
  | None =>
      fail "flowstep: transition %q not found: %w" [FStr transitionName]
        (Sentinel ErrInvalidTransition)
  | Some tr =>
      collect_regions cm instance parallelState transitionName tr params
        (sorted_regions 60 instance) []
  end.

(** ** Activities run before the transaction is opened *)

Definition activity_error (kind activity : string) (err : error) : error :=
  Errorf ("flowstep: " +:+ kind +:+ " activity %q: %w") [FStr activity] (Some err).

(** The exit ([which := sd_ExitActivity]) or entry activities of a sequence. *)
Definition run_activities cm (kind : string) (which : StateDef → string)
    (actInput : ActivityInput) (seq : list string) : prog (unit + error) :=
  for_each seq () (λ stateName _,
    let st := state_at (cm_Definition cm) stateName in
    if decide (which st = "") then Ret (inl ())
    else
      failure ← runSyncActivity (which st) actInput;
      Ret (match failure with
           | None => inl ()
           | Some err => inr (activity_error kind (which st) err)
           end)).

(** The transaction every parallel commit makes. *)
Definition begin_and_persist (event : DomainEvent) instance :
    prog (result (DomainEvent * WorkflowInstance)) :=
  t ⇐ perform Begin orelse fail "flowstep: begin tx: %w" [];
  must persist t event instance orelse ret_err;
  Ret (Ok (event, instance)).

(** ** Intra-parallel transitions *)

Definition candidate_exit cm (c : parallelCandidate) : list string :=
  computeExitSequence (pc_leafState c)
    (str_of (LCA cm (pc_leafState c) (pc_targetState c))) (cm_Ancestry cm).

Definition candidate_entry cm (c : parallelCandidate) : list string :=
  computeEntrySequence (str_of (LCA cm (pc_leafState c) (pc_targetState c)))
    (pc_targetState c) (cm_Ancestry cm).

(** [newAIP]: the affected regions move, the others keep their leaf. *)
Definition moved_regions instance (candidates : list parallelCandidate) : gmap string string :=
  foldl (λ m c, <[pc_region c := pc_targetState c]> m) (gm_map (wi_ActiveInParallel instance))
    candidates.

(** [_parallel_regions] *)
Definition region_delta (candidates : list parallelCandidate) : gmap string value :=
  foldl (λ m c, <[pc_region c := VMap (Some {[ "from" := VStr (pc_leafState c);
                                               "to" := VStr (pc_targetState c) ]})]> m)
    ∅ candidates.

(** [_region_sequence_map] *)
Definition region_sequence instance (delta : gmap string value) (newClock : Z) :
    gmap string value :=
  foldl (λ m '(region, _),
      <[region := VInt (match delta !! region with
                        | Some _ => newClock | None => wi_ParallelClock instance end)]> m)
    ∅ (range 61 (gm_map (wi_ActiveInParallel instance))).

Definition parallel_payload instance (candidates : list parallelCandidate) params : gomap value :=
  let delta := region_delta candidates in
  let newClock := int64 (wi_ParallelClock instance + 1) in
  Some (<["_region_sequence_map" := VMap (Some (region_sequence instance delta newClock))]>
         (<["_parallel_regions" := VMap (Some delta)]> (gm_map params))).

Definition intra_instance instance (candidates : list parallelCandidate) (now : time) :
    WorkflowInstance :=
  instance <| wi_LastReadUpdatedAt := wi_UpdatedAt instance |>
           <| wi_ActiveInParallel := Some (moved_regions instance candidates) |>
           <| wi_ParallelClock := int64 (wi_ParallelClock instance + 1) |>
           <| wi_UpdatedAt := now |>.

Definition run_all cm (kind : string) (which : StateDef → string) (actInput : ActivityInput)
    (seqs : list (list string)) : prog (unit + error) :=
  for_each seqs () (λ seq _, run_activities cm kind which actInput seq).

Definition commitParallelIntra cm instance (candidates : list parallelCandidate)
    (parallelState transitionName actorID : string) params :
    prog (result (DomainEvent * WorkflowInstance)) :=
  now ← perform Now;
  let actInput := activity_input cm instance transitionName parallelState "" params in
  exited ← run_all cm "exit" sd_ExitActivity actInput (candidate_exit cm <$> candidates);
  match exited with
  | inr err => ret_err err
  | inl _ =>
      entered ← run_all cm "entry" sd_EntryActivity actInput (candidate_entry cm <$> candidates);
      match entered with
      | inr err => ret_err err
      | inl _ =>
          eventID ← perform GenerateID;
          begin_and_persist
            (transition_event cm instance eventID "ParallelTransition" actorID transitionName
               (parallel_payload instance candidates params) now)
            (intra_instance instance candidates now)
      end
  end.

(** ** Leaving the parallel state *)

(** History is recorded region by region, in alphabetical order. *)
Definition record_regions cm instance (parallelState : string) : WorkflowInstance :=
  foldl (λ i region,
      let leaf := active_leaf i region in
      recordHistory i leaf (computeExitSequence leaf parallelState (cm_Ancestry cm))
        (cm_Definition cm))
    instance (sorted_regions 62 instance).

Definition exit_instance instance (resolvedTarget : string) (now : time) : WorkflowInstance :=
  instance <| wi_LastReadUpdatedAt := wi_UpdatedAt instance |>
           <| wi_CurrentState := resolvedTarget |>
           <| wi_ActiveInParallel := None |>
           <| wi_UpdatedAt := now |>.

Definition commitParallelExit cm instance (ct : CompiledTransition)
    (targetState transitionName actorID : string) params :
    prog (result (DomainEvent * WorkflowInstance)) :=
  now ← perform Now;
  let parallelState := wi_CurrentState instance in
  let exitSeq := computeParallelExitSequence instance parallelState in
  let instance := record_regions cm instance parallelState in
  let actInput := activity_input cm instance transitionName parallelState "" params in
  let resolvedTarget := initial_leaf_or_self cm targetState in
  let entrySeq := computeEntrySequence "" resolvedTarget (cm_Ancestry cm) in
  exited ← run_activities cm "exit" sd_ExitActivity actInput exitSeq;
  match exited with
  | inr err => ret_err err
  | inl _ =>
      entered ← run_activities cm "entry" sd_EntryActivity actInput entrySeq;
      match entered with
      | inr err => ret_err err
      | inl _ =>
          eventID ← perform GenerateID;
          begin_and_persist
            (transition_event cm instance eventID (tr_Event (ct_Def ct)) actorID transitionName
               params now)
            (exit_instance instance resolvedTarget now)
      end
  end.

(** ** Dispatch *)

Definition parallelTransition cm instance (transitionName actorID : string) params
    (start : time) : prog (result TransitionResult) :=
  let def := cm_Definition cm in
  match def_Transitions def !! transitionName with
  | None =>
      fail "flowstep: transition %q not found in workflow %q: %w"
        [FStr transitionName; FStr (def_WorkflowType def)] (Sentinel ErrInvalidTransition)
  | Some tr =>
      let parallelState := wi_CurrentState instance in
      if is_terminal_state def parallelState then ret_err (terminal_error instance)
      else if contains (tr_Sources tr) parallelState then
        validated ⇐ validateTransition cm instance transitionName params orelse ret_err;
        let '(ct, targetState) := validated in
        committed ⇐ commitParallelExit cm instance ct targetState transitionName actorID params
          orelse ret_err;
        runPostCommit cm committed.2 ct committed.1 parallelState params start
      else
        candidates ⇐ collectParallelCandidates cm instance parallelState transitionName params
          orelse ret_err;
        match candidates with
        | [] =>
            fail "flowstep: transition %q not valid from parallel state %q (no active leaf matches): %w"
              [FStr transitionName; FStr parallelState] (Sentinel ErrInvalidTransition)
        | first :: _ =>
            committed ⇐ commitParallelIntra cm instance candidates parallelState transitionName
              actorID params orelse ret_err;
            runPostCommit cm committed.2 (pc_ct first) committed.1 parallelState params start
        end
  end.

(** ** The public operation *)

Definition transition_from cm instance (transitionName actorID : string) params (start : time) :
    prog (result TransitionResult) :=
  if decide (0 < gm_len (wi_ActiveInParallel instance)) then
    parallelTransition cm instance transitionName actorID params start
  else
    validated ⇐ validateTransition cm instance transitionName params orelse ret_err;
    let '(ct, targetState) := validated in
    let previousState := wi_CurrentState instance in
    committed ⇐ commitTransition cm instance ct targetState transitionName actorID params
      orelse ret_err;
    runPostCommit cm committed.2 ct committed.1 previousState params start.

Definition Transition (aggregateType aggregateID transitionName actorID : string) params :
    prog (result TransitionResult) :=
  operation (
    start ← perform Now;
    loaded ⇐ loadInstanceAndCompiled aggregateType aggregateID orelse ret_err;
    transition_from loaded.1 loaded.2 transitionName actorID params start).
End parallel.
