(* ===== verification/Scheduler.v ===== *)
(** * Scheduler: transitions fired by signals, tasks and children

    Models [internal/runtime/scheduler.go].  The loops over the transitions of a
    definition run over a Go map: which of several matches comes first is left
    open ([range]). *)

From S2P Require Import Prelude Errors Types Hash Validate Compile Helpers Effects Executor.
From S2P Require Import Dispatcher Parallel.

Section scheduler.
Context {gr : GoRange} {cfg : Config}.
Implicit Types (cm : CompiledMachine) (instance : WorkflowInstance).

(** A transition answers a trigger when its type and key fit and one of the
    active states is a source. *)
Definition from_active (instance : WorkflowInstance) (tr : TransitionDef) : bool :=
  existsb (λ s, contains (tr_Sources tr) s) (activeStates instance).

Definition triggered (triggerType triggerKey : string) (tr : TransitionDef) : bool :=
  bool_decide (tr_TriggerType tr = triggerType) && bool_decide (tr_TriggerKey tr = triggerKey).

(** [matches], in the order the loop at site [n] visits the map. *)
Definition matching (n : nat) cm instance (triggerType triggerKey : string) : list string :=
  foldl (λ matches '(name, tr),
      if triggered triggerType triggerKey tr && from_active instance tr
      then matches ++ [name] else matches)
    [] (range n (def_Transitions (cm_Definition cm))).

(** ** Signals *)

Definition loadForSignal (aggregateType aggregateID : string) :
    prog (result (CompiledMachine * WorkflowInstance)) :=
  got ← perform (InstanceGet aggregateType aggregateID);
  match (got : result WorkflowInstance) with
  | Err err =>
      if errors_Is err ErrInstanceNotFound then
        latest ← perform (CompiledFor aggregateType 0);
        match (latest : option CompiledMachine) with
        | None => ret_err (no_workflow aggregateType)
        | Some latestCm =>
            instance ⇐ createInstance latestCm aggregateType aggregateID orelse ret_err;
            Ret (Ok (latestCm, instance))
        end
      else fail "flowstep: get instance: %w" [] err
  | Ok instance =>
      found ← perform (CompiledFor aggregateType (wi_WorkflowVersion instance));
      match (found : option CompiledMachine) with
      | None => ret_err (no_version (wi_WorkflowVersion instance) aggregateType)
      | Some cm => Ret (Ok (cm, instance))
      end
  end.

(** The one transition a signal selects. *)
Definition select_signal cm instance (signalName : string) : result string :=
  match matching 70 cm instance TriggerSignal signalName with
  | [] =>
      Err (Errorf "flowstep: no transition matches signal %q from state %q: %w"
             [FStr signalName; FStr (wi_CurrentState instance)]
             (Some (Sentinel ErrNoMatchingSignal)))
  | [name] => Ok name
  | _ =>
      Err (Errorf "flowstep: multiple transitions match signal %q from state %q: %w"
             [FStr signalName; FStr (wi_CurrentState instance)]
             (Some (Sentinel ErrSignalAmbiguous)))
  end.

Definition Signal (input : SignalInput) : prog (result TransitionResult) :=
  operation (
    loaded ⇐ loadForSignal (si_TargetAggregateType input) (si_TargetAggregateID input)
      orelse ret_err;
    match select_signal loaded.1 loaded.2 (si_SignalName input) with
    | Err err => ret_err err
    | Ok name =>
        Transition (si_TargetAggregateType input) (si_TargetAggregateID input) name
          (si_ActorID input) (si_Payload input)
    end).

(** ** Task completion *)

(** The transition a completed task selects: the only match, or the match the
    choice names. *)
Definition select_task cm instance (taskType choice : string) : result string :=
  match matching 71 cm instance TriggerTaskCompleted taskType with
  | [] =>
      Err (Errorf "flowstep: no transition matches task completion for type %q: %w"
             [FStr taskType] (Some (Sentinel ErrNoMatchingSignal)))
  | [name] => Ok name
  | matches =>
      if contains matches choice then Ok choice
      else Err (Errorf "flowstep: choice %q does not match any transition: %w"
                  [FStr choice] (Some (Sentinel ErrInvalidChoice)))
  end.

Definition no_parent_version (version : Z) (aggregateType : string) : error :=
  Errorf "flowstep: no workflow version %d registered for parent aggregate type %q"
    [FInt version; FStr aggregateType] None.

Definition CompleteTask (taskID choice actorID : string) : prog (result TransitionResult) :=
  operation (
    if negb has_TaskStore then ret_err (Errorf "flowstep: TaskStore not configured" [] None)
    else
      task ⇐ perform (TaskGet taskID) orelse fail "flowstep: get task: %w" [];
      instance ⇐ perform (InstanceGet (pt_AggregateType task) (pt_AggregateID task))
        orelse fail "flowstep: get instance: %w" [];
      found ← perform (CompiledFor (pt_AggregateType task) (wi_WorkflowVersion instance));
      match (found : option CompiledMachine) with
      | None => ret_err (no_version (wi_WorkflowVersion instance) (pt_AggregateType task))
      | Some cm =>
          match select_task cm instance (pt_TaskType task) choice with
          | Err err => ret_err err
          | Ok transitionName =>
              must perform (TaskComplete None taskID choice actorID)
                orelse fail "flowstep: complete task in store: %w" [];
              Transition (pt_AggregateType task) (pt_AggregateID task) transitionName actorID
                (Some {[ "_task_id" := VStr taskID; "_task_choice" := VStr choice ]})
          end
      end).

(** ** Children *)

Definition count_completed (siblings : list ChildRelation) : nat :=
  length (filter (λ s, cr_Status s = ChildStatusCompleted) siblings).

(** The count an ["N"] policy asks for: that of the first transition found with
    such a policy. *)
Definition join_count cm : option Z :=
  first_some (λ '(_, tr),
      match tr_ChildrenDef tr with
      | Some csd => if decide (jp_Mode (csd_Join csd) = "N") then Some (jp_Count (csd_Join csd))
                    else None
      | None => None
      end) (range 72 (def_Transitions (cm_Definition cm))).

Definition join_satisfied cm (joinMode : string) (completedCount total : nat) : bool :=
  if decide (joinMode = "ALL" ∨ joinMode = "") then bool_decide (completedCount = total)
  else if decide (joinMode = "ANY") then bool_decide (1 ≤ completedCount)
  else if decide (joinMode = "N") then
    match join_count cm with
    | Some n => bool_decide (n ≤ Z.of_nat completedCount)%Z
    | None => false
    end
  else false.

(** The first transition that waits for joined children and may fire. *)
Definition select_joined cm instance : option string :=
  first_some (λ '(name, tr),
      if bool_decide (tr_TriggerType tr = TriggerChildrenJoined) && from_active instance tr
      then Some name else None) (range 73 (def_Transitions (cm_Definition cm))).

Definition evaluateJoinPolicy (relation : ChildRelation) cm instance :
    prog (result TransitionResult) :=
  siblings ⇐ perform (ChildGetByGroup (cr_GroupID relation))
    orelse fail "flowstep: get siblings by group: %w" [];
  let completedCount := count_completed siblings in
  let total := length siblings in
  let joinMode := cr_JoinPolicy relation in
  if negb (join_satisfied cm joinMode completedCount total) then
    fail "flowstep: join policy %q not yet satisfied (%d/%d completed): %w"
      [FStr joinMode; FInt (Z.of_nat completedCount); FInt (Z.of_nat total)]
      (Sentinel ErrNoMatchingSignal)
  else
    match select_joined cm instance with
    | Some name =>
        Transition (cr_ParentAggregateType relation) (cr_ParentAggregateID relation) name "system"
          (Some {[ "_group_id" := VStr (cr_GroupID relation);
                   "_completed_count" := VInt (Z.of_nat completedCount);
                   "_total_count" := VInt (Z.of_nat total) ]})
    | None =>
        fail "flowstep: no OnChildrenJoined transition from parent state %q: %w"
          [FStr (wi_CurrentState instance)] (Sentinel ErrNoMatchingSignal)
    end.

(** The first transition that waits for a child of this type and may fire. *)
Definition select_child cm instance (childAggregateType : string) : option string :=
  first_some (λ '(name, tr),
      if triggered TriggerChildCompleted childAggregateType tr && from_active instance tr
      then Some name else None) (range 74 (def_Transitions (cm_Definition cm))).

Definition ChildCompleted (childAggregateType childAggregateID terminalState : string) :
    prog (result TransitionResult) :=
  operation (
    if negb has_ChildStore then ret_err (Errorf "flowstep: ChildStore not configured" [] None)
    else
      relation ⇐ perform (ChildGetByChild childAggregateType childAggregateID)
        orelse fail "flowstep: get child relation: %w" [];
      completeErr ← perform (ChildComplete None childAggregateType childAggregateID terminalState);
      _ ← match (completeErr : option error) with
          | Some err => perform (Notify (NPostCommitError "ChildStore.Complete" err))
          | None => Ret ()
          end;
      instance ⇐ perform (InstanceGet (cr_ParentAggregateType relation)
                            (cr_ParentAggregateID relation))
        orelse fail "flowstep: get parent instance: %w" [];
      found ← perform (CompiledFor (cr_ParentAggregateType relation) (wi_WorkflowVersion instance));
      match (found : option CompiledMachine) with
      | None =>
          ret_err (no_parent_version (wi_WorkflowVersion instance) (cr_ParentAggregateType relation))
      | Some cm =>
          if decide (cr_GroupID relation ≠ "") then evaluateJoinPolicy relation cm instance
          else
            match select_child cm instance childAggregateType with
            | Some name =>
                Transition (cr_ParentAggregateType relation) (cr_ParentAggregateID relation) name
                  "system"
                  (Some {[ "_child_aggregate_type" := VStr childAggregateType;
                           "_child_aggregate_id" := VStr childAggregateID;
                           "_child_terminal_state" := VStr terminalState ]})
            | None =>
                fail "flowstep: no OnChildCompleted transition matches child type %q from parent state %q: %w"
                  [FStr childAggregateType; FStr (wi_CurrentState instance)]
                  (Sentinel ErrNoMatchingSignal)
            end
      end).
End scheduler.

(** ** Which transition a trigger selects *)

Section selection.
Context {gr : GoRange}.
Implicit Types (cm : CompiledMachine) (instance : WorkflowInstance).

(** The transition [name] waits for the trigger and one of the active states is
    among its sources. *)
Definition answers cm instance (triggerType triggerKey name : string) : Prop :=
  ∃ tr s, def_Transitions (cm_Definition cm) !! name = Some tr ∧
    tr_TriggerType tr = triggerType ∧ tr_TriggerKey tr = triggerKey ∧ s ∈ tr_Sources tr ∧
    (s = wi_CurrentState instance ∨ ∃ r, gm_get (wi_ActiveInParallel instance) r = Some s).

Lemma from_active_true instance tr :
  from_active instance tr = true ↔ ∃ s, s ∈ tr_Sources tr ∧
    (s = wi_CurrentState instance ∨ ∃ r, gm_get (wi_ActiveInParallel instance) r = Some s).
Proof.
  unfold from_active. rewrite existsb_exists. split.
  - intros (s & Hin%list_elem_of_In%elem_of_activeStates & Hc%contains_true). by exists s.
  - intros (s & Hc & Ha). exists s. rewrite contains_true. split; [|done].
    by apply list_elem_of_In, elem_of_activeStates.
Qed.

Lemma triggered_true triggerType triggerKey tr :
  triggered triggerType triggerKey tr = true ↔
  tr_TriggerType tr = triggerType ∧ tr_TriggerKey tr = triggerKey.
Proof. unfold triggered. by rewrite andb_true_iff, !bool_decide_eq_true. Qed.

Lemma elem_of_matching n cm instance triggerType triggerKey name :
  name ∈ matching n cm instance triggerType triggerKey ↔
  answers cm instance triggerType triggerKey name.
Proof.
  unfold matching. set (f := λ tr, triggered triggerType triggerKey tr && from_active instance tr).
  assert (∀ l acc, name ∈ foldl (λ matches '(name, tr), if f tr then matches ++ [name] else matches) acc l
    ↔ name ∈ acc ∨ ∃ tr, (name, tr) ∈ l ∧ f tr = true) as Hfold.
  { induction l as [|[n' tr'] l IH]; intros acc; cbn [foldl].
    - split; [by left|]. intros [?|(tr & ?%elem_of_nil & _)]; done.
    - rewrite IH. destruct (f tr') eqn:Hf; rewrite ?elem_of_app, ?list_elem_of_singleton; split.
      + intros [[?| ->]|(tr & ? & ?)]; [by left|right; exists tr'|right; exists tr];
          (split; [|done]); [by left|by right].
      + intros [?|(tr & [[= -> ->]|?]%elem_of_cons & ?)]; eauto.
      + intros [?|(tr & ? & ?)]; [by left|right; exists tr; split; [by right|done]].
      + intros [?|(tr & [[= -> ->]|?]%elem_of_cons & ?)]; [by left|congruence|eauto]. }
  etrans; [apply Hfold|]. rewrite elem_of_nil. unfold f, answers. split.
  - intros [[]|(tr & Hin%elem_of_range & [Ht Ha]%andb_true_iff)].
    apply triggered_true in Ht as [? ?]. apply from_active_true in Ha as (s & ? & ?).
    exists tr, s. auto.
  - intros (tr & s & Htr & Hty & Hk & Hs & Ha). right. exists tr.
    rewrite elem_of_range, andb_true_iff, triggered_true, from_active_true. split_and!; eauto.
Qed.

Lemma matching_NoDup n cm instance triggerType triggerKey :
  NoDup (matching n cm instance triggerType triggerKey).
Proof.
  unfold matching. pose proof (range_keys_NoDup n (def_Transitions (cm_Definition cm))) as Hnd.
  assert (∀ (l : list (string * TransitionDef)) acc, NoDup l.*1 → NoDup acc →
    (∀ x, x ∈ acc → x ∉ l.*1) →
    NoDup (foldl (λ matches '(name, tr),
      if triggered triggerType triggerKey tr && from_active instance tr
      then matches ++ [name] else matches) acc l)) as Hfold.
  { induction l as [|[n' tr'] l IH]; intros acc Hl Ha Hd; cbn in *; [done|].
    apply NoDup_cons in Hl as [Hn Hl]. apply IH; [done| |].
    - case_match; [|done]. apply NoDup_app. split_and!; [done| |apply NoDup_singleton].
      intros x Hx ->%list_elem_of_singleton. apply (Hd _ Hx). by left.
    - intros x Hx Hin. case_match; [|apply (Hd x Hx); by right].
      apply elem_of_app in Hx as [Hx| ->%list_elem_of_singleton]; [|done].
      apply (Hd x Hx). by right. }
  apply Hfold; [done|constructor|]. by intros x ?%elem_of_nil.
Qed.


(** A completed task fires the only transition that answers it, or, among
    several, the one its choice names; a choice that names none of them is
    ErrInvalidChoice, and with no answering transition it is
    ErrNoMatchingSignal. *)
Theorem select_task_decides cm instance taskType choice :
  match select_task cm instance taskType choice with
  | Ok name => answers cm instance TriggerTaskCompleted taskType name ∧
      (name = choice ∨ ∀ n, answers cm instance TriggerTaskCompleted taskType n → n = name)
  | Err e =>
      (errors_Is e ErrNoMatchingSignal = true ∧
         ∀ n, ¬ answers cm instance TriggerTaskCompleted taskType n) ∨
      (errors_Is e ErrInvalidChoice = true ∧
         ¬ answers cm instance TriggerTaskCompleted taskType choice)
  end.
Proof.
  unfold select_task.
  pose proof (elem_of_matching 71 cm instance TriggerTaskCompleted taskType) as Hin.
  destruct (matching _ _ _ _ _) as [|n1 [|n2 l]].
  - left. split; [done|]. intros n Hn%Hin. by apply elem_of_nil in Hn.
  - split; [apply Hin; by left|]. right. intros n Hn%Hin. by apply list_elem_of_singleton in Hn.
  - destruct (contains _ _) eqn:Hc.
    + apply contains_true, Hin in Hc. split; [done|by left].
    + right. split; [done|]. rewrite <-Hin. by apply contains_false.
Qed.

(** ** Join policies *)

Definition completed (s : ChildRelation) : Prop := cr_Status s = ChildStatusCompleted.

Lemma count_completed_le siblings : count_completed siblings ≤ length siblings.
Proof. apply length_filter. Qed.

Lemma count_completed_all siblings :
  count_completed siblings = length siblings ↔ Forall completed siblings.
Proof.
  unfold count_completed. induction siblings as [|s l IH]; [by split|].
  pose proof (count_completed_le l) as Hle. unfold count_completed in Hle.
  rewrite filter_cons, Forall_cons. unfold completed at 1. case_decide as Hs; cbn [length].
  - rewrite <-IH. split; [intros; split; [done|lia]|intros [_ ?]; lia].
  - split; [lia|by intros [? _]].
Qed.

Lemma count_completed_any siblings :
  1 ≤ count_completed siblings ↔ Exists completed siblings.
Proof.
  unfold count_completed. induction siblings as [|s l IH]; [rewrite Exists_nil; cbn; lia|].
  rewrite filter_cons, Exists_cons, <-IH. unfold completed. case_decide; cbn; [|naive_solver].
  split; [by left|lia].
Qed.

(** The definition's ["N"] policies ask for [n] children. *)
Definition asks_for cm (n : Z) : Prop :=
  ∃ name tr csd, def_Transitions (cm_Definition cm) !! name = Some tr ∧
    tr_ChildrenDef tr = Some csd ∧ jp_Mode (csd_Join csd) = "N" ∧ jp_Count (csd_Join csd) = n.

Lemma join_count_spec cm :
  match join_count cm with Some n => asks_for cm n | None => ∀ n, ¬ asks_for cm n end.
Proof.
  unfold join_count. destruct (first_some _ _) as [n|] eqn:Hf.
  - apply first_some_Some in Hf as ([name tr] & Hin%elem_of_range & Hf).
    destruct (tr_ChildrenDef tr) as [csd|] eqn:Hc; [|done]. case_decide; [|done].
    injection Hf as <-. by exists name, tr, csd.
  - intros n (name & tr & csd & Htr & Hc & Hm & Hn).
    rewrite first_some_range_None in Hf. specialize (Hf name tr Htr). cbn in Hf.
    by rewrite Hc, decide_True in Hf.
Qed.

Lemma join_satisfied_sound cm mode siblings :
  join_satisfied cm mode (count_completed siblings) (length siblings) = true →
  (mode = "ALL" ∨ mode = "") ∧ Forall completed siblings ∨
  mode = "ANY" ∧ Exists completed siblings ∨
  mode = "N" ∧ ∃ n, asks_for cm n ∧ (n ≤ Z.of_nat (count_completed siblings))%Z.
Proof.
  unfold join_satisfied. case_decide as Hall.
  { rewrite bool_decide_eq_true, count_completed_all. auto. }
  case_decide as Hany.
  { rewrite bool_decide_eq_true, count_completed_any. auto. }
  case_decide as HN; [|done]. pose proof (join_count_spec cm) as Hj.
  destruct (join_count cm) as [n|]; [|done]. rewrite bool_decide_eq_true.
  intros Hle. right. right. split; [done|]. by exists n.
Qed.

Lemma join_satisfied_complete cm mode siblings :
  (mode = "ALL" ∨ mode = "") ∧ Forall completed siblings ∨
  mode = "ANY" ∧ Exists completed siblings ∨
  mode = "N" ∧ (∃ n, asks_for cm n) ∧
    (∀ n, asks_for cm n → n ≤ Z.of_nat (count_completed siblings))%Z →
  join_satisfied cm mode (count_completed siblings) (length siblings) = true.
Proof.
  unfold join_satisfied. intros [[Hm Hs]|[[-> Hs]|(-> & [n Hn] & Hs)]].
  - rewrite decide_True by done. by rewrite bool_decide_eq_true, count_completed_all.
  - rewrite decide_False by naive_solver. rewrite decide_True by done.
    by rewrite bool_decide_eq_true, count_completed_any.
  - rewrite decide_False by naive_solver. rewrite decide_False by done. rewrite decide_True by done.
    pose proof (join_count_spec cm) as Hj. destruct (join_count cm) as [k|].
    + rewrite bool_decide_eq_true. by apply Hs.
    + by destruct (Hj n).
Qed.

End selection.
