(* ===== verification/Snapshot.v ===== *)
(** * Snapshot: capturing and restoring an instance

    Models [internal/runtime/snapshot.go]. *)

From S2P Require Import Prelude Errors Types Hash Validate Compile Helpers Effects Executor.

Section snapshot.
Context {gr : GoRange} {cfg : Config}.

(** A copy of a [map[string]string]; nil stays nil. *)
Definition copyStringMap (src : gomap string) : gomap string :=
  match src with
  | None => None
  | Some m => Some (foldl (λ dst '(k, v), <[k := v]> dst) ∅ (range 80 m))
  end.

Definition copyTimePtr (t : option time) : option time :=
  match t with None => None | Some t => Some t end.

(** [if m == nil { m = make(map[string]string) }] *)
Definition non_nil {V} (m : gomap V) : gomap V :=
  match m with None => Some ∅ | Some m => Some m end.

Definition capture (cm : CompiledMachine) (instance : WorkflowInstance) (now : time) : Snapshot :=
  let snap :=
    mkSnapshot (wi_ID instance) (wi_WorkflowType instance) (wi_WorkflowVersion instance)
      (wi_AggregateType instance) (wi_AggregateID instance) (wi_CurrentState instance)
      (copyMap (wi_StateData instance)) (wi_CorrelationID instance) (wi_IsStuck instance)
      (wi_StuckReason instance) (copyTimePtr (wi_StuckAt instance)) (wi_RetryCount instance)
      (wi_CreatedAt instance) (copyStringMap (wi_ShallowHistory instance))
      (copyStringMap (wi_DeepHistory instance)) (copyStringMap (wi_ActiveInParallel instance))
      (wi_ParallelClock instance) (cm_DefinitionHash cm) now in
  snap <| sn_ShallowHistory := non_nil (sn_ShallowHistory snap) |>
       <| sn_DeepHistory := non_nil (sn_DeepHistory snap) |>.

Definition takeSnapshot (aggregateType aggregateID : string) : prog (result Snapshot) :=
  operation (
    instance ⇐ perform (InstanceGet aggregateType aggregateID)
      orelse fail "flowstep: snapshot get instance: %w" [];
    found ← perform (CompiledFor aggregateType (wi_WorkflowVersion instance));
    match (found : option CompiledMachine) with
    | None =>
        ret_err (Errorf "flowstep: snapshot: no compiled machine for aggregate type %q version %d"
                   [FStr aggregateType; FInt (wi_WorkflowVersion instance)] None)
    | Some cm =>
        now ← perform Now;
        Ret (Ok (capture cm instance now))
    end).

Definition rebuilt (snap : Snapshot) (now : time) : WorkflowInstance :=
  let instance :=
    mkWorkflowInstance (sn_InstanceID snap) (sn_WorkflowType snap) (sn_WorkflowVersion snap)
      (sn_AggregateType snap) (sn_AggregateID snap) (sn_CurrentState snap)
      (copyMap (sn_StateData snap)) (sn_CorrelationID snap) (sn_IsStuck snap)
      (sn_StuckReason snap) (copyTimePtr (sn_StuckAt snap)) (sn_RetryCount snap)
      (sn_CreatedAt snap) now (copyStringMap (sn_ShallowHistory snap))
      (copyStringMap (sn_DeepHistory snap)) (copyStringMap (sn_ActiveInParallel snap))
      (sn_ParallelClock snap) 0 in
  instance <| wi_StateData := non_nil (wi_StateData instance) |>
           <| wi_ShallowHistory := non_nil (wi_ShallowHistory instance) |>
           <| wi_DeepHistory := non_nil (wi_DeepHistory instance) |>.

Definition restored_event (cm : CompiledMachine) (snap : Snapshot) (id : string) (now : time) :
    DomainEvent :=
  mkDomainEvent id (sn_AggregateType snap) (sn_AggregateID snap)
    (def_WorkflowType (cm_Definition cm)) (def_Version (cm_Definition cm)) "SnapshotRestored"
    (sn_CorrelationID snap) "" "" (copyMap (sn_StateData snap)) (copyMap (sn_StateData snap))
    "_snapshot_restore" None
    (Some {[ "_snapshot_captured_at" := VTime (sn_CapturedAt snap);
             "_snapshot_instance_id" := VStr (sn_InstanceID snap) ]}) now 0.

Definition Restore (snap : Snapshot) : prog (option error) :=
  r ← operation (
    found ← perform (CompiledFor (sn_AggregateType snap) (sn_WorkflowVersion snap));
    match (found : option CompiledMachine) with
    | None =>
        fail "flowstep: restore: no workflow version %d registered for aggregate type %q: %w"
          [FInt (sn_WorkflowVersion snap); FStr (sn_AggregateType snap)]
          (Sentinel ErrSnapshotDefinitionMismatch)
    | Some cm =>
        if decide (sn_DefinitionHash snap ≠ cm_DefinitionHash cm) then
          fail "flowstep: restore: definition hash mismatch (snapshot=%q registered=%q): %w"
            [FStr (sn_DefinitionHash snap); FStr (cm_DefinitionHash cm)]
            (Sentinel ErrSnapshotDefinitionMismatch)
        else
          existing ← perform (InstanceGet (sn_AggregateType snap) (sn_AggregateID snap));
          match (existing : result WorkflowInstance) with
          | Ok _ =>
              fail "flowstep: restore: instance already exists for %s/%s: %w"
                [FStr (sn_AggregateType snap); FStr (sn_AggregateID snap)]
                (Sentinel ErrSnapshotInstanceExists)
          | Err err =>
              if negb (errors_Is err ErrInstanceNotFound) then
                fail "flowstep: restore: check existing instance: %w" [] err
              else
                now ← perform Now;
                let instance := rebuilt snap now in
                eventID ← perform GenerateID;
                let event := restored_event cm snap eventID now in
                t ⇐ perform Begin orelse fail "flowstep: restore: begin tx: %w" [];
                must perform (InstanceCreate t instance) orelse (λ err,
                  _ ← perform (Rollback t);
                  fail "flowstep: restore: create instance: %w" [] err);
                must perform (EventAppend t event) orelse (λ err,
                  _ ← perform (Rollback t);
                  fail "flowstep: restore: append event: %w" [] err);
                must perform (Commit t) orelse fail "flowstep: restore: commit tx: %w" [];
                _ ← (if has_EventBus then
                       emitErr ← perform (EventEmit event);
                       match (emitErr : option error) with
                       | Some err =>
                           perform (Notify (NPostCommitError "EventBus.Emit(SnapshotRestored)" err))
                       | None => Ret ()
                       end
                     else Ret ());
                Ret (Ok ())
          end
    end);
  Ret (match (r : result unit) with Ok _ => None | Err err => Some err end).
End snapshot.

(** ** A restored instance is the captured one *)

Section round_trip.
Context {gr : GoRange} {cfg : Config}.

Lemma foldl_insert_list_to_map {V} (l : list (string * V)) (m : gmap string V) :
  NoDup l.*1 → foldl (λ dst '(k, v), <[k := v]> dst) m l = list_to_map l ∪ m.
Proof.
  revert m. induction l as [|[k v] l IH]; intros m Hnd; cbn.
  { by rewrite (left_id_L ∅ (∪)). }
  apply NoDup_cons in Hnd as [Hk Hnd]. rewrite IH by done.
  rewrite <-insert_union_r, insert_union_l; [done|]. by apply not_elem_of_list_to_map_1.
Qed.

Lemma copyStringMap_id src : copyStringMap src = src.
Proof.
  destruct src as [m|]; cbn; [|done]. f_equal.
  rewrite foldl_insert_list_to_map by apply range_keys_NoDup.
  by rewrite list_to_map_range, (right_id_L ∅ (∪)).
Qed.

(** [instance] as a restoration at [now] writes it: the absent maps are made
    empty and the lock fields start anew. *)
Definition reborn (instance : WorkflowInstance) (now : time) : WorkflowInstance :=
  instance <| wi_UpdatedAt := now |>
           <| wi_LastReadUpdatedAt := 0%Z |>
           <| wi_StateData := non_nil (wi_StateData instance) |>
           <| wi_ShallowHistory := non_nil (wi_ShallowHistory instance) |>
           <| wi_DeepHistory := non_nil (wi_DeepHistory instance) |>.

Lemma non_nil_idem {V} (m : gomap V) : non_nil (non_nil m) = non_nil m.
Proof. by destruct m. Qed.

Lemma rebuilt_capture cm instance captured now :
  rebuilt (capture cm instance captured) now = reborn instance now.
Proof.
  unfold rebuilt, capture, reborn, copyTimePtr. destruct instance. cbn.
  rewrite !copyStringMap_id, !copyMap_id. f_equal; try apply non_nil_idem. all: repeat case_match; done.
Qed.

(** C30: A snapshot loses nothing: it is taken of the stored instance under the
    hash of its registered definition, and restoring it, at any time, rebuilds
    that instance. *)
Theorem snapshot_round_trip aggregateType aggregateID t snap :
  runs (takeSnapshot aggregateType aggregateID) t (Ok snap) →
  ∃ instance cm,
    Ev (InstanceGet aggregateType aggregateID) (Ok instance) ∈ t ∧
    Ev (CompiledFor aggregateType (wi_WorkflowVersion instance)) (Some cm) ∈ t ∧
    sn_DefinitionHash snap = cm_DefinitionHash cm ∧
    ∀ now, rebuilt snap now = reborn instance now.
Proof.
  intros [(_ & e & [=] & _)|(t1 & -> & Hb)]%runs_operation.
  destruct Hb as ([instance|e] & t6 & -> & Hb); [|by destruct Hb].
  destruct Hb as ([cm|] & t7 & -> & Hb); [|by destruct Hb].
  destruct Hb as (now & t8 & -> & [-> [= <-]]). exists instance, cm.
  split_and!; [set_solver|set_solver|done|]. intros. apply rebuilt_capture.
Qed.
End round_trip.
