(* ===== verification/Firing.v ===== *)
(** * Firing: when a transition may fire, and where it leads

    Theorems about [validateTransition], [resolveRoute] and [runGuards] of
    [Executor.v]: the decision of the engine is the declarative one, on every
    branch. *)

From S2P Require Import Prelude Errors Types Hash Validate Compile Helpers Effects SideEffects.
From S2P Require Import Executor.

(** ** Routes *)

Section routes.
Context (aggregate : WorkflowInstance) (params : gomap value).

(** A route that does not decide: a default, or a condition that does not hold. *)
Definition passed_over (r : Route) : Prop :=
  rt_IsDefault r = true ∨ rt_Condition r = None ∨
  ∃ c, rt_Condition r = Some c ∧ c_Evaluate c aggregate params = Ok false.

(** The target of the last default route, [""] when there is none. *)
Fixpoint last_default (d : string) (routes : list Route) : string :=
  match routes with
  | [] => d
  | r :: routes => last_default (if rt_IsDefault r then rt_Target r else d) routes
  end.

(** The first route that decides, with the answer of its condition. *)
Definition decided_by (routes : list Route) (target : string) (answer : result bool) : Prop :=
  ∃ l1 r l2 c, routes = l1 ++ r :: l2 ∧ Forall passed_over l1 ∧ rt_IsDefault r = false ∧
    rt_Condition r = Some c ∧ c_Evaluate c aggregate params = answer ∧ rt_Target r = target.

Lemma decided_by_cons r routes target answer :
  passed_over r → decided_by routes target answer → decided_by (r :: routes) target answer.
Proof.
  intros Hr (l1 & r' & l2 & c & -> & Hl & Hrest). exists (r :: l1), r', l2, c.
  split; [done|]. split; [by constructor|done].
Qed.

Lemma resolveRoute_loop_spec routes d :
  match resolveRoute_loop routes d aggregate params with
  | Ok target => decided_by routes target (Ok true) ∨
      Forall passed_over routes ∧ target = last_default d routes ∧ target ≠ ""
  | Err e => (∃ target err, decided_by routes target (Err err) ∧
        e = Errorf "flowstep: condition evaluation failed: %w" [] (Some err)) ∨
      Forall passed_over routes ∧ last_default d routes = "" ∧
        errors_Is e ErrNoMatchingRoute = true
  end.
Proof.
  revert d. induction routes as [|r routes IH]; intros d; cbn [resolveRoute_loop last_default].
  { case_decide as Hd; right; [done|]. by split_and!. }
  assert (passed_over r → ∀ d, match resolveRoute_loop routes d aggregate params with
    | Ok target => decided_by (r :: routes) target (Ok true) ∨
        Forall passed_over (r :: routes) ∧ target = last_default d routes ∧ target ≠ ""
    | Err e => (∃ target err, decided_by (r :: routes) target (Err err) ∧
          e = Errorf "flowstep: condition evaluation failed: %w" [] (Some err)) ∨
        Forall passed_over (r :: routes) ∧ last_default d routes = "" ∧
          errors_Is e ErrNoMatchingRoute = true
    end) as Hpass.
  { intros Hr d'. specialize (IH d'). destruct (resolveRoute_loop _ _ _ _).
    - destruct IH as [?|[? ?]]; [left; by apply decided_by_cons|right]. by split; [constructor|].
    - destruct IH as [(target & err & ? & ?)|[? ?]];
        [left; exists target, err; split; [by apply decided_by_cons|done]|right].
      by split; [constructor|]. }
  destruct (rt_IsDefault r) eqn:Hd; [apply Hpass; by left|].
  destruct (rt_Condition r) as [c|] eqn:Hc; [|apply Hpass; right; by left].
  destruct (c_Evaluate c aggregate params) as [[]|err] eqn:He.
  - left. exists [], r, routes, c. by split_and!.
  - apply Hpass. right. right. eauto.
  - left. exists (rt_Target r), err. split; [|done]. exists [], r, routes, c. by split_and!.
Qed.
End routes.

Lemma resolveRoute_spec tr aggregate params :
  match resolveRoute tr aggregate params with
  | Ok target => decided_by aggregate params (tr_Routes tr) target (Ok true) ∨
      Forall (passed_over aggregate params) (tr_Routes tr) ∧
      target = last_default "" (tr_Routes tr) ∧ target ≠ ""
  | Err e => (∃ target err, decided_by aggregate params (tr_Routes tr) target (Err err) ∧
        e = Errorf "flowstep: condition evaluation failed: %w" [] (Some err)) ∨
      Forall (passed_over aggregate params) (tr_Routes tr) ∧
      last_default "" (tr_Routes tr) = "" ∧ errors_Is e ErrNoMatchingRoute = true
  end.
Proof. apply resolveRoute_loop_spec. Qed.

(** A routed transition goes to the first route whose condition holds, else
    to the last default; an error of a condition aborts it, and with neither a
    match nor a default it is ErrNoMatchingRoute. *)
Theorem resolveRoute_decides tr aggregate params :
  match resolveRoute tr aggregate params with
  | Ok target => decided_by aggregate params (tr_Routes tr) target (Ok true) ∨
      Forall (passed_over aggregate params) (tr_Routes tr) ∧
      target = last_default "" (tr_Routes tr) ∧ target ≠ ""
  | Err e => (∃ target err, decided_by aggregate params (tr_Routes tr) target (Err err) ∧
        e = Errorf "flowstep: condition evaluation failed: %w" [] (Some err)) ∨
      Forall (passed_over aggregate params) (tr_Routes tr) ∧
      last_default "" (tr_Routes tr) = "" ∧ errors_Is e ErrNoMatchingRoute = true
  end.
Proof. apply resolveRoute_spec. Qed.

Section firing.
Context {gr : GoRange} {cfg : Config}.
Implicit Types (cm : CompiledMachine) (instance : WorkflowInstance) (params : gomap value).

(** ** Guards *)

Definition guards_pass (tr : TransitionDef) instance params : Prop :=
  Forall (λ g, g_Check g instance params = None) (tr_Guards tr).

(** The first guard that fails, with its name and reason. *)
Definition guard_fails (tr : TransitionDef) instance params (name : string) (reason : error) : Prop :=
  ∃ l1 g l2, tr_Guards tr = l1 ++ g :: l2 ∧
    Forall (λ g, g_Check g instance params = None) l1 ∧
    g_Check g instance params = Some reason ∧ name = default (g_Type g) (g_Name g).

Lemma runGuards_loop_spec wt tr instance params done' gs t r :
  tr_Guards tr = done' ++ gs → Forall (λ g, g_Check g instance params = None) done' →
  runs (runGuards_loop wt (compileTransition tr) instance params (length done') gs) t r →
  match r with
  | None => t = [] ∧ guards_pass tr instance params
  | Some e => ∃ name reason, e = GuardError name reason ∧ guard_fails tr instance params name reason ∧
      t = [Ev (Notify (NGuardFailed wt (tr_Name tr) name reason)) ()]
  end.
Proof.
  revert done'. induction gs as [|g gs IH]; intros done' Heq Hd; cbn [runGuards_loop].
  { intros [-> <-]. split; [done|]. unfold guards_pass. rewrite Heq. by rewrite app_nil_r. }
  destruct (g_Check g instance params) as [err|] eqn:Hg.
  - intros ([] & t' & -> & -> & <-). cbn. eexists _, err. split_and!; [done| |done].
    exists done', g, gs. split_and!; [done..|]. unfold resolveGuardNames. cbn.
    rewrite list_lookup_fmap, Heq, list_lookup_middle by done. cbn. by destruct (g_Name g).
  - intros Hr. apply (IH (done' ++ [g])).
    + by rewrite Heq, <-app_assoc.
    + apply Forall_app. by split; [|constructor].
    + rewrite length_app, Nat.add_1_r. done.
Qed.

Lemma runGuards_spec wt tr instance params t r :
  runs (runGuards wt (compileTransition tr) instance params) t r →
  match r with
  | None => t = [] ∧ guards_pass tr instance params
  | Some e => ∃ name reason, e = GuardError name reason ∧ guard_fails tr instance params name reason ∧
      t = [Ev (Notify (NGuardFailed wt (tr_Name tr) name reason)) ()]
  end.
Proof. apply (runGuards_loop_spec _ _ _ _ []); [done|constructor]. Qed.

Lemma runGuards_pass wt tr instance params :
  guards_pass tr instance params →
  runGuards wt (compileTransition tr) instance params = Ret None.
Proof.
  intros Hp. unfold runGuards. cbn. generalize 0. unfold guards_pass in Hp.
  induction Hp as [|g gs Hg _ IH]; intros i; cbn [runGuards_loop]; [done|]. by rewrite Hg.
Qed.

(** ** Sources *)

(** The first element of [l] that is a source. *)
Definition innermost (sources l : list string) (s : string) : Prop :=
  ∃ l1 l2, l = l1 ++ s :: l2 ∧ s ∈ sources ∧ ∀ x, x ∈ l1 → x ∉ sources.

Lemma innermost_unique sources l s1 s2 : innermost sources l s1 → innermost sources l s2 → s1 = s2.
Proof.
  intros (a1 & b1 & -> & H1 & N1) (a2 & b2 & E & H2 & N2). revert a2 E N2.
  induction a1 as [|x a1 IH]; intros [|y a2] E N2; simplify_eq/=; try done.
  - exfalso. eapply N2; [by left|done].
  - exfalso. eapply N1; [by left|done].
  - apply (IH ltac:(intros; apply N1; by right) a2); [done|]. intros. apply N2. by right.
Qed.

Lemma innermost_elem sources l s : innermost sources l s → s ∈ l ∧ s ∈ sources.
Proof.
  intros (l1 & l2 & -> & Hs & _). split; [|done]. apply elem_of_app. right. by left.
Qed.

(** The innermost active state that is a source. *)
Definition fires_from cm (sources : list string) (leaf source : string) : Prop :=
  innermost sources (configuration cm leaf) source.

Lemma first_source (sources l : list string) :
  match first_some (λ a, if contains sources a then Some a else None) l with
  | Some s => innermost sources l s
  | None => ∀ x, x ∈ l → x ∉ sources
  end.
Proof. apply first_common. Qed.

Lemma effective_source_spec cm sources leaf :
  match effective_source cm sources leaf with
  | Some s => fires_from cm sources leaf s
  | None => ∀ s, s ∈ configuration cm leaf → s ∉ sources
  end.
Proof.
  pose proof (first_source sources (configuration cm leaf)) as H.
  unfold effective_source, configuration in *. cbn [first_some] in H.
  by destruct (contains sources leaf).
Qed.

(** Transitions are stored under their names, as [Build] stores them. *)
Definition keyed (def : WorkflowDef) : Prop :=
  ∀ n tr, def_Transitions def !! n = Some tr → tr_Name tr = n.

Lemma find_compiled_spec cm name tr s :
  compiled cm → keyed (cm_Definition cm) → def_Transitions (cm_Definition cm) !! name = Some tr →
  s ∈ tr_Sources tr → find_compiled cm s name = Some (compileTransition tr).
Proof.
  intros Hc Hk Htr Hs. unfold find_compiled.
  assert (compileTransition tr ∈ default [] (cm_TransitionsByState cm !! s)) as Hin.
  { apply (co_index _ Hc). eauto. }
  destruct (first_some _ _) as [ct|] eqn:Hf.
  - apply first_some_Some in Hf as (ct' & Hct & Hn). case_decide as Hname; simplify_eq.
    apply (co_index _ Hc) in Hct as (n & tr' & Htr' & _ & ->). cbn in Htr.
    pose proof (Hk _ _ Htr') as Hk'. cbn in Htr. rewrite Hk' in Htr. by simplify_eq.
  - rewrite first_some_None in Hf. specialize (Hf _ Hin). cbn in Hf.
    by rewrite (Hk _ _ Htr), decide_True in Hf.
Qed.

(** ** The decision *)

(** The transition named [name] may fire for [instance], and leads to [target]. *)
Record fires cm instance (name : string) params (ct : CompiledTransition) (target : string) : Prop := {
  fi_tr : def_Transitions (cm_Definition cm) !! name = Some (ct_Def ct);
  fi_ct : ct = compileTransition (ct_Def ct);
  fi_live : is_terminal_state (cm_Definition cm) (wi_CurrentState instance) = false;
  fi_source : ∃ source, fires_from cm (tr_Sources (ct_Def ct)) (wi_CurrentState instance) source;
  fi_guards : guards_pass (ct_Def ct) instance params;
  fi_target : (tr_Routes (ct_Def ct) = [] ∧ target = tr_Target (ct_Def ct)) ∨
      (tr_Routes (ct_Def ct) ≠ [] ∧ resolveRoute (ct_Def ct) instance params = Ok target)
}.

(** Why a transition is refused, and with which error. *)
Inductive refused cm instance (name : string) params : error → Prop :=
  | refused_unknown e :
      def_Transitions (cm_Definition cm) !! name = None →
      errors_Is e ErrInvalidTransition = true → refused cm instance name params e
  | refused_terminal tr e :
      def_Transitions (cm_Definition cm) !! name = Some tr →
      is_terminal_state (cm_Definition cm) (wi_CurrentState instance) = true →
      errors_Is e ErrAlreadyTerminal = true → refused cm instance name params e
  | refused_source tr e :
      def_Transitions (cm_Definition cm) !! name = Some tr →
      (∀ s, s ∈ configuration cm (wi_CurrentState instance) → s ∉ tr_Sources tr) →
      errors_Is e ErrInvalidTransition = true → refused cm instance name params e
  | refused_guard tr n reason :
      def_Transitions (cm_Definition cm) !! name = Some tr →
      guard_fails tr instance params n reason →
      refused cm instance name params (GuardError n reason)
  | refused_route tr e :
      def_Transitions (cm_Definition cm) !! name = Some tr → guards_pass tr instance params →
      tr_Routes tr ≠ [] → resolveRoute tr instance params = Err e →
      refused cm instance name params e.

Lemma validateTransition_ok_spec cm instance name params t ct target :
  compiled cm → keyed (cm_Definition cm) →
  runs (validateTransition cm instance name params) t (Ok (ct, target)) ↔
  t = [] ∧ fires cm instance name params ct target.
Proof.
  intros Hc Hk. unfold validateTransition. cbv zeta. split.
  - destruct (def_Transitions (cm_Definition cm) !! name) as [tr|] eqn:Htr; [|by intros [_ ?]].
    destruct (is_terminal_state _ _) eqn:Hterm; [by intros [_ ?]|].
    pose proof (effective_source_spec cm (tr_Sources tr) (wi_CurrentState instance)) as Hes.
    destruct (effective_source _ _ _) as [source|]; [|by intros [_ ?]].
    pose proof Hes as (_ & _ & _ & Hsrc & _).
    rewrite (find_compiled_spec cm name tr source) by done.
    intros (t1 & t2 & r & -> & Hg & Hr)%runs_bind. apply runGuards_spec in Hg.
    destruct r as [e|]; [by destruct Hr|]. destruct Hg as [-> Hg].
    case_decide as Hlen.
    + destruct (resolveRoute tr instance params) as [resolved|e] eqn:Hres; [|by destruct Hr].
      destruct Hr as [-> [= <- <-]]. split; [done|]. constructor; try done; [by exists source|].
      right. split; [|done]. cbn. intros E. rewrite E in Hlen. simpl in Hlen. lia.
    + destruct Hr as [-> [= <- <-]]. split; [done|]. constructor; try done; [by exists source|].
      left. split; [|done]. cbn. destruct (tr_Routes tr); [done|simpl in Hlen; lia].
  - intros [-> [Htr Hct Hlive [source Hsrc] Hg Htgt]].
    assert (∃ tr, ct = compileTransition tr) as [tr ->] by eauto.
    cbn [compileTransition ct_Def] in *. clear Hct. rewrite Htr, Hlive.
    pose proof (effective_source_spec cm (tr_Sources tr) (wi_CurrentState instance)) as Hes.
    destruct (effective_source _ _ _) as [s|].
    2: { destruct Hsrc as (l1 & l2 & E & Hin & _). exfalso. apply (Hes source); [|done].
         rewrite E. apply elem_of_app. right. by left. }
    assert (s = source) as -> by (by eapply innermost_unique).
    pose proof Hsrc as (_ & _ & _ & Hin & _).
    rewrite (find_compiled_spec cm name tr source) by done.
    unfold check. rewrite runGuards_pass by done. cbn [mbind prog_bind].
    destruct Htgt as [[Hr ->]|[Hr Hres]].
    + rewrite decide_False; [done|]. rewrite Hr. simpl. lia.
    + rewrite decide_True; [by rewrite Hres|]. destruct (tr_Routes tr); [done|simpl; lia].
Qed.

(** C8: [validateTransition] accepts exactly the transitions that may fire
    (known, from a live state, with an active state among its sources, all
    guards passing and a resolvable target), without any call to a dependency. *)
Theorem validateTransition_accepts cm instance name params t ct target :
  compiled cm → keyed (cm_Definition cm) →
  runs (validateTransition cm instance name params) t (Ok (ct, target)) ↔
  t = [] ∧ fires cm instance name params ct target.
Proof. apply validateTransition_ok_spec. Qed.

(** C9: When [validateTransition] refuses, its error names the reason: unknown
    transition, terminal state, no active source, the first failing guard, or
    the routes. *)
Theorem validateTransition_refuses cm instance name params t e :
  compiled cm → keyed (cm_Definition cm) →
  runs (validateTransition cm instance name params) t (Err e) →
  refused cm instance name params e.
Proof.
  intros Hc Hk. unfold validateTransition. cbv zeta.
  destruct (def_Transitions (cm_Definition cm) !! name) as [tr|] eqn:Htr.
  2: { intros [_ [= <-]]. by apply refused_unknown. }
  destruct (is_terminal_state _ _) eqn:Hterm.
  { intros [_ [= <-]]. by eapply refused_terminal. }
  pose proof (effective_source_spec cm (tr_Sources tr) (wi_CurrentState instance)) as Hes.
  destruct (effective_source _ _ _) as [source|].
  2: { intros [_ [= <-]]. by eapply refused_source. }
  pose proof Hes as (_ & _ & _ & Hsrc & _).
  rewrite (find_compiled_spec cm name tr source) by done.
  intros (t1 & t2 & r & -> & Hg & Hr)%runs_bind. apply runGuards_spec in Hg.
  destruct r as [e'|].
  { destruct Hr as [-> [= <-]]. destruct Hg as (n & reason & -> & Hf & _). by eapply refused_guard. }
  destruct Hg as [-> Hg]. case_decide as Hlen; [|by destruct Hr].
  destruct (resolveRoute tr instance params) as [resolved|e'] eqn:Hres; [by destruct Hr|].
  destruct Hr as [-> [= <-]]. eapply refused_route; try done.
  intros E. rewrite E in Hlen. simpl in Hlen. lia.
Qed.
End firing.
