(* ===== verification/Transactions.v ===== *)
(** * Transactions: what an engine operation writes, and when

    Every state change of the engine goes through the transaction provider.  A
    monitor follows the transaction an operation has open, the writes pending in
    it and the batches already committed; the theorems say, for every reply of
    every dependency, that the discipline is kept and what a commit contains. *)

From S2P Require Import Prelude Errors Types Hash Validate Compile Helpers Effects SideEffects.
From S2P Require Import Executor Dispatcher Parallel Scheduler Snapshot.

(** ** The monitor *)

Inductive write :=
  | WCreate (instance : WorkflowInstance)
  | WUpdate (instance : WorkflowInstance)
  | WEvent (event : DomainEvent)
  | WInvalidate (aggregateType aggregateID : string) (states : list string).

Record open_tx := mkOpen {
  op_handle : tx;
  op_writes : list write;                       (* succeeded, not committed *)
  op_savepoints : list (string * list write)    (* newest first *)
}.

#[export] Instance open_tx_eta : Eta open_tx := λ r,
  mkOpen (op_handle r) (op_writes r) (op_savepoints r).

Record txstate := mkTx {
  tx_open : option open_tx;
  tx_committed : list (list write)
}.

Definition within (s : txstate) (t : tx) : Prop :=
  ∃ o, tx_open s = Some o ∧ op_handle o = t.

Definition tx_pre (s : txstate) (c : call) : Prop :=
  match c with
  | Begin => tx_open s = None
  | Commit t | Rollback t | Savepoint t _ => within s t
  | RollbackTo t name =>
      ∃ o ws rest, tx_open s = Some o ∧ op_handle o = t ∧ op_savepoints o = (name, ws) :: rest
  | InstanceCreate t _ | InstanceUpdate t _ | EventAppend t _ | InvalidateByStates t _ _ _ =>
      within s t
  | TaskCreate t _ | TaskComplete t _ _ _ | ChildCreate t _ | ChildComplete t _ _ _
  | ActivityCreate t _ => t = None ∧ tx_open s = None
  | EventEmit _ | ActivityDispatch _ | Notify (NTransition _ _) => tx_open s = None
  | _ => True
  end.

Definition add_write (s : txstate) (w : write) (err : option error) : txstate :=
  match err, tx_open s with
  | None, Some o => mkTx (Some (o <| op_writes := op_writes o ++ [w] |>)) (tx_committed s)
  | _, _ => s
  end.

Definition tx_step (s : txstate) (c : call) : reply c → txstate :=
  match c return reply c → txstate with
  | Begin => λ r, match r with
      | Ok t => mkTx (Some (mkOpen t [] [])) (tx_committed s) | Err _ => s end
  | Commit t => λ err, match err, tx_open s with
      | None, Some o => mkTx None (tx_committed s ++ [op_writes o])
      | _, _ => mkTx None (tx_committed s) end
  | Rollback t => λ _, mkTx None (tx_committed s)
  | Savepoint t name => λ _, match tx_open s with
      | Some o => mkTx (Some (o <| op_savepoints := (name, op_writes o) :: op_savepoints o |>))
                    (tx_committed s)
      | None => s end
  | RollbackTo t name => λ _, match tx_open s with
      | Some o => match op_savepoints o with
          | (_, ws) :: _ => mkTx (Some (o <| op_writes := ws |>)) (tx_committed s)
          | [] => s end
      | None => s end
  | InstanceCreate t i => add_write s (WCreate i)
  | InstanceUpdate t i => add_write s (WUpdate i)
  | EventAppend t e => add_write s (WEvent e)
  | InvalidateByStates t at' aid states => add_write s (WInvalidate at' aid states)
  | _ => λ _, s
  end.

(** The monitor considers every reply. *)
Definition tx_monitor : monitor txstate := mkMonitor _ tx_pre (λ _ _ _, True) tx_step.

Abbreviation twp := (wp tx_monitor).

Lemma considered_all s t : considered tx_monitor s t.
Proof. revert s. induction t as [|[c r] t IH]; intros s; simpl; auto. Qed.

(** ** Programs that leave the transaction alone *)

(** [quiet p]: outside a transaction [p] keeps the discipline and the state. *)
Definition quiet {A} (p : prog A) : Prop :=
  ∀ s, tx_open s = None → twp p s (λ _ s', s' = s).

(** [silent p]: the same inside a transaction too. *)
Definition silent {A} (p : prog A) : Prop := ∀ s, twp p s (λ _ s', s' = s).

Lemma silent_quiet {A} (p : prog A) : silent p → quiet p.
Proof. intros Hp s _. apply Hp. Qed.

Lemma quiet_bind {A B} (p : prog A) (f : A → prog B) :
  quiet p → (∀ a, quiet (f a)) → quiet (p ≫= f).
Proof.
  intros Hp Hf s Hs. apply wp_bind. eapply wp_mono; [by apply Hp|].
  intros a s' ->. by apply Hf.
Qed.

Lemma silent_bind {A B} (p : prog A) (f : A → prog B) :
  silent p → (∀ a, silent (f a)) → silent (p ≫= f).
Proof.
  intros Hp Hf s. apply wp_bind. eapply wp_mono; [by apply Hp|]. intros a s' ->. by apply Hf.
Qed.

Lemma twp_quiet {A} (p : prog A) s (Q : A → txstate → Prop) :
  quiet p → tx_open s = None → (∀ a, Q a s) → twp p s Q.
Proof. intros Hp Hs HQ. eapply wp_mono; [by apply Hp|]. by intros a s' ->. Qed.

Lemma twp_silent {A} (p : prog A) s (Q : A → txstate → Prop) :
  silent p → (∀ a, Q a s) → twp p s Q.
Proof. intros Hp HQ. eapply wp_mono; [by apply Hp|]. by intros a s' ->. Qed.

Lemma quiet_ret {A} (a : A) : quiet (Ret a).
Proof. done. Qed.

Lemma silent_ret {A} (a : A) : silent (Ret a).
Proof. done. Qed.

#[export] Hint Resolve silent_quiet quiet_bind silent_bind quiet_ret silent_ret : flow.

Section operations.
Context {gr : GoRange} {cfg : Config}.
Implicit Types (cm : CompiledMachine) (instance : WorkflowInstance) (params : gomap value).

Lemma runSyncActivity_silent name input : silent (runSyncActivity name input).
Proof.
  unfold runSyncActivity. case_match; [done|]. case_match; [done|].
  apply silent_bind; [done|]. by intros [].
Qed.

Lemma runGuards_silent wt ct instance params : silent (runGuards wt ct instance params).
Proof.
  unfold runGuards. generalize 0. induction (tr_Guards (ct_Def ct)) as [|g gs IH]; intros i; simpl; [done|].
  destruct (g_Check _ _ _); [done|apply IH].
Qed.

Lemma validateTransition_silent cm instance name params :
  silent (validateTransition cm instance name params).
Proof.
  unfold validateTransition. repeat case_match; try done.
  all: intros st; apply wp_check, twp_silent; [apply runGuards_silent|].
  all: intros []; [done|]. all: repeat case_match; done.
Qed.

Lemma warn_on_quiet operation p : quiet p → quiet (warn_on operation p).
Proof. intros Hp. apply quiet_bind; [done|]. by intros []. Qed.

Lemma emit_event_quiet event : quiet (emit_event event).
Proof. unfold emit_event. case_match; [|done]. by intros s Hs; split; [|intros []]. Qed.

Lemma dispatch_activities_quiet cm instance params now acts :
  quiet (dispatch_activities cm instance params now acts).
Proof.
  induction acts as [|a acts IH]; cbn [dispatch_activities]; [done|].
  apply quiet_bind; [done|]. intros id. apply quiet_bind.
  { case_match; [|done]. apply warn_on_quiet. by intros s Hs. }
  intros created. apply quiet_bind; [by intros s Hs|]. intros err.
  apply quiet_bind; [by destruct err|]. intros out. apply quiet_bind; [done|]. done.
Qed.

Lemma create_task_quiet cm instance def now : quiet (create_task cm instance def now).
Proof.
  unfold create_task. repeat case_match; try done. apply quiet_bind; [done|]. intros id.
  apply quiet_bind; [apply warn_on_quiet; by intros s Hs|]. done.
Qed.

Lemma spawn_one_quiet cm instance g c j now : quiet (spawn_one cm instance g c j now).
Proof.
  apply quiet_bind; [done|]. intros a. apply quiet_bind; [done|]. intros b.
  apply quiet_bind; [apply warn_on_quiet; by intros s Hs|]. done.
Qed.

Lemma spawn_group_quiet cm instance g c j now inputs :
  quiet (spawn_group cm instance g c j now inputs).
Proof.
  induction inputs as [|i l IH]; cbn [spawn_group]; [done|].
  apply quiet_bind; [apply spawn_one_quiet|]. intros. by apply quiet_bind.
Qed.

Lemma spawn_children_quiet cm instance tr now : quiet (spawn_children cm instance tr now).
Proof.
  apply quiet_bind; [repeat case_match; try done; apply spawn_one_quiet|]. intros.
  apply quiet_bind; [|done]. repeat case_match; try done.
  apply quiet_bind; [done|]. intros. apply spawn_group_quiet.
Qed.

(** What a finished operation reports about the commit it made. *)
Definition reports (res : TransitionResult) (event : DomainEvent) instance
    (previousState : string) : Prop :=
  res_Event res = event ∧ res_Instance res = instance ∧
  res_PreviousState res = previousState ∧ res_NewState res = wi_CurrentState instance.

Lemma runPostCommit_spec cm instance ct event previousState params start s :
  tx_open s = None →
  twp (runPostCommit cm instance ct event previousState params start) s (λ r s',
    s' = s ∧ ∃ res, r = Ok res ∧ reports res event instance previousState).
Proof.
  intros Hs. unfold runPostCommit.
  apply wp_bind, twp_quiet; [apply emit_event_quiet|done|intros w1].
  apply wp_bind, twp_quiet; [case_decide; [apply dispatch_activities_quiet|done]|done|intros a].
  apply wp_bind, twp_quiet; [apply create_task_quiet|done|intros tk].
  apply wp_bind, twp_quiet; [apply spawn_children_quiet|done|intros ch].
  cbn. split; [done|]. intros finished _. split; [done|]. intros _ _.
  split; [done|]. eexists. split; [done|]. done.
Qed.

(** ** Commits *)

(** A transaction is open on [t], with the writes [ws] pending. *)
Definition in_tx (s : txstate) (t : tx) (ws : list write) (bs : list (list write)) : Prop :=
  (∃ sps, tx_open s = Some (mkOpen t ws sps)) ∧ tx_committed s = bs.

(** No transaction is open, and [bs] is committed. *)
Definition idle (s : txstate) (bs : list (list write)) : Prop :=
  tx_open s = None ∧ tx_committed s = bs.

Lemma persist_spec t event instance s ws bs :
  in_tx s t ws bs →
  twp (persist t event instance) s (λ r s', match r with
    | None => idle s' (bs ++ [ws ++ [WEvent event; WUpdate instance]])
    | Some _ => idle s' bs
    end).
Proof.
  intros [[sps Ho] <-]. destruct s as [o committed]; simpl in Ho; subst o. unfold persist.
  apply wp_check. split; [by eexists|]. intros [err|] _; cbn.
  { split; [by eexists|]. intros; by split. }
  split; [by eexists|]. intros [err|] _; cbn.
  { split; [by eexists|]. intros; by split. }
  split; [by eexists|]. intros [err|] _; cbn; [by split|].
  split; [done|]. simpl. by rewrite <-app_assoc.
Qed.

Lemma run_exit_activities_spec cm t input exitSeq s ws bs :
  in_tx s t ws bs →
  twp (run_exit_activities cm t input exitSeq) s (λ r s', match r with
    | inl _ => in_tx s' t ws bs
    | inr _ => idle s' bs
    end).
Proof.
  intros Hs. apply (wp_for_each _ (λ _ s, in_tx s t ws bs)); [|done|done].
  intros stateName [] s1 _ H1. cbv beta zeta. case_decide; [done|].
  apply wp_bind, twp_silent; [apply runSyncActivity_silent|]. intros failure. destruct failure as [err|]; [|done].
  destruct H1 as [[sps Ho] Hc]. cbn. split; [by eexists|]. intros _ _. by split.
Qed.

(** What a stuck transition may still commit: nothing, an empty batch, or the
    instance marked stuck. *)
Definition stuck_batches (i : WorkflowInstance) (bs : list (list write)) : Prop :=
  bs = [] ∨ bs = [[]] ∨ bs = [[WUpdate i]].

Lemma run_entry_activities_spec cm instance t input sourceLeaf now entrySeq s bs :
  in_tx s t [] bs →
  twp (run_entry_activities cm instance t input sourceLeaf now entrySeq) s (λ r s', match r with
    | inl _ | inr (inl _) => in_tx s' t [] bs
    | inr (inr _) => ∃ reason more,
        stuck_batches (mark_stuck instance sourceLeaf reason now) more ∧ idle s' (bs ++ more)
    end).
Proof.
  intros Hs. apply (wp_for_each _ (λ _ s, in_tx s t [] bs)); [|done|done].
  intros stateName [] s1 _ [[sps Ho] Hc]. destruct s1 as [o committed]. simpl in *. subst.
  cbv beta zeta.
  case_decide; [by split; [eexists|]|].
  destruct hasSavepoints.
  - apply wp_bind. cbn. split; [by eexists|]. intros _ _. apply wp_bind, twp_silent;
      [apply runSyncActivity_silent|]. intros failure. destruct failure as [err|]; cbn; [|by split; [eexists|]].
    split; [by eexists _, _, _|]. intros _ _. by split; [eexists|].
  - apply wp_bind. cbn. apply wp_bind, twp_silent; [apply runSyncActivity_silent|].
    intros failure. destruct failure as [err|]; [|by split; [eexists|]]. set (reason := stuck_reason _ _ _).
    cbn. split; [by eexists|]. intros _ _. split; [done|]. intros [t'|e] _; cbn.
    + split; [by eexists|]. intros [e1|] _; cbn; (split; [by eexists|]).
      all: intros [e2|] _; cbn; exists reason; unfold stuck_batches, idle; simpl.
      * exists []. rewrite app_nil_r. auto.
      * exists [[]]. auto.
      * exists []. rewrite app_nil_r. auto.
      * eexists [[_]]. eauto.
    + exists reason, []. rewrite app_nil_r. split; [by left|done].
Qed.

(** The writes of the task invalidator, when it succeeds. *)
Definition invalidation cm instance (exitSeq : list string) (ws : list write) : Prop :=
  ws = [] ∨ ws = [WInvalidate (wi_AggregateType instance) (wi_AggregateID instance)
                    (exited_states cm exitSeq)].

Lemma invalidate_tasks_spec cm instance t exitSeq s bs :
  in_tx s t [] bs →
  twp (invalidate_tasks cm instance t exitSeq) s (λ _ s',
    ∃ ws, invalidation cm instance exitSeq ws ∧ in_tx s' t ws bs).
Proof.
  intros [[sps Ho] Hc]. destruct s as [o committed]. simpl in *. subst.
  unfold invalidate_tasks. case_match; [|by exists []; split; [left|split; [eexists|]]].
  case_decide; [|by exists []; split; [left|split; [eexists|]]].
  cbn. split; [by eexists|]. intros [err|] _; cbn.
  - split; [done|]. intros _ _. by exists []; split; [left|split; [eexists|]].
  - eexists. split; [by right|]. by split; [eexists|].
Qed.

(** The event and instance a successful transition of a plain state writes. *)
Definition moves cm instance (ct : CompiledTransition)
    (targetState transitionName actorID : string) params
    (event : DomainEvent) (i' : WorkflowInstance) : Prop :=
  let source := wi_CurrentState instance in
  let target := resolve_target cm instance (tr_HistoryMode (ct_Def ct)) targetState in
  ∃ id now,
    event = transition_event cm instance id (tr_Event (ct_Def ct)) actorID transitionName
              params now ∧
    i' = moved_instance cm
           (recordHistory instance source (exit_sequence cm source target) (cm_Definition cm))
           target now.

(** The instance stays where it was, marked stuck. *)
Definition stuck_at instance (i : WorkflowInstance) : Prop :=
  wi_CurrentState i = wi_CurrentState instance ∧ wi_IsStuck i = true ∧
  wi_LastReadUpdatedAt i = wi_UpdatedAt instance.

(** What a transition that fails may have committed: nothing that moves the
    instance. *)
Inductive aborted instance : list (list write) → Prop :=
  | aborted_nothing : aborted instance []
  | aborted_empty : aborted instance [[]]
  | aborted_stuck i : stuck_at instance i → aborted instance [[WUpdate i]]
  | aborted_stuck_event i ws event :
      stuck_at instance i → ws = [] ∨ (∃ states, ws =
        [WInvalidate (wi_AggregateType instance) (wi_AggregateID instance) states]) →
      aborted instance [ws ++ [WEvent event; WUpdate i]].

Lemma recordHistory_fields instance leaf seq def :
  let i' := recordHistory instance leaf seq def in
  wi_CurrentState i' = wi_CurrentState instance ∧ wi_UpdatedAt i' = wi_UpdatedAt instance ∧
  wi_AggregateType i' = wi_AggregateType instance ∧ wi_AggregateID i' = wi_AggregateID instance ∧
  wi_ActiveInParallel i' = wi_ActiveInParallel instance ∧
  wi_CorrelationID i' = wi_CorrelationID instance ∧ wi_StateData i' = wi_StateData instance.
Proof.
  destruct (record_fold def leaf seq seq instance) as (_ & _ & HE).
  unfold recordHistory. by rewrite HE.
Qed.

Lemma stuck_batches_aborted instance leaf seq def reason now bs :
  stuck_batches (mark_stuck (recordHistory instance leaf seq def) (wi_CurrentState instance)
                   reason now) bs → aborted instance bs.
Proof.
  destruct (recordHistory_fields instance leaf seq def) as (_ & Hu & _).
  intros [->|[->| ->]]; constructor. by split_and!.
Qed.

Lemma invalidation_shape cm instance leaf seq def exitSeq ws :
  invalidation cm (recordHistory instance leaf seq def) exitSeq ws →
  ws = [] ∨ ∃ states,
    ws = [WInvalidate (wi_AggregateType instance) (wi_AggregateID instance) states].
Proof.
  destruct (recordHistory_fields instance leaf seq def) as (_ & _ & Ht & Hi & _).
  intros [->| ->]; [by left|]. right. rewrite Ht, Hi. eauto.
Qed.

Lemma commitTransition_spec cm instance ct targetState transitionName actorID params s bs :
  idle s bs →
  twp (commitTransition cm instance ct targetState transitionName actorID params) s (λ r s',
    match r with
    | Ok (event, i') =>
        moves cm instance ct targetState transitionName actorID params event i' ∧
        ∃ ws, (ws = [] ∨ ∃ states,
            ws = [WInvalidate (wi_AggregateType instance) (wi_AggregateID instance) states]) ∧
          idle s' (bs ++ [ws ++ [WEvent event; WUpdate i']])
    | Err _ => ∃ more, aborted instance more ∧ idle s' (bs ++ more)
    end).
Proof.
  intros Hs. unfold commitTransition. cbv zeta.
  set (target := resolve_target _ _ _ _). set (source := wi_CurrentState instance).
  set (i1 := recordHistory _ _ _ _). set (exitSeq := exit_sequence _ _ _).
  apply wp_bind, wp_perform; [done|]. intros now _. apply wp_bind, wp_perform; [done|].
  intros id _. destruct Hs as [Ho <-]. apply wp_try, wp_perform; [done|].
  intros [t|err] _; cbn [m_step tx_monitor tx_step].
  2: { exists []. rewrite app_nil_r. split; [constructor|done]. }
  assert (in_tx (mkTx (Some (mkOpen t [] [])) (tx_committed s)) t [] (tx_committed s)) as Hin
    by (by split; [eexists|]).
  apply wp_bind. eapply wp_mono; [by apply run_exit_activities_spec|].
  intros [[]|err] s1 H1; cbv beta iota in *.
  2: { exists []. rewrite app_nil_r. split; [constructor|done]. }
  apply wp_bind. eapply wp_mono; [by apply run_entry_activities_spec|].
  intros [[]|[reason|err]] s2 H2; cbv beta iota in *.
  3: { destruct H2 as (reason & more & Hm & Hs2). exists more. split; [|done].
       by eapply stuck_batches_aborted. }
  all: apply wp_bind; eapply wp_mono; [by apply invalidate_tasks_spec|].
  all: intros [] s3 (ws & Hws & H3); cbv beta; apply invalidation_shape in Hws.
  all: apply wp_check; eapply wp_mono; [by apply persist_spec|].
  all: intros [err|] s4 H4; cbv beta iota in *.
  - exists []. rewrite app_nil_r. split; [constructor|done].
  - split; [by exists id, now|]. by exists ws.
  - exists []. rewrite app_nil_r. split; [constructor|done].
  - eexists. split; [|exact H4]. constructor; [|done].
    destruct (recordHistory_fields instance source exitSeq (cm_Definition cm)) as (_ & Hu & _).
    by split_and!.
Qed.

(** ** Parallel states *)

Lemma for_each_silent {A B R} (l : list A) (b : B) (body : A → B → prog (B + R)) :
  (∀ x b, silent (body x b)) → silent (for_each l b body).
Proof.
  intros Hb. revert b. induction l as [|x l IH]; intros b; cbn [for_each]; [done|].
  apply silent_bind; [done|]. by intros [].
Qed.

Lemma run_activities_silent cm kind which input seq :
  silent (run_activities cm kind which input seq).
Proof.
  apply for_each_silent. intros stateName []. cbv beta zeta. case_decide; [done|].
  apply silent_bind; [apply runSyncActivity_silent|done].
Qed.

Lemma run_all_silent cm kind which input seqs : silent (run_all cm kind which input seqs).
Proof. apply for_each_silent. intros. apply run_activities_silent. Qed.

Lemma collect_regions_silent cm instance p name tr params regions cands :
  silent (collect_regions cm instance p name tr params regions cands).
Proof.
  revert cands. induction regions as [|r l IH]; intros cands; cbn [collect_regions]; [done|].
  cbv zeta. case_decide; [done|]. case_match; [|done]. intros s.
  apply wp_check, twp_silent; [apply runGuards_silent|]. intros [err|]; cbv beta iota; [done|].
  case_match; [|done]. apply IH.
Qed.

Lemma collectParallelCandidates_silent cm instance p name params :
  silent (collectParallelCandidates cm instance p name params).
Proof. unfold collectParallelCandidates. case_match; [apply collect_regions_silent|done]. Qed.

Lemma begin_and_persist_spec event instance s bs :
  idle s bs →
  twp (begin_and_persist event instance) s (λ r s', match r with
    | Ok committed => committed = (event, instance) ∧
        idle s' (bs ++ [[WEvent event; WUpdate instance]])
    | Err _ => idle s' bs
    end).
Proof.
  intros [Ho <-]. apply wp_try, wp_perform; [done|].
  intros [t|err] _; cbn [m_step tx_monitor tx_step]; [|by split].
  apply wp_check. eapply wp_mono; [by apply (persist_spec _ _ _ _ []); split; [eexists|]|].
  by intros [err|] s' H.
Qed.

(** The instance an intra-parallel transition writes: only the regions of its
    candidates have moved. *)
Lemma commitParallelIntra_spec cm instance candidates p name actorID params s bs :
  idle s bs →
  twp (commitParallelIntra cm instance candidates p name actorID params) s (λ r s', match r with
    | Ok (event, i') => idle s' (bs ++ [[WEvent event; WUpdate i']]) ∧
        ev_EventType event = "ParallelTransition" ∧
        ∃ now, i' = intra_instance instance candidates now
    | Err _ => idle s' bs
    end).
Proof.
  intros Hs. apply wp_bind, wp_perform; [done|]. intros now _. cbv zeta.
  apply wp_bind, twp_silent; [apply run_all_silent|]. intros [[]|err]; [|done].
  apply wp_bind, twp_silent; [apply run_all_silent|]. intros [[]|err]; [|done].
  apply wp_bind, wp_perform; [done|]. intros id _. cbn [m_step tx_monitor tx_step].
  eapply wp_mono; [by apply begin_and_persist_spec|].
  intros [[ev i']|err] s'; [|done]. intros [[= -> ->] H]. split_and!; [done..|]. by exists now.
Qed.

Lemma commitParallelExit_spec cm instance ct target name actorID params s bs :
  idle s bs →
  twp (commitParallelExit cm instance ct target name actorID params) s (λ r s', match r with
    | Ok (event, i') => idle s' (bs ++ [[WEvent event; WUpdate i']]) ∧
        ev_EventType event = tr_Event (ct_Def ct) ∧
        ∃ now, i' = exit_instance (record_regions cm instance (wi_CurrentState instance))
                      (initial_leaf_or_self cm target) now
    | Err _ => idle s' bs
    end).
Proof.
  intros Hs. apply wp_bind, wp_perform; [done|]. intros now _. cbv zeta.
  apply wp_bind, twp_silent; [apply run_activities_silent|]. intros [[]|err]; [|done].
  apply wp_bind, twp_silent; [apply run_activities_silent|]. intros [[]|err]; [|done].
  apply wp_bind, wp_perform; [done|]. intros id _. cbn [m_step tx_monitor tx_step].
  eapply wp_mono; [by apply begin_and_persist_spec|].
  intros [[ev i']|err] s'; [|done]. intros [[= -> ->] H]. split_and!; [done..|]. by exists now.
Qed.

(** ** Whole operations *)

Definition creates (b : list write) : Prop := ∃ i, b = [WCreate i].

(** Writes that only cancel tasks. *)
Definition tasks_only (ws : list write) : Prop :=
  ws = [] ∨ ∃ at' aid states, ws = [WInvalidate at' aid states].

(** The last batch of an operation: the event and the instance it returns, or,
    on an error, nothing that moves the instance. *)
Definition main_batch (r : result TransitionResult) (main : list (list write)) : Prop :=
  match r with
  | Ok res => ∃ ws, tasks_only ws ∧
      main = [ws ++ [WEvent (res_Event res); WUpdate (res_Instance res)]]
  | Err _ => main = [] ∨ ∃ instance, aborted instance main
  end.

Definition committed_by (r : result TransitionResult) (bs : list (list write)) : Prop :=
  ∃ pre main, bs = pre ++ main ∧ Forall creates pre ∧ main_batch r main.

Lemma aborted_committed_by e instance bs : aborted instance bs → committed_by (Err e) bs.
Proof. intros Ha. exists [], bs. split_and!; [done..|]. right. by exists instance. Qed.

Lemma nothing_committed_by e : committed_by (Err e) [].
Proof. exists [], []. split_and!; [done..|]. by left. Qed.

Lemma createInstance_spec cm aggregateType aggregateID s bs :
  idle s bs →
  twp (createInstance cm aggregateType aggregateID) s (λ r s', match r with
    | Ok i => (∃ id cid now, i = new_instance cm aggregateType aggregateID id cid now) ∧
        idle s' (bs ++ [[WCreate i]])
    | Err _ => idle s' bs
    end).
Proof.
  intros [Ho <-]. do 3 (apply wp_bind, wp_perform; [done|]; intros ? _). cbv zeta.
  apply wp_try, wp_perform; [done|].
  intros [t|err] _; cbn [m_step tx_monitor tx_step]; [|by split].
  apply wp_check, wp_perform; [by eexists|].
  intros [err|] _; cbn [m_step tx_monitor tx_step add_write tx_open tx_committed].
  { apply wp_bind, wp_perform; [by eexists|]. intros ? _. by split. }
  apply wp_check, wp_perform; [by eexists|].
  intros [err|] _; cbn [m_step tx_monitor tx_step tx_open tx_committed]; [by split|].
  cbn [wp]. split; [by eexists _, _, _|done].
Qed.

(** Loading commits nothing but, at most, the creation of the instance. *)
Definition loaded_by {A} (r : result (A * WorkflowInstance)) (bs : list (list write)) : Prop :=
  match r with
  | Ok (_, i) => bs = [] ∨ bs = [[WCreate i]]
  | Err _ => bs = []
  end.

Lemma loadInstance_spec aggregateType aggregateID s bs :
  idle s bs →
  twp (loadInstanceAndCompiled aggregateType aggregateID) s (λ r s',
    ∃ pre, loaded_by r pre ∧ idle s' (bs ++ pre)).
Proof.
  intros Hs. assert (∀ s', idle s' bs → idle s' (bs ++ [])) as Hnil by (intros; by rewrite app_nil_r).
  apply wp_bind, wp_perform; [done|]. intros got _. cbn [m_step tx_monitor tx_step].
  destruct got as [instance|err].
  - apply wp_bind, wp_perform; [done|]. intros [cm|] _; cbn [m_step tx_monitor tx_step].
    + exists []. split; [by left|auto].
    + exists []. split; [done|auto].
  - destruct (negb _); [exists []; split; [done|auto]|].
    apply wp_bind, wp_perform; [done|]. intros [cm|] _; cbn [m_step tx_monitor tx_step].
    2: { exists []. split; [done|auto]. }
    apply wp_try. eapply wp_mono; [by apply createInstance_spec|].
    intros [i|e] s' H; cbv beta iota in *.
    + exists [[WCreate i]]. split; [by right|]. by destruct H as [_ H].
    + exists []. split; [done|auto].
Qed.

Lemma loadForSignal_spec aggregateType aggregateID s bs :
  idle s bs →
  twp (loadForSignal aggregateType aggregateID) s (λ r s',
    ∃ pre, loaded_by r pre ∧ idle s' (bs ++ pre)).
Proof.
  intros Hs. assert (∀ s', idle s' bs → idle s' (bs ++ [])) as Hnil by (intros; by rewrite app_nil_r).
  apply wp_bind, wp_perform; [done|]. intros got _. cbn [m_step tx_monitor tx_step].
  destruct got as [instance|err].
  - apply wp_bind, wp_perform; [done|]. intros [cm|] _; cbn [m_step tx_monitor tx_step].
    + exists []. split; [by left|auto].
    + exists []. split; [done|auto].
  - destruct (errors_Is _ _); [|exists []; split; [done|auto]].
    apply wp_bind, wp_perform; [done|]. intros [cm|] _; cbn [m_step tx_monitor tx_step].
    2: { exists []. split; [done|auto]. }
    apply wp_try. eapply wp_mono; [by apply createInstance_spec|].
    intros [i|e] s' H; cbv beta iota in *.
    + exists [[WCreate i]]. split; [by right|]. by destruct H as [_ H].
    + exists []. split; [done|auto].
Qed.

(** An operation does nothing after [Shutdown], and is otherwise its body. *)
Lemma operation_spec {A} (body : prog (result A)) s (Q : result A → txstate → Prop) :
  (∀ e, Q (Err e) s) → twp body s Q → twp (operation body) s Q.
Proof.
  intros HQ Hb. apply wp_check, wp_bind, wp_perform; [done|].
  intros [|] _; cbn [m_step tx_monitor tx_step]; [apply HQ|].
  apply wp_bind, wp_perform; [done|]. intros u _. cbn [m_step tx_monitor tx_step].
  apply wp_bind. eapply wp_mono; [exact Hb|]. intros r s' H.
  by apply wp_bind, wp_perform; [done|]; intros u' _.
Qed.

(** A program may always be preceded by what commits nothing. *)
Definition ends_with (bs : list (list write)) (r : result TransitionResult) (s : txstate) : Prop :=
  ∃ more, committed_by r more ∧ idle s (bs ++ more).

Lemma ends_nothing bs e s : idle s bs → ends_with bs (Err e) s.
Proof. intros Hs. exists []. rewrite app_nil_r. split; [apply nothing_committed_by|done]. Qed.

Lemma finish_commit cm ct event i previousState params start s bs ws :
  tasks_only ws → idle s (bs ++ [ws ++ [WEvent event; WUpdate i]]) →
  twp (runPostCommit cm i ct event previousState params start) s (ends_with bs).
Proof.
  intros Hws Hs. eapply wp_mono; [by apply runPostCommit_spec, Hs|].
  intros r s' [-> (res & -> & <- & <- & _)].
  eexists. split; [|exact Hs]. exists [], [ws ++ [WEvent (res_Event res); WUpdate (res_Instance res)]].
  split_and!; [done..|]. by exists ws.
Qed.

Lemma transition_from_spec cm instance name actorID params start s bs :
  idle s bs →
  twp (transition_from cm instance name actorID params start) s (ends_with bs).
Proof.
  intros Hs. unfold transition_from. case_decide as Hpar.
  - unfold parallelTransition. destruct (_ !! name) as [tr|]; [|by apply ends_nothing].
    cbv zeta. destruct (is_terminal_state _ _); [by apply ends_nothing|].
    destruct (contains _ _).
    + apply wp_try, twp_silent; [apply validateTransition_silent|].
      intros [[ct target]|e]; [|by apply ends_nothing].
      apply wp_try. eapply wp_mono; [by apply commitParallelExit_spec|].
      intros [[ev i]|e] s' H; [|by apply ends_nothing].
      apply (finish_commit _ _ _ _ _ _ _ _ _ []); [by left|apply H].
    + apply wp_try, twp_silent; [apply collectParallelCandidates_silent|].
      intros [[|c cs]|e]; [by apply ends_nothing| |by apply ends_nothing].
      apply wp_try. eapply wp_mono; [by apply commitParallelIntra_spec|].
      intros [[ev i]|e] s' H; [|by apply ends_nothing].
      apply (finish_commit _ _ _ _ _ _ _ _ _ []); [by left|apply H].
  - apply wp_try, twp_silent; [apply validateTransition_silent|].
    intros [[ct target]|e]; [|by apply ends_nothing].
    apply wp_try. eapply wp_mono; [by apply commitTransition_spec|].
    intros [[ev i]|e] s' H; cbv beta iota in *.
    + destruct H as (_ & ws & Hws & H). apply (finish_commit _ _ _ _ _ _ _ _ _ ws); [|done].
      destruct Hws as [->|[states ->]]; [by left|right; eauto].
    + destruct H as (more & Ha & H). exists more. split; [by eapply aborted_committed_by|done].
Qed.

(** Creating instances before an operation keeps the shape of its outcome. *)
Lemma ends_after_create {A} (r0 : result (A * WorkflowInstance)) a bs pre r s :
  r0 = Ok a → loaded_by r0 pre → ends_with (bs ++ pre) r s → ends_with bs r s.
Proof.
  intros -> Hl (more & (pre' & main & -> & Hpre & Hm) & Hs).
  exists (pre ++ pre' ++ main). rewrite <-app_assoc in Hs. split; [|done].
  exists (pre ++ pre'), main. rewrite <-app_assoc. split_and!; [done| |done].
  apply Forall_app. split; [|done]. destruct a as [? i], Hl as [->| ->]; [done|].
  constructor; [by exists i|done].
Qed.

Lemma Transition_spec aggregateType aggregateID name actorID params s bs :
  idle s bs →
  twp (Transition aggregateType aggregateID name actorID params) s (ends_with bs).
Proof.
  intros Hs. apply operation_spec; [intros; by apply ends_nothing|].
  apply wp_bind, wp_perform; [done|]. intros start _. cbn [m_step tx_monitor tx_step].
  apply wp_try. eapply wp_mono; [by apply loadInstance_spec|].
  intros [[cm i]|e] s' (pre & Hl & H); cbv beta iota.
  - eapply wp_mono; [by eapply transition_from_spec|].
    intros r s2. by eapply ends_after_create.
  - simpl in Hl. subst. rewrite app_nil_r in H. by apply ends_nothing.
Qed.

Lemma then_transition aggregateType aggregateID name actorID params s bs pre A
    (r0 : result (A * WorkflowInstance)) a :
  r0 = Ok a → loaded_by r0 pre → idle s (bs ++ pre) →
  twp (Transition aggregateType aggregateID name actorID params) s (ends_with bs).
Proof.
  intros Hr Hl Hs. eapply wp_mono; [by apply Transition_spec|].
  intros r s'. by eapply ends_after_create.
Qed.

Lemma Signal_spec input s bs : idle s bs → twp (Signal input) s (ends_with bs).
Proof.
  intros Hs. apply operation_spec; [intros; by apply ends_nothing|].
  apply wp_try. eapply wp_mono; [by apply loadForSignal_spec|].
  intros [a|e] s' (pre & Hl & H); cbv beta iota.
  2: { simpl in Hl. subst. rewrite app_nil_r in H. by apply ends_nothing. }
  destruct (select_signal _ _ _) as [name|e]; [by eapply then_transition|].
  eapply ends_after_create; [done|exact Hl|]. by apply ends_nothing.
Qed.

Lemma CompleteTask_spec taskID choice actorID s bs :
  idle s bs → twp (CompleteTask taskID choice actorID) s (ends_with bs).
Proof.
  intros Hs. apply operation_spec; [intros; by apply ends_nothing|].
  destruct (negb _); [by apply ends_nothing|].
  apply wp_try, wp_perform; [done|]. intros [task|e] _; [|by apply ends_nothing].
  apply wp_try, wp_perform; [done|]. intros [instance|e] _; [|by apply ends_nothing].
  apply wp_bind, wp_perform; [done|]. intros [cm|] _; [|by apply ends_nothing].
  destruct (select_task _ _ _ _) as [name|e]; [|by apply ends_nothing].
  apply wp_check, wp_perform; [by split; [|apply Hs]|].
  intros [e|] _; [by apply ends_nothing|]. by apply Transition_spec.
Qed.

Lemma evaluateJoinPolicy_spec relation cm instance s bs :
  idle s bs → twp (evaluateJoinPolicy relation cm instance) s (ends_with bs).
Proof.
  intros Hs. apply wp_try, wp_perform; [done|]. intros [siblings|e] _; [|by apply ends_nothing].
  cbv zeta. destruct (negb _); [by apply ends_nothing|].
  destruct (select_joined _ _); [|by apply ends_nothing]. by apply Transition_spec.
Qed.

Lemma ChildCompleted_spec childType childID terminalState s bs :
  idle s bs → twp (ChildCompleted childType childID terminalState) s (ends_with bs).
Proof.
  intros Hs. apply operation_spec; [intros; by apply ends_nothing|].
  destruct (negb _); [by apply ends_nothing|].
  apply wp_try, wp_perform; [done|]. intros [relation|e] _; [|by apply ends_nothing].
  apply wp_bind, wp_perform; [by split; [|apply Hs]|]. intros completeErr _.
  apply wp_bind, twp_silent; [by destruct completeErr|]. intros _.
  apply wp_try, wp_perform; [done|]. intros [instance|e] _; [|by apply ends_nothing].
  apply wp_bind, wp_perform; [done|]. intros [cm|] _; [|by apply ends_nothing].
  case_decide; [by apply evaluateJoinPolicy_spec|].
  destruct (select_child _ _ _); [|by apply ends_nothing]. by apply Transition_spec.
Qed.

Lemma ForceState_spec aggregateType aggregateID targetState actorID reason s bs :
  idle s bs →
  twp (ForceState aggregateType aggregateID targetState actorID reason) s (ends_with bs).
Proof.
  intros Hs. apply operation_spec; [intros; by apply ends_nothing|].
  apply wp_try, wp_perform; [done|]. intros [instance|e] _; [|by apply ends_nothing].
  apply wp_bind, wp_perform; [done|]. intros [cm|] _; [|by apply ends_nothing].
  cbv zeta. case_decide; [|by apply ends_nothing].
  do 2 (apply wp_bind, wp_perform; [done|]; intros ? _). destruct Hs as [Ho <-].
  apply wp_try, wp_perform; [done|]. intros [t|e] _; [|by apply ends_nothing].
  apply wp_check. eapply wp_mono; [by apply (persist_spec _ _ _ _ []); split; [eexists|]|].
  intros [e|] s' H1; [by apply ends_nothing|].
  apply wp_bind, twp_quiet; [apply emit_event_quiet|apply H1|]. intros warnings.
  eexists. split; [|exact H1]. eexists [], _. split_and!; [done..|].
  exists []. split; [by left|done].
Qed.

(** The operations of the engine that move an instance. *)
Inductive Operation :=
  | OpTransition (aggregateType aggregateID transitionName actorID : string) (params : gomap value)
  | OpSignal (input : SignalInput)
  | OpCompleteTask (taskID choice actorID : string)
  | OpChildCompleted (childAggregateType childAggregateID terminalState : string)
  | OpForceState (aggregateType aggregateID targetState actorID reason : string).

Definition run_operation (op : Operation) : prog (result TransitionResult) :=
  match op with
  | OpTransition at' aid name actor params => Transition at' aid name actor params
  | OpSignal input => Signal input
  | OpCompleteTask task choice actor => CompleteTask task choice actor
  | OpChildCompleted ct cid ts => ChildCompleted ct cid ts
  | OpForceState at' aid target actor reason => ForceState at' aid target actor reason
  end.

Definition tx_initial : txstate := mkTx None [].

Lemma operation_atomic_spec op t r :
  runs (run_operation op) t r →
  allowed tx_monitor tx_initial t ∧
  tx_open (after tx_monitor tx_initial t) = None ∧
  committed_by r (tx_committed (after tx_monitor tx_initial t)).
Proof.
  intros Hr.
  assert (twp (run_operation op) tx_initial (ends_with [])) as Hwp.
  { destruct op; [apply Transition_spec|apply Signal_spec|apply CompleteTask_spec
      |apply ChildCompleted_spec|apply ForceState_spec]; done. }
  destruct (wp_sound _ _ _ _ _ _ Hwp Hr (considered_all _ _)) as [Hal (more & Hm & Ho & Hc)].
  simpl in Hc. by rewrite Hc.
Qed.

(** C1: Whatever the dependencies reply, an operation that moves an instance
    makes its calls in transactional order, leaves no transaction open, and
    commits, besides the creation of the instance, exactly one batch: the event
    and the instance it returns together (and the cancelled tasks of the exited
    states); when it fails, nothing that moves the instance. *)
Theorem operation_atomic op t r :
  runs (run_operation op) t r →
  allowed tx_monitor tx_initial t ∧
  tx_open (after tx_monitor tx_initial t) = None ∧
  committed_by r (tx_committed (after tx_monitor tx_initial t)).
Proof. apply operation_atomic_spec. Qed.

(** ** Side effects and restoration *)

Lemma SideEffect_spec aggregateType aggregateID name s bs :
  idle s bs →
  twp (SideEffect aggregateType aggregateID name) s (λ r s', match r with
    | Ok v => ∃ e, ParseSideEffect e = Some (name, v) ∧ idle s' (bs ++ [[WEvent e]])
    | Err _ => idle s' bs
    end).
Proof.
  intros Hs. apply operation_spec; [done|].
  apply wp_try, wp_perform; [done|]. intros [instance|e] _; [|done].
  apply wp_try, wp_perform; [done|]. intros [v|e] _; [|done].
  do 2 (apply wp_bind, wp_perform; [done|]; intros ? _). cbv zeta. destruct Hs as [Ho <-].
  apply wp_try, wp_perform; [done|]. intros [t|e] _; [|by split].
  apply wp_check, wp_perform; [by eexists|].
  intros [err|] _; cbn [m_step tx_monitor tx_step add_write tx_open tx_committed].
  { apply wp_bind, wp_perform; [by eexists|]. intros ? _. by split. }
  apply wp_check, wp_perform; [by eexists|].
  intros [err|] _; cbn [m_step tx_monitor tx_step tx_open tx_committed]; [by split|].
  cbn [wp]. eexists. split; [|by split]. done.
Qed.

(** C29: A side effect that reports success has stored its result: one committed
    event, which the parser reads back; a side effect that reports an error has
    stored nothing. *)
Theorem SideEffect_stores aggregateType aggregateID name t r :
  runs (SideEffect aggregateType aggregateID name) t r →
  let s := after tx_monitor tx_initial t in
  tx_open s = None ∧
  match r with
  | Ok v => ∃ e, tx_committed s = [[WEvent e]] ∧ ParseSideEffect e = Some (name, v)
  | Err _ => tx_committed s = []
  end.
Proof.
  intros Hr. destruct (wp_sound tx_monitor _ tx_initial _ _ _
    (SideEffect_spec aggregateType aggregateID name tx_initial [] ltac:(done)) Hr
    (considered_all _ _)) as [_ H]. cbv zeta.
  destruct r as [v|e]; [|done]. destruct H as (e & He & Ho & Hc). eauto.
Qed.

Lemma Restore_spec snap s bs :
  idle s bs →
  twp (Restore snap) s (λ r s', match r with
    | None => ∃ cm id now, sn_DefinitionHash snap = cm_DefinitionHash cm ∧
        idle s' (bs ++ [[WCreate (rebuilt snap now); WEvent (restored_event cm snap id now)]])
    | Some _ => idle s' bs
    end).
Proof.
  intros Hs. apply wp_bind. cbn [wp].
  apply operation_spec; [done|].
  apply wp_bind, wp_perform; [done|]. intros [cm|] _; [|done].
  case_decide as Hh; [done|].
  apply wp_bind, wp_perform; [done|]. intros [i|e] _; [done|].
  destruct (negb _); [done|]. apply wp_bind, wp_perform; [done|]. intros now _. cbv zeta.
  apply wp_bind, wp_perform; [done|]. intros id _. destruct Hs as [Ho <-].
  apply wp_try, wp_perform; [done|]. intros [t|e1] _; [|by split].
  apply wp_check, wp_perform; [by eexists|].
  intros [err|] _; cbn [m_step tx_monitor tx_step add_write tx_open tx_committed].
  { apply wp_bind, wp_perform; [by eexists|]. intros ? _. by split. }
  apply wp_check, wp_perform; [by eexists|].
  intros [err|] _; cbn [m_step tx_monitor tx_step add_write tx_open tx_committed].
  { apply wp_bind, wp_perform; [by eexists|]. intros ? _. by split. }
  apply wp_check, wp_perform; [by eexists|].
  intros [err|] _; cbn [m_step tx_monitor tx_step tx_open tx_committed]; [by split|].
  apply wp_bind, twp_quiet; [|done|].
  { destruct has_EventBus; [|done]. apply quiet_bind; [by intros st Hst|]. by intros []. }
  intros _. cbn [wp]. by exists cm, id, now.
Qed.

End operations.
