(* ===== verification/Invariant.v ===== *)
(** * Invariant: the instances the engine writes are well formed

    A definition may go wrong at run time in ways [Validate] does not check;
    [sane] collects what is needed besides.  For sane machines, every instance
    an operation creates or updates is well formed when the ones it read are. *)

From S2P Require Import Prelude Errors Types Hash Validate Compile Helpers Effects SideEffects.
From S2P Require Import Executor Dispatcher Parallel Scheduler Firing Transactions.

Section invariant.
Context {gr : GoRange} {cfg : Config}.
Implicit Types (cm : CompiledMachine) (instance i : WorkflowInstance) (params : gomap value).

(** ** Well-formed instances *)

(** A state an instance may rest in: atomic or parallel. *)
Definition settled cm (s : string) : Prop :=
  ∃ st, def_States (cm_Definition cm) !! s = Some st ∧
    (sd_IsCompound st = true → sd_IsParallel st = true).

(** A target of the transition, direct or routed. *)
Definition target_of (tr : TransitionDef) (t : string) : Prop :=
  (tr_Routes tr = [] ∧ t = tr_Target tr) ∨ ∃ r, r ∈ tr_Routes tr ∧ t = rt_Target r.

(** What a machine needs besides what [Compile] and [Validate] promise:
    transitions have targets, states have names, and a transition inside a
    parallel state stays inside, at a state it can rest in. *)
Record sane cm : Prop := {
  sa_compiled : compiled cm;
  sa_valid : valid_def (cm_Definition cm);
  sa_nested : well_nested (cm_Definition cm);
  sa_keyed : keyed (cm_Definition cm);
  sa_named : def_States (cm_Definition cm) !! "" = None;
  sa_initial : is_Some (def_States (cm_Definition cm) !! def_InitialState (cm_Definition cm));
  sa_targeted : ∀ n tr t, def_Transitions (cm_Definition cm) !! n = Some tr →
      target_of tr t → t ≠ "";
  sa_inside : ∀ n tr t src p, def_Transitions (cm_Definition cm) !! n = Some tr →
      target_of tr t → src ∈ tr_Sources tr → is_parallel cm p = true →
      ancestor (cm_Definition cm) src p → p ∉ tr_Sources tr →
      settled cm t ∧ ancestor (cm_Definition cm) t p
}.

Record instance_ok cm i : Prop := {
  io_state : settled cm (wi_CurrentState i);
  io_shallow : ∀ c d, gm_get (wi_ShallowHistory i) c = Some d →
      parent_of (cm_Definition cm) d = Some c;
  io_deep : ∀ c l, gm_get (wi_DeepHistory i) c = Some l →
      settled cm l ∧ ancestor (cm_Definition cm) l c;
  io_regions : ∀ r l, gm_get (wi_ActiveInParallel i) r = Some l →
      r ∈ regions_of cm (wi_CurrentState i) ∧ settled cm l ∧
      ancestor (cm_Definition cm) l (wi_CurrentState i)
}.

Lemma settled_ne cm s : sane cm → settled cm s → s ≠ "".
Proof. intros Hs (st & Hst & _) ->. by rewrite (sa_named _ Hs) in Hst. Qed.

Lemma initial_leaf_settled cm s :
  sane cm → is_Some (def_States (cm_Definition cm) !! s) → settled cm (initial_leaf_or_self cm s).
Proof.
  intros Hs Hst. unfold initial_leaf_or_self.
  destruct (cm_InitialLeafMap cm !! s) as [leaf|] eqn:Hl; cbn.
  - apply (co_leaf _ (sa_compiled _ Hs)) in Hl as [_ Hl].
    by apply (initial_leaf_state _ s); [apply Hs|apply Hs| |].
  - destruct Hst as [st Hst]. exists st. split; [done|]. intros Hcomp.
    destruct (sd_IsParallel st) eqn:Hpar; [done|]. exfalso.
    destruct (v_compound _ (sa_valid _ Hs) _ _ Hst Hcomp Hpar) as [Hne _].
    destruct (initial_leaf_exists (cm_Definition cm) s (sa_nested _ Hs)) as [leaf Hleaf].
    { intros n. eexists. apply Hs. }
    assert (cm_InitialLeafMap cm !! s = Some leaf) as E; [|congruence].
    apply (co_leaf _ (sa_compiled _ Hs)). split; [|done]. exists st. split; [done|].
    unfold has_leaf_entry. rewrite Hcomp, Hpar. by rewrite bool_decide_eq_false_2.
Qed.

(** Below a region, its initial leaf is inside the parallel state. *)
Lemma initial_chain_ancestor cm x l y :
  well_nested (cm_Definition cm) → chain (initial_next (cm_Definition cm)) x l →
  last (x :: l) = Some y → y = x ∨ ancestor (cm_Definition cm) y x.
Proof.
  intros Hw Hc. revert y. induction Hc as [x Hx|x z l Hx Hc IH]; intros y; [intros [= <-]; by left|].
  rewrite last_cons_cons. intros [->|Hy]%IH; right.
  - by apply tc_once, initial_next_parent.
  - eapply tc_r; [exact Hy|]. by apply initial_next_parent.
Qed.

Lemma region_leaf_inside cm p r :
  sane cm → r ∈ regions_of cm p →
  settled cm (region_leaf cm r) ∧ ancestor (cm_Definition cm) (region_leaf cm r) p.
Proof.
  intros Hs Hr.
  destruct (region_has_leaf cm p r (sa_compiled _ Hs) (sa_valid _ Hs) (sa_nested _ Hs) Hr)
    as (leaf & Hl & Hne).
  assert (parent_of (cm_Definition cm) r = Some p) as Hp.
  { unfold regions_of in Hr. destruct (cm_RegionIndex cm !! p) as [cs|] eqn:E;
      [|by apply elem_of_nil in Hr].
    apply (co_region _ (sa_compiled _ Hs)) in E as (st & Hst & _ & ->).
    by eapply (wn_children _ (sa_nested _ Hs)). }
  unfold region_leaf. rewrite Hl. cbn. split.
  - pose proof (initial_leaf_settled cm r Hs) as H. unfold initial_leaf_or_self in H.
    rewrite Hl in H. apply H. apply elem_of_dom. by eapply parent_of_dom.
  - apply (co_leaf _ (sa_compiled _ Hs)) in Hl as [_ (l & Hc & Hlast)].
    destruct (initial_chain_ancestor cm r l leaf (sa_nested _ Hs) Hc Hlast) as [->|Ha]; [done|].
    eapply tc_r; [exact Ha|done].
Qed.

(** ** Each step preserves well-formedness *)

Lemma recordHistory_ok cm i leaf lca :
  sane cm → settled cm leaf → instance_ok cm i →
  instance_ok cm (recordHistory i leaf (computeExitSequence leaf lca (cm_Ancestry cm)) (cm_Definition cm)).
Proof.
  intros Hs Hleaf [H1 H2 H3 H4]. set (seq := computeExitSequence _ _ _).
  destruct (record_fold (cm_Definition cm) leaf seq seq i) as (HS & HD & _).
  destruct (recordHistory_fields i leaf seq (cm_Definition cm)) as (Hc & _ & _ & _ & Ha & _).
  pose proof (settled_ne _ _ Hs Hleaf) as Hne.
  assert (∀ c, c ∈ seq → c = leaf ∨ ancestor (cm_Definition cm) leaf c) as Hin.
  { intros c Hc'. assert (c ∈ configuration cm leaf) as Hcf.
    { destruct (exit_path cm leaf lca) as [k ->]. set_solver. }
    apply elem_of_cons in Hcf as [?|?]; [by left|right]. by apply (ancestry_elem cm); [apply Hs|]. }
  constructor; unfold recordHistory in *; rewrite ?Hc, ?Ha; try done.
  - intros c d. rewrite HS. case_decide as Hr; [|apply H2]. intros [= <-].
    destruct Hr as [Hcs [_ Hdc]%andb_true_iff]. apply negb_true_iff, bool_decide_eq_false in Hdc.
    unfold direct_child in *. destruct (first_some _ seq) as [x|] eqn:Hf; [|done].
    apply first_some_Some in Hf as (y & Hy & Hf). case_decide as Hpar; [|done]. injection Hf as <-.
    apply parent_of_sd; [|done]. destruct (Hin c Hcs) as [->|Hanc]; [done|by eapply ancestor_ne].
  - intros c l. rewrite HD. case_decide as Hr; [|apply H3]. intros [= <-].
    destruct Hr as [Hcs [_ Hdc]%andb_true_iff]. apply negb_true_iff, bool_decide_eq_false in Hdc.
    destruct (Hin c Hcs) as [->|Hanc]; [|done]. exfalso. apply Hdc.
    by apply direct_child_source; [apply Hs|].
Qed.

Lemma new_instance_ok cm at' aid id cid now :
  sane cm → instance_ok cm (new_instance cm at' aid id cid now).
Proof.
  intros Hs. constructor; cbn; try done. by apply initial_leaf_settled, Hs.
Qed.

Lemma target_exists cm n tr t :
  sane cm → def_Transitions (cm_Definition cm) !! n = Some tr → target_of tr t →
  is_Some (def_States (cm_Definition cm) !! t).
Proof.
  intros Hs Htr Ht. pose proof (sa_targeted _ Hs _ _ _ Htr Ht) as Hne.
  destruct Ht as [[_ ->]|(r & Hr & ->)].
  - by eapply (v_target _ (sa_valid _ Hs)).
  - by eapply (v_routes _ (sa_valid _ Hs)).
Qed.

Lemma last_default_elem (d : string) routes :
  last_default d routes = d ∨ ∃ r, r ∈ routes ∧ last_default d routes = rt_Target r.
Proof.
  revert d. induction routes as [|r routes IH]; intros d; cbn; [by left|].
  destruct (IH (if rt_IsDefault r then rt_Target r else d)) as [->|(r' & Hr' & ->)].
  - case_match; [right; exists r; split; [by left|done]|by left].
  - right. exists r'. split; [by right|done].
Qed.

Lemma resolved_target_of tr instance params t :
  tr_Routes tr ≠ [] → resolveRoute tr instance params = Ok t → target_of tr t.
Proof.
  intros Hne Hr. pose proof (resolveRoute_spec tr instance params) as Hd. rewrite Hr in Hd.
  right. destruct Hd as [(l1 & r & l2 & c & Heq & _ & _ & _ & _ & Ht)|(_ & Ht & Hn)].
  - exists r. split; [rewrite Heq; set_solver|done].
  - destruct (last_default_elem "" (tr_Routes tr)) as [E|(r & Hin & E)]; [congruence|].
    exists r. split; [done|congruence].
Qed.

Lemma fires_target cm instance name params ct t :
  fires cm instance name params ct t → target_of (ct_Def ct) t.
Proof.
  intros [_ _ _ _ _ [[Hr ->]|[Hne Hr]]]; [by left|by eapply resolved_target_of].
Qed.

Lemma resolve_target_settled cm i mode t :
  sane cm → instance_ok cm i → is_Some (def_States (cm_Definition cm) !! t) →
  settled cm (resolve_target cm i mode t).
Proof.
  intros Hs Hi Ht. unfold resolve_target. case_decide; [|case_decide].
  - destruct (gm_get _ _) as [d|] eqn:Hg; apply initial_leaf_settled; try done.
    apply (io_shallow _ _ Hi) in Hg. apply elem_of_dom. by eapply parent_of_dom.
  - destruct (gm_get _ _) as [l|] eqn:Hg; [by eapply (io_deep _ _ Hi)|by apply initial_leaf_settled].
  - by apply initial_leaf_settled.
Qed.

Lemma moved_instance_ok cm i t now :
  sane cm → settled cm t → instance_ok cm i → instance_ok cm (moved_instance cm i t now).
Proof.
  intros Hs Ht [_ H2 H3 _]. unfold moved_instance.
  destruct (is_parallel cm t) eqn:Hp; constructor; cbn; try done.
  intros r l. unfold gm_get. cbn. rewrite foldl_insert_lookup, lookup_empty.
  case_decide as Hr; [|done]. intros [= <-]. split; [done|]. by apply region_leaf_inside.
Qed.

Lemma mark_stuck_ok cm i reason now :
  instance_ok cm i → instance_ok cm (mark_stuck i (wi_CurrentState i) reason now).
Proof. intros [H1 H2 H3 H4]. by constructor. Qed.

Lemma forced_instance_ok cm i t now :
  sane cm → is_Some (def_States (cm_Definition cm) !! t) →
  instance_ok cm (forced_instance cm i (initial_leaf_or_self cm t) now).
Proof.
  intros Hs Ht. pose proof (initial_leaf_settled cm t Hs Ht) as Hset.
  unfold forced_instance. destruct (is_parallel cm _) eqn:Hp; constructor; cbn; try done.
  intros r l. unfold gm_get. cbn. rewrite foldl_insert_lookup, lookup_empty.
  case_decide as Hr; [|done]. intros [= <-]. split; [done|]. by apply region_leaf_inside.
Qed.

(** ** Inside and out of a parallel state *)

Lemma bounded_ancestor_spec (sources : list string) p l a :
  bounded_ancestor sources p l = a → a ≠ "" →
  ∃ l1 l2, l = l1 ++ a :: l2 ∧ a ∈ sources ∧ (p ∉ l1) ∧ a ≠ p.
Proof.
  induction l as [|b l IH]; cbn; [by intros <-|]. case_decide as Hb; [by intros <-|].
  destruct (contains sources b) eqn:Hc.
  - intros <- _. exists [], l. apply contains_true in Hc. split_and!; try done. apply not_elem_of_nil.
  - intros Ha Hne. destruct (IH Ha Hne) as (l1 & l2 & -> & Hin & Hp & Hap).
    exists (b :: l1), l2. split_and!; try done. by intros [?|?]%elem_of_cons.
Qed.

Lemma region_source_inside cm sources p leaf src :
  compiled cm → ancestor (cm_Definition cm) leaf p →
  region_source cm sources p leaf = src → src ≠ "" →
  src ∈ sources ∧ ancestor (cm_Definition cm) src p.
Proof.
  intros Hc Hleaf Hsrc Hne. unfold region_source in Hsrc.
  destruct (contains sources leaf) eqn:Hl.
  { subst. apply contains_true in Hl. done. }
  destruct (bounded_ancestor_spec _ _ _ _ Hsrc Hne) as (l1 & l2 & Heq & Hin & Hp & Hsp).
  split; [done|]. apply (ancestry_elem cm) in Hleaf; [|done].
  pose proof (co_ancestry _ Hc leaf) as Hch. rewrite Heq in Hleaf, Hch.
  apply elem_of_app in Hleaf as [?|[?|Hl2]%elem_of_cons]; [done|congruence|].
  apply chain_suffix in Hch. apply (ancestry_elem cm); [done|].
  by rewrite (chain_unique _ _ _ _ (co_ancestry _ Hc src) Hch).
Qed.

(** A candidate of a well-formed instance: a region of it, and a target of the
    transition, fired from a source inside the parallel state. *)
Definition candidate_ok cm i (tr : TransitionDef) (c : parallelCandidate) : Prop :=
  is_Some (gm_get (wi_ActiveInParallel i) (pc_region c)) ∧ target_of tr (pc_targetState c) ∧
  ∃ src, src ∈ tr_Sources tr ∧ ancestor (cm_Definition cm) src (wi_CurrentState i).

Lemma collect_regions_ok cm i name tr params regions cands t out :
  compiled cm → instance_ok cm i →
  (∀ r, r ∈ regions → is_Some (gm_get (wi_ActiveInParallel i) r)) →
  Forall (candidate_ok cm i tr) cands →
  runs (collect_regions cm i (wi_CurrentState i) name tr params regions cands) t (Ok out) →
  Forall (candidate_ok cm i tr) out.
Proof.
  intros Hc Hi. revert cands t. induction regions as [|r regions IH]; intros cands t Hr Hcs;
    cbn [collect_regions]; [by intros [_ [= <-]]|].
  assert (∀ r, r ∈ regions → is_Some (gm_get (wi_ActiveInParallel i) r)) as Hr'
    by (intros; apply Hr; by right).
  cbv zeta. set (src := region_source _ _ _ _). case_decide as Hsrc; [by apply IH|].
  destruct (find_compiled cm src name) as [ct|]; [|by apply IH].
  intros (t1 & t2 & g & -> & _ & Ht)%runs_bind. destruct g as [e|]; [by destruct Ht|].
  destruct (if decide _ then _ else _) as [target|e] eqn:Htgt; [|by destruct Ht].
  apply (IH _ _ Hr') in Ht; [done|]. apply Forall_app. split; [done|]. constructor; [|done].
  destruct (Hr r) as [leaf Hleaf]; [by left|]. unfold candidate_ok. cbn. split; [by eexists|]. split.
  - case_decide as Hlen; [|injection Htgt as <-; left; split; [|done]].
    + eapply resolved_target_of; [|exact Htgt]. intros E. rewrite E in Hlen. cbn in Hlen. lia.
    + destruct (tr_Routes tr); [done|cbn in Hlen; lia].
  - exists src. eapply region_source_inside; [done| |done|done].
    unfold active_leaf. rewrite Hleaf. cbn. by apply (io_regions _ _ Hi) in Hleaf as (_ & _ & ?).
Qed.

Lemma moved_regions_lookup i cands r :
  gm_get (Some (moved_regions i cands)) r = gm_get (wi_ActiveInParallel i) r ∨
  ∃ c, c ∈ cands ∧ pc_region c = r ∧ gm_get (Some (moved_regions i cands)) r = Some (pc_targetState c).
Proof.
  unfold moved_regions, gm_get. cbn. generalize (gm_map (wi_ActiveInParallel i)).
  induction cands as [|c cands IH]; intros m; cbn [foldl]; [by left|].
  destruct (IH (<[pc_region c := pc_targetState c]> m)) as [Heq|(c' & Hc' & Hr & Heq)].
  - rewrite Heq. destruct (decide (r = pc_region c)) as [->|Hne].
    + right. exists c. rewrite lookup_insert_eq. split; [by left|done].
    + left. by rewrite lookup_insert_ne.
  - right. exists c'. split; [by right|done].
Qed.

Lemma active_parallel cm i r l :
  instance_ok cm i → gm_get (wi_ActiveInParallel i) r = Some l →
  is_parallel cm (wi_CurrentState i) = true.
Proof.
  intros Hi Hr. apply (io_regions _ _ Hi) in Hr as (Hr & _). unfold regions_of in Hr.
  apply bool_decide_eq_true. destruct (cm_RegionIndex cm !! _); [done|by apply elem_of_nil in Hr].
Qed.

Lemma intra_instance_ok cm i n tr cands now :
  sane cm → instance_ok cm i → def_Transitions (cm_Definition cm) !! n = Some tr →
  wi_CurrentState i ∉ tr_Sources tr → Forall (candidate_ok cm i tr) cands →
  instance_ok cm (intra_instance i cands now).
Proof.
  intros Hs Hi Htr Hp Hcs. pose proof Hi as [H1 H2 H3 H4]. constructor; cbn; try done.
  intros r l Hl. destruct (moved_regions_lookup i cands r) as [Heq|(c & Hc & <- & Heq)];
    rewrite Heq in Hl; [by apply H4|]. injection Hl as <-.
  rewrite Forall_forall in Hcs. destruct (Hcs c Hc) as ([l0 Hl0] & Ht & src & Hsrc & Hanc).
  pose proof (H4 _ _ Hl0) as [Hr _]. split; [done|].
  eapply (sa_inside _ Hs); try done. by eapply active_parallel.
Qed.

Lemma record_regions_ok cm i p :
  sane cm → instance_ok cm i → instance_ok cm (record_regions cm i p).
Proof.
  intros Hs Hi. unfold record_regions.
  assert (∀ r, r ∈ sorted_regions 62 i → is_Some (gm_get (wi_ActiveInParallel i) r)) as Hr.
  { intros r. unfold sorted_regions. rewrite elem_of_sort_strings, elem_of_range_keys. done. }
  revert i Hi Hr. generalize (@sorted_regions gr 62). intros sr i. generalize (sr i). clear sr.
  intros l. revert i. induction l as [|r l IH]; intros i Hi Hr; cbn [foldl]; [done|].
  destruct (recordHistory_fields i (active_leaf i r)
    (computeExitSequence (active_leaf i r) p (cm_Ancestry cm)) (cm_Definition cm))
    as (_ & _ & _ & _ & Ha & _).
  apply IH.
  - apply recordHistory_ok; [done| |done]. destruct (Hr r) as [leaf Hleaf]; [by left|].
    unfold active_leaf. rewrite Hleaf. by apply (io_regions _ _ Hi) in Hleaf as (_ & ? & _).
  - intros r' Hr'. rewrite Ha. apply Hr. by right.
Qed.

Lemma exit_instance_ok cm i t now :
  settled cm t → instance_ok cm i → instance_ok cm (exit_instance i t now).
Proof. intros Ht [_ H2 H3 _]. by constructor. Qed.

(** ** Calls that write no instance and no event *)

Definition harmless (c : call) : Prop :=
  match c with
  | InstanceCreate _ _ | InstanceUpdate _ _ | EventAppend _ _ => False
  | ShutdownLoad | WgAdd | WgDone => False
  | _ => True
  end.

Abbreviation quietly := (calls_only harmless).

Lemma runSyncActivity_quietly name input : quietly (runSyncActivity name input).
Proof. unfold runSyncActivity. repeat case_match; try done. split; [done|]. by intros []. Qed.

Lemma runGuards_quietly wt ct i params : quietly (runGuards wt ct i params).
Proof.
  unfold runGuards. generalize 0. induction (tr_Guards (ct_Def ct)) as [|g gs IH]; intros k;
    cbn [runGuards_loop]; [done|]. by destruct (g_Check _ _ _).
Qed.

Lemma validateTransition_quietly cm i name params : quietly (validateTransition cm i name params).
Proof.
  unfold validateTransition. repeat case_match; try done.
  all: apply calls_only_bind; [apply runGuards_quietly|]; intros [|]; repeat case_match; done.
Qed.

Lemma collect_regions_quietly cm i p name tr params regions cands :
  quietly (collect_regions cm i p name tr params regions cands).
Proof.
  revert cands. induction regions as [|r l IH]; intros cands; cbn [collect_regions]; [done|].
  cbv zeta. case_decide; [apply IH|]. case_match; [|apply IH].
  apply calls_only_bind; [apply runGuards_quietly|]. intros [|]; [done|]. case_match; [apply IH|done].
Qed.

Lemma warn_on_quietly op p : quietly p → quietly (warn_on op p).
Proof. intros. apply calls_only_bind; [done|]. by intros []. Qed.

Lemma emit_event_quietly event : quietly (emit_event event).
Proof. unfold emit_event. case_match; [|done]. split; [done|]. by intros []. Qed.

Lemma dispatch_activities_quietly cm i params now acts :
  quietly (dispatch_activities cm i params now acts).
Proof.
  induction acts as [|a acts IH]; cbn [dispatch_activities]; [done|].
  apply calls_only_bind; [done|]. intros id. apply calls_only_bind; [case_match; [by apply warn_on_quietly|done]|].
  intros created. apply calls_only_bind; [done|]. intros err. apply calls_only_bind; [by destruct err|].
  intros out. by apply calls_only_bind.
Qed.

Lemma spawn_one_quietly cm i g c j now : quietly (spawn_one cm i g c j now).
Proof.
  apply calls_only_bind; [done|]. intros a. apply calls_only_bind; [done|]. intros b.
  apply calls_only_bind; [by apply warn_on_quietly|done].
Qed.

Lemma spawn_group_quietly cm i g c j now inputs : quietly (spawn_group cm i g c j now inputs).
Proof.
  induction inputs as [|x l IH]; cbn [spawn_group]; [done|].
  apply calls_only_bind; [apply spawn_one_quietly|]. intros. by apply calls_only_bind.
Qed.

Lemma runPostCommit_quietly cm i ct event prev params start :
  quietly (runPostCommit cm i ct event prev params start).
Proof.
  apply calls_only_bind; [apply emit_event_quietly|]. intros w.
  apply calls_only_bind; [case_decide; [apply dispatch_activities_quietly|done]|]. intros a.
  apply calls_only_bind.
  { unfold create_task. repeat case_match; try done. apply calls_only_bind; [done|]. intros id.
    apply calls_only_bind; [by apply warn_on_quietly|done]. }
  intros tk. apply calls_only_bind; [|done]. unfold spawn_children.
  apply calls_only_bind; [repeat case_match; try done; apply spawn_one_quietly|]. intros.
  apply calls_only_bind; [|done]. repeat case_match; try done.
  apply calls_only_bind; [done|]. intros. apply spawn_group_quietly.
Qed.

Lemma run_activities_quietly cm kind which input seq :
  quietly (run_activities cm kind which input seq).
Proof.
  apply calls_only_for_each. intros x []. cbv beta zeta. case_decide; [done|].
  apply calls_only_bind; [apply runSyncActivity_quietly|done].
Qed.

Lemma run_all_quietly cm kind which input seqs : quietly (run_all cm kind which input seqs).
Proof. apply calls_only_for_each. intros. apply run_activities_quietly. Qed.

Lemma run_exit_activities_quietly cm t input seq : quietly (run_exit_activities cm t input seq).
Proof.
  apply calls_only_for_each. intros x []. cbv beta zeta. case_decide; [done|].
  apply calls_only_bind; [apply runSyncActivity_quietly|]. by intros [].
Qed.

Lemma invalidate_tasks_quietly cm i t seq : quietly (invalidate_tasks cm i t seq).
Proof.
  unfold invalidate_tasks. repeat case_match; try done. split; [done|]. by intros [].
Qed.

(** ** The engine writes well-formed instances *)

Section written.
(** The machines the registry answers with ([compiledFor]). *)
Context (machines : string → Z → option CompiledMachine).

(** They are sane, and the latest of a type is the one of its version. *)
Record machines_ok : Prop := {
  mk_sane : ∀ a v cm, machines a v = Some cm → sane cm;
  mk_latest : ∀ a cm, machines a 0 = Some cm →
      machines a (def_Version (cm_Definition cm)) = Some cm
}.

Context (Hmachines : machines_ok).

(** An instance is well formed for the machine of its version. *)
Definition stored_ok i : Prop :=
  ∀ cm, machines (wi_AggregateType i) (wi_WorkflowVersion i) = Some cm → instance_ok cm i.

(** The registry answers with [machines], the store with well-formed instances of
    the requested type; the instances written must be well formed. *)
Definition instance_monitor : monitor () := mkMonitor ()
  (λ _ c, match c with InstanceCreate _ i | InstanceUpdate _ i => stored_ok i | _ => True end)
  (λ _ c, match c return reply c → Prop with
     | CompiledFor a v => λ r, r = machines a v
     | InstanceGet a _ => λ r, match r with
         | Ok i => wi_AggregateType i = a ∧ stored_ok i | Err _ => True end
     | _ => λ _, True
     end)
  (λ s _ _, s).

Abbreviation iwp p := (wp instance_monitor p () (λ _ _, True)).

Lemma iwp_quietly {A} (p : prog A) (Q : A → Prop) :
  quietly p → (∀ t a, runs p t a → Q a) → wp instance_monitor p () (λ a _, Q a).
Proof. intros Hp HQ. apply (wp_calls _ harmless); [|done|done]. by intros [] []. Qed.

Lemma iwp_true {A} (p : prog A) (Q : A → () → Prop) :
  quietly p → (∀ a, Q a ()) → wp instance_monitor p () Q.
Proof. intros Hp HQ. apply (wp_calls _ harmless); [by intros [] []|done|done]. Qed.

(** [cm] is the machine of [i], which is well formed. *)
Definition paired cm i : Prop :=
  sane cm ∧ instance_ok cm i ∧ machines (wi_AggregateType i) (wi_WorkflowVersion i) = Some cm.

Lemma paired_stored cm i i' :
  paired cm i → wi_AggregateType i' = wi_AggregateType i →
  wi_WorkflowVersion i' = wi_WorkflowVersion i → instance_ok cm i' → stored_ok i'.
Proof. intros (_ & _ & Hm) Ht Hv Hi' cm'. rewrite Ht, Hv, Hm. by intros [= <-]. Qed.

Lemma iwp_try {A B} (p : prog (result A)) (h : error → prog (result B)) (q : A → prog (result B)) :
  (∀ e, ∃ r, h e = Ret r) →
  wp instance_monitor p () (λ r _, match r with Ok a => iwp (q a) | Err _ => True end) →
  iwp (try p h q).
Proof.
  intros Hh Hp. apply wp_try. eapply wp_mono; [exact Hp|]. intros [a|e] []; [done|].
  intros _. by destruct (Hh e) as [r ->].
Qed.

Lemma persist_ok t event i : stored_ok i → iwp (persist t event i).
Proof.
  intros Hi. apply wp_check, wp_perform; [done|]. intros [e|] _; [by split|].
  apply wp_check, wp_perform; [done|]. intros [e|] _; [by split|].
  apply wp_check, wp_perform; [done|]. by intros [e|] _.
Qed.

Lemma recordHistory_version i leaf seq def :
  wi_WorkflowVersion (recordHistory i leaf seq def) = wi_WorkflowVersion i.
Proof. destruct (record_fold def leaf seq seq i) as (_ & _ & HE). unfold recordHistory. by rewrite HE. Qed.

Lemma commitTransition_writes cm i name params ct target actorID :
  paired cm i → fires cm i name params ct target →
  iwp (commitTransition cm i ct target name actorID params).
Proof.
  intros Hp Hf. pose proof Hp as (Hs & Hi & Hm). unfold commitTransition. cbv zeta.
  assert (settled cm (resolve_target cm i (tr_HistoryMode (ct_Def ct)) target)) as Hset.
  { apply resolve_target_settled; [done..|]. eapply target_exists; [done|apply Hf|].
    by eapply fires_target. }
  set (t' := resolve_target _ _ _ _) in *.
  set (i1 := recordHistory _ _ _ _). set (exitSeq := exit_sequence _ _ _).
  assert (instance_ok cm i1) as Hi1 by (apply recordHistory_ok; [done|apply Hi|done]).
  destruct (recordHistory_fields i (wi_CurrentState i) exitSeq (cm_Definition cm))
    as (Hcur & _ & Hty & _). fold i1 in Hcur, Hty.
  assert (wi_WorkflowVersion i1 = wi_WorkflowVersion i) as Hver by apply recordHistory_version.
  assert (∀ reason now, stored_ok (mark_stuck i1 (wi_CurrentState i) reason now)) as Hstuck.
  { intros. apply (paired_stored cm i); [done..|]. rewrite <-Hcur. by apply mark_stuck_ok. }
  assert (∀ now, stored_ok (moved_instance cm i1 t' now)) as Hmoved.
  { intros. apply (paired_stored cm i); [done|..|by apply moved_instance_ok];
      unfold moved_instance; by destruct (is_parallel cm t'). }
  apply wp_bind, wp_perform; [done|]. intros now _. apply wp_bind, wp_perform; [done|]. intros id _.
  apply wp_try, wp_perform; [done|]. intros [tx0|e] _; [|done].
  apply wp_bind, iwp_true; [apply run_exit_activities_quietly|]. intros [[]|e]; [|done].
  apply wp_bind. eapply (wp_mono _ _ _ (λ _ _, True)).
  { apply (wp_for_each _ (λ _ _, True)); [|done|done]. intros x [] [] _ _. cbv beta zeta.
    case_decide; [done|]. apply wp_bind, iwp_true; [by case_match|]. intros _.
    apply wp_bind, iwp_true; [apply runSyncActivity_quietly|]. intros failure.
    destruct failure as [err|]; [|done]. destruct hasSavepoints; [by split|].
    split; [done|]. intros r1 _. split; [done|]. intros [tx1|e] _; [|done].
    split; [apply Hstuck|]. intros r2 _. by split. }
  intros [[]|[reason|e]] [] _; [| |done].
  all: apply wp_bind, iwp_true; [apply invalidate_tasks_quietly|]; intros [].
  all: apply wp_check; eapply wp_mono; [by apply persist_ok|]; by intros [e|] [] _.
Qed.

Lemma begin_and_persist_ok event i : stored_ok i → iwp (begin_and_persist event i).
Proof.
  intros Hi. apply wp_try, wp_perform; [done|]. intros [t|e] _; [|done].
  apply wp_check. eapply wp_mono; [by apply persist_ok|]. by intros [e|] [] _.
Qed.

Lemma commitParallelIntra_writes cm i n tr cands p name actorID params :
  paired cm i → def_Transitions (cm_Definition cm) !! n = Some tr →
  wi_CurrentState i ∉ tr_Sources tr → Forall (candidate_ok cm i tr) cands →
  iwp (commitParallelIntra cm i cands p name actorID params).
Proof.
  intros Hp Htr Hsrc Hc. pose proof Hp as (Hs & Hi & Hm).
  apply wp_bind, wp_perform; [done|]. intros now _. cbv zeta.
  apply wp_bind, iwp_true; [apply run_all_quietly|]. intros [[]|e]; [|done].
  apply wp_bind, iwp_true; [apply run_all_quietly|]. intros [[]|e]; [|done].
  apply wp_bind, wp_perform; [done|]. intros id _. apply begin_and_persist_ok.
  apply (paired_stored cm i); [done..|]. by eapply intra_instance_ok.
Qed.

Lemma record_regions_fields cm i p :
  wi_AggregateType (record_regions cm i p) = wi_AggregateType i ∧
  wi_WorkflowVersion (record_regions cm i p) = wi_WorkflowVersion i.
Proof.
  unfold record_regions. generalize (sorted_regions 62 i). intros l. revert i.
  induction l as [|r l IH]; intros i; cbn [foldl]; [done|].
  edestruct IH as [-> ->]. split; [by apply recordHistory_fields|by apply recordHistory_version].
Qed.

Lemma commitParallelExit_writes cm i name params ct target actorID :
  paired cm i → fires cm i name params ct target →
  iwp (commitParallelExit cm i ct target name actorID params).
Proof.
  intros Hp Hf. pose proof Hp as (Hs & Hi & Hm).
  apply wp_bind, wp_perform; [done|]. intros now _. cbv zeta.
  apply wp_bind, iwp_true; [apply run_activities_quietly|]. intros [[]|e]; [|done].
  apply wp_bind, iwp_true; [apply run_activities_quietly|]. intros [[]|e]; [|done].
  apply wp_bind, wp_perform; [done|]. intros id _. apply begin_and_persist_ok.
  destruct (record_regions_fields cm i (wi_CurrentState i)) as [Ht Hv].
  apply (paired_stored cm i); [done..|]. apply exit_instance_ok.
  - apply initial_leaf_settled; [done|]. eapply target_exists; [done|apply Hf|].
    by eapply fires_target.
  - by apply record_regions_ok.
Qed.

(** *** Loading *)

Lemma createInstance_writes cm at' aid :
  machines at' 0 = Some cm →
  wp instance_monitor (createInstance cm at' aid) () (λ r _,
    match r with Ok i => paired cm i | Err _ => True end).
Proof using Hmachines.
  intros Hm. pose proof (mk_sane Hmachines _ _ _ Hm) as Hs.
  apply wp_bind, wp_perform; [done|]. intros now _. apply wp_bind, wp_perform; [done|]. intros id _.
  apply wp_bind, wp_perform; [done|]. intros cid _. cbv zeta.
  assert (paired cm (new_instance cm at' aid id cid now)) as Hp.
  { split_and!; [done|by apply new_instance_ok|cbn; by apply (mk_latest Hmachines)]. }
  apply wp_try, wp_perform; [done|]. intros [t|e] _; [|done].
  apply wp_check, wp_perform; [by apply (paired_stored cm _ _ Hp); [..|apply Hp]|].
  intros [e|] _; [by split|].
  apply wp_check, wp_perform; [done|]. by intros [e|] _.
Qed.

(** What is known of a loaded machine and instance. *)
Definition loaded_ok (r : result (CompiledMachine * WorkflowInstance)) : Prop :=
  match r with Ok (cm, i) => paired cm i | Err _ => True end.

Lemma found_paired at' i o cm :
  wi_AggregateType i = at' ∧ stored_ok i → o = machines at' (wi_WorkflowVersion i) → o = Some cm →
  paired cm i.
Proof using Hmachines.
  intros [<- Hi] -> Hm. split_and!; [by eapply mk_sane|by apply Hi|done].
Qed.

Lemma load_writes (load : string → string → prog (result (CompiledMachine * WorkflowInstance))) at' aid :
  load = loadInstanceAndCompiled ∨ load = loadForSignal →
  wp instance_monitor (load at' aid) () (λ r _, loaded_ok r).
Proof using Hmachines.
  assert (∀ cm, machines at' 0 = Some cm →
    wp instance_monitor (try (createInstance cm at' aid) ret_err (λ i, Ret (Ok (cm, i)))) ()
      (λ r _, loaded_ok r)) as Hcreate.
  { intros cm Hm. apply wp_try. eapply wp_mono; [by apply createInstance_writes|].
    by intros [i|e] []. }
  intros [->| ->]; (apply wp_bind, wp_perform; [done|]; intros got Hgot; destruct got as [i|e];
    [apply wp_bind, wp_perform; [done|]; intros [cm|] Hcm; [|done];
     exact (found_paired _ _ _ _ Hgot Hcm eq_refl)|]).
  - destruct (negb _); [done|]. apply wp_bind, wp_perform; [done|]. intros [cm|] Hcm; [|done].
    by apply Hcreate.
  - destruct (errors_Is _ _); [|done]. apply wp_bind, wp_perform; [done|].
    intros [cm|] Hcm; [|done]. by apply Hcreate.
Qed.

(** *** Operations *)

Lemma validated_fires cm i name params t r :
  sane cm → runs (validateTransition cm i name params) t r →
  match r with Ok (ct, target) => fires cm i name params ct target | Err _ => True end.
Proof.
  intros Hs Hr. destruct r as [[ct target]|e]; [|done].
  by apply (validateTransition_ok_spec cm i name params t ct target (sa_compiled _ Hs) (sa_keyed _ Hs)).
Qed.

Lemma transition_from_writes cm i name actorID params start :
  paired cm i → iwp (transition_from cm i name actorID params start).
Proof.
  intros Hp. pose proof Hp as (Hs & Hi & _). unfold transition_from. case_decide as Hpar.
  - unfold parallelTransition. cbv zeta.
    destruct (def_Transitions (cm_Definition cm) !! name) as [tr|] eqn:Htr; [|done].
    destruct (is_terminal_state _ _); [done|]. destruct (contains _ _) eqn:Hc.
    + apply iwp_try; [by eexists|]. eapply wp_mono.
      { apply iwp_quietly; [apply validateTransition_quietly|]. intros t r. by apply validated_fires. }
      intros [[ct target]|e] [] Hf; [|done].
      apply iwp_try; [by eexists|]. eapply wp_mono; [by eapply commitParallelExit_writes|].
      intros [[ev i']|e] [] _; [|done]. by apply iwp_true; [apply runPostCommit_quietly|].
    + apply contains_false in Hc. apply iwp_try; [by eexists|]. eapply wp_mono.
      { apply (iwp_quietly _ (λ r, match r with
          | Ok out => Forall (candidate_ok cm i tr) out | Err _ => True end)).
        - unfold collectParallelCandidates. rewrite Htr. apply collect_regions_quietly.
        - intros t [out|e]; [|done]. unfold collectParallelCandidates. rewrite Htr.
          apply collect_regions_ok; [apply Hs|done| |constructor].
          intros r. unfold sorted_regions. by rewrite elem_of_sort_strings, elem_of_range_keys. }
      intros [[|c cs]|e] [] Hcs; [done| |done].
      apply iwp_try; [by eexists|]. eapply wp_mono; [by eapply commitParallelIntra_writes|].
      intros [[ev i']|e] [] _; [|done]. by apply iwp_true; [apply runPostCommit_quietly|].
  - apply iwp_try; [by eexists|]. eapply wp_mono.
    { apply iwp_quietly; [apply validateTransition_quietly|]. intros t r. by apply validated_fires. }
    intros [[ct target]|e] [] Hf; [|done].
    apply iwp_try; [by eexists|]. eapply wp_mono; [by eapply commitTransition_writes|].
    intros [[ev i']|e] [] _; [|done]. by apply iwp_true; [apply runPostCommit_quietly|].
Qed.

Lemma operation_writes {A} (body : prog (result A)) : iwp body → iwp (operation body).
Proof.
  intros Hb. apply wp_check, wp_bind, wp_perform; [done|]. intros [|] _; [done|].
  apply wp_bind, wp_perform; [done|]. intros u _. apply wp_bind.
  eapply wp_mono; [exact Hb|]. intros r [] _. by apply wp_bind, wp_perform; [done|]; intros u' _.
Qed.

Lemma Transition_writes at' aid name actorID params :
  iwp (Transition at' aid name actorID params).
Proof using Hmachines.
  apply operation_writes, wp_bind, wp_perform; [done|]. intros start _.
  apply iwp_try; [by eexists|]. eapply wp_mono; [apply load_writes; by left|].
  intros [[cm i]|e] [] Hl; [|done]. by apply transition_from_writes.
Qed.

Lemma Signal_writes input : iwp (Signal input).
Proof using Hmachines.
  apply operation_writes, iwp_try; [by eexists|]. eapply wp_mono; [apply load_writes; by right|].
  intros [[cm i]|e] [] Hl; [|done]. destruct (select_signal _ _ _); [|done]. apply Transition_writes.
Qed.

Lemma CompleteTask_writes taskID choice actorID : iwp (CompleteTask taskID choice actorID).
Proof using Hmachines.
  apply operation_writes. destruct (negb _); [done|].
  apply wp_try, wp_perform; [done|]. intros [task|e] _; [|done].
  apply wp_try, wp_perform; [done|]. intros [i|e] _; [|done].
  apply wp_bind, wp_perform; [done|]. intros [cm|] _; [|done].
  destruct (select_task _ _ _ _); [|done].
  apply wp_check, wp_perform; [done|]. intros [e|] _; [done|]. apply Transition_writes.
Qed.

Lemma ChildCompleted_writes ct cid ts : iwp (ChildCompleted ct cid ts).
Proof using Hmachines.
  apply operation_writes. destruct (negb _); [done|].
  apply wp_try, wp_perform; [done|]. intros [relation|e] _; [|done].
  apply wp_bind, wp_perform; [done|]. intros completeErr _.
  apply wp_bind, iwp_true; [by destruct completeErr|]. intros _.
  apply wp_try, wp_perform; [done|]. intros [i|e] _; [|done].
  apply wp_bind, wp_perform; [done|]. intros [cm|] _; [|done]. case_decide.
  - apply wp_try, wp_perform; [done|]. intros [siblings|e] _; [|done]. cbv zeta.
    destruct (negb _); [done|]. destruct (select_joined _ _); [|done]. apply Transition_writes.
  - destruct (select_child _ _ _); [|done]. apply Transition_writes.
Qed.

Lemma ForceState_writes at' aid target actorID reason :
  iwp (ForceState at' aid target actorID reason).
Proof using Hmachines.
  apply operation_writes, wp_try, wp_perform; [done|]. intros [i|e] Hi; [|done].
  apply wp_bind, wp_perform; [done|]. intros [cm|] Hcm; [|done]. cbv zeta.
  pose proof (found_paired _ _ _ _ Hi Hcm eq_refl) as Hp. case_decide as Hst; [|done].
  do 2 (apply wp_bind, wp_perform; [done|]; intros ? _).
  apply wp_try, wp_perform; [done|]. intros [t|e] _; [|done].
  apply wp_check. eapply wp_mono.
  { apply persist_ok. apply (paired_stored cm i); [done|..|by apply forced_instance_ok; [apply Hp|]];
      unfold forced_instance; by destruct (is_parallel cm _). }
  intros [e|] [] _; [done|]. by apply wp_bind, iwp_true; [apply emit_event_quietly|].
Qed.
End written.

Lemma run_operation_writes machines op :
  machines_ok machines → wp (instance_monitor machines) (run_operation op) () (λ _ _, True).
Proof.
  intros Hm. destruct op; [by apply Transition_writes|by apply Signal_writes
    |by apply CompleteTask_writes|by apply ChildCompleted_writes|by apply ForceState_writes].
Qed.

End invariant.
