(* ===== verification/Lifecycle.v ===== *)
(** * Lifecycle: operations in flight and shutdown

    [Engine.Shutdown] ([internal/runtime/runtime.go]) refuses new operations and
    waits for a count of those in flight; each operation raises the count with
    [e.wg.Add(1)] and lowers it with the deferred [e.wg.Done()].  A monitor counts
    along the trace: every call an operation makes after its shutdown check is
    covered by the count, nested operations included, and the count is restored
    on every path, errors included.  [Shutdown.v] runs operations and [Shutdown]
    together. *)

From S2P Require Import Prelude Errors Types Hash Validate Compile Helpers Effects SideEffects.
From S2P Require Import Executor Dispatcher Parallel Scheduler Snapshot Firing Transactions.
From S2P Require Import Invariant.

(** What an operation has done: the times it counted itself in, and whether a
    shutdown check let it pass that it has not yet used to count itself in. *)
Record flight := mkFlight { fl_count : nat; fl_passed : bool }.

(** Only the shutdown check may be made by an operation that is not counted, and
    only one that a check let pass is counted in. *)
Definition flight_pre (s : flight) (c : call) : Prop :=
  match c with
  | ShutdownLoad => True
  | WgAdd => fl_passed s = true
  | _ => 0 < fl_count s
  end.

Definition flight_step (s : flight) (c : call) : reply c → flight :=
  match c return reply c → flight with
  | ShutdownLoad => λ down, mkFlight (fl_count s) (negb down)
  | WgAdd => λ _, mkFlight (S (fl_count s)) false
  | WgDone => λ _, mkFlight (pred (fl_count s)) (fl_passed s)
  | _ => λ _, s
  end.

Definition flight_monitor : monitor flight :=
  mkMonitor flight flight_pre (λ _ _ _, True) flight_step.

(** Before its first call, and after its last. *)
Definition on_ground (n : nat) : flight := mkFlight n false.

Lemma flight_considered s t : considered flight_monitor s t.
Proof. revert s. induction t as [|[c r] t IH]; intros s; simpl; auto. Qed.

(** [covered p]: inside an operation, [p] leaves the state as it found it. *)
Definition covered {A} (p : prog A) : Prop :=
  ∀ n, wp flight_monitor p (on_ground (S n)) (λ _ s', s' = on_ground (S n)).

Lemma covered_ret {A} (a : A) : covered (Ret a).
Proof. by intros n. Qed.

Lemma covered_vis {A} c (k : reply c → prog A) :
  match c with ShutdownLoad | WgAdd | WgDone => False | _ => True end →
  (∀ r, covered (k r)) → covered (Vis c k).
Proof.
  intros Hc Hk n. cbn [wp]. split; [by destruct c; cbn; try lia|]. intros r _.
  assert (m_step flight_monitor (on_ground (S n)) c r = on_ground (S n)) as -> by (by destruct c).
  apply Hk.
Qed.

Lemma covered_bind {A B} (p : prog A) (f : A → prog B) :
  covered p → (∀ a, covered (f a)) → covered (p ≫= f).
Proof.
  intros Hp Hf n. apply wp_bind. eapply wp_mono; [apply Hp|]. intros a s' ->. apply Hf.
Qed.

Lemma covered_try {A B} (p : prog (result A)) (h : error → prog B) (q : A → prog B) :
  covered p → (∀ e, covered (h e)) → (∀ a, covered (q a)) → covered (try p h q).
Proof. intros Hp Hh Hq. apply covered_bind; [done|]. by intros []. Qed.

Lemma covered_check {B} (p : prog (option error)) (h : error → prog B) (q : prog B) :
  covered p → (∀ e, covered (h e)) → covered q → covered (check p h q).
Proof. intros Hp Hh Hq. apply covered_bind; [done|]. by intros []. Qed.

Lemma covered_for_each {A B R} (l : list A) (b : B) (body : A → B → prog (B + R)) :
  (∀ x b, covered (body x b)) → covered (for_each l b body).
Proof.
  intros Hb. revert b. induction l as [|x l IH]; intros b; cbn [for_each]; [apply covered_ret|].
  apply covered_bind; [done|]. intros []; [apply IH|apply covered_ret].
Qed.

(** What writes no instance does not touch the count either. *)
Lemma covered_quietly {A} (p : prog A) : calls_only harmless p → covered p.
Proof.
  induction p as [a|c k IH]; [intros _; apply covered_ret|]. intros [Hc Hk].
  apply covered_vis; [by destruct c|]. intros r. by apply IH.
Qed.

(** A public operation leaves the state as it found it at any level, and so may
    be nested. *)
Definition keeps_count {A} (p : prog A) : Prop :=
  ∀ n, wp flight_monitor p (on_ground n) (λ _ s', s' = on_ground n).

Lemma keeps_count_covered {A} (p : prog A) : keeps_count p → covered p.
Proof. intros Hp n. apply Hp. Qed.

Lemma keeps_count_operation {A} (body : prog (result A)) :
  covered body → keeps_count (operation body).
Proof.
  intros Hb n. apply wp_check, wp_bind, wp_perform; [done|]. intros [] _; [done|]. cbn [wp].
  apply wp_bind, wp_perform; [done|]. intros u _. apply wp_bind.
  eapply wp_mono; [apply Hb|]. intros r ? ->.
  apply wp_bind, wp_perform; [cbn; lia|]. intros u' _. done.
Qed.

(** Walk through a program; [quietly] lemmas close its quiet parts. *)
Ltac covered_step :=
  first
    [ solve [eauto 2 with covered]
    | apply covered_quietly; solve [eauto 2 with quiet]
    | apply covered_ret
    | apply covered_check; [|intros ?|]
    | apply covered_try; [|intros ?|intros ?]
    | apply covered_bind; [|intros ?]
    | apply covered_for_each; intros ? ?
    | apply covered_vis; [done|intros ?]
    | progress cbv zeta
    | case_match ].
Ltac covered := repeat covered_step.

Create HintDb quiet.
#[export] Hint Resolve runSyncActivity_quietly runGuards_quietly validateTransition_quietly
  collect_regions_quietly runPostCommit_quietly run_activities_quietly run_all_quietly
  run_exit_activities_quietly invalidate_tasks_quietly emit_event_quietly : quiet.
Create HintDb covered.

Section lifecycle.
Context {gr : GoRange} {cfg : Config}.
Implicit Types (cm : CompiledMachine) (instance : WorkflowInstance) (params : gomap value).

Lemma persist_covered t event instance : covered (persist t event instance).
Proof. unfold persist. covered. Qed.
#[local] Hint Resolve persist_covered : covered.

Lemma run_entry_activities_covered cm instance t input leaf now seq :
  covered (run_entry_activities cm instance t input leaf now seq).
Proof. unfold run_entry_activities. covered. Qed.
#[local] Hint Resolve run_entry_activities_covered : covered.

Lemma commitTransition_covered cm instance ct target name actorID params :
  covered (commitTransition cm instance ct target name actorID params).
Proof. unfold commitTransition. covered. Qed.
#[local] Hint Resolve commitTransition_covered : covered.

Lemma createInstance_covered cm at' aid : covered (createInstance cm at' aid).
Proof. unfold createInstance. covered. Qed.
#[local] Hint Resolve createInstance_covered : covered.

Lemma loadInstanceAndCompiled_covered at' aid : covered (loadInstanceAndCompiled at' aid).
Proof. unfold loadInstanceAndCompiled. covered. Qed.
#[local] Hint Resolve loadInstanceAndCompiled_covered : covered.

Lemma begin_and_persist_covered event instance : covered (begin_and_persist event instance).
Proof. unfold begin_and_persist. covered. Qed.
#[local] Hint Resolve begin_and_persist_covered : covered.

Lemma parallelTransition_covered cm instance name actorID params start :
  covered (parallelTransition cm instance name actorID params start).
Proof.
  unfold parallelTransition, collectParallelCandidates, commitParallelExit, commitParallelIntra.
  covered.
Qed.
#[local] Hint Resolve parallelTransition_covered : covered.

Lemma Transition_keeps_count at' aid name actorID params :
  keeps_count (Transition at' aid name actorID params).
Proof. apply keeps_count_operation. unfold transition_from. covered. Qed.

Lemma Transition_covered at' aid name actorID params :
  covered (Transition at' aid name actorID params).
Proof. apply keeps_count_covered, Transition_keeps_count. Qed.
#[local] Hint Resolve Transition_covered : covered.

Lemma loadForSignal_covered at' aid : covered (loadForSignal at' aid).
Proof. unfold loadForSignal. covered. Qed.
#[local] Hint Resolve loadForSignal_covered : covered.

Lemma evaluateJoinPolicy_covered relation cm instance :
  covered (evaluateJoinPolicy relation cm instance).
Proof. unfold evaluateJoinPolicy. covered. Qed.
#[local] Hint Resolve evaluateJoinPolicy_covered : covered.

Lemma run_operation_keeps_count op : keeps_count (run_operation op).
Proof.
  destruct op; [apply Transition_keeps_count|..]; apply keeps_count_operation; covered.
Qed.

Lemma run_operation_shape op :
  ∃ body, run_operation op = operation body.
Proof. destruct op; by eexists. Qed.

(** C22: An operation that finds the engine shut down makes no other call and
    fails with ErrEngineShutdown.  Any other is counted in flight after a check
    let it pass, before its first call and until after its last, whatever the
    dependencies reply and whichever operations it starts itself; and it leaves
    the count of operations in flight as it found it. *)
Theorem operation_in_flight op n t r :
  runs (run_operation op) t r →
  allowed flight_monitor (on_ground n) t ∧
  after flight_monitor (on_ground n) t = on_ground n ∧
  ((t = [Ev ShutdownLoad true] ∧ ∃ e, r = Err e ∧ errors_Is e ErrEngineShutdown = true) ∨
   ∃ body, t = Ev ShutdownLoad false :: Ev WgAdd () :: body ++ [Ev WgDone ()]).
Proof.
  intros Hr.
  destruct (wp_sound _ _ _ _ _ _ (run_operation_keeps_count op n) Hr (flight_considered _ t))
    as [Hal Hn].
  split; [done|]. split; [done|]. destruct (run_operation_shape op) as [body Hb]. rewrite Hb in Hr.
  apply runs_operation in Hr as [Hdown|(t' & Ht & _)]; [by left|]. right. by exists t'.
Qed.

End lifecycle.
