(* ===== verification/Tracking.v ===== *)
(** * Tracking: what an operation has read, and what it writes

    A monitor follows what an operation of [internal/runtime/] knows: the versions
    it has read or created, and the aggregates it was told the store does not have.
    The operations are walked through once, for any relation [follows] between the
    version an operation read and the one it writes over it: [Locking.v] takes it
    to be the optimistic lock, [Statechart.v] a step of the workflow. *)

From S2P Require Import Prelude Errors Types Hash Validate Compile Helpers Effects.
From S2P Require Import SideEffects Executor Dispatcher Parallel Scheduler Snapshot Firing.
From S2P Require Import Transactions Invariant Lifecycle.

(** ** What an operation knows *)

(** The versions it has read or created, and the aggregates it was told the
    store does not have. *)
Record known := mkKnown {
  kn_read : list WorkflowInstance;
  kn_missing : list (string * string)
}.

Definition known_nothing : known := mkKnown [] [].

Definition knowing (i : WorkflowInstance) : known := mkKnown [i] [].

Definition lock_step (s : known) (c : call) : reply c → known :=
  match c return reply c → known with
  | InstanceGet at' aid => λ r, match r with
      | Ok i => mkKnown (i :: kn_read s) (kn_missing s)
      | Err e => if errors_Is e ErrInstanceNotFound
                 then mkKnown (kn_read s) ((at', aid) :: kn_missing s) else s
      end
  | InstanceCreate _ i => λ r, match r with
      | None => mkKnown (i :: kn_read s) (kn_missing s)
      | Some _ => s
      end
  | _ => λ _, s
  end.

(** Knowledge only grows. *)
Definition knows_more (s s' : known) : Prop :=
  kn_read s ⊆ kn_read s' ∧ kn_missing s ⊆ kn_missing s'.

#[export] Instance knows_more_preorder : PreOrder knows_more.
Proof.
  split; [by split|]. intros s1 s2 s3 [H1 H2] [H3 H4]. split; set_solver.
Qed.

Lemma lock_step_more s c r : knows_more s (lock_step s c r).
Proof. destruct c; cbn; try reflexivity; repeat case_match; split; set_solver. Qed.

Lemma lock_step_mono s s' c r : knows_more s s' → knows_more (lock_step s c r) (lock_step s' c r).
Proof. intros [Hr Hm]. destruct c; cbn; try done; repeat case_match; split; set_solver. Qed.

(** ** Monitors of what is written

    [begins] says which instances may be created, [follows old i] when [i] may
    replace [old]; [told] are the replies that are considered. *)

Section tracking.
Context (begins : WorkflowInstance → Prop) (follows : WorkflowInstance → WorkflowInstance → Prop).
Context (told : ∀ c, reply c → Prop).

(** An update must follow a version the operation knows, a creation be of an
    aggregate it found missing. *)
Definition track_pre (s : known) (c : call) : Prop :=
  match c with
  | InstanceUpdate _ i => ∃ old, old ∈ kn_read s ∧ follows old i
  | InstanceCreate _ i => (wi_AggregateType i, wi_AggregateID i) ∈ kn_missing s ∧ begins i
  | _ => True
  end.

Definition track_monitor : monitor known := mkMonitor known track_pre (λ _, told) lock_step.

(** [tracked base p]: an operation that knows at least [base] may run [p]. *)
Definition tracked {A} (base : known) (p : prog A) : Prop :=
  ∀ s, knows_more base s → wp track_monitor p s (λ _ s', knows_more s s').

Lemma tracked_weaken {A} base base' (p : prog A) :
  knows_more base base' → tracked base p → tracked base' p.
Proof. intros Hb Hp s Hs. apply Hp. by etrans. Qed.

Lemma tracked_ret {A} base (a : A) : tracked base (Ret a).
Proof. intros s _. by cbn. Qed.

(** From a state that knows [s0], [p] may go on. *)
Lemma tracked_wp {A} base s0 s (p : prog A) :
  tracked base p → knows_more base s → knows_more s0 s →
  wp track_monitor p s (λ _ s', knows_more s0 s').
Proof. intros Hp Hb H0. eapply wp_mono; [by apply Hp|]. intros a s' Hm. cbn in *. by etrans. Qed.

Lemma track_pre_more s s' c : knows_more s s' → track_pre s c → track_pre s' c.
Proof.
  intros [Hr Hm]. destruct c; cbn; try done; [by intros [?%Hm ?]|].
  intros (old & Hold & ?). exists old. split; [by apply Hr|done].
Qed.

(** The rest of a program may rely on what a call told. *)
Lemma tracked_vis_step {A} base c (k : reply c → prog A) :
  track_pre base c → (∀ r, told c r → tracked (lock_step base c r) (k r)) → tracked base (Vis c k).
Proof.
  intros Hc Hk s Hs. cbn [wp]. split; [by eapply track_pre_more|]. intros r Hr.
  eapply tracked_wp; [by apply Hk|by apply lock_step_mono|apply lock_step_more].
Qed.

Lemma tracked_vis {A} base c (k : reply c → prog A) :
  track_pre base c → (∀ r, told c r → tracked base (k r)) → tracked base (Vis c k).
Proof.
  intros Hc Hk. apply tracked_vis_step; [done|]. intros r Hr.
  eapply tracked_weaken; [apply lock_step_more|by apply Hk].
Qed.

Lemma tracked_perform base c : track_pre base c → tracked base (perform c).
Proof. intros Hc. apply tracked_vis; [done|]. intros. apply tracked_ret. Qed.

Lemma tracked_bind {A B} base (p : prog A) (f : A → prog B) :
  tracked base p → (∀ a, tracked base (f a)) → tracked base (p ≫= f).
Proof.
  intros Hp Hf s Hs. apply wp_bind. eapply wp_mono; [by apply Hp|]. intros a s' Hm.
  eapply tracked_wp; [apply Hf|by etrans|done].
Qed.

Lemma tracked_try {A B} base (p : prog (result A)) (h : error → prog B) (q : A → prog B) :
  tracked base p → (∀ e, tracked base (h e)) → (∀ a, tracked base (q a)) → tracked base (try p h q).
Proof. intros Hp Hh Hq. apply tracked_bind; [done|]. by intros []. Qed.

Lemma tracked_check {B} base (p : prog (option error)) (h : error → prog B) (q : prog B) :
  tracked base p → (∀ e, tracked base (h e)) → tracked base q → tracked base (check p h q).
Proof. intros Hp Hh Hq. apply tracked_bind; [done|]. by intros []. Qed.

Lemma tracked_for_each {A B R} base (l : list A) (b : B) (body : A → B → prog (B + R)) :
  (∀ x b, tracked base (body x b)) → tracked base (for_each l b body).
Proof.
  intros Hb. revert b. induction l as [|x l IH]; intros b; cbn [for_each]; [apply tracked_ret|].
  apply tracked_bind; [done|]. intros []; [apply IH|apply tracked_ret].
Qed.

(** What a program that writes nothing returns may be relied on. *)
Lemma tracked_harmless {A B} base (p : prog A) (f : A → prog B) :
  calls_only harmless p → (∀ t a, runs p t a → tracked base (f a)) → tracked base (p ≫= f).
Proof.
  induction p as [a|c k IH]; [intros _ Hf; by apply (Hf [])|]. intros [Hc Hk] Hf.
  apply tracked_vis; [by destruct c|]. intros r _. apply IH; [apply Hk|].
  intros t a Hr. apply (Hf (Ev c r :: t)). by exists r, t.
Qed.

Lemma tracked_quietly {A} base (p : prog A) : calls_only harmless p → tracked base p.
Proof.
  induction p as [a|c k IH]; [intros _; apply tracked_ret|]. intros [Hc Hk].
  apply tracked_vis; [by destruct c|]. intros r _. by apply IH.
Qed.

(** The update of a version in [base]. *)
Lemma tracked_update {A} base t i old (k : reply (InstanceUpdate t i) → prog A) :
  old ∈ kn_read base → follows old i → (∀ r, tracked base (k r)) →
  tracked base (Vis (InstanceUpdate t i) k).
Proof. intros Hold Hi Hk. apply tracked_vis; [by exists old|]. intros r _. apply Hk. Qed.

(** The body of a public operation. *)
Lemma tracked_operation {A} base (body : prog (result A)) :
  tracked base body → tracked base (operation body).
Proof.
  intros Hb. apply tracked_check; [|intros; apply tracked_ret|].
  { apply tracked_bind; [by apply tracked_perform|]. intros []; apply tracked_ret. }
  apply tracked_vis; [done|]. intros _ _. apply tracked_bind; [done|]. intros r.
  apply tracked_vis; [done|]. intros _ _. apply tracked_ret.
Qed.

(** What it tells of the traces of a program. *)
Lemma tracked_allowed {A} (p : prog A) t a :
  tracked known_nothing p → runs p t a → considered track_monitor known_nothing t →
  allowed track_monitor known_nothing t.
Proof. intros Hp Hr Hc. by apply (wp_sound _ _ _ _ _ _ (Hp known_nothing ltac:(done)) Hr Hc). Qed.
End tracking.

(** Walk through a program, as in [Lifecycle.v]. *)
Create HintDb locked.

Ltac tracked_step :=
  lazymatch goal with
  | |- ∀ _, _ => intros ?
  | |- _ → _ => intros ?
  | |- _ => first
    [ solve [eauto 3 with locked]
    | apply tracked_quietly; solve [eauto 2 with quiet]
    | apply tracked_ret
    | apply tracked_check; [|intros ?|]
    | apply tracked_try; [|intros ?|intros ?]
    | apply tracked_bind; [|intros ?]
    | apply tracked_for_each; intros ? ?
    | eapply tracked_update; [by left|solve [eauto 3 with locked]|intros ?]
    | apply tracked_vis; [done|intros ? _]
    | progress cbv zeta
    | case_match ]
  end.
Ltac tracked := repeat tracked_step.

(** ** The commits *)

Section writes.
Context {gr : GoRange} {cfg : Config}.
Context (begins : WorkflowInstance → Prop) (follows : WorkflowInstance → WorkflowInstance → Prop).
Context (told : ∀ c, reply c → Prop).
Implicit Types (cm : CompiledMachine) (i : WorkflowInstance) (params : gomap value).

Abbreviation tracked := (tracked begins follows told).
Abbreviation track_monitor := (track_monitor begins follows told).

Lemma persist_tracked base t event old i :
  old ∈ kn_read base → follows old i → tracked base (persist t event i).
Proof.
  intros Hold Hi. apply tracked_check; [by apply tracked_perform|tracked|].
  apply tracked_check; [|tracked|tracked]. apply tracked_perform. by exists old.
Qed.

Lemma begin_and_persist_tracked event old i :
  follows old i → tracked (knowing old) (begin_and_persist event i).
Proof.
  intros Hi. apply tracked_try; [tracked|tracked|]. intros t.
  apply tracked_check; [by eapply persist_tracked; [left|]|tracked..].
Qed.

(** The instance before a transition, with its history. *)
Definition remembering cm i (target : string) : WorkflowInstance :=
  recordHistory i (wi_CurrentState i) (exit_sequence cm (wi_CurrentState i) target) (cm_Definition cm).

Lemma run_entry_activities_tracked cm i i' t input leaf now seq :
  (∀ reason, follows i (mark_stuck i' leaf reason now)) →
  tracked (knowing i) (run_entry_activities cm i' t input leaf now seq).
Proof. intros Hi. unfold run_entry_activities. tracked. Qed.

Lemma commitTransition_tracked cm i ct target name actorID params :
  let t := resolve_target cm i (tr_HistoryMode (ct_Def ct)) target in
  (∀ reason now, follows i (mark_stuck (remembering cm i t) (wi_CurrentState i) reason now)) →
  (∀ now, follows i (moved_instance cm (remembering cm i t) t now)) →
  tracked (knowing i) (commitTransition cm i ct target name actorID params).
Proof.
  intros t Hstuck Hmoved. unfold commitTransition. cbv zeta.
  apply tracked_bind; [tracked|intros now]. apply tracked_bind; [tracked|intros id].
  apply tracked_try; [tracked..|intros tx0]. apply tracked_bind; [tracked|intros [[]|e]]; [|tracked].
  apply tracked_bind; [by apply run_entry_activities_tracked|].
  intros [[]|[reason|e]]; [| |tracked].
  all: apply tracked_bind; [tracked|intros []].
  all: apply tracked_check; [eapply persist_tracked; [by left|done]|tracked..].
Qed.

(** What a transition of [i] may write. *)
Record writes_follow cm i (name : string) params : Prop := {
  wf_stuck : ∀ t ct target reason now, gm_len (wi_ActiveInParallel i) = 0 →
    runs (validateTransition cm i name params) t (Ok (ct, target)) →
    let leaf := resolve_target cm i (tr_HistoryMode (ct_Def ct)) target in
    follows i (mark_stuck (remembering cm i leaf) (wi_CurrentState i) reason now);
  wf_moved : ∀ t ct target now, gm_len (wi_ActiveInParallel i) = 0 →
    runs (validateTransition cm i name params) t (Ok (ct, target)) →
    let leaf := resolve_target cm i (tr_HistoryMode (ct_Def ct)) target in
    follows i (moved_instance cm (remembering cm i leaf) leaf now);
  wf_exit : ∀ t tr ct target now, 0 < gm_len (wi_ActiveInParallel i) →
    def_Transitions (cm_Definition cm) !! name = Some tr → wi_CurrentState i ∈ tr_Sources tr →
    runs (validateTransition cm i name params) t (Ok (ct, target)) →
    follows i (exit_instance (record_regions cm i (wi_CurrentState i))
                 (initial_leaf_or_self cm target) now);
  wf_intra : ∀ t tr cands now, 0 < gm_len (wi_ActiveInParallel i) →
    def_Transitions (cm_Definition cm) !! name = Some tr →
    is_terminal_state (cm_Definition cm) (wi_CurrentState i) = false →
    wi_CurrentState i ∉ tr_Sources tr →
    runs (collectParallelCandidates cm i (wi_CurrentState i) name params) t (Ok cands) →
    cands ≠ [] → follows i (intra_instance i cands now)
}.

Lemma commitParallelExit_tracked cm i ct target name actorID params :
  (∀ now, follows i (exit_instance (record_regions cm i (wi_CurrentState i))
                       (initial_leaf_or_self cm target) now)) →
  tracked (knowing i) (commitParallelExit cm i ct target name actorID params).
Proof.
  intros Hexit. unfold commitParallelExit.
  pose proof (λ event i', begin_and_persist_tracked event i i'). tracked.
Qed.

Lemma commitParallelIntra_tracked cm i cands p name actorID params :
  (∀ now, follows i (intra_instance i cands now)) →
  tracked (knowing i) (commitParallelIntra cm i cands p name actorID params).
Proof.
  intros Hintra. unfold commitParallelIntra.
  pose proof (λ event i', begin_and_persist_tracked event i i'). tracked.
Qed.

Lemma parallelTransition_tracked cm i name actorID params start :
  0 < gm_len (wi_ActiveInParallel i) → writes_follow cm i name params →
  tracked (knowing i) (parallelTransition cm i name actorID params start).
Proof.
  intros Hlen Hw. unfold parallelTransition. cbv zeta.
  destruct (_ !! name) as [tr|] eqn:Htr; [|tracked].
  destruct (is_terminal_state _ _) eqn:Hlive; [tracked|]. destruct (contains _ _) eqn:Hc.
  - apply contains_true in Hc. apply tracked_harmless; [apply validateTransition_quietly|].
    intros t [[ct target]|e] Hr; [|tracked]. apply tracked_try; [|tracked..].
    apply commitParallelExit_tracked. intros now. by eapply (wf_exit _ _ _ _ Hw).
  - apply contains_false in Hc. apply tracked_harmless.
    { unfold collectParallelCandidates. rewrite Htr. apply collect_regions_quietly. }
    intros t [[|c cs]|e] Hr; [tracked| |tracked]. apply tracked_try; [|tracked..].
    apply commitParallelIntra_tracked. intros now. by eapply (wf_intra _ _ _ _ Hw).
Qed.

Lemma transition_from_tracked cm i name actorID params start :
  writes_follow cm i name params →
  tracked (knowing i) (transition_from cm i name actorID params start).
Proof.
  intros Hw. unfold transition_from. case_decide as Hlen; [by apply parallelTransition_tracked|].
  apply tracked_harmless; [apply validateTransition_quietly|].
  intros t [[ct target]|e] Hr; [|tracked]. apply tracked_try; [|tracked..].
  apply commitTransition_tracked; intros; [eapply (wf_stuck _ _ _ _ Hw)|eapply (wf_moved _ _ _ _ Hw)];
    first [done|lia].
Qed.

(** ** Loading

    [known_pair cm i] is what is known of an instance and its machine once both
    are loaded. *)

Context (known_pair : CompiledMachine → WorkflowInstance → Prop).
Context (found_pair : ∀ at' aid i cm, told (InstanceGet at' aid) (Ok i) →
  told (CompiledFor at' (wi_WorkflowVersion i)) (Some cm) → known_pair cm i).
Context (created_pair : ∀ at' aid id cid now cm, told (CompiledFor at' 0) (Some cm) →
  let i := new_instance cm at' aid id cid now in begins i ∧ known_pair cm i).

(** What a successful load knows: the instance it returns. *)
Definition loads (s : known) (r : result (CompiledMachine * WorkflowInstance)) (s' : known) : Prop :=
  knows_more s s' ∧ match r with Ok (cm, i) => i ∈ kn_read s' ∧ known_pair cm i | Err _ => True end.

Lemma load_created cm at' aid s s' :
  told (CompiledFor at' 0) (Some cm) → knows_more s s' → (at', aid) ∈ kn_missing s' →
  wp track_monitor (try (createInstance cm at' aid) ret_err (λ i, Ret (Ok (cm, i)))) s' (loads s).
Proof using created_pair found_pair.
  intros Hcm Hm Hmiss. apply wp_try. do 3 (apply wp_bind, wp_perform; [done|]; intros ? _). cbv zeta.
  destruct (created_pair at' aid r0 r1 r cm Hcm) as [Hb Hp].
  apply wp_try, wp_perform; [done|]. intros [t|e] _; [|by split].
  apply wp_check, wp_perform; [done|]. intros [e|] _; cbn; [by split|].
  split; [done|]. intros [e|] _; cbn; (split; [etrans; [exact Hm|split; set_solver]|]); [done|].
  split; [by left|done].
Qed.

Lemma load_tracked (load : string → string → prog (result (CompiledMachine * WorkflowInstance)))
    at' aid s :
  load = loadInstanceAndCompiled ∨ load = loadForSignal →
  wp track_monitor (load at' aid) s (λ r s', loads s r s').
Proof using created_pair found_pair.
  intros [->| ->]; (apply wp_bind, wp_perform; [done|]; intros [i|e] Hi;
    [apply wp_bind, wp_perform; [done|]; intros [cm|] Hcm;
     (split; [cbn; split; set_solver|done || (split; [by left|by eapply found_pair])])|]).
  all: cbn [m_step Tracking.track_monitor lock_step]; destruct (errors_Is e _) eqn:He; cbn [negb];
    try (split; cbn; done).
  all: apply wp_bind, wp_perform; [done|]; intros [cm|] Hcm; cbn [m_step Tracking.track_monitor lock_step];
    [apply load_created; [done|split; cbn; set_solver|by left]|split; [cbn; split; set_solver|done]].
Qed.

(** What is done with a loaded instance may rely on it. *)
Lemma tracked_load {B} load at' aid h
    (q : CompiledMachine * WorkflowInstance → prog (result B)) :
  load = loadInstanceAndCompiled ∨ load = loadForSignal →
  (∀ e, tracked known_nothing (h e)) →
  (∀ cm i, known_pair cm i → tracked (knowing i) (q (cm, i))) →
  tracked known_nothing (try (load at' aid) h q).
Proof using created_pair found_pair.
  intros Hl Hh Hq s Hs. apply wp_try. eapply wp_mono; [by apply load_tracked|].
  intros [[cm i]|e] s' [Hm Hi].
  - destruct Hi as [Hi Hp]. eapply tracked_wp; [by apply Hq| |exact Hm].
    split; cbn; set_solver.
  - eapply tracked_wp; [done| |exact Hm]. by etrans.
Qed.

Lemma tracked_get {B} at' aid h (q : WorkflowInstance → prog (result B)) :
  (∀ e, tracked known_nothing (h e)) →
  (∀ i, told (InstanceGet at' aid) (Ok i) → tracked (knowing i) (q i)) →
  tracked known_nothing (try (perform (InstanceGet at' aid)) h q).
Proof.
  intros Hh Hq. apply tracked_vis_step; [done|]. intros [i|e] Hi; [by apply Hq|].
  eapply tracked_weaken; [|apply Hh]. split; cbn; set_solver.
Qed.

(** ** The operations *)

Lemma Transition_tracked at' aid name actorID params :
  (∀ cm i, known_pair cm i → writes_follow cm i name params) →
  tracked known_nothing (Transition at' aid name actorID params).
Proof using created_pair found_pair.
  intros Hw. apply tracked_operation, tracked_bind; [tracked|intros start].
  apply tracked_load; [by left|tracked|intros cm i Hp]. by apply transition_from_tracked, Hw.
Qed.

(** The operations that choose a transition. *)
Section chosen.
Context (chosen_follow : ∀ cm i name params, known_pair cm i → writes_follow cm i name params).

Lemma any_Transition_tracked at' aid name actorID params :
  tracked known_nothing (Transition at' aid name actorID params).
Proof using created_pair found_pair chosen_follow. apply Transition_tracked. auto. Qed.
#[local] Hint Resolve any_Transition_tracked : locked.

Lemma Signal_tracked input : tracked known_nothing (Signal input).
Proof using created_pair found_pair chosen_follow.
  apply tracked_operation, tracked_load; [by right|tracked|intros cm i _].
  apply (tracked_weaken _ _ _ known_nothing); [split; cbn; set_solver|]. tracked.
Qed.

Lemma CompleteTask_tracked taskID choice actorID :
  tracked known_nothing (CompleteTask taskID choice actorID).
Proof using created_pair found_pair chosen_follow. apply tracked_operation. tracked. Qed.

Lemma ChildCompleted_tracked ct cid ts : tracked known_nothing (ChildCompleted ct cid ts).
Proof using created_pair found_pair chosen_follow.
  apply tracked_operation. unfold evaluateJoinPolicy. tracked.
Qed.
End chosen.

Lemma ForceState_tracked at' aid target actorID reason :
  (∀ cm i now, known_pair cm i → is_Some (def_States (cm_Definition cm) !! target) →
     follows i (forced_instance cm i (initial_leaf_or_self cm target) now)) →
  tracked known_nothing (ForceState at' aid target actorID reason).
Proof using created_pair found_pair.
  intros Hf. apply tracked_operation, tracked_get; [tracked|intros i Hi].
  apply tracked_vis; [done|]. intros [cm|] Hcm; [|tracked]. cbv zeta. case_decide as Hst; [|tracked].
  pose proof (λ t event now, persist_tracked (knowing i) t event i _ ltac:(by left)
    (Hf cm i now (found_pair _ _ _ _ Hi Hcm) Hst)). tracked.
Qed.

Lemma Restore_tracked snap :
  (∀ cm now, told (CompiledFor (sn_AggregateType snap) (sn_WorkflowVersion snap)) (Some cm) →
     begins (rebuilt snap now)) →
  tracked known_nothing (Restore snap).
Proof.
  intros Hb. apply tracked_bind; [|intros; apply tracked_ret]. apply tracked_operation.
  apply tracked_vis; [done|]. intros [cm|] Hcm; [|tracked]. case_decide; [tracked|].
  apply tracked_vis_step; [done|]. intros [i|e] _; cbn [lock_step]; [tracked|].
  destruct (errors_Is e _); cbn [negb]; [|tracked].
  do 2 (apply tracked_bind; [tracked|intros ?]). apply tracked_try; [tracked..|intros t].
  apply tracked_check; [|tracked..]. apply tracked_perform. split; [by left|by eapply Hb].
Qed.

Lemma SideEffect_tracked at' aid name : tracked known_nothing (SideEffect at' aid name).
Proof. apply tracked_operation. tracked. Qed.
End writes.
