(* ===== verification/Locking.v ===== *)
(** * Locking: the engine keeps its side of the optimistic lock

    [types/interfaces.go] asks every instance store for optimistic locking: an
    update carries, in [LastReadUpdatedAt], the time of the version its author
    read.  That protects nothing unless the engine says the truth there, as
    [Tracking.v] follows it; then the operations of several engines are
    interleaved on one store that keeps the contract of [Memstore.v]. *)

From S2P Require Import Prelude Errors Types Hash Validate Compile Helpers Effects Memstore.
From S2P Require Import SideEffects Executor Dispatcher Parallel Scheduler Snapshot Firing.
From S2P Require Import Transactions Invariant Lifecycle Tracking.

(** ** Every update is based on a version that was read *)

(** [i] is a next version of [old]: of the same aggregate, workflow version and
    origin, and saying when [old] was written. *)
Record based_on (old i : WorkflowInstance) : Prop := {
  bo_key : same_key i old;
  bo_id : wi_ID i = wi_ID old;
  bo_version : wi_WorkflowVersion i = wi_WorkflowVersion old;
  bo_created : wi_CreatedAt i = wi_CreatedAt old;
  bo_lock : wi_LastReadUpdatedAt i = wi_UpdatedAt old
}.

Definition lock_monitor : monitor known := track_monitor (λ _, True) based_on (λ _ _, True).

Lemma lock_considered s t : considered lock_monitor s t.
Proof. revert s. induction t as [|[c r] t IH]; intros s; simpl; auto. Qed.

(** Steps that leave an instance the version it was. *)
Record same_version (i i' : WorkflowInstance) : Prop := {
  sv_key : same_key i' i;
  sv_id : wi_ID i' = wi_ID i;
  sv_version : wi_WorkflowVersion i' = wi_WorkflowVersion i;
  sv_created : wi_CreatedAt i' = wi_CreatedAt i;
  sv_updated : wi_UpdatedAt i' = wi_UpdatedAt i
}.

#[export] Instance same_version_preorder : PreOrder same_version.
Proof.
  split; [by constructor|]. intros i1 i2 i3 [[? ?] ? ? ? ?] [[? ?] ? ? ? ?].
  constructor; [split|..]; congruence.
Qed.

Lemma recordHistory_version_kept i leaf seq def : same_version i (recordHistory i leaf seq def).
Proof.
  destruct (record_fold def leaf seq seq i) as (_ & _ & HE). unfold recordHistory.
  rewrite HE. by constructor.
Qed.

Section engine.
Context {gr : GoRange} {cfg : Config}.
Implicit Types (cm : CompiledMachine) (i : WorkflowInstance) (params : gomap value).

Lemma record_regions_version_kept cm i p : same_version i (record_regions cm i p).
Proof.
  unfold record_regions. generalize (sorted_regions 62 i). intros l.
  assert (∀ j, same_version i j → same_version i (foldl (λ i r,
    recordHistory i (active_leaf i r) (computeExitSequence (active_leaf i r) p (cm_Ancestry cm))
      (cm_Definition cm)) j l)) as H; [|by apply H].
  induction l as [|r l IH]; intros j Hj; cbn [foldl]; [done|].
  apply IH. etrans; [exact Hj|]. apply recordHistory_version_kept.
Qed.

Lemma mark_stuck_based i i' leaf reason now :
  same_version i i' → based_on i (mark_stuck i' leaf reason now).
Proof. intros [? ? ? ? ?]. by constructor. Qed.

Lemma moved_based cm i i' t now : same_version i i' → based_on i (moved_instance cm i' t now).
Proof. intros [? ? ? ? ?]. unfold moved_instance. by destruct (is_parallel cm t). Qed.

Lemma intra_based i cands now : based_on i (intra_instance i cands now).
Proof. by constructor. Qed.

Lemma exit_based i i' t now : same_version i i' → based_on i (exit_instance i' t now).
Proof. intros [? ? ? ? ?]. by constructor. Qed.

Lemma forced_based cm i t now : based_on i (forced_instance cm i t now).
Proof. unfold forced_instance. by destruct (is_parallel cm t). Qed.

#[local] Hint Resolve recordHistory_version_kept record_regions_version_kept mark_stuck_based
  moved_based intra_based exit_based : core.

Lemma writes_based cm i name params : writes_follow based_on cm i name params.
Proof. constructor; cbv zeta; unfold remembering; auto. Qed.

(** The trace of a public operation that may write instances. *)
Definition engine_run (t : list event) : Prop :=
  (∃ op r, runs (run_operation op) t r) ∨ (∃ snap r, runs (Restore snap) t r) ∨
  (∃ at' aid name r, runs (SideEffect at' aid name) t r).

Lemma engine_run_allowed t : engine_run t → allowed lock_monitor known_nothing t.
Proof.
  pose proof writes_based as Hw. pose proof forced_based as Hf.
  intros [(op & r & Hr)|[(snap & r & Hr)|(at' & aid & name & r & Hr)]];
    (eapply tracked_allowed; [|exact Hr|apply lock_considered]).
  - destruct op; [apply (Transition_tracked _ _ _ (λ _ _, True))|apply (Signal_tracked _ _ _ (λ _ _, True))
      |apply (CompleteTask_tracked _ _ _ (λ _ _, True))|apply (ChildCompleted_tracked _ _ _ (λ _ _, True))
      |apply (ForceState_tracked _ _ _ (λ _ _, True))]; auto.
  - by apply Restore_tracked.
  - apply SideEffect_tracked.
Qed.
End engine.

Lemma allowed_app {S} (M : monitor S) s t1 t2 :
  allowed M s (t1 ++ t2) ↔ allowed M s t1 ∧ allowed M (after M s t1) t2.
Proof. revert s. induction t1 as [|[c r] t1 IH]; intros s; cbn; [tauto|]. rewrite IH. tauto. Qed.

(** ** Many operations on one store

    An interleaving is a list of calls, each with the number of the operation
    that made it. *)

Abbreviation interleaving := (list (nat * event)).

(** The calls of operation [k]. *)
Definition project (k : nat) (T : interleaving) : list event :=
  (filter (λ e : nat * event, e.1 = k) T).*2.

Lemma project_app k T1 T2 : project k (T1 ++ T2) = project k T1 ++ project k T2.
Proof. unfold project. by rewrite filter_app, fmap_app. Qed.

Lemma project_cons k j ev T :
  project k ((j, ev) :: T) = if decide (j = k) then ev :: project k T else project k T.
Proof. unfold project. rewrite filter_cons. cbn. by case_decide. Qed.

(** Every operation has made some of its calls, or all of them. *)
Definition in_progress {gr : GoRange} {cfg : Config} (T : interleaving) : Prop :=
  ∀ k, ∃ rest, engine_run (project k T ++ rest).

Lemma in_progress_allowed {gr : GoRange} {cfg : Config} T k :
  in_progress T → allowed lock_monitor known_nothing (project k T).
Proof.
  intros HT. destruct (HT k) as [rest Hr].
  by apply engine_run_allowed, allowed_app in Hr as [? _].
Qed.

Section shared.
Context {St : Type} `{InstanceStoreLaws St plain good ok}.

(** What the store answers, and what a call makes of it.  Creations and updates
    act when they are made. *)
Definition store_answers (s : St) (c : call) : reply c → Prop :=
  match c return reply c → Prop with
  | InstanceGet at' aid => λ r, r = store_Get s at' aid
  | InstanceCreate _ i => λ r, r = (store_Create s i).2
  | InstanceUpdate _ i => λ r, r = (store_Update s i).2
  | _ => λ _, True
  end.

Definition store_after (s : St) (c : call) : St :=
  match c with
  | InstanceCreate _ i => (store_Create s i).1
  | InstanceUpdate _ i => (store_Update s i).1
  | _ => s
  end.

Definition store_at (s : St) (T : interleaving) : St :=
  foldl (λ s '(_, ev), store_after s (ev_call ev)) s T.

Fixpoint served (s : St) (T : interleaving) : Prop :=
  match T with
  | [] => True
  | (_, Ev c r) :: T => store_answers s c r ∧ served (store_after s c) T
  end.

(** The store can hold what the operations write, and no clock reads zero. *)
Definition storable (ev : event) : Prop :=
  match ev_call ev with
  | InstanceCreate _ i => good i
  | InstanceUpdate _ i => good i ∧ wi_LastReadUpdatedAt i ≠ 0%Z
  | _ => True
  end.

Lemma served_app s T1 T2 : served s (T1 ++ T2) ↔ served s T1 ∧ served (store_at s T1) T2.
Proof.
  revert s. induction T1 as [|[k [c r]] T1 IH]; intros s; cbn; [tauto|]. rewrite IH. tauto.
Qed.

Lemma store_after_ok s c r :
  ok s → storable (Ev c r) → store_answers s c r → ok (store_after s c).
Proof.
  intros Hok Hs Ha. destruct c; cbn in *; try done.
  - destruct (store_Create s instance) as [s' [e|]] eqn:Hc; cbn.
    + by apply create_failed in Hc as ->.
    + by eapply create_ok.
  - destruct (store_Update s instance) as [s' [e|]] eqn:Hc; cbn.
    + by apply update_failed in Hc as ->.
    + by eapply update_ok; [..|exact Hc]; [|apply Hs].
Qed.

Lemma store_at_ok s T :
  ok s → Forall (λ e, storable e.2) T → served s T → ok (store_at s T).
Proof.
  intros Hok Hs. revert s Hok. induction Hs as [|[k [c r]] T Hc _ IH]; intros s Hok; cbn; [done|].
  intros [Ha HT]. apply IH; [|done]. by eapply store_after_ok.
Qed.

(** An update that the store accepts replaces the version it says it read. *)
Lemma accepted_update s i old :
  ok s → good i → wi_LastReadUpdatedAt i ≠ 0%Z → (store_Update s i).2 = None →
  store_Get s (wi_AggregateType i) (wi_AggregateID i) = Ok old →
  wi_UpdatedAt old = wi_LastReadUpdatedAt i.
Proof.
  intros Hok Hg Hz Hup Hget.
  destruct (decide (wi_UpdatedAt old = wi_LastReadUpdatedAt i)) as [|Hne]; [done|].
  destruct (update_conflict s i old Hok Hg Hget Hz Hne) as (e & He & _). by rewrite He in Hup.
Qed.

(** C3: The engine keeps its side of the optimistic lock: however the calls of any
    number of operations are interleaved on a store that keeps the contract, an
    update the store accepts is a next version of one its author read or created
    itself, and the version it replaces carries the same time as that one; and an
    instance is created only by an operation that was told the store has none. *)
Theorem engine_updates_current {gr : GoRange} {cfg : Config} s T T1 k t i T2 :
  in_progress T → ok s → served s T → Forall (λ e, storable e.2) T →
  let author := after lock_monitor known_nothing (project k T1) in
  (T = T1 ++ (k, Ev (InstanceUpdate t i) None) :: T2 →
   ∃ v, v ∈ kn_read author ∧ based_on v i ∧
     ∀ old, store_Get (store_at s T1) (wi_AggregateType i) (wi_AggregateID i) = Ok old →
            wi_UpdatedAt old = wi_UpdatedAt v) ∧
  (T = T1 ++ (k, Ev (InstanceCreate t i) None) :: T2 →
   (wi_AggregateType i, wi_AggregateID i) ∈ kn_missing author).
Proof.
  intros HT Hok Hs Hst author. split; intros ->;
    pose proof (in_progress_allowed _ k HT) as Hal;
    rewrite project_app, project_cons, decide_True in Hal by done;
    apply allowed_app in Hal as [_ [Hpre _]]; cbn in Hpre; [|apply Hpre].
  destruct Hpre as (v & Hv & Hbase). exists v. split; [done|]. split; [done|]. intros old Hget.
  apply served_app in Hs as [Hs1 [Ha _]]. apply Forall_app in Hst as [Hst1 Hst2].
  apply Forall_cons in Hst2 as [[Hg Hz] _].
  rewrite <-(bo_lock _ _ Hbase). eapply accepted_update; [by apply store_at_ok|done..|exact Hget].
Qed.
End shared.

(** *** Running programs side by side *)

(** [interleave h ps sched w]: in turn, program [k] of [ps] makes its next call,
    for each [k] of [sched]; the calls, what is left of the programs, and the
    world at the end. *)
Fixpoint interleave {W A} (h : ∀ c, W → reply c * W) (ps : nat → prog A) (sched : list nat) (w : W) :
    interleaving * (nat → prog A) * W :=
  match sched with
  | [] => ([], ps, w)
  | k :: sched =>
      match ps k with
      | Ret _ => interleave h ps sched w
      | Vis c q =>
          let '(r, w) := h c w in
          let '(T, ps, w) := interleave h (λ j, if decide (j = k) then q r else ps j) sched w in
          ((k, Ev c r) :: T, ps, w)
      end
  end.

Lemma runs_project {W A} h (ps : nat → prog A) sched (w : W) T ps' w' k rest a :
  interleave h ps sched w = (T, ps', w') → runs (ps' k) rest a →
  runs (ps k) (project k T ++ rest) a.
Proof.
  revert ps w T. induction sched as [|j sched IH]; intros ps w T; cbn [interleave].
  { by intros [= <- <- <-]. }
  destruct (ps j) as [b|c q] eqn:Hj; [apply IH|]. destruct (h c w) as [r w1].
  destruct (interleave h _ sched w1) as [[T1 ps1] w2] eqn:Hi. intros [= <- <- <-] Hr.
  specialize (IH _ _ _ Hi Hr). cbn beta in IH. rewrite project_cons.
  destruct (decide (j = k)) as [->|Hne].
  - rewrite decide_True in IH by done. rewrite Hj. cbn. by exists r, (project k T1 ++ rest).
  - by rewrite decide_False in IH by done.
Qed.

(** Every program has some trace. *)
Lemma prog_runs {A} (p : prog A) : (∀ c, reply c) → ∃ t a, runs p t a.
Proof.
  intros d. destruct (exec_runs (λ c (w : ()), (d c, w)) p ()) as [t Ht]. eauto.
Qed.
