(* ===== verification/Database.v ===== *)
(** * Database: operations on stores with real transactions

    [Transactions.v] says which writes an operation commits; here they act on
    data.  A database keeps the tables of instances, events and tasks and, while a
    transaction is open, a working copy: [Begin], [Commit] and [Rollback] of the
    SQL adapters ([sqlitestore.TxProvider], [pgxstore.TxProvider]) start it, make it
    the data, or drop it, and a savepoint is a copy to return to.  What a transaction
    isolates is the database's part and is assumed. *)

From S2P Require Import Prelude Errors Types Hash Validate Compile Helpers Effects Memstore.
From S2P Require Import SideEffects Executor Dispatcher Parallel Scheduler Snapshot Transactions.

(** ** Handles

    The [tx any] of a call: the transaction [begun] handed out, or another value. *)

Module SqliteTx.

Inductive any_tx := SqlTx (h : nat) | OtherValue.

(** [p.db.BeginTx(ctx, nil)] *)
Definition Begin (begun : result nat) : result any_tx :=
  match begun with
  | Err err => Err (Errorf "sqlitestore: begin tx: %w" [] (Some err))
  | Ok h => Ok (SqlTx h)
  end.

(** The assertion that [tx] is a [sql.Tx] pointer: a panic, [None], when the value is something else. *)
Definition assert_tx (tx : any_tx) : option nat :=
  match tx with SqlTx h => Some h | OtherValue => None end.

Definition Commit (commit : nat → option error) (tx : any_tx) : option (option error) :=
  commit <$> assert_tx tx.

Definition Rollback (rollback : nat → option error) (tx : any_tx) : option (option error) :=
  rollback <$> assert_tx tx.

End SqliteTx.

Module PgxTx.

Inductive any_tx := PgxTx (h : nat) | OtherValue.

(** [p.pool.Begin(ctx)] *)
Definition Begin (begun : result nat) : result any_tx :=
  match begun with
  | Err err => Err (Errorf "pgxstore: begin tx: %w" [] (Some err))
  | Ok h => Ok (PgxTx h)
  end.

Definition with_tx (tx : any_tx) (act : nat → option error) : option error :=
  match tx with
  | PgxTx h => act h
  | OtherValue => Some (Errorf "pgxstore: invalid tx type" [] None)
  end.

Definition Commit (commit : nat → option error) (tx : any_tx) : option error := with_tx tx commit.
Definition Rollback (rollback : nat → option error) (tx : any_tx) : option error := with_tx tx rollback.

End PgxTx.

(** What a provider hands out reaches its driver again. *)
Lemma providers_accept_own h commit rollback :
  (∃ tx, SqliteTx.Begin (Ok h) = Ok tx ∧ SqliteTx.Commit commit tx = Some (commit h) ∧
     SqliteTx.Rollback rollback tx = Some (rollback h)) ∧
  (∃ tx, PgxTx.Begin (Ok h) = Ok tx ∧ PgxTx.Commit commit tx = commit h ∧
     PgxTx.Rollback rollback tx = rollback h).
Proof. split; by eexists. Qed.

(** ** Tables *)

Record tables := mkTables {
  tb_instances : Instances.store;
  tb_events : Events.store;
  tb_tasks : Tasks.store
}.

#[export] Instance tables_eta : Eta tables := λ t, mkTables (tb_instances t) (tb_events t) (tb_tasks t).

(** A transaction: its working copy and its savepoints, newest first. *)
Record transaction := mkTransaction {
  tr_working : tables;
  tr_saved : list (string * tables)
}.

Record database := mkDatabase {
  db_data : tables;
  db_open : option transaction
}.

Section database.
Context {gr : GoRange} {cfg : Config}.
Implicit Types (tb : tables) (d : database).

Definition apply_write tb (w : write) : tables :=
  match w with
  | WCreate i | WUpdate i => tb <| tb_instances := <[Instances.key_of i := i]> (tb_instances tb) |>
  | WEvent e => tb <| tb_events := tb_events tb ++ [e] |>
  | WInvalidate at' aid states =>
      tb <| tb_tasks := (Tasks.InvalidateByStates (tb_tasks tb) at' aid states).1 |>
  end.

Definition apply_writes tb (ws : list write) : tables := foldl apply_write tb ws.

(** A statement of the open transaction, when it succeeds. *)
Definition db_write d (w : write) (err : option error) : database :=
  match err, db_open d with
  | None, Some t => mkDatabase (db_data d) (Some (mkTransaction (apply_write (tr_working t) w) (tr_saved t)))
  | _, _ => d
  end.

(** What a call that was answered has made of the database. *)
Definition db_step d (c : call) : reply c → database :=
  match c return reply c → database with
  | Begin => λ r, match r with
      | Ok _ => mkDatabase (db_data d) (Some (mkTransaction (db_data d) []))
      | Err _ => d end
  | Commit _ => λ err, match err, db_open d with
      | None, Some t => mkDatabase (tr_working t) None
      | _, _ => mkDatabase (db_data d) None end
  | Rollback _ => λ _, mkDatabase (db_data d) None
  | Savepoint _ name => λ _, match db_open d with
      | Some t => mkDatabase (db_data d)
          (Some (mkTransaction (tr_working t) ((name, tr_working t) :: tr_saved t)))
      | None => d end
  | RollbackTo _ _ => λ _, match db_open d with
      | Some t => match tr_saved t with
          | (_, tb) :: _ => mkDatabase (db_data d) (Some (mkTransaction tb (tr_saved t)))
          | [] => d end
      | None => d end
  | InstanceCreate _ i => db_write d (WCreate i)
  | InstanceUpdate _ i => db_write d (WUpdate i)
  | EventAppend _ e => db_write d (WEvent e)
  | InvalidateByStates _ at' aid states => db_write d (WInvalidate at' aid states)
  | _ => λ _, d
  end.

Fixpoint db_run d (t : list event) : database :=
  match t with
  | [] => d
  | Ev c r :: t => db_run (db_step d c r) t
  end.

(** ** The data are those of the committed batches *)

(** [d] holds, over [tb], what the monitor has recorded. *)
Record holds (tb : tables) (s : txstate) d : Prop := {
  ho_data : db_data d = apply_writes tb (concat (tx_committed s));
  ho_open : db_open d = (λ o, mkTransaction (apply_writes (db_data d) (op_writes o))
    (prod_map id (apply_writes (db_data d)) <$> op_savepoints o)) <$> tx_open s
}.

Lemma apply_writes_app tb ws1 ws2 : apply_writes tb (ws1 ++ ws2) = apply_writes (apply_writes tb ws1) ws2.
Proof. apply foldl_app. Qed.

Lemma holds_write tb s d w err : holds tb s d → holds tb (add_write s w err) (db_write d w err).
Proof.
  intros [Hd Ho]. unfold add_write, db_write. destruct err; [by constructor|]. rewrite Ho.
  destruct (tx_open s) as [o|] eqn:Hopen; cbn; [|by constructor; rewrite ?Ho, ?Hopen].
  constructor; cbn; [done|]. by rewrite apply_writes_app.
Qed.

Lemma holds_step tb s d c r : holds tb s d → tx_pre s c → holds tb (tx_step s c r) (db_step d c r).
Proof.
  intros Hh Hpre. pose proof Hh as [Hd Ho].
  destruct c; try done; try (by apply holds_write); cbn [tx_step db_step].
  - (* Begin *) destruct r as [t|e]; [|done]. by constructor.
  - (* Commit *) rewrite Ho. destruct r as [e|], (tx_open s) as [o|]; cbn; try by constructor.
    constructor; cbn; [|done]. rewrite concat_app, apply_writes_app, Hd. cbn. by rewrite app_nil_r.
  - (* Savepoint *) rewrite Ho. destruct (tx_open s) as [o|]; cbn; [by constructor|done].
  - (* RollbackTo *) rewrite Ho. destruct (tx_open s) as [o|] eqn:Hopen; cbn; [|done].
    destruct (op_savepoints o) as [|[n ws] rest] eqn:Hs; cbn; [done|].
    by constructor; cbn; rewrite ?Hs.
Qed.

Lemma holds_run tb s d t :
  holds tb s d → allowed tx_monitor s t → holds tb (after tx_monitor s t) (db_run d t).
Proof.
  revert s d. induction t as [|[c r] t IH]; intros s d Hh; cbn; [done|]. intros [Hpre Ht].
  apply IH; [|done]. by apply holds_step.
Qed.

(** ** What an operation leaves in the database *)

(** [tb'] is [tb] with instances created. *)
Definition with_created tb tb' : Prop :=
  ∃ created, tb' = apply_writes tb (WCreate <$> created).

Lemma with_created_batches tb pre : Forall creates pre → with_created tb (apply_writes tb (concat pre)).
Proof.
  intros Hp. assert (∃ created, concat pre = WCreate <$> created) as [l Hl].
  { induction Hp as [|b pre [i ->] _ [l IH]]; [by exists []|]. exists (i :: l). cbn. by rewrite IH. }
  exists l. by rewrite Hl.
Qed.

Lemma created_events tb tb' : with_created tb tb' → tb_events tb' = tb_events tb ∧ tb_tasks tb' = tb_tasks tb.
Proof.
  intros [l ->]. induction l as [|i l IH] using rev_ind; [done|]. by rewrite fmap_app, apply_writes_app.
Qed.

Lemma tasks_only_keeps tb ws :
  tasks_only ws →
  tb_events (apply_writes tb ws) = tb_events tb ∧ tb_instances (apply_writes tb ws) = tb_instances tb.
Proof. by intros [->|(at' & aid & states & ->)]. Qed.

End database.
