(* ===== verification/Regions.v ===== *)
(** * Regions: which regions of a parallel state move, and how

    Theorems about [collectParallelCandidates] and [commitParallelIntra] of
    [Parallel.v]: the candidates are exactly the regions that may fire, and
    committing them moves those regions and no others. *)

From S2P Require Import Prelude Errors Types Hash Validate Compile Helpers Effects SideEffects.
From S2P Require Import Executor Dispatcher Parallel Firing Invariant.

(** ** Maps filled by a loop *)

Section fill.
Context {A V : Type} (key : A → string) (val : A → V).

Definition fill (m : gmap string V) (l : list A) : gmap string V :=
  foldl (λ m x, <[key x := val x]> m) m l.

Lemma fill_other m l k : k ∉ key <$> l → fill m l !! k = m !! k.
Proof.
  unfold fill. revert m. induction l as [|x l IH]; intros m; cbn [foldl]; [done|].
  rewrite fmap_cons. intros [Hx Hl]%not_elem_of_cons. rewrite IH by done. by rewrite lookup_insert_ne.
Qed.

Lemma fill_elem m l x : NoDup (key <$> l) → x ∈ l → fill m l !! key x = Some (val x).
Proof.
  unfold fill. revert m. induction l as [|y l IH]; intros m; cbn [foldl]; [by intros _ ?%elem_of_nil|].
  rewrite fmap_cons. intros [Hy Hnd]%NoDup_cons [->|Hx]%elem_of_cons; [|by apply IH].
  rewrite (fill_other (<[key y:=val y]> m) l) by done. by rewrite lookup_insert_eq.
Qed.
End fill.

(** ** The source of a region *)

(** The leaf and its ancestors below the parallel state [p]. *)
Definition below cm (p leaf : string) : list string := leaf :: until p (ancestry_of (cm_Ancestry cm) leaf).

Lemma bounded_ancestor_until sources p l :
  bounded_ancestor sources p l =
  str_of (first_some (λ a, if contains sources a then Some a else None) (until p l)).
Proof.
  induction l as [|a l IH]; cbn; [done|]. case_decide; [done|]. cbn.
  by destruct (contains sources a).
Qed.

Lemma region_source_innermost cm sources p leaf :
  "" ∉ sources →
  match region_source cm sources p leaf with
  | "" => ∀ s, s ∈ below cm p leaf → s ∉ sources
  | s => innermost sources (below cm p leaf) s
  end.
Proof.
  intros Hne. pose proof (first_source sources (below cm p leaf)) as H.
  assert (region_source cm sources p leaf = str_of (first_some
    (λ a, if contains sources a then Some a else None) (below cm p leaf))) as ->.
  { unfold region_source, below. cbn [first_some].
    destruct (contains sources leaf); [done|]. by rewrite bounded_ancestor_until. }
  destruct (first_some _ _) as [s|]; [|done]. cbn. destruct s; [|done].
  by destruct H as (? & ? & _ & ? & _).
Qed.

Section regions.
Context {gr : GoRange} {cfg : Config}.
Implicit Types (cm : CompiledMachine) (i : WorkflowInstance) (params : gomap value).

(** ** Candidates *)

(** The transition [tr] fires in the region of [c], as [c] says. *)
Record region_fires cm i (p : string) params (tr : TransitionDef) (c : parallelCandidate) : Prop := {
  rf_active : gm_get (wi_ActiveInParallel i) (pc_region c) = Some (pc_leafState c);
  rf_source : innermost (tr_Sources tr) (below cm p (pc_leafState c)) (pc_effectiveSrc c);
  rf_ct : pc_ct c = compileTransition tr;
  rf_guards : guards_pass tr i params;
  rf_target : (tr_Routes tr = [] ∧ pc_targetState c = tr_Target tr) ∨
      (tr_Routes tr ≠ [] ∧ resolveRoute tr i params = Ok (pc_targetState c))
}.

(** What stops a transition that has a source in some region. *)
Definition region_refuses i params (tr : TransitionDef) (e : error) : Prop :=
  (∃ n reason, e = GuardError n reason ∧ guard_fails tr i params n reason) ∨
  guards_pass tr i params ∧ tr_Routes tr ≠ [] ∧ resolveRoute tr i params = Err e.

Lemma region_fires_unique cm i p params tr c c' :
  region_fires cm i p params tr c → region_fires cm i p params tr c' →
  pc_region c = pc_region c' → c = c'.
Proof.
  intros [A1 S1 C1 _ T1] [A2 S2 C2 _ T2] Hr. destruct c as [r l ct s t], c' as [r' l' ct' s' t'].
  cbn in *. subst. rewrite A1 in A2. injection A2 as <-.
  assert (s = s') as -> by by eapply innermost_unique.
  assert (t = t') as ->; [|done]. destruct T1 as [[? ->]|[? E1]], T2 as [[? ->]|[? E2]]; try done.
  rewrite E1 in E2. by injection E2 as ->.
Qed.

Lemma no_routes {A} (l : list A) : l = [] ↔ ¬ 0 < length l.
Proof. destruct l; cbn; [by split; intros; [lia|]|]. split; [done|lia]. Qed.

Lemma collect_regions_spec cm i p name params tr regions cands t r :
  compiled cm → keyed (cm_Definition cm) → def_Transitions (cm_Definition cm) !! name = Some tr →
  "" ∉ tr_Sources tr → (∀ r, r ∈ regions → is_Some (gm_get (wi_ActiveInParallel i) r)) →
  runs (collect_regions cm i p name tr params regions cands) t r →
  match r with
  | Ok out => t = [] ∧ ∃ new, out = cands ++ new ∧ (pc_region <$> new) `sublist_of` regions ∧
      (∀ c, c ∈ new → region_fires cm i p params tr c) ∧
      (∀ c, pc_region c ∈ regions → region_fires cm i p params tr c → c ∈ new)
  | Err e => region_refuses i params tr e
  end.
Proof.
  intros Hc Hk Htr Hne. revert cands t. induction regions as [|rg regions IH]; intros cands t Hact;
    cbn [collect_regions].
  { intros [-> <-]. split; [done|]. exists []. rewrite app_nil_r. split_and!; try done.
    - by intros c ?%elem_of_nil.
    - by intros c ?%elem_of_nil. }
  destruct (Hact rg) as [leaf Hleaf]; [by left|].
  assert (active_leaf i rg = leaf) as -> by (unfold active_leaf; by rewrite Hleaf).
  specialize (IH) with (1 := λ r Hr, Hact r (proj2 (elem_of_cons _ _ _) (or_intror Hr))).
  pose proof (region_source_innermost cm (tr_Sources tr) p leaf Hne) as Hsrc.
  cbv zeta. set (src := region_source _ _ _ _) in *. clearbody src. case_decide as Hempty.
  - subst src. intros Hr%IH. destruct r as [out|e]; [|done].
    destruct Hr as (-> & new & -> & Hsub & Hs & Hcompl). split; [done|]. exists new.
    split_and!; [done|by constructor|done|]. intros c [Hrg|Hin]%elem_of_cons Hf; [|by apply Hcompl].
    exfalso. destruct Hf as [Ha Hf _ _ _]. rewrite Hrg, Hleaf in Ha. injection Ha as ->.
    apply innermost_elem in Hf as [Hin Hin']. by apply (Hsrc (pc_effectiveSrc c)).
  - assert (innermost (tr_Sources tr) (below cm p leaf) src) as Hin by by destruct src.
    clear Hsrc Hempty. pose proof (innermost_elem _ _ _ Hin) as [_ Hs].
    rewrite (find_compiled_spec cm name tr src) by done.
    intros (t1 & t2 & g & -> & Hg & Hr)%runs_bind. apply runGuards_spec in Hg. destruct g as [e|].
    { destruct Hg as (n & reason & -> & Hg & _). destruct Hr as [_ <-]. left. eauto. }
    destruct Hg as [-> Hg].
    destruct (if decide _ then _ else _) as [target|e] eqn:Htgt.
    2: { destruct Hr as [_ <-]. right. case_decide as Hlen; [|done]. split_and!; try done.
         by intros ?%no_routes. }
    set (c0 := mkCandidate rg leaf (compileTransition tr) src target) in *.
    assert (region_fires cm i p params tr c0) as Hc0.
    { constructor; cbn; try done. case_decide as Hlen.
      - right. split; [by intros ?%no_routes|done].
      - left. apply no_routes in Hlen. by injection Htgt as <-. }
    apply IH in Hr. destruct r as [out|e]; [|done].
    destruct Hr as (-> & new & -> & Hsub & Hsn & Hcompl). split; [done|]. exists (c0 :: new).
    split_and!; [by rewrite <-app_assoc|by apply (sublist_skip rg)| |].
    + intros c [->|?]%elem_of_cons; auto.
    + intros c [Hrg|?]%elem_of_cons Hf; [|right; by apply Hcompl].
      rewrite (region_fires_unique _ _ _ _ _ c c0 Hf Hc0 Hrg). by left.
Qed.

Lemma sorted_regions_canonical n i :
  sorted_regions n i = sort_strings (map_to_list (gm_map (wi_ActiveInParallel i))).*1.
Proof. apply sort_strings_canonical. by rewrite range_perm. Qed.

Lemma elem_of_sorted_regions n i r :
  r ∈ sorted_regions n i ↔ is_Some (gm_get (wi_ActiveInParallel i) r).
Proof. unfold sorted_regions. by rewrite elem_of_sort_strings, elem_of_range_keys. Qed.

(** C14: Inside a parallel state the candidates of a transition are exactly the
    active regions whose leaf, or an ancestor of it below the parallel state, is
    a source, each with its innermost source and its resolved target, in the
    alphabetical order of the regions; if a guard or the routes refuse, no
    region moves and the error is theirs. *)
Theorem collectParallelCandidates_exact cm i p name params tr t r :
  compiled cm → keyed (cm_Definition cm) → def_Transitions (cm_Definition cm) !! name = Some tr →
  "" ∉ tr_Sources tr →
  runs (collectParallelCandidates cm i p name params) t r →
  match r with
  | Ok cands => t = [] ∧ (∀ c, c ∈ cands ↔ region_fires cm i p params tr c) ∧
      (pc_region <$> cands) `sublist_of` sort_strings (map_to_list (gm_map (wi_ActiveInParallel i))).*1
  | Err e => region_refuses i params tr e
  end.
Proof.
  intros Hc Hk Htr Hne. unfold collectParallelCandidates. rewrite Htr. intros Hr.
  apply (collect_regions_spec cm i p name params tr) in Hr; try done.
  2: { intros r'. apply elem_of_sorted_regions. }
  destruct r as [cands|e]; [|done]. destruct Hr as (-> & new & -> & Hsub & Hs & Hcompl). cbn [app].
  split_and!; [done| |by rewrite <-(sorted_regions_canonical 60)].
  intros c. split; [apply Hs|]. intros Hf. apply Hcompl; [|done].
  apply elem_of_sorted_regions. destruct Hf as [Ha _ _ _ _]. by rewrite Ha.
Qed.

(** ** The commit *)

(** The regions of [cands] move to their targets; nothing else of the instance
    changes but the two clocks. *)
Record regions_move i (cands : list parallelCandidate) i' : Prop := {
  rm_moved : ∀ c, c ∈ cands →
    gm_get (wi_ActiveInParallel i') (pc_region c) = Some (pc_targetState c);
  rm_kept : ∀ r, r ∉ pc_region <$> cands →
    gm_get (wi_ActiveInParallel i') r = gm_get (wi_ActiveInParallel i) r;
  rm_clock : wi_ParallelClock i' = int64 (wi_ParallelClock i + 1);
  rm_read : wi_LastReadUpdatedAt i' = wi_UpdatedAt i;
  rm_rest : ∃ aip now, i' = i <| wi_ActiveInParallel := aip |>
    <| wi_ParallelClock := wi_ParallelClock i' |>
    <| wi_LastReadUpdatedAt := wi_LastReadUpdatedAt i' |> <| wi_UpdatedAt := now |>
}.

(** What the payload reports: the moves, and a clock for every active region,
    the new one where the region moves and otherwise the one before. *)
Record regions_reported i (cands : list parallelCandidate) params (clock : Z) (payload : gomap value) :
    Prop := {
  rr_params : ∀ k, k ≠ "_parallel_regions" → k ≠ "_region_sequence_map" →
    gm_get payload k = gm_get params k;
  rr_delta : ∃ delta, gm_get payload "_parallel_regions" = Some (VMap (Some delta)) ∧
    (∀ c, c ∈ cands → delta !! pc_region c =
      Some (VMap (Some {[ "from" := VStr (pc_leafState c); "to" := VStr (pc_targetState c) ]}))) ∧
    (∀ r, r ∉ pc_region <$> cands → delta !! r = None);
  rr_sequence : ∃ seq, gm_get payload "_region_sequence_map" = Some (VMap (Some seq)) ∧
    ∀ r, seq !! r = match gm_get (wi_ActiveInParallel i) r with
                    | None => None
                    | Some _ => Some (VInt (if decide (r ∈ pc_region <$> cands) then clock
                                            else wi_ParallelClock i))
                    end
}.

Lemma intra_instance_moves i cands now :
  NoDup (pc_region <$> cands) → regions_move i cands (intra_instance i cands now).
Proof.
  intros Hnd. constructor; try done; unfold gm_get; cbn.
  - intros c Hc. by apply (fill_elem pc_region pc_targetState).
  - intros r Hr. by apply (fill_other pc_region pc_targetState).
  - by exists (Some (moved_regions i cands)), now.
Qed.

Lemma region_delta_moved cands r :
  NoDup (pc_region <$> cands) → is_Some (region_delta cands !! r) ↔ r ∈ pc_region <$> cands.
Proof.
  intros Hnd. unfold region_delta.
  set (v c := VMap (Some {[ "from" := VStr (pc_leafState c); "to" := VStr (pc_targetState c) ]})).
  change (is_Some (fill pc_region v ∅ cands !! r) ↔ r ∈ pc_region <$> cands). split.
  - destruct (decide (r ∈ pc_region <$> cands)); [done|]. rewrite fill_other by done.
    by rewrite lookup_empty; intros [].
  - intros (c & -> & Hc)%list_elem_of_fmap. by rewrite fill_elem.
Qed.

Lemma region_sequence_lookup i delta clock r :
  region_sequence i delta clock !! r =
  match gm_get (wi_ActiveInParallel i) r with
  | None => None
  | Some _ => Some (VInt (match delta !! r with Some _ => clock | None => wi_ParallelClock i end))
  end.
Proof.
  unfold region_sequence, gm_get. set (m := gm_map _).
  set (v (e : string * string) :=
    VInt (match delta !! e.1 with Some _ => clock | None => wi_ParallelClock i end)).
  transitivity (fill fst v ∅ (range 61 m) !! r).
  { f_equal. unfold fill. generalize (∅ : gmap string value).
    induction (range 61 m) as [|[k x] l IH]; intros m0; cbn [foldl]; [done|]. apply IH. }
  destruct (m !! r) as [leaf|] eqn:Hr.
  - by apply (fill_elem fst v _ _ (r, leaf)); [apply range_keys_NoDup|apply elem_of_range].
  - rewrite fill_other; [done|]. rewrite elem_of_range_keys, Hr. by intros [].
Qed.

Lemma parallel_payload_reports i cands params :
  NoDup (pc_region <$> cands) →
  regions_reported i cands params (int64 (wi_ParallelClock i + 1)) (parallel_payload i cands params).
Proof.
  intros Hnd. unfold parallel_payload. cbv zeta. constructor; unfold gm_get at 1; cbn.
  - intros k H1 H2. by rewrite !lookup_insert_ne.
  - exists (region_delta cands). rewrite lookup_insert_ne, lookup_insert_eq by done. split_and!; [done| |].
    + intros c Hc. by apply (fill_elem pc_region (λ c, VMap (Some _))).
    + intros r Hr. destruct (region_delta cands !! r) eqn:E; [|done]. destruct Hr.
      by apply region_delta_moved; rewrite ?E.
  - eexists. rewrite lookup_insert_eq. split; [done|]. intros r. rewrite region_sequence_lookup.
    destruct (gm_get _ r); [|done]. repeat f_equal. pose proof (region_delta_moved cands r Hnd) as Hd.
    case_decide as Hr.
    + by apply Hd in Hr as [? ->].
    + destruct (region_delta cands !! r); [|done]. by destruct Hr; apply Hd.
Qed.

Lemma commitParallelIntra_ok cm i cands p name actor params t event i' :
  runs (commitParallelIntra cm i cands p name actor params) t (Ok (event, i')) →
  ∃ id now, i' = intra_instance i cands now ∧
    event = transition_event cm i id "ParallelTransition" actor name (parallel_payload i cands params) now.
Proof.
  unfold commitParallelIntra. intros (? & ? & now & -> & _ & Hr)%runs_bind. cbv zeta in Hr.
  apply runs_bind in Hr as (? & ? & [[]|err] & -> & _ & Hr); [|by destruct Hr].
  apply runs_bind in Hr as (? & ? & [[]|err] & -> & _ & Hr); [|by destruct Hr].
  apply runs_bind in Hr as (? & ? & id & -> & _ & Hr). unfold begin_and_persist, try, check in Hr.
  apply runs_bind in Hr as (? & ? & [tx|err] & -> & _ & Hr); [|by destruct Hr].
  apply runs_bind in Hr as (? & ? & [err|] & -> & _ & Hr); [by destruct Hr|].
  destruct Hr as [_ [= <- <-]]. by exists id, now.
Qed.

End regions.
