(* ===== verification/Statechart.v ===== *)
(** * Statechart: what a workflow instance may become

    The engine of [internal/runtime/] moves instances by tables, path computations
    and copied maps.  Here is what a move is, in terms of the hierarchy alone:
    [step cm i c i'] says that in the machine [cm] the instance [i] may be replaced
    by [i'] because of [c].  [Linear.v] shows that whatever the operations write,
    side by side on one store, is such a step of the version it replaces. *)

From S2P Require Import Prelude Errors Types Hash Validate Compile Helpers Effects.
From S2P Require Import SideEffects Executor Dispatcher Parallel Scheduler Snapshot Firing.
From S2P Require Import Transactions Invariant Lifecycle Tracking Regions.

(** ** Steps *)

(** Where entering [t] ends: at an atomic or parallel state, by initial children. *)
Definition enters (def : WorkflowDef) (t leaf : string) : Prop :=
  if sd_IsParallel (state_at def t) then leaf = t else initial_leaf def t leaf.

(** Where a transition to [t] lands: at what the history remembers of it, if the
    transition asks for it and there is something, else at its initial leaf. *)
Inductive lands (def : WorkflowDef) (i : WorkflowInstance) (mode t leaf : string) : Prop :=
  | lands_shallow d :
      mode = HistoryShallow → gm_get (wi_ShallowHistory i) t = Some d → enters def d leaf →
      lands def i mode t leaf
  | lands_deep :
      mode = HistoryDeep → gm_get (wi_DeepHistory i) t = Some leaf → lands def i mode t leaf
  | lands_initial :
      (mode = HistoryShallow → gm_get (wi_ShallowHistory i) t = None) →
      (mode = HistoryDeep → gm_get (wi_DeepHistory i) t = None) →
      enters def t leaf → lands def i mode t leaf.

(** The active regions of an instance that rests at [leaf]. *)
Definition regions_at (def : WorkflowDef) (leaf : string) (regions : gomap string) : Prop :=
  if sd_IsParallel (state_at def leaf) then
    ∀ r l, gm_get regions r = Some l ↔ r ∈ sd_Children (state_at def leaf) ∧ enters def r l
  else ∀ r, gm_get regions r = None.

(** The states around [source] that are left for [leaf]: those that are not around
    [leaf] too. *)
Definition left_for (def : WorkflowDef) (source leaf c : string) : Prop :=
  ancestor def source c ∧ ¬ ancestor def leaf c.

(** [d] is the child of [c] that is, or is around, [source]. *)
Definition child_towards (def : WorkflowDef) (source c d : string) : Prop :=
  parent_of def d = Some c ∧ (d = source ∨ ancestor def source d).

(** [i'] has the history of [i] and remembers, of each compound state in [left],
    the way to [source]. *)
Record remembers (def : WorkflowDef) (source : string) (left : string → Prop)
    (i i' : WorkflowInstance) : Prop := {
  re_left : ∀ c d, left c → sd_IsCompound (state_at def c) = true → child_towards def source c d →
    gm_get (wi_ShallowHistory i') c = Some d ∧ gm_get (wi_DeepHistory i') c = Some source;
  re_kept : ∀ c, ¬ left c ∨ sd_IsCompound (state_at def c) = false →
    gm_get (wi_ShallowHistory i') c = gm_get (wi_ShallowHistory i) c ∧
    gm_get (wi_DeepHistory i') c = gm_get (wi_DeepHistory i) c
}.

(** A state inside the parallel state [p], around the leaf of an active region. *)
Definition inside (def : WorkflowDef) (p : string) (i : WorkflowInstance) (r l c : string) : Prop :=
  gm_get (wi_ActiveInParallel i) r = Some l ∧ ancestor def l c ∧ ancestor def c p.

(** Leaving [p], each compound state inside remembers the way to an active leaf. *)
Record remembers_regions (def : WorkflowDef) (p : string) (i i' : WorkflowInstance) : Prop := {
  rr_left : ∀ c, (∃ r l, inside def p i r l c) → sd_IsCompound (state_at def c) = true →
    ∃ r l d, inside def p i r l c ∧ child_towards def l c d ∧
      gm_get (wi_ShallowHistory i') c = Some d ∧ gm_get (wi_DeepHistory i') c = Some l;
  rr_kept : ∀ c, ¬ (∃ r l, inside def p i r l c) ∨ sd_IsCompound (state_at def c) = false →
    gm_get (wi_ShallowHistory i') c = gm_get (wi_ShallowHistory i) c ∧
    gm_get (wi_DeepHistory i') c = gm_get (wi_DeepHistory i) c
}.

(** The instance [i'] is of the same aggregate and workflow version as [i], with its
    data, and says when [i] was written. *)
Definition carries (i i' : WorkflowInstance) : Prop :=
  i' = i <| wi_CurrentState := wi_CurrentState i' |>
         <| wi_ShallowHistory := wi_ShallowHistory i' |>
         <| wi_DeepHistory := wi_DeepHistory i' |>
         <| wi_ActiveInParallel := wi_ActiveInParallel i' |>
         <| wi_ParallelClock := wi_ParallelClock i' |>
         <| wi_IsStuck := wi_IsStuck i' |> <| wi_StuckReason := wi_StuckReason i' |>
         <| wi_UpdatedAt := wi_UpdatedAt i' |> <| wi_LastReadUpdatedAt := wi_UpdatedAt i |>.

(** Nothing of [i] was stuck or unstuck, and no region moved on its own. *)
Definition undisturbed (i i' : WorkflowInstance) : Prop :=
  wi_IsStuck i' = wi_IsStuck i ∧ wi_StuckReason i' = wi_StuckReason i ∧
  wi_ParallelClock i' = wi_ParallelClock i.

(** Why an instance changes: a transition that fired, one whose entry activity
    failed, or an administrator. *)
Inductive cause :=
  | Fired (name : string)
  | Stuck (name : string)
  | Forced (target : string).

Section step.
Context (cm : CompiledMachine) (i : WorkflowInstance).
Implicit Types (params : gomap value).

Abbreviation def := (cm_Definition cm).
Abbreviation here := (wi_CurrentState i).

(** No region is active. *)
Definition undivided : Prop := ∀ r, gm_get (wi_ActiveInParallel i) r = None.

Inductive step : cause → WorkflowInstance → Prop :=
  | step_moves name params ct t leaf i' :
      undivided → fires cm i name params ct t →
      lands def i (tr_HistoryMode (ct_Def ct)) t leaf →
      carries i i' → undisturbed i i' → wi_CurrentState i' = leaf →
      regions_at def leaf (wi_ActiveInParallel i') →
      remembers def here (left_for def here leaf) i i' → step (Fired name) i'
  | step_stuck name params ct t leaf i' :
      undivided → fires cm i name params ct t →
      lands def i (tr_HistoryMode (ct_Def ct)) t leaf →
      carries i i' → wi_CurrentState i' = here →
      wi_ActiveInParallel i' = wi_ActiveInParallel i → wi_ParallelClock i' = wi_ParallelClock i →
      wi_IsStuck i' = true →
      remembers def here (left_for def here leaf) i i' → step (Stuck name) i'
  | step_leaves name params ct t leaf i' :
      ¬ undivided → fires cm i name params ct t → here ∈ tr_Sources (ct_Def ct) →
      enters def t leaf →
      carries i i' → undisturbed i i' → wi_CurrentState i' = leaf →
      wi_ActiveInParallel i' = None → remembers_regions def here i i' → step (Fired name) i'
  | step_regions name params tr cands i' :
      ¬ undivided → def_Transitions def !! name = Some tr → here ∉ tr_Sources tr →
      is_terminal_state def here = false →
      (∀ c, c ∈ cands ↔ region_fires cm i here params tr c) → cands ≠ [] →
      carries i i' → regions_move i cands i' → step (Fired name) i'
  | step_forced target leaf i' :
      is_Some (def_States def !! target) → enters def target leaf →
      carries i i' → wi_CurrentState i' = leaf → wi_ParallelClock i' = wi_ParallelClock i →
      wi_IsStuck i' = false → wi_StuckReason i' = "" →
      (∀ c, gm_get (wi_ShallowHistory i') c = None ∧ gm_get (wi_DeepHistory i') c = None) →
      regions_at def leaf (wi_ActiveInParallel i') → step (Forced target) i'.
End step.

(** The instance a machine creates: at its initial leaf, undivided, without history. *)
Record starts (cm : CompiledMachine) (i : WorkflowInstance) : Prop := {
  st_type : wi_WorkflowType i = def_WorkflowType (cm_Definition cm);
  st_version : wi_WorkflowVersion i = def_Version (cm_Definition cm);
  st_state : enters (cm_Definition cm) (def_InitialState (cm_Definition cm)) (wi_CurrentState i);
  st_undivided : undivided i;
  st_history : ∀ c, gm_get (wi_ShallowHistory i) c = None ∧ gm_get (wi_DeepHistory i) c = None;
  st_free : wi_IsStuck i = false
}.

(** A finished instance is moved by force only. *)
Lemma step_terminal cm i c i' :
  step cm i c i' → is_terminal_state (cm_Definition cm) (wi_CurrentState i) = true →
  ∃ target, c = Forced target.
Proof. destruct 1 as [? ? ? ? ? ? ? []|? ? ? ? ? ? ? []|? ? ? ? ? ? ? []| |]; intros; [congruence..|eauto]. Qed.

(** ** The engine's computations take such steps *)

Section refinement.
Context {gr : GoRange}.
Implicit Types (cm : CompiledMachine) (i : WorkflowInstance) (params : gomap value).

Lemma enters_leaf cm t :
  sane cm → is_Some (def_States (cm_Definition cm) !! t) →
  enters (cm_Definition cm) t (initial_leaf_or_self cm t).
Proof.
  intros Hs [st Hst]. unfold enters, initial_leaf_or_self.
  destruct (cm_InitialLeafMap cm !! t) as [leaf|] eqn:Hl; cbn.
  - apply (co_leaf _ (sa_compiled _ Hs)) in Hl as [(st' & Hst' & He) Hl]. rewrite Hst in Hst'.
    injection Hst' as <-. unfold state_at. rewrite Hst. cbn. unfold has_leaf_entry in He.
    destruct (sd_IsParallel st); [by rewrite andb_false_r in He|done].
  - unfold state_at. rewrite Hst. cbn. destruct (sd_IsParallel st) eqn:Hp; [done|].
    apply initial_leaf_self. unfold initial_next, state_at. rewrite Hst. cbn.
    destruct (sd_IsCompound st) eqn:Hc; [|done]. exfalso.
    destruct (v_compound _ (sa_valid _ Hs) _ _ Hst Hc Hp) as [Hne _].
    destruct (initial_leaf_exists (cm_Definition cm) t (sa_nested _ Hs)) as [leaf Hleaf].
    { intros n. eexists. apply Hs. }
    assert (cm_InitialLeafMap cm !! t = Some leaf) as E; [|congruence].
    apply (co_leaf _ (sa_compiled _ Hs)). split; [|done]. exists st. split; [done|].
    unfold has_leaf_entry. rewrite Hc, Hp. by rewrite bool_decide_eq_false_2.
Qed.

Lemma enters_unique def t l1 l2 : enters def t l1 → enters def t l2 → l1 = l2.
Proof. unfold enters. destruct (sd_IsParallel _); [by intros -> ->|apply initial_leaf_unique]. Qed.

Lemma resolve_target_lands cm i mode t :
  sane cm → instance_ok cm i → is_Some (def_States (cm_Definition cm) !! t) →
  lands (cm_Definition cm) i mode t (resolve_target cm i mode t).
Proof.
  intros Hs Hi Ht. unfold resolve_target. case_decide as H1; [|case_decide as H2].
  - destruct (gm_get (wi_ShallowHistory i) t) as [d|] eqn:Hg.
    + eapply lands_shallow; [done..|]. apply enters_leaf; [done|].
      apply (io_shallow _ _ Hi) in Hg. apply elem_of_dom. by eapply parent_of_dom.
    + apply lands_initial; [done| |by apply enters_leaf]. intros H2. by rewrite H2 in H1.
  - destruct (gm_get (wi_DeepHistory i) t) as [l|] eqn:Hg; [by apply lands_deep|].
    by apply lands_initial; [|done|apply enters_leaf].
  - by apply lands_initial; [..|apply enters_leaf].
Qed.

Lemma is_parallel_def cm s :
  compiled cm → is_parallel cm s = sd_IsParallel (state_at (cm_Definition cm) s).
Proof.
  intros Hc. unfold is_parallel, state_at. destruct (cm_RegionIndex cm !! s) as [cs|] eqn:E.
  - rewrite bool_decide_eq_true_2 by done. apply (co_region _ Hc) in E as (st & -> & Hp & _). done.
  - rewrite bool_decide_eq_false_2 by (by intros []).
    destruct (def_States (cm_Definition cm) !! s) as [st|] eqn:Hst; cbn; [|done].
    destruct (sd_IsParallel st) eqn:Hp; [|done].
    assert (cm_RegionIndex cm !! s = Some (sd_Children st)) as E'; [|congruence].
    apply (co_region _ Hc). eauto.
Qed.

Lemma regions_of_def cm s :
  compiled cm → sd_IsParallel (state_at (cm_Definition cm) s) = true →
  regions_of cm s = sd_Children (state_at (cm_Definition cm) s).
Proof.
  intros Hc Hp. unfold regions_of, state_at in *.
  destruct (def_States (cm_Definition cm) !! s) as [st|] eqn:Hst; cbn in *; [|done].
  assert (cm_RegionIndex cm !! s = Some (sd_Children st)) as ->; [|done].
  apply (co_region _ Hc). eauto.
Qed.

(** The regions entered with a parallel state. *)
Lemma entered_regions cm i leaf :
  sane cm → settled cm leaf →
  regions_at (cm_Definition cm) leaf
    (wi_ActiveInParallel (if is_parallel cm leaf then enterParallelRegions i cm leaf
                          else i <| wi_ActiveInParallel := None |>)).
Proof.
  intros Hs Hset. unfold regions_at. rewrite is_parallel_def by apply Hs.
  destruct (sd_IsParallel _) eqn:Hp; [|done]. intros r l. unfold gm_get. cbn.
  rewrite foldl_insert_lookup, lookup_empty, regions_of_def by (apply Hs || done).
  assert (r ∈ sd_Children (state_at (cm_Definition cm) leaf) →
    enters (cm_Definition cm) r (region_leaf cm r)) as Hr.
  { intros Hr. apply enters_leaf; [done|]. destruct Hset as (st & Hst & _).
    unfold state_at in Hr. rewrite Hst in Hr. apply elem_of_dom, (parent_of_dom _ _ leaf).
    by eapply (wn_children _ (sa_nested _ Hs)). }
  case_decide as Hin; split.
  - intros [= <-]. split; [done|by apply Hr].
  - intros [_ He]. f_equal. by eapply enters_unique; [apply Hr|].
  - done.
  - by intros [? _].
Qed.

(** *** History *)

(** [c] follows [d] in the configuration when it is its parent. *)
Lemma configuration_adjacent cm s d c :
  compiled cm → d = s ∨ ancestor (cm_Definition cm) s d → parent_of (cm_Definition cm) d = Some c →
  ∃ l1 l2, configuration cm s = l1 ++ d :: c :: l2.
Proof.
  intros Hc Hd Hp. assert (d ∈ configuration cm s) as Hin.
  { destruct Hd as [->|Hd]; [by left|right]. by apply (ancestry_elem cm). }
  apply list_elem_of_split in Hin as (l1 & l2 & Heq). exists l1.
  pose proof (co_ancestry _ Hc s) as Hch. unfold configuration in *.
  assert (chain (parent_of (cm_Definition cm)) d l2) as Hl2.
  { destruct l1 as [|x l1]; injection Heq as E1 E2; [by subst|]. rewrite E2 in Hch.
    by eapply chain_suffix. }
  inversion Hl2; simplify_eq. eauto.
Qed.

Lemma app_cons_inv {A} (a a' b b' : list A) c :
  c ∉ a → c ∉ a' → a ++ c :: b = a' ++ c :: b' → a = a' ∧ b = b'.
Proof.
  revert a'. induction a as [|x a IH]; intros [|y a'] Ha Ha' Heq; simplify_eq/=; try set_solver.
  destruct (IH a') as [-> ->]; set_solver.
Qed.

(** Recording the way from [source] up to [lca]. *)
Lemma recordHistory_remembers cm i source lca left :
  compiled cm → source ≠ "" →
  (∀ c, c ∈ until lca (ancestry_of (cm_Ancestry cm) source) ↔ left c) →
  remembers (cm_Definition cm) source left i
    (recordHistory i source (computeExitSequence source lca (cm_Ancestry cm)) (cm_Definition cm)).
Proof.
  intros Hc Hne Hleft.
  destruct (recordHistory_path_spec cm source lca i Hc Hne) as (Hrec & Hkeep & _). constructor.
  - intros c d Hl Hcomp [Hp Hd]. apply Hleft in Hl.
    destruct (configuration_adjacent cm source d c Hc Hd Hp) as (l1 & l2 & Heq).
    destruct (exit_path cm source lca) as [k Hk]. rewrite Heq in Hk.
    unfold computeExitSequence in *. apply list_elem_of_split_l in Hl as (a & b & Hab & Hna).
    rewrite Hab in Hk. pose proof (chain_NoDup _ _ _ (co_ancestry _ Hc source)) as Hnd.
    fold (configuration cm source) in Hnd. rewrite Heq in Hnd.
    assert (c ∉ l1 ++ [d]) as Hn1.
    { change (d :: c :: l2) with ([d] ++ c :: l2) in Hnd. rewrite app_assoc in Hnd.
      apply NoDup_app in Hnd as (_ & Hd' & _). intros Hin. apply (Hd' _ Hin). by left. }
    assert (c ∉ source :: a) as Hn2.
    { intros [->|?]%elem_of_cons; [|done].
      assert (source ∈ ancestry_of (cm_Ancestry cm) source) as Hself.
      { destruct (until_prefix lca (ancestry_of (cm_Ancestry cm) source)) as [k' ->]. rewrite Hab. set_solver. }
      by eapply chain_not_elem, Hself; apply Hc. }
    assert (source :: a = l1 ++ [d]) as Ha.
    { eapply (app_cons_inv _ _ (b ++ k) l2 c Hn2 Hn1). rewrite <-app_assoc. cbn. rewrite Hk.
      cbn. by rewrite <-app_assoc. }
    apply (Hrec l1 d c b); [|done]. rewrite Hab, app_comm_cons, Ha. by rewrite <-app_assoc.
  - intros c Hn. apply Hkeep. destruct Hn as [Hn|Hn]; [left|by right]. cbn. by rewrite Hleft.
Qed.

(** The states left for a target are those below the lowest common ancestor. *)
Lemma until_lca_left cm source leaf c :
  compiled cm →
  c ∈ until (str_of (LCA cm source leaf)) (ancestry_of (cm_Ancestry cm) source) ↔
  left_for (cm_Definition cm) source leaf c.
Proof.
  intros Hc. pose proof (LCA_spec cm source leaf Hc) as Hlca. unfold left_for.
  rewrite <-(ancestry_elem cm source c Hc). destruct (LCA cm source leaf) as [l|]; cbn.
  - destruct Hlca as (Hs & Ht & Hlow). pose proof (ancestry_split cm source l Hc Hs) as Es.
    pose proof (chain_NoDup _ _ _ (co_ancestry _ Hc source)) as Hnd. rewrite Es in Hnd.
    apply NoDup_cons_1_2, NoDup_app in Hnd as (_ & Hdis & _). split.
    + intros Hin. assert (c ∈ ancestry_of (cm_Ancestry cm) source) as Ha by (rewrite Es; set_solver).
      split; [done|]. intros Hl. destruct (Hdis c Hin).
      apply (ancestry_elem cm) in Ha; [|done]. destruct (Hlow c Ha Hl) as [->|?]; [by left|right].
      by apply (ancestry_elem cm).
    + intros [Ha Hno]. rewrite Es in Ha. apply elem_of_app in Ha as [?|Hin]; [done|]. destruct Hno.
      apply elem_of_cons in Hin as [->|Hin]; [done|]. apply (ancestry_elem cm) in Hin; [|done].
      by eapply tc_transitive.
  - rewrite ancestry_no_lca by done. split; [|by intros []]. intros Hin. split; [done|].
    apply Hlca. by apply (ancestry_elem cm).
Qed.

(** Inside a parallel state the way goes up to that state. *)
Lemma until_parallel cm leaf p c :
  compiled cm → ancestor (cm_Definition cm) leaf p →
  c ∈ until p (ancestry_of (cm_Ancestry cm) leaf) ↔
  ancestor (cm_Definition cm) leaf c ∧ ancestor (cm_Definition cm) c p.
Proof.
  intros Hc Hp. pose proof (ancestry_split cm leaf p Hc Hp) as Es.
  pose proof (co_ancestry _ Hc leaf) as Hch.
  assert (∀ x, ancestor (cm_Definition cm) x x → False) as Hirr.
  { intros x Hx. apply (ancestry_elem cm) in Hx; [|done]. by eapply chain_not_elem, Hx; apply Hc. }
  split.
  - intros Hin. split; [apply (ancestry_elem cm); [done|]; rewrite Es; set_solver|].
    apply list_elem_of_split in Hin as (l1 & l2 & Heq). rewrite Es, Heq, <-app_assoc in Hch.
    cbn in Hch. apply chain_suffix in Hch. apply (ancestry_elem cm); [done|].
    rewrite (chain_unique _ _ _ _ (co_ancestry _ Hc c) Hch). set_solver.
  - intros [Ha Hcp]. apply (ancestry_elem cm) in Ha; [|done]. rewrite Es in Ha.
    apply elem_of_app in Ha as [?|[->|Ha]%elem_of_cons]; [done|by destruct (Hirr p)|].
    apply (ancestry_elem cm) in Ha; [|done]. destruct (Hirr c). by eapply tc_transitive.
Qed.

Lemma child_towards_exists def source c :
  ancestor def source c → ∃ d, child_towards def source c d.
Proof.
  unfold child_towards. induction 1 as [x y Hxy|x y z Hxy Hyz (d & Hd & Hy)].
  - exists x. split; [done|by left].
  - exists d. split; [done|right]. destruct Hy as [->|Hy]; [by apply tc_once|by eapply tc_l].
Qed.

(** The states on the way from the leaf of a region out to [p]. *)
Definition on_way_out cm p i r c : Prop :=
  c ∈ until p (ancestry_of (cm_Ancestry cm) (active_leaf i r)).

#[local] Instance on_way_out_dec cm p i r c : Decision (on_way_out cm p i r c).
Proof. unfold on_way_out. apply _. Defined.

Lemma on_way_out_inside cm p i r l c :
  sane cm → instance_ok cm i → wi_CurrentState i = p →
  gm_get (wi_ActiveInParallel i) r = Some l →
  active_leaf i r = l ∧ l ≠ "" ∧ (on_way_out cm p i r c ↔ inside (cm_Definition cm) p i r l c).
Proof.
  intros Hs Hi Hp Hr. assert (active_leaf i r = l) as Hl by (unfold active_leaf; by rewrite Hr).
  unfold on_way_out, inside. rewrite Hl. pose proof Hr as (_ & Hset & Ha)%(io_regions _ _ Hi).
  rewrite Hp in Ha. split_and!; [done|by eapply settled_ne|].
  rewrite (until_parallel cm l p c (sa_compiled _ Hs) Ha). tauto.
Qed.

(** The fold over the regions of a parallel state. *)
Lemma record_regions_fold cm p i rs j :
  compiled cm → wi_ActiveInParallel j = wi_ActiveInParallel i →
  (∀ r, r ∈ rs → active_leaf i r ≠ "") →
  let def := cm_Definition cm in
  let j' := foldl (λ i r, recordHistory i (active_leaf i r)
    (computeExitSequence (active_leaf i r) p (cm_Ancestry cm)) def) j rs in
  (∀ c, Exists (λ r, on_way_out cm p i r c) rs → sd_IsCompound (state_at def c) = true →
     ∃ r d, r ∈ rs ∧ on_way_out cm p i r c ∧ child_towards def (active_leaf i r) c d ∧
       gm_get (wi_ShallowHistory j') c = Some d ∧
       gm_get (wi_DeepHistory j') c = Some (active_leaf i r)) ∧
  (∀ c, ¬ Exists (λ r, on_way_out cm p i r c) rs ∨ sd_IsCompound (state_at def c) = false →
     gm_get (wi_ShallowHistory j') c = gm_get (wi_ShallowHistory j) c ∧
     gm_get (wi_DeepHistory j') c = gm_get (wi_DeepHistory j) c).
Proof.
  intros Hc Hj Hne. cbv zeta. revert j Hj. induction rs as [|r rs IH]; intros j Hj; cbn [foldl].
  { split; [by intros c ?%Exists_nil|done]. }
  assert (active_leaf j r = active_leaf i r) as -> by (unfold active_leaf; by rewrite Hj).
  set (l := active_leaf i r) in *. set (j1 := recordHistory j l _ (cm_Definition cm)).
  assert (remembers (cm_Definition cm) l (on_way_out cm p i r) j j1) as [Hrec Hkeep].
  { apply recordHistory_remembers; [done|apply Hne; by left|done]. }
  destruct (IH (λ r Hr, Hne r (proj2 (elem_of_cons _ _ _) (or_intror Hr))) j1) as [IH1 IH2].
  { unfold j1. destruct (recordHistory_fields j l (computeExitSequence l p (cm_Ancestry cm))
      (cm_Definition cm)) as (_ & _ & _ & _ & -> & _). done. }
  split; intros c Hex.
  - intros Hcomp. destruct (decide (Exists (λ r, on_way_out cm p i r c) rs)) as [He|He].
    + destruct (IH1 c He Hcomp) as (r' & d & Hr' & ?). exists r', d. split; [by right|done].
    + apply Exists_cons in Hex as [Hr|]; [|done]. destruct (IH2 c (or_introl He)) as [-> ->].
      destruct (child_towards_exists (cm_Definition cm) l c) as [d Hd].
      { apply (ancestry_elem cm); [done|]. unfold on_way_out in Hr.
        destruct (until_prefix p (ancestry_of (cm_Ancestry cm) l)) as [k ->]. set_solver. }
      exists r, d. destruct (Hrec c d Hr Hcomp Hd) as [-> ->]. split; [by left|done].
  - rewrite Exists_cons in Hex. destruct (IH2 c) as [-> ->]; [tauto|]. apply Hkeep. tauto.
Qed.

Lemma record_regions_remembers cm i :
  sane cm → instance_ok cm i →
  remembers_regions (cm_Definition cm) (wi_CurrentState i) i (record_regions cm i (wi_CurrentState i)).
Proof.
  intros Hs Hi. set (p := wi_CurrentState i). unfold record_regions.
  assert (∀ r, r ∈ sorted_regions 62 i ↔ is_Some (gm_get (wi_ActiveInParallel i) r)) as Hsort
    by apply elem_of_sorted_regions.
  assert (∀ r l c, gm_get (wi_ActiveInParallel i) r = Some l → active_leaf i r = l ∧ l ≠ "" ∧
    (on_way_out cm p i r c ↔ inside (cm_Definition cm) p i r l c)) as Hin
    by (intros; by apply on_way_out_inside).
  assert (∀ c, Exists (λ r, on_way_out cm p i r c) (sorted_regions 62 i) ↔
    ∃ r l, inside (cm_Definition cm) p i r l c) as Hex.
  { intros c. rewrite Exists_exists. split.
    - intros (r & [l Hl]%Hsort & Ho). exists r, l. by apply (Hin r l c Hl).
    - intros (r & l & Hrl). pose proof Hrl as [Hl _]. exists r. rewrite Hsort. split; [by eexists|].
      by apply (Hin r l c Hl). }
  destruct (record_regions_fold cm p i (sorted_regions 62 i) i) as [Hrec Hkeep]; [apply Hs|done| |].
  { intros r [l Hl]%Hsort. by destruct (Hin r l "" Hl) as (-> & ? & _). }
  constructor; intros c Hc.
  - intros Hcomp. apply Hex in Hc. destruct (Hrec c Hc Hcomp) as (r & d & [l Hl]%Hsort & Ho & Hrest).
    destruct (Hin r l c Hl) as (El & _ & Hiff). rewrite El in Hrest. exists r, l, d.
    split; [by apply Hiff|done].
  - apply Hkeep. by rewrite Hex.
Qed.

(** *** What the commits write *)

(** [i'] differs from [i] in its history only. *)
Definition only_history i i' : Prop :=
  i' = i <| wi_ShallowHistory := wi_ShallowHistory i' |> <| wi_DeepHistory := wi_DeepHistory i' |>.

#[local] Instance only_history_preorder : PreOrder only_history.
Proof.
  split; [by intros []|]. unfold only_history. intros [] [] []; cbn. intros [=] [=]. by subst.
Qed.

Lemma recordHistory_carries i leaf seq def : only_history i (recordHistory i leaf seq def).
Proof. destruct (record_fold def leaf seq seq i) as (_ & _ & HE). exact HE. Qed.

Lemma record_regions_carries cm i p : only_history i (record_regions cm i p).
Proof.
  unfold record_regions. generalize (sorted_regions 62 i). intros l.
  induction l as [|r l IH] using rev_ind; [done|]. rewrite foldl_app. cbn [foldl].
  etrans; [exact IH|]. apply recordHistory_carries.
Qed.

Lemma remembering_remembers cm i leaf :
  sane cm → instance_ok cm i →
  remembers (cm_Definition cm) (wi_CurrentState i)
    (left_for (cm_Definition cm) (wi_CurrentState i) leaf) i (remembering cm i leaf).
Proof.
  intros Hs Hi. apply recordHistory_remembers; [apply Hs| |].
  - eapply settled_ne; [done|apply Hi].
  - intros c. by apply until_lca_left, Hs.
Qed.

Lemma gm_len_undivided i : gm_len (wi_ActiveInParallel i) = 0 ↔ undivided i.
Proof.
  unfold gm_len, undivided, gm_get. rewrite map_size_empty_iff. split; [intros -> r; apply lookup_empty|].
  intros H. apply map_eq. intros r. by rewrite H, lookup_empty.
Qed.

Section written.
Context {cfg : Config} (cm : CompiledMachine) (i : WorkflowInstance).
Context (Hs : sane cm) (Hi : instance_ok cm i).

Lemma fires_lands name params ct t :
  fires cm i name params ct t →
  let leaf := resolve_target cm i (tr_HistoryMode (ct_Def ct)) t in
  lands (cm_Definition cm) i (tr_HistoryMode (ct_Def ct)) t leaf ∧ settled cm leaf.
Proof using Hs Hi.
  intros Hf. assert (is_Some (def_States (cm_Definition cm) !! t)) as Ht.
  { eapply target_exists; [done|apply Hf|]. by eapply fires_target. }
  split; [by apply resolve_target_lands|by apply resolve_target_settled].
Qed.

Lemma moved_step name params ct t now :
  undivided i → fires cm i name params ct t →
  let leaf := resolve_target cm i (tr_HistoryMode (ct_Def ct)) t in
  step cm i (Fired name) (moved_instance cm (remembering cm i leaf) leaf now).
Proof using Hs Hi.
  intros Hu Hf leaf. destruct (fires_lands _ _ _ _ Hf) as [Hl Hset]. fold leaf in Hl, Hset.
  destruct (remembering_remembers cm i leaf Hs Hi) as [Hr Hk].
  pose proof (λ j, entered_regions cm j leaf Hs Hset) as Hreg.
  pose proof (recordHistory_carries i (wi_CurrentState i)
    (exit_sequence cm (wi_CurrentState i) leaf) (cm_Definition cm)) as Hc.
  fold (remembering cm i leaf) in Hc. unfold only_history in Hc.
  unfold moved_instance. eapply (step_moves cm i name params ct t leaf); try done.
  - unfold carries. destruct (is_parallel cm leaf); rewrite Hc; by destruct i.
  - unfold undisturbed. destruct (is_parallel cm leaf); rewrite Hc; by destruct i.
  - by destruct (is_parallel cm leaf).
  - specialize (Hreg (remembering cm i leaf)). by destruct (is_parallel cm leaf).
  - destruct (is_parallel cm leaf); by constructor.
Qed.

Lemma stuck_step name params ct t reason now :
  undivided i → fires cm i name params ct t →
  let leaf := resolve_target cm i (tr_HistoryMode (ct_Def ct)) t in
  step cm i (Stuck name) (mark_stuck (remembering cm i leaf) (wi_CurrentState i) reason now).
Proof using Hs Hi.
  intros Hu Hf leaf. destruct (fires_lands _ _ _ _ Hf) as [Hl Hset]. fold leaf in Hl, Hset.
  destruct (remembering_remembers cm i leaf Hs Hi) as [Hr Hk].
  pose proof (recordHistory_carries i (wi_CurrentState i)
    (exit_sequence cm (wi_CurrentState i) leaf) (cm_Definition cm)) as Hc.
  fold (remembering cm i leaf) in Hc. unfold only_history in Hc.
  eapply (step_stuck cm i name params ct t leaf); try done.
  1: unfold carries. all: rewrite Hc; by destruct i.
Qed.

Lemma exit_step name params ct t now :
  ¬ undivided i → fires cm i name params ct t → wi_CurrentState i ∈ tr_Sources (ct_Def ct) →
  step cm i (Fired name)
    (exit_instance (record_regions cm i (wi_CurrentState i)) (initial_leaf_or_self cm t) now).
Proof using Hs Hi.
  intros Hu Hf Hsrc. assert (is_Some (def_States (cm_Definition cm) !! t)) as Ht.
  { eapply target_exists; [done|apply Hf|]. by eapply fires_target. }
  destruct (record_regions_remembers cm i Hs Hi) as [Hr Hk].
  pose proof (record_regions_carries cm i (wi_CurrentState i)) as Hc. unfold only_history in Hc.
  eapply (step_leaves cm i name params ct t); try done.
  - by apply enters_leaf.
  - unfold carries. rewrite Hc. by destruct i.
  - unfold undisturbed. rewrite Hc. by destruct i.
Qed.

Lemma intra_step name params tr cands now t :
  ¬ undivided i → def_Transitions (cm_Definition cm) !! name = Some tr →
  is_terminal_state (cm_Definition cm) (wi_CurrentState i) = false →
  wi_CurrentState i ∉ tr_Sources tr →
  runs (collectParallelCandidates cm i (wi_CurrentState i) name params) t (Ok cands) →
  cands ≠ [] → step cm i (Fired name) (intra_instance i cands now).
Proof using Hs Hi.
  intros Hu Htr Hlive Hsrc Hr Hne.
  assert ("" ∉ tr_Sources tr) as Hempty.
  { intros Hin. pose proof (v_sources _ (sa_valid _ Hs) _ _ _ Htr Hin) as [st Hst].
    by rewrite (sa_named _ Hs) in Hst. }
  unfold collectParallelCandidates in Hr. rewrite Htr in Hr.
  apply (collect_regions_spec cm i _ name params tr) in Hr as (-> & new & Hnew & Hsub & Hf & Hall);
    [|apply Hs|apply Hs|done..|by intros r; rewrite elem_of_sorted_regions].
  cbn in Hnew. subst new. eapply (step_regions cm i name params tr cands); try done.
  - intros c. split; [apply Hf|]. intros Hc. apply Hall; [|done]. apply elem_of_sorted_regions.
    rewrite (rf_active _ _ _ _ _ _ Hc). by eexists.
  - apply intra_instance_moves. eapply sublist_NoDup; [|exact Hsub].
    unfold sorted_regions. rewrite sort_strings_perm. apply range_keys_NoDup.
Qed.

Lemma forced_step target now :
  is_Some (def_States (cm_Definition cm) !! target) →
  step cm i (Forced target) (forced_instance cm i (initial_leaf_or_self cm target) now).
Proof using Hs Hi.
  intros Ht. pose proof (enters_leaf cm target Hs Ht) as He.
  pose proof (initial_leaf_settled cm target Hs Ht) as Hset. set (leaf := initial_leaf_or_self _ _) in *.
  pose proof (λ j, entered_regions cm j leaf Hs Hset) as Hreg.
  unfold forced_instance. eapply (step_forced cm i target leaf); try done.
  all: try (destruct (is_parallel cm leaf); try done; by destruct i).
  all: specialize (Hreg i); by destruct (is_parallel cm leaf).
Qed.
End written.

Lemma new_instance_starts cm at' aid id cid now :
  sane cm → starts cm (new_instance cm at' aid id cid now).
Proof.
  intros Hs. constructor; try done. cbn. apply enters_leaf; [done|apply Hs].
Qed.

(** ** All that an operation writes *)

(** The instance [v] may be replaced by [i], by a cause in [C], in its machine. *)
Definition steps_by (machines : string → Z → option CompiledMachine) (C : cause → Prop)
    (v i : WorkflowInstance) : Prop :=
  ∃ cm c, machines (wi_AggregateType v) (wi_WorkflowVersion v) = Some cm ∧ C c ∧ step cm v c i.

Lemma writes_step machines C cm i name params :
  paired machines cm i → C (Fired name) → C (Stuck name) →
  writes_follow (steps_by machines C) cm i name params.
Proof.
  intros (Hs & Hi & Hm) HF HS. pose proof (gm_len_undivided i) as Hu.
  constructor; cbv zeta.
  - intros t ct target reason now Hlen%Hu Hr. pose proof (validated_fires _ _ _ _ _ _ Hs Hr) as Hf.
    eexists cm, _. split; [done|]. split; [exact HS|]. eapply stuck_step; [done..|exact Hf].
  - intros t ct target now Hlen%Hu Hr. pose proof (validated_fires _ _ _ _ _ _ Hs Hr) as Hf.
    eexists cm, _. split; [done|]. split; [exact HF|]. eapply moved_step; [done..|exact Hf].
  - intros t tr ct target now Hlen Htr Hsrc Hr. pose proof (validated_fires _ _ _ _ _ _ Hs Hr) as Hf.
    eexists cm, _. split; [done|]. split; [exact HF|]. eapply exit_step; [done|done|by intros ?%Hu; lia|exact Hf|].
    pose proof (fi_tr _ _ _ _ _ _ Hf) as E. rewrite Htr in E. by injection E as <-.
  - intros t tr cands now Hlen Htr Hlive Hsrc Hr Hne. eexists cm, _. split; [done|]. split; [exact HF|].
    eapply intra_step; [done|done|by intros ?%Hu; lia|done..|exact Hr|done].
Qed.
End refinement.
