(* ===== verification/Linear.v ===== *)
(** * Linear: operations side by side make one statechart

    The calls of any number of operations are interleaved on one store that keeps
    the contract of [Memstore.v]; the registry answers with the machines of the
    definitions.  As long as the clock tells versions apart, every instance the
    store ever holds is one the statechart of [Statechart.v] can reach, and every
    update it accepts is a step of the version that it replaces. *)

From S2P Require Import Prelude Errors Types Hash Validate Compile Helpers Effects Memstore.
From S2P Require Import SideEffects Executor Dispatcher Parallel Scheduler Snapshot Firing.
From S2P Require Import Transactions Invariant Lifecycle Tracking Locking Regions Statechart.

(** ** What an action may write *)

Inductive action :=
  | Operate (op : Operation)
  | RestoreFrom (snap : Snapshot)
  | Effect (aggregateType aggregateID name : string).

(** The causes an action may change an instance by. *)
Definition permits (a : action) (c : cause) : Prop :=
  match a, c with
  | Operate (OpForceState _ _ target _ _), Forced t => t = target
  | Operate (OpForceState _ _ _ _ _), _ => False
  | Operate (OpTransition _ _ name _ _), (Fired n | Stuck n) => n = name
  | Operate _, (Fired _ | Stuck _) => True
  | _, _ => False
  end.

Section actions.
Context {gr : GoRange} {cfg : Config}.

(** [t] is the trace of a finished [a]. *)
Definition acts (a : action) (t : list event) : Prop :=
  match a with
  | Operate op => ∃ r, runs (run_operation op) t r
  | RestoreFrom snap => ∃ r, runs (Restore snap) t r
  | Effect at' aid name => ∃ r, runs (SideEffect at' aid name) t r
  end.

Context (machines : string → Z → option CompiledMachine).

(** The instances an action may create. *)
Definition may_create (a : action) (i : WorkflowInstance) : Prop :=
  match a with
  | Operate _ => ∃ cm, machines (wi_AggregateType i) 0 = Some cm ∧ starts cm i
  | RestoreFrom snap => ∃ now, i = rebuilt snap now
  | Effect _ _ _ => False
  end.

(** The registry answers with [machines], the store with well-formed instances of
    the type it was asked for. *)
Definition told (c : call) : reply c → Prop := m_env (instance_monitor machines) () c.

Definition chart_monitor (a : action) : monitor known :=
  track_monitor (may_create a) (steps_by machines (permits a)) told.

Lemma told_considered {S} (M : monitor S) s t :
  (∀ s c r, m_env M s c r ↔ told c r) →
  considered M s t ↔ Forall (λ ev, told (ev_call ev) (ev_reply ev)) t.
Proof.
  intros HM. revert s. induction t as [|[c r] t IH]; intros s; cbn; [by split|].
  by rewrite Forall_cons, IH, HM.
Qed.

Context (Hm : machines_ok machines).

Lemma operation_charted op :
  tracked (may_create (Operate op)) (steps_by machines (permits (Operate op))) told
    known_nothing (run_operation op).
Proof using Hm.
  assert (∀ at' aid i cm, told (InstanceGet at' aid) (Ok i) →
    told (CompiledFor at' (wi_WorkflowVersion i)) (Some cm) → paired machines cm i) as Hfound.
  { intros at' aid i cm Hi Hcm. exact (found_paired machines Hm at' i (Some cm) cm Hi Hcm eq_refl). }
  assert (∀ at' aid id cid now cm, told (CompiledFor at' 0) (Some cm) →
    let i := new_instance cm at' aid id cid now in
    may_create (Operate op) i ∧ paired machines cm i) as Hcreated.
  { intros at' aid id cid now cm Hcm. cbn in Hcm. symmetry in Hcm.
    pose proof (mk_sane _ Hm _ _ _ Hcm) as Hs. split.
    - exists cm. split; [done|]. by apply new_instance_starts.
    - split_and!; [done|by apply new_instance_ok|by apply (mk_latest _ Hm)]. }
  destruct op; cbn [run_operation];
    [eapply Transition_tracked|eapply Signal_tracked|eapply CompleteTask_tracked
    |eapply ChildCompleted_tracked|eapply ForceState_tracked]; try done.
  1-4: intros; by apply writes_step.
  intros cm i now (Hs & Hi & Hcm) Ht. eexists cm, _. split; [done|]. split; [|by apply forced_step].
  done.
Qed.

Lemma acts_charted a t rest :
  acts a (t ++ rest) → Forall (λ ev, told (ev_call ev) (ev_reply ev)) t →
  allowed (chart_monitor a) known_nothing t.
Proof using Hm.
  intros Ha Ht. apply (told_considered (chart_monitor a) known_nothing) in Ht; [|done].
  destruct a as [op|snap|at' aid name]; destruct Ha as [r Hr];
    (eapply wp_sound_prefix; [|exact Hr|exact Ht]).
  - by apply operation_charted.
  - by apply Restore_tracked; [intros cm now _; exists now|].
  - by apply SideEffect_tracked.
Qed.

(** The updates among them are of well-formed instances. *)
Lemma acts_stored_ok op t rest :
  acts (Operate op) (t ++ rest) → Forall (λ ev, told (ev_call ev) (ev_reply ev)) t →
  allowed (instance_monitor machines) () t.
Proof using Hm.
  intros [r Hr] Ht. apply (told_considered (instance_monitor machines) ()) in Ht; [|by intros []].
  eapply wp_sound_prefix; [by apply (run_operation_writes machines op)|exact Hr|exact Ht].
Qed.
End actions.

(** ** What the store keeps of an instance *)

Lemma carries_kept i i' :
  carries i i' → same_key i' i ∧ wi_WorkflowVersion i' = wi_WorkflowVersion i ∧
    wi_LastReadUpdatedAt i' = wi_UpdatedAt i.
Proof. intros ->. by destruct i. Qed.

Lemma step_carries cm i c i' : step cm i c i' → carries i i'.
Proof. by destruct 1. Qed.

Lemma instance_ok_chart cm i j : chart_of i = chart_of j → instance_ok cm i → instance_ok cm j.
Proof. intros [= _ _ _ E4 E5 E6 E7] [H1 H2 H3 H4]. by constructor; rewrite <-?E4, <-?E5, <-?E6, <-?E7. Qed.

Lemma stored_ok_chart machines i j :
  chart_of i = chart_of j → stored_ok machines i → stored_ok machines j.
Proof.
  intros E Hi cm Hcm. eapply instance_ok_chart; [exact E|]. apply Hi.
  injection E as -> _ -> _ _ _ _. exact Hcm.
Qed.

Section shared.
Context {gr : GoRange} {cfg : Config}.
Context {St : Type} `{InstanceStoreLaws St plain good ok} `{!InstanceStoreCharts St good}.
Context (machines : string → Z → option CompiledMachine).
Implicit Types (i v o : WorkflowInstance) (T : interleaving).

(** [o] is the version [v] as the store has it. *)
Definition seen_as v o : Prop := v = o ∨ store_Read v = o.

(** The instances the statechart can reach: those that may be created, and those
    that steps lead to from there. *)
Inductive reachable : WorkflowInstance → Prop :=
  | reachable_created a i : may_create machines a i → reachable (store_Read i)
  | reachable_moved o v i :
      reachable o → seen_as v o → steps_by machines (λ _, True) v i → reachable (store_Merge o i).

(** Every instance in the store is the one of its key, well formed and reachable. *)
Definition charted (s : St) : Prop :=
  ∀ at' aid o, plain at' → store_Get s at' aid = Ok o →
    wi_AggregateType o = at' ∧ wi_AggregateID o = aid ∧ stored_ok machines o ∧ reachable o.

(** The clock tells versions apart: no two versions of an instance that the store
    ever holds carry the same time. *)
Definition tells_apart (s : St) T : Prop :=
  ∀ at' aid T1 T1' T2 T2' o1 o2, T = T1 ++ T1' → T = T2 ++ T2' →
    store_Get (store_at s T1) at' aid = Ok o1 → store_Get (store_at s T2) at' aid = Ok o2 →
    wi_UpdatedAt o1 = wi_UpdatedAt o2 → o1 = o2.

(** A call the theorem considers: about an aggregate the store keeps apart, with an
    instance it can hold, and answered by the registry as it is. *)
Definition considered_call (ev : event) : Prop :=
  storable (good := good) ev ∧
  match ev with
  | Ev (InstanceGet at' _) _ => plain at'
  | Ev (InstanceCreate _ i) _ | Ev (InstanceUpdate _ i) _ => plain (wi_AggregateType i)
  | Ev (CompiledFor at' v) found => found = machines at' v
  | _ => True
  end.

(** [T] is an interleaving of [actions] on the store [s], up to some point. *)
Record shared_run (s : St) T (actions : nat → action) : Prop := {
  sh_ok : ok s;
  sh_charted : charted s;
  sh_served : served s T;
  sh_acts : ∀ k, ∃ rest, acts (actions k) (project k T ++ rest);
  sh_calls : Forall (λ e, considered_call e.2) T;
  sh_clock : tells_apart s T;
  sh_restored : ∀ k snap now, actions k = RestoreFrom snap → stored_ok machines (rebuilt snap now)
}.

Lemma store_at_app s T1 T2 : store_at s (T1 ++ T2) = store_at (store_at s T1) T2.
Proof. apply foldl_app. Qed.

Lemma shared_run_prefix s T1 T2 actions : shared_run s (T1 ++ T2) actions → shared_run s T1 actions.
Proof.
  intros [Hok Hc Hs Ha Hcalls Ht Hr]. constructor; try done.
  - by apply served_app in Hs as [? _].
  - intros k. destruct (Ha k) as [rest Hk]. rewrite project_app, <-app_assoc in Hk. eauto.
  - by apply Forall_app in Hcalls as [? _].
  - intros at' aid U1 U1' U2 U2' o1 o2 -> HU. apply (Ht at' aid U1 (U1' ++ T2) U2 (U2' ++ T2)).
    + by rewrite app_assoc.
    + by rewrite HU, app_assoc.
Qed.

Lemma calls_storable T : Forall (λ e : nat * event, considered_call e.2) T →
  Forall (λ e : nat * event, storable (good := good) e.2) T.
Proof. intros HT. eapply Forall_impl; [exact HT|]. by intros e [? _]. Qed.

(** ** Where a known version comes from *)

Lemma known_from begins follows tl t v :
  v ∈ kn_read (after (track_monitor begins follows tl) known_nothing t) →
  ∃ t1 t2 ev, t = t1 ++ ev :: t2 ∧
    ((∃ at' aid, ev = Ev (InstanceGet at' aid) (Ok v)) ∨ ∃ h, ev = Ev (InstanceCreate h v) None).
Proof.
  assert (∀ s, v ∈ kn_read (after (track_monitor begins follows tl) s t) → v ∈ kn_read s ∨
    ∃ t1 t2 ev, t = t1 ++ ev :: t2 ∧
    ((∃ at' aid, ev = Ev (InstanceGet at' aid) (Ok v)) ∨ ∃ h, ev = Ev (InstanceCreate h v) None)) as Hg.
  2: { intros [?%elem_of_nil|?]%Hg; done. }
  induction t as [|[c r] t IH]; intros s Hv; cbn [after] in Hv; [by left|].
  destruct (IH _ Hv) as [Hin|(t1 & t2 & ev & -> & Hev)].
  2: { right. exists (Ev c r :: t1), t2, ev. done. }
  assert (v ∈ kn_read s ∨ (∃ at' aid, Ev c r = Ev (InstanceGet at' aid) (Ok v)) ∨
    ∃ h, Ev c r = Ev (InstanceCreate h v) None) as [?|Hev].
  { cbn [m_step track_monitor] in Hin. destruct c; cbn in Hin; auto.
    - destruct r as [i|e]; [|repeat case_match; auto].
      apply elem_of_cons in Hin as [<-|?]; eauto.
    - destruct r as [e|]; [auto|]. apply elem_of_cons in Hin as [<-|?]; eauto. }
  - by left.
  - right. exists [], t, (Ev c r). done.
Qed.

(** A call of an operation is somewhere in the interleaving. *)
Lemma project_split k T t1 ev t2 :
  project k T = t1 ++ ev :: t2 → ∃ T1 T2, T = T1 ++ (k, ev) :: T2.
Proof.
  revert t1. induction T as [|[j e] T IH]; intros t1; [by destruct t1|]. rewrite project_cons.
  destruct (decide (j = k)) as [->|Hne].
  - destruct t1 as [|e' t1]; intros [= -> Heq]; [by exists [], T|].
    destruct (IH t1 Heq) as (T1 & T2 & ->). by exists ((k, e') :: T1), T2.
  - intros Heq. destruct (IH t1 Heq) as (T1 & T2 & ->). by exists ((j, e) :: T1), T2.
Qed.

(** ** Every version the store holds *)

(** What a call makes of an aggregate that is there. *)
Lemma get_kept s c r at' aid o :
  ok s → considered_call (Ev c r) → store_answers s c r → plain at' →
  store_Get s at' aid = Ok o → ∃ o', store_Get (store_after s c) at' aid = Ok o'.
Proof.
  intros Hok [Hst Hc] Ha Hp Hget. destruct c; cbn in *; try by eexists.
  - destruct (store_Create s instance) as [s' [e|]] eqn:Hcr; cbn in *.
    { apply create_failed in Hcr as ->. by eexists. }
    destruct (decide ((at', aid) = (wi_AggregateType instance, wi_AggregateID instance))) as [[= -> ->]|Hne].
    + eexists. by eapply get_create.
    + exists o. rewrite <-Hget. eapply get_frame; [done|exact Hst|by left|done..].
  - destruct Hst as [Hg _]. destruct (store_Update s instance) as [s' [e|]] eqn:Hup; cbn in *.
    { apply update_failed in Hup as ->. by eexists. }
    destruct (decide ((at', aid) = (wi_AggregateType instance, wi_AggregateID instance))) as [[= -> ->]|Hne].
    + eexists. by eapply get_update.
    + exists o. rewrite <-Hget. eapply get_frame; [done|exact Hg|by right|done..].
Qed.

Lemma get_stays s T at' aid o :
  ok s → Forall (λ e, considered_call e.2) T → served s T → plain at' →
  store_Get s at' aid = Ok o → ∃ o', store_Get (store_at s T) at' aid = Ok o'.
Proof.
  intros Hok HT Hs Hp. revert s o Hok Hs. induction HT as [|[k [c r]] T Hc HT IH]; intros s o Hok Hs Hget.
  { by eexists. }
  destruct Hs as [Ha Hs]. destruct (get_kept s c r at' aid o Hok Hc Ha Hp Hget) as [o' Ho'].
  eapply IH; [|done..]. eapply store_after_ok; [done|apply Hc|done].
Qed.

(** A version an operation knows is, or was, in the store. *)
Lemma known_version s T actions k v :
  shared_run s T actions → (∀ T1 T2, T = T1 ++ T2 → charted (store_at s T1)) →
  v ∈ kn_read (after (chart_monitor machines (actions k)) known_nothing (project k T)) →
  plain (wi_AggregateType v) ∧ ∃ T1 T2 o, T = T1 ++ T2 ∧ seen_as v o ∧
    store_Get (store_at s T1) (wi_AggregateType v) (wi_AggregateID v) = Ok o.
Proof.
  intros Hrun Hch Hv. apply known_from in Hv as (t1 & t2 & ev & Hpr & Hev).
  apply project_split in Hpr as (T1 & T2 & ->).
  pose proof (sh_calls _ _ _ Hrun) as Hcalls. apply Forall_app in Hcalls as [Hc1 Hc2].
  apply Forall_cons in Hc2 as [[Hst Hc] _]. cbn in Hc, Hst.
  pose proof (sh_served _ _ _ Hrun) as Hs. apply served_app in Hs as [Hs1 Hs2].
  destruct Hev as [(at' & aid & ->)|(h & ->)]; cbn in Hs2, Hc; destruct Hs2 as [Ha _].
  - destruct (Hch T1 _ eq_refl at' aid v Hc) as (<- & <- & _); [done|]. split; [done|].
    exists T1, ((k, Ev (InstanceGet (wi_AggregateType v) (wi_AggregateID v)) (Ok v)) :: T2), v.
    split; [done|]. split; [by left|done].
  - split; [done|]. exists (T1 ++ [(k, Ev (InstanceCreate h v) None)]), T2, (store_Read v).
    split; [by rewrite <-app_assoc|]. split; [by right|].
    rewrite store_at_app. cbn. destruct (store_Create (store_at s T1) v) as [s' e] eqn:Hcr. cbn in Ha.
    subst e. eapply get_create; [|exact Hst|exact Hcr].
    apply store_at_ok; [apply Hrun|by apply calls_storable|done].
Qed.

(** An update that the store accepts is a step of the version it replaces. *)
Lemma accepted_step s T actions k h i T2 :
  machines_ok machines → shared_run s (T ++ (k, Ev (InstanceUpdate h i) None) :: T2) actions →
  (∀ T1 T2, T = T1 ++ T2 → charted (store_at s T1)) →
  Forall (λ ev, told machines (ev_call ev) (ev_reply ev)) (project k T) →
  ∃ old v, store_Get (store_at s T) (wi_AggregateType i) (wi_AggregateID i) = Ok old ∧
    seen_as v old ∧ steps_by machines (permits (actions k)) v i ∧
    store_Get (store_at s (T ++ [(k, Ev (InstanceUpdate h i) None)])) (wi_AggregateType i)
      (wi_AggregateID i) = Ok (store_Merge old i).
Proof.
  intros Hm Hrun Hch Htold. pose proof Hrun as [Hok _ Hs Hacts Hcalls Hclock _].
  apply served_app in Hs as [Hs1 [Ha _]]. apply Forall_app in Hcalls as [Hc1 Hc2].
  apply Forall_cons in Hc2 as [[[Hg Hz] Hp] _]. cbn in Hg, Hz, Hp, Ha.
  assert (allowed (chart_monitor machines (actions k)) known_nothing
    (project k T ++ [Ev (InstanceUpdate h i) None])) as [_ [(v & Hv & Hstep) _]]%allowed_app.
  { destruct (Hacts k) as [rest Hk]. rewrite project_app, project_cons, decide_True in Hk by done.
    eapply (acts_charted machines Hm _ _ (project k T2 ++ rest)).
    - by rewrite <-!app_assoc in Hk |- *.
    - apply Forall_app. split; [done|by constructor]. }
  pose proof Hstep as (cm & c & Hcm & _ & Hst%step_carries). apply carries_kept in Hst as ([Et Ei] & Ev & Er).
  rewrite Et, Ei in *.
  destruct (known_version s T actions k v (shared_run_prefix _ _ _ _ Hrun) Hch Hv)
    as (Hpv & T1 & T1' & o & -> & Hseen & Hget).
  assert (ok (store_at s T1)) as Hok1.
  { apply served_app in Hs1 as [? _]. apply Forall_app in Hc1 as [? _].
    by apply store_at_ok; [|apply calls_storable|]. }
  assert (∃ old, store_Get (store_at s (T1 ++ T1')) (wi_AggregateType v) (wi_AggregateID v) = Ok old)
    as [old Hold].
  { rewrite store_at_app. apply served_app in Hs1 as [? ?]. apply Forall_app in Hc1 as [? ?].
    by eapply get_stays. }
  assert (ok (store_at s (T1 ++ T1'))) as Hok2 by (by apply store_at_ok; [|apply calls_storable|]).
  assert (wi_UpdatedAt old = wi_UpdatedAt v) as Htime.
  { rewrite <-Er. eapply accepted_update; [exact Hok2|exact Hg|exact Hz|done|by rewrite Et, Ei]. }
  assert (o = old) as ->.
  { eapply (Hclock _ _ T1 _ (T1 ++ T1') _); [by rewrite <-app_assoc|done|exact Hget|exact Hold|].
    rewrite Htime. destruct Hseen as [->|<-]; [done|]. by apply (read_time i). }
  exists old, v. split_and!; [done..|]. rewrite store_at_app. cbn.
  destruct (store_Update (store_at s (T1 ++ T1')) i) as [s' e] eqn:Hup. cbn in Ha. subst e. cbn.
  rewrite <-Et, <-Ei. eapply get_update; [exact Hok2|exact Hg|exact Hup|by rewrite Et, Ei].
Qed.

(** What the operations are told, as long as the store is charted. *)
Lemma told_so_far s T actions k :
  shared_run s T actions → (∀ T1 e T2, T = T1 ++ e :: T2 → charted (store_at s T1)) →
  Forall (λ ev, told machines (ev_call ev) (ev_reply ev)) (project k T).
Proof.
  intros Hrun Hch. apply Forall_forall. intros [c r] (t1 & t2 & Hpr)%list_elem_of_split.
  apply project_split in Hpr as (T1 & T2 & ->).
  pose proof (sh_calls _ _ _ Hrun) as Hcalls. apply Forall_app in Hcalls as [_ Hc2].
  apply Forall_cons in Hc2 as [[_ Hc] _].
  pose proof (sh_served _ _ _ Hrun) as Hs. apply served_app in Hs as [_ [Ha _]].
  cbn in Ha, Hc. destruct c; cbn; try done.
  - destruct r as [i|e]; [|done]. by destruct (Hch T1 _ _ eq_refl _ _ _ Hc (eq_sym Ha)) as (-> & _ & ? & _).
Qed.

Lemma seen_chart v o : seen_as v o → chart_of o = chart_of v.
Proof. intros [->|<-]; [done|apply read_chart]. Qed.

Lemma merged_chart machines' C old v i :
  seen_as v old → steps_by machines' C v i → chart_of (store_Merge old i) = chart_of i.
Proof.
  intros Hseen%seen_chart (cm & c & _ & _ & Hst%step_carries). injection Hseen as E1 E2 E3 _ _ _ _.
  apply carries_kept in Hst as ([Et Ei] & Ev & _). apply merge_chart; congruence.
Qed.

(** What is put in the store is well formed. *)
Lemma update_stored_ok s T actions k h i T2 v :
  machines_ok machines → shared_run s (T ++ (k, Ev (InstanceUpdate h i) None) :: T2) actions →
  Forall (λ ev, told machines (ev_call ev) (ev_reply ev)) (project k T) →
  steps_by machines (permits (actions k)) v i → stored_ok machines i.
Proof.
  intros Hm Hrun Htold (_ & c & _ & Hp & _). destruct (sh_acts _ _ _ Hrun k) as [rest Hk].
  rewrite project_app, project_cons, decide_True in Hk by done.
  destruct (actions k) as [op| |]; [|done..].
  assert (allowed (instance_monitor machines) () (project k T ++ [Ev (InstanceUpdate h i) None]))
    as [_ [? _]]%allowed_app; [|done].
  eapply (acts_stored_ok machines Hm _ _ (project k T2 ++ rest)).
  - by rewrite <-!app_assoc in Hk |- *.
  - apply Forall_app. split; [done|by constructor].
Qed.

Lemma created_ok s T actions k h i T2 :
  machines_ok machines → shared_run s (T ++ (k, Ev (InstanceCreate h i) None) :: T2) actions →
  Forall (λ ev, told machines (ev_call ev) (ev_reply ev)) (project k T) →
  may_create machines (actions k) i ∧ stored_ok machines i.
Proof.
  intros Hm Hrun Htold. destruct (sh_acts _ _ _ Hrun k) as [rest Hk].
  rewrite project_app, project_cons, decide_True in Hk by done.
  assert (Forall (λ ev, told machines (ev_call ev) (ev_reply ev))
    (project k T ++ [Ev (InstanceCreate h i) None])) as Htold'.
  { apply Forall_app. split; [done|by constructor]. }
  assert (∀ e, (project k T ++ [e]) ++ project k T2 ++ rest = (project k T ++ e :: project k T2) ++ rest) as Happ
    by (intros; by rewrite <-!app_assoc).
  rewrite <-Happ in Hk.
  assert (may_create machines (actions k) i) as Hmay.
  { pose proof (acts_charted machines Hm _ _ _ Hk Htold') as [_ [Hpre _]]%allowed_app. apply Hpre. }
  split; [done|]. destruct (actions k) as [op|snap|] eqn:Hact; [|destruct Hmay as [now ->]|done].
  - by pose proof (acts_stored_ok machines Hm _ _ _ Hk Htold') as [_ [? _]]%allowed_app.
  - by eapply (sh_restored _ _ _ Hrun k).
Qed.

(** One more call leaves the store charted. *)
Lemma charted_step s T actions k c r :
  machines_ok machines → shared_run s (T ++ [(k, Ev c r)]) actions →
  (∀ T1 T2, T = T1 ++ T2 → charted (store_at s T1)) → charted (store_at s (T ++ [(k, Ev c r)])).
Proof.
  intros Hm Hrun Hch. assert (charted (store_at s T)) as Hnow by (apply (Hch T []); by rewrite app_nil_r).
  assert (Forall (λ ev, told machines (ev_call ev) (ev_reply ev)) (project k T)) as Htold.
  { eapply told_so_far; [by eapply shared_run_prefix|]. intros T1 e T2 ->. by eapply Hch. }
  pose proof Hrun as [Hok _ Hs _ Hcalls _ _]. apply served_app in Hs as [Hs1 [Ha _]].
  apply Forall_app in Hcalls as [Hc1 Hc2]. apply Forall_cons in Hc2 as [[Hst Hp] _].
  assert (ok (store_at s T)) as Hok1 by (by apply store_at_ok; [|apply calls_storable|]).
  intros at' aid o Hpl Hget. rewrite store_at_app in Hget. cbn in Hget, Ha, Hp, Hst.
  destruct c; cbn in *; try by apply Hnow.
  - destruct (store_Create (store_at s T) instance) as [s' [e|]] eqn:Hcr; cbn in *; subst r.
    { apply create_failed in Hcr as ->. by apply Hnow. }
    destruct (decide ((at', aid) = (wi_AggregateType instance, wi_AggregateID instance))) as [[= -> ->]|Hne].
    + erewrite get_create in Hget by done. injection Hget as <-.
      destruct (created_ok s T actions k t instance [] Hm Hrun Htold) as [Hmay Hst'].
      pose proof (read_chart instance) as Hrc. split_and!; [by injection Hrc..| |by econstructor].
      by eapply stored_ok_chart.
    + apply Hnow; [done|]. rewrite <-Hget. symmetry. eapply get_frame; [done|exact Hst|by left|done..].
  - destruct Hst as [Hg _]. destruct (store_Update (store_at s T) instance) as [s' [e|]] eqn:Hup; cbn in *; subst r.
    { apply update_failed in Hup as ->. by apply Hnow. }
    destruct (decide ((at', aid) = (wi_AggregateType instance, wi_AggregateID instance))) as [[= -> ->]|Hne].
    + destruct (accepted_step s T actions k t instance [] Hm Hrun Hch Htold)
        as (old & v & Hold & Hseen & Hstep & Hnew).
      rewrite store_at_app in Hnew. cbn in Hnew. rewrite Hup in Hnew. cbn in Hnew. rewrite Hget in Hnew.
      injection Hnew as ->. pose proof (merged_chart _ _ _ _ _ Hseen Hstep) as Hmc.
      pose proof (update_stored_ok s T actions k t instance [] v Hm Hrun Htold Hstep) as Hst'.
      split_and!; [by injection Hmc..|by eapply stored_ok_chart|].
      eapply reachable_moved; [by eapply Hnow|exact Hseen|].
      destruct Hstep as (cm & c & ? & _ & ?). by exists cm, c.
    + apply Hnow; [done|]. rewrite <-Hget. symmetry. eapply get_frame; [done|exact Hg|by right|done..].
Qed.

Lemma charted_always s T actions :
  machines_ok machines → shared_run s T actions → ∀ T1 T2, T = T1 ++ T2 → charted (store_at s T1).
Proof.
  intros Hm. induction T as [|[k [c r]] T IH] using rev_ind; intros Hrun T1 T2.
  { intros [-> ->]%eq_sym%app_eq_nil. apply Hrun. }
  intros Heq. specialize (IH (shared_run_prefix _ _ _ _ Hrun)).
  destruct T2 as [|e T2 _] using rev_ind.
  - rewrite app_nil_r in Heq. subst T1. by apply (charted_step s T actions).
  - rewrite app_assoc in Heq. apply app_inj_2 in Heq as [-> _]; [|done]. by eapply IH.
Qed.


End shared.

(** *** The versions in the in-memory store *)

(** The instance a call has put in the store, if it has. *)
Definition put (ev : event) : option WorkflowInstance :=
  match ev with
  | Ev (InstanceCreate _ i) None | Ev (InstanceUpdate _ i) None => Some i
  | _ => None
  end.

Definition accepted (T : interleaving) : list WorkflowInstance := omap (λ e : nat * event, put e.2) T.

Lemma mem_put (s : Instances.store) c r :
  store_answers s c r →
  store_after s c = match put (Ev c r) with
    | Some i => <[Instances.key_of i := i]> s
    | None => s
    end.
Proof.
  destruct c; try done; cbn.
  - by intros ->.
  - intros Ha. destruct (Instances.Update s instance) as [s' e] eqn:Hup. cbn in *. subst e.
    destruct r as [e|]; [|by apply mem_Update_inv].
    by apply (update_failed (St := Instances.store) s instance s' e).
Qed.

Lemma mem_versions T at' aid o :
  served (∅ : Instances.store) T →
  store_Get (store_at (∅ : Instances.store) T) at' aid = Ok o → o ∈ accepted T.
Proof.
  intros Hs. assert (map_Forall (λ _ o, o ∈ accepted T) (store_at (∅ : Instances.store) T)) as HT.
  { induction T as [|[k [c r]] T IH] using rev_ind; [apply map_Forall_empty|].
    apply served_app in Hs as [Hs [Ha _]]. specialize (IH Hs).
    assert (accepted (T ++ [(k, Ev c r)]) = accepted T ++ option_list (put (Ev c r))) as ->.
    { unfold accepted. by rewrite omap_app. }
    rewrite store_at_app. cbn [store_at foldl ev_call]. rewrite (mem_put _ c r Ha).
    assert (∀ l, map_Forall (λ _ o, o ∈ accepted T ++ l) (store_at (∅ : Instances.store) T)) as IH'.
    { intros l k' o' Ho'. apply elem_of_app. left. by eapply IH. }
    destruct (put (Ev c r)) as [i|]; [|apply IH'].
    apply map_Forall_insert_2; [apply elem_of_app; right; by left|apply IH']. }
  cbn. unfold Instances.Get. destruct (_ !! _) as [o'|] eqn:Ho; [|done]. intros [= <-]. by eapply HT.
Qed.

(** From the empty store on, a clock whose readings differ tells versions apart. *)
Lemma mem_tells_apart T :
  served (∅ : Instances.store) T → NoDup (wi_UpdatedAt <$> accepted T) →
  tells_apart (∅ : Instances.store) T.
Proof.
  intros Hs Hnd at' aid T1 T1' T2 T2' o1 o2 -> Heq H1 H2 Ht.
  pose proof Hs as Hs'. rewrite Heq in Hs'. apply served_app in Hs as [Hs _], Hs' as [Hs' _].
  apply mem_versions in H1, H2; [|done..].
  assert (o1 ∈ accepted (T1 ++ T1')) as I1 by (unfold accepted; rewrite omap_app; set_solver).
  assert (o2 ∈ accepted (T1 ++ T1')) as I2 by (rewrite Heq; unfold accepted; rewrite omap_app; set_solver).
  apply list_elem_of_lookup in I1 as [n1 I1], I2 as [n2 I2].
  assert (n1 = n2) as ->; [|congruence].
  eapply (NoDup_lookup _ _ _ (wi_UpdatedAt o1)); [exact Hnd|..]; rewrite list_lookup_fmap;
    [by rewrite I1|by rewrite I2, Ht].
Qed.

Lemma mem_charted_empty {gr : GoRange} {cfg : Config} machines :
  charted (plain := no_colon) machines (∅ : Instances.store).
Proof. intros at' aid o _. cbn. unfold Instances.Get. by rewrite lookup_empty. Qed.
