(* ===== verification/Shutdown.v ===== *)
(** * Shutdown: stopping the engine while operations run

    Models [Shutdown] of [internal/runtime/runtime.go] next to the operations of
    [Transactions.v], as a transition system: the shared flag [e.shutdown], the
    count of [e.wg], the threads of the operations started so far, and the point
    [Shutdown] has reached.  A step is one call of one thread, answered by the
    flag and the count where it reads them and by any reply otherwise, or one
    step of [Shutdown]. *)

From S2P Require Import Prelude Errors Types Hash Validate Compile Helpers Effects SideEffects.
From S2P Require Import Executor Dispatcher Parallel Scheduler Snapshot Firing Transactions.
From S2P Require Import Invariant Lifecycle.

(** Where [Shutdown] is: the flag is stored and the wait begun, the wait has
    ended ([close(done)]), or it has returned. *)
Inductive phase := NotCalled | Waiting | Drained | Returned (result : option error).

Abbreviation thread := (prog (result TransitionResult)).

Record system := mkSystem {
  sys_down : bool;
  sys_flight : nat;
  sys_phase : phase;
  sys_threads : list thread
}.

Definition initial : system := mkSystem false 0 NotCalled [].

Definition next_call (p : thread) : option call :=
  match p with Ret _ => None | Vis c _ => Some c end.

(** What the engine itself answers. *)
Definition answers (s : system) (c : call) : reply c → Prop :=
  match c return reply c → Prop with
  | ShutdownLoad => λ r, r = sys_down s
  | _ => λ _, True
  end.

Definition counted (n : nat) (c : call) : nat :=
  match c with WgAdd => S n | WgDone => pred n | _ => n end.

Section shutdown.
Context {gr : GoRange} {cfg : Config}.
(** [ctx.Err()] of the context [Shutdown] was called with. *)
Context (ctx_err : error).
Implicit Types (s : system) (p : thread).

Inductive step : system → system → Prop :=
  | step_start s op :
      step s (mkSystem (sys_down s) (sys_flight s) (sys_phase s) (sys_threads s ++ [run_operation op]))
  | step_call s i c (k : reply c → thread) r :
      sys_threads s !! i = Some (Vis c k) → answers s c r →
      step s (mkSystem (sys_down s) (counted (sys_flight s) c) (sys_phase s)
                (<[i := k r]> (sys_threads s)))
  | step_shutdown s :
      sys_phase s = NotCalled →
      step s (mkSystem true (sys_flight s) Waiting (sys_threads s))
  | step_drained s :
      sys_phase s = Waiting → sys_flight s = 0 →
      step s (mkSystem (sys_down s) (sys_flight s) Drained (sys_threads s))
  | step_done s :
      sys_phase s = Drained →
      step s (mkSystem (sys_down s) (sys_flight s) (Returned None) (sys_threads s))
  | step_cancelled s :
      sys_phase s = Waiting ∨ sys_phase s = Drained →
      step s (mkSystem (sys_down s) (sys_flight s) (Returned (Some ctx_err)) (sys_threads s)).

(** ** The count is the number of operations in flight *)

(** The thread [p] is at [f] of its operation. *)
Definition owes (f : flight) (p : thread) : Prop :=
  wp flight_monitor p f (λ _ f', f' = on_ground 0).

Definition in_flight (fs : list flight) : nat := sum_list_with fl_count fs.

Lemma in_flight_insert fs i f f' :
  fs !! i = Some f → in_flight (<[i := f']> fs) + fl_count f = in_flight fs + fl_count f'.
Proof.
  unfold in_flight. revert i. induction fs as [|g fs IH]; intros [|i]; [done..| |].
  - intros [= ->]. cbn. lia.
  - intros H. specialize (IH i H). change (<[S i:=f']> (g :: fs)) with (g :: <[i:=f']> fs).
    cbn. lia.
Qed.

Lemma in_flight_elem fs f : f ∈ fs → fl_count f ≤ in_flight fs.
Proof.
  unfold in_flight. induction fs as [|g fs IH]; [by intros ?%elem_of_nil|].
  intros [->|H]%elem_of_cons; cbn; [lia|]. specialize (IH H). lia.
Qed.

Lemma counted_step n f c r :
  flight_pre f c → fl_count f ≤ n →
  counted n c + fl_count f = n + fl_count (flight_step f c r).
Proof. destruct c; cbn; lia. Qed.

Record system_ok s (fs : list flight) : Prop := {
  so_threads : Forall2 owes fs (sys_threads s);
  so_flight : sys_flight s = in_flight fs;
  so_down : sys_phase s ≠ NotCalled → sys_down s = true
}.

Lemma initial_ok : system_ok initial [].
Proof. by constructor. Qed.

(** One call of a thread, seen from the thread. *)
Lemma owes_call s fs i c (k : reply c → thread) :
  system_ok s fs → sys_threads s !! i = Some (Vis c k) →
  ∃ f, fs !! i = Some f ∧ flight_pre f c ∧ ∀ r, owes (flight_step f c r) (k r).
Proof.
  intros [Ht _ _] Hi. destruct (Forall2_lookup_r _ _ _ _ _ Ht Hi) as (f & Hf & Ho).
  exists f. split; [done|]. destruct Ho as [Hpre Hk]. split; [done|]. intros r. by apply Hk.
Qed.

Lemma call_ok s fs i c (k : reply c → thread) r f :
  system_ok s fs → sys_threads s !! i = Some (Vis c k) → fs !! i = Some f →
  flight_pre f c → owes (flight_step f c r) (k r) →
  system_ok (mkSystem (sys_down s) (counted (sys_flight s) c) (sys_phase s)
    (<[i := k r]> (sys_threads s))) (<[i := flight_step f c r]> fs).
Proof.
  intros [Ht Hn Hd] Hi Hf Hpre Ho. constructor; [by apply Forall2_insert| |done]. cbn.
  pose proof (in_flight_insert fs i f (flight_step f c r) Hf) as Hs.
  assert (f ∈ fs) as Hin%in_flight_elem by by eapply list_elem_of_lookup_2.
  pose proof (counted_step (in_flight fs) f c r Hpre Hin). rewrite Hn. lia.
Qed.

Lemma start_ok s fs op :
  system_ok s fs →
  system_ok (mkSystem (sys_down s) (sys_flight s) (sys_phase s) (sys_threads s ++ [run_operation op]))
    (fs ++ [on_ground 0]).
Proof.
  intros [Ht Hn Hd]. constructor; cbn; [|by rewrite Hn; unfold in_flight; rewrite sum_list_with_app; cbn; lia|done].
  apply Forall2_app; [done|]. constructor; [|done]. apply run_operation_keeps_count.
Qed.

Lemma step_ok s s' fs : system_ok s fs → step s s' → ∃ fs', system_ok s' fs'.
Proof.
  intros Hs. destruct 1 as [s op|s i c k r Hi Hr|s Hp|s Hp H0|s Hp|s Hp].
  - eexists. by apply start_ok.
  - destruct (owes_call s fs i c k Hs Hi) as (f & Hf & Hpre & Hk). eexists. by eapply call_ok.
  - exists fs. destruct Hs. by constructor.
  - exists fs. destruct Hs as [? ? Hd]. constructor; [done..|]. intros _. apply Hd. congruence.
  - exists fs. destruct Hs as [? ? Hd]. constructor; [done..|]. intros _. apply Hd. congruence.
  - exists fs. destruct Hs as [? ? Hd]. constructor; [done..|]. intros _. apply Hd.
    destruct Hp; congruence.
Qed.

Lemma reachable_ok s : rtc step initial s → ∃ fs, system_ok s fs.
Proof.
  intros Hr. assert (∃ fs, system_ok initial fs) as H by (exists []; apply initial_ok).
  revert H. induction Hr as [s|s s1 s2 Hs _ IH]; [done|]. intros [fs H]. apply IH.
  by eapply step_ok.
Qed.

(** ** What the end of the wait means *)

(** No operation, or one that has not begun or has ended. *)
Definition at_rest p : Prop := next_call p = None ∨ next_call p = Some ShutdownLoad.

(** Between the shutdown check and [e.wg.Add(1)]. *)
Definition poised p : Prop := next_call p = Some WgAdd.

Lemma owes_zero f p : owes f p → fl_count f = 0 → at_rest p ∨ poised p ∧ fl_passed f = true.
Proof.
  destruct p as [a|c k]; [by left; left|]. intros [Hpre _] Hz.
  destruct c; cbn in Hpre; try lia; [by left; right|by right].
Qed.

Lemma all_zero fs f : in_flight fs = 0 → f ∈ fs → fl_count f = 0.
Proof. intros H Hf%in_flight_elem. lia. Qed.

(** The flag is up, nothing is in flight, and nothing is about to be. *)
Definition stopped s : Prop :=
  sys_down s = true ∧ sys_flight s = 0 ∧ (∃ fs, system_ok s fs) ∧ Forall at_rest (sys_threads s).

Lemma stopped_step s s' : stopped s → step s s' → stopped s'.
Proof.
  intros (Hd & Hz & [fs Hok] & Hr) Hst. pose proof (step_ok s s' fs Hok Hst) as Hok'.
  destruct Hst as [s op|s i c k r Hi Ha|s Hp|s Hp H0|s Hp|s Hp]; try done.
  - split_and!; [done..|]. apply Forall_app. split; [done|]. constructor; [|done].
    destruct (owes_zero (on_ground 0) (run_operation op)) as [?|[_ [=]]];
      [apply run_operation_keeps_count|done|done].
  - assert (at_rest (Vis c k)) as [[=]|[= ->]] by (rewrite Forall_lookup in Hr; by eapply Hr).
    cbn in Ha. subst r. split_and!; [done..|]. apply Forall_insert; [done|].
    destruct (owes_call s fs i ShutdownLoad k Hok Hi) as (f & Hf & _ & Hk).
    specialize (Hk (sys_down s)). rewrite Hd in Hk |- *.
    assert (fl_count f = 0) as Hf0.
    { apply (all_zero fs); [by rewrite <-(so_flight _ _ Hok)|by eapply list_elem_of_lookup_2]. }
    by destruct (owes_zero _ _ Hk) as [?|[_ [=]]].
Qed.

(** C23: When the wait of [Shutdown] ends, every operation ever started has ended,
    has not begun, or is poised between its shutdown check and [e.wg.Add(1)].
    If none is poised, the engine has stopped: whatever happens afterwards,
    operations make no call but the shutdown check. *)
Theorem Shutdown_waits s :
  rtc step initial s → sys_phase s = Waiting → sys_flight s = 0 →
  (∀ p, p ∈ sys_threads s → at_rest p ∨ poised p) ∧
  ((∀ p, p ∈ sys_threads s → ¬ poised p) →
   ∀ s' p, rtc step s s' → p ∈ sys_threads s' → at_rest p).
Proof.
  intros Hreach Hphase Hz. destruct (reachable_ok s Hreach) as [fs Hok].
  assert (∀ p, p ∈ sys_threads s → at_rest p ∨ poised p) as Hrest.
  { intros p [i Hi]%list_elem_of_lookup.
    destruct (Forall2_lookup_r _ _ _ _ _ (so_threads _ _ Hok) Hi) as (f & Hf & Ho).
    destruct (owes_zero f p Ho) as [?|[? _]]; [|by left|by right].
    apply (all_zero fs); [by rewrite <-(so_flight _ _ Hok)|by eapply list_elem_of_lookup_2]. }
  split; [done|]. intros Hno s' p Hsteps Hp.
  assert (stopped s) as Hstop.
  { split_and!; [by apply (so_down _ _ Hok); rewrite Hphase|done|by exists fs|].
    apply Forall_forall. intros q Hq. destruct (Hrest q Hq) as [?|Hpo]; [done|]. by destruct (Hno q). }
  assert (stopped s') as (_ & _ & _ & Hall).
  { clear -Hsteps Hstop. induction Hsteps; [done|]. by eauto using stopped_step. }
  rewrite Forall_forall in Hall. by apply Hall.
Qed.

(** ** The race between the check and the count *)

Lemma runs_cons {A} (p : prog A) e t r :
  runs p (e :: t) r → ∃ k, p = Vis (ev_call e) k ∧ runs (k (ev_reply e)) t r.
Proof.
  destruct p as [a|c k]; [by intros [[=] _]|]. intros (x & t' & [= -> ->] & Hr). by exists k.
Qed.

(** The rest of an operation can run whatever the phase, as long as it sees the
    flag up. *)
Lemma run_thread n ph p t r :
  runs p t r → Ev ShutdownLoad false ∉ t →
  ∃ n', rtc step (mkSystem true n ph [p]) (mkSystem true n' ph [Ret r]).
Proof.
  revert n p. induction t as [|[c x] t IH]; intros n p Hr Hno.
  - destruct p; [|by destruct Hr as (? & ? & [=] & _)]. destruct Hr as [_ <-]. by exists n.
  - apply runs_cons in Hr as (k & -> & Hr). cbn in *. apply not_elem_of_cons in Hno as [Hx Hno].
    destruct (IH (counted n c) (k x) Hr Hno) as [n' Hn'].
    exists n'. eapply rtc_l; [|exact Hn'].
    apply (step_call (mkSystem true n ph [Vis c k]) 0 c k x); [done|].
    destruct c; try done. cbn. by destruct x.
Qed.

(** [Shutdown] may return nil before an operation that passed the shutdown
    check has counted itself in: the operation then runs to its end, with all
    its calls, on the engine that reported to be stopped. *)
Theorem Shutdown_race op t r :
  runs (run_operation op) (Ev ShutdownLoad false :: t) r → Ev ShutdownLoad false ∉ t →
  ∃ p n, runs p t r ∧
    rtc step initial (mkSystem true 0 (Returned None) [p]) ∧
    rtc step (mkSystem true 0 (Returned None) [p]) (mkSystem true n (Returned None) [Ret r]).
Proof.
  intros Hr Hno. apply runs_cons in Hr as (k & Hop & Hr). cbn in *.
  destruct (run_thread 0 (Returned None) (k false) t r Hr Hno) as [n Hn].
  exists (k false), n. split; [done|]. split; [|done].
  eapply rtc_l; [apply (step_start _ op)|]. cbn. rewrite Hop.
  eapply rtc_l; [by apply (step_call _ 0 ShutdownLoad k false)|]. cbn.
  eapply rtc_l; [by apply step_shutdown|]. eapply rtc_l; [by apply step_drained|].
  eapply rtc_l; [by apply step_done|]. done.
Qed.

End shutdown.
