(* ===== verification/Engine.v ===== *)
(** * Engine: building an engine from options

    Models [options.go] and [NewEngine] of [engine.go], with [New] of
    [internal/runtime/runtime.go].  The adapters are user code: their types are
    parameters, and what matters of a value is whether it is nil ([None]) and
    which optional interfaces it implements. *)

From S2P Require Import Prelude Errors Types Hash Validate Compile Spawn Registry Effects Observer.

(** ** The interfaces of the adapters *)

Class Adapters := {
  EventStore : Type;
  InstanceStore : Type;
  TaskStore : Type;
  ChildStore : Type;
  ActivityStore : Type;
  TxProvider : Type;
  EventBus : Type;
  ActivityRunner : Type;
  Clock : Type;
  RealClock : Clock;
  implements_TaskInvalidator : TaskStore → bool;
  implements_SavepointProvider : TxProvider → bool;
  implements_ActivityResolver : ActivityRunner → bool
}.

(** [graph.Sentinels] *)
Record Sentinels := mkSentinels {
  se_ErrNoInitialState : sentinel;
  se_ErrMultipleInitialStates : sentinel;
  se_ErrNoTerminalStates : sentinel;
  se_ErrUnreachableState : sentinel;
  se_ErrDeadEndState : sentinel;
  se_ErrUnknownState : sentinel;
  se_ErrMissingDefault : sentinel;
  se_ErrDuplicateTransition : sentinel;
  se_ErrSpawnCycle : sentinel;
  se_ErrCompoundStateNoInitialChild : sentinel;
  se_ErrOrphanedChild : sentinel;
  se_ErrCircularHierarchy : sentinel;
  se_ErrParallelStateNoRegions : sentinel;
  se_ErrParallelRegionNotCompound : sentinel;
  se_ErrNestedParallelState : sentinel
}.

(** The sentinel errors of [Deps]. *)
Record DepsErrors := mkDepsErrors {
  de_ErrInstanceNotFound : sentinel;
  de_ErrInvalidTransition : sentinel;
  de_ErrAlreadyTerminal : sentinel;
  de_ErrGuardFailed : sentinel;
  de_ErrNoMatchingSignal : sentinel;
  de_ErrSignalAmbiguous : sentinel;
  de_ErrNoMatchingRoute : sentinel;
  de_ErrTaskNotFound : sentinel;
  de_ErrInvalidChoice : sentinel;
  de_ErrEngineShutdown : sentinel;
  de_ErrSnapshotDefinitionMismatch : sentinel;
  de_ErrSnapshotInstanceExists : sentinel;
  de_Sentinels : Sentinels
}.

Section engine.
Context {A : Adapters}.

(** ** Options *)

Record engineConfig := mkEngineConfig {
  cfg_eventStore : option EventStore;
  cfg_instanceStore : option InstanceStore;
  cfg_taskStore : option TaskStore;
  cfg_childStore : option ChildStore;
  cfg_activityStore : option ActivityStore;
  cfg_txProvider : option TxProvider;
  cfg_eventBus : option EventBus;
  cfg_activityRunner : option ActivityRunner;
  cfg_clock : option Clock;
  cfg_observers : list Observer
}.

#[export] Instance engineConfig_eta : Eta engineConfig := λ c,
  mkEngineConfig (cfg_eventStore c) (cfg_instanceStore c) (cfg_taskStore c) (cfg_childStore c)
    (cfg_activityStore c) (cfg_txProvider c) (cfg_eventBus c) (cfg_activityRunner c)
    (cfg_clock c) (cfg_observers c).

(** [&engineConfig{}] *)
Definition engineConfig_zero : engineConfig :=
  mkEngineConfig None None None None None None None None None [].

(** The closures the [With] functions return, as data. *)
Inductive Option :=
  | WithEventStore (s : option EventStore)
  | WithInstanceStore (s : option InstanceStore)
  | WithTaskStore (s : option TaskStore)
  | WithChildStore (s : option ChildStore)
  | WithActivityStore (s : option ActivityStore)
  | WithTxProvider (p : option TxProvider)
  | WithEventBus (b : option EventBus)
  | WithActivityRunner (r : option ActivityRunner)
  | WithClock (c : option Clock)
  | WithObservers (o : list Observer).

(** [opt(cfg)] *)
Definition apply_option (c : engineConfig) (opt : Option) : engineConfig :=
  match opt with
  | WithEventStore s => c <| cfg_eventStore := s |>
  | WithInstanceStore s => c <| cfg_instanceStore := s |>
  | WithTaskStore s => c <| cfg_taskStore := s |>
  | WithChildStore s => c <| cfg_childStore := s |>
  | WithActivityStore s => c <| cfg_activityStore := s |>
  | WithTxProvider p => c <| cfg_txProvider := p |>
  | WithEventBus b => c <| cfg_eventBus := b |>
  | WithActivityRunner r => c <| cfg_activityRunner := r |>
  | WithClock k => c <| cfg_clock := k |>
  | WithObservers o => c <| cfg_observers := cfg_observers c ++ o |>
  end.

(** ** The engine *)

Record Deps := mkDeps {
  dp_EventStore : option EventStore;
  dp_InstanceStore : option InstanceStore;
  dp_TaskStore : option TaskStore;
  dp_ChildStore : option ChildStore;
  dp_ActivityStore : option ActivityStore;
  dp_TxProvider : option TxProvider;
  dp_EventBus : option EventBus;
  dp_ActivityRunner : option ActivityRunner;
  dp_Clock : option Clock;
  dp_Observers : option ObserverRegistry;
  dp_errors : DepsErrors
}.

Record Engine := mkEngine {
  en_deps : Deps;
  en_registry : registry;
  en_hasSavepoints : bool;
  en_shutdown : bool;
  en_wg : nat
}.

(** A type assertion: false on nil. *)
Definition asserts {T} (implements : T → bool) (x : option T) : bool :=
  match x with Some x => implements x | None => false end.

(** [internalruntime.New] *)
Definition newRuntime (deps : Deps) : Engine :=
  mkEngine deps Registry.New (asserts implements_SavepointProvider (dp_TxProvider deps)) false 0.

(** The sentinels [NewEngine] hands on. *)
Definition root_sentinels : DepsErrors :=
  mkDepsErrors ErrInstanceNotFound ErrInvalidTransition ErrAlreadyTerminal ErrGuardFailed
    ErrNoMatchingSignal ErrSignalAmbiguous ErrNoMatchingRoute ErrTaskNotFound ErrInvalidChoice
    ErrEngineShutdown ErrSnapshotDefinitionMismatch ErrSnapshotInstanceExists
    (mkSentinels ErrNoInitialState ErrMultipleInitialStates ErrNoTerminalStates
      ErrUnreachableState ErrDeadEndState ErrUnknownState ErrMissingDefault
      ErrDuplicateTransition ErrSpawnCycle ErrCompoundStateNoInitialChild ErrOrphanedChild
      ErrCircularHierarchy ErrParallelStateNoRegions ErrParallelRegionNotCompound
      ErrNestedParallelState).

Definition required (what : string) : error := Errorf ("flowstep: " +:+ what +:+ " is required") [] None.

Definition NewEngine (opts : list Option) : result Engine :=
  let cfg := foldl apply_option engineConfig_zero opts in
  let cfg := match cfg_clock cfg with None => cfg <| cfg_clock := Some RealClock |> | Some _ => cfg end in
  match cfg_eventStore cfg, cfg_instanceStore cfg, cfg_txProvider cfg with
  | None, _, _ => Err (required "EventStore")
  | _, None, _ => Err (required "InstanceStore")
  | _, _, None => Err (required "TxProvider")
  | _, _, _ =>
      Ok (newRuntime
            (mkDeps (cfg_eventStore cfg) (cfg_instanceStore cfg) (cfg_taskStore cfg)
               (cfg_childStore cfg) (cfg_activityStore cfg) (cfg_txProvider cfg)
               (cfg_eventBus cfg) (cfg_activityRunner cfg) (cfg_clock cfg)
               (Some (NewObserverRegistry (cfg_observers cfg))) root_sentinels))
  end.

(** The nil tests and type assertions of the operations on this engine. *)
Definition config_of (e : Engine) : Config := {|
  has_EventBus := asserts (λ _, true) (dp_EventBus (en_deps e));
  has_ActivityRunner := asserts (λ _, true) (dp_ActivityRunner (en_deps e));
  is_ActivityResolver := asserts implements_ActivityResolver (dp_ActivityRunner (en_deps e));
  has_ActivityStore := asserts (λ _, true) (dp_ActivityStore (en_deps e));
  has_TaskStore := asserts (λ _, true) (dp_TaskStore (en_deps e));
  is_TaskInvalidator := asserts implements_TaskInvalidator (dp_TaskStore (en_deps e));
  has_ChildStore := asserts (λ _, true) (dp_ChildStore (en_deps e));
  hasSavepoints := en_hasSavepoints e
|}.

(** ** What the options configure *)

(** The value of the last option of a kind, nil when there is none. *)
Definition last_set {T} (f : Option → option (option T)) (opts : list Option) : option T :=
  default None (last (omap f opts)).

Definition event_store_of o := match o with WithEventStore s => Some s | _ => None end.
Definition instance_store_of o := match o with WithInstanceStore s => Some s | _ => None end.
Definition task_store_of o := match o with WithTaskStore s => Some s | _ => None end.
Definition child_store_of o := match o with WithChildStore s => Some s | _ => None end.
Definition activity_store_of o := match o with WithActivityStore s => Some s | _ => None end.
Definition tx_provider_of o := match o with WithTxProvider p => Some p | _ => None end.
Definition event_bus_of o := match o with WithEventBus b => Some b | _ => None end.
Definition activity_runner_of o := match o with WithActivityRunner r => Some r | _ => None end.
Definition clock_of o := match o with WithClock c => Some c | _ => None end.
Definition observers_of o := match o with WithObservers l => l | _ => [] end.

Lemma last_set_snoc {T} (f : Option → option (option T)) opts o :
  last_set f (opts ++ [o]) = match f o with Some x => x | None => last_set f opts end.
Proof.
  unfold last_set. rewrite omap_app. cbn. destruct (f o) as [x|]; [by rewrite last_snoc|].
  by rewrite app_nil_r.
Qed.

(** The configuration that [opts] describe. *)
Record configured (opts : list Option) (c : engineConfig) : Prop := {
  cf_eventStore : cfg_eventStore c = last_set event_store_of opts;
  cf_instanceStore : cfg_instanceStore c = last_set instance_store_of opts;
  cf_taskStore : cfg_taskStore c = last_set task_store_of opts;
  cf_childStore : cfg_childStore c = last_set child_store_of opts;
  cf_activityStore : cfg_activityStore c = last_set activity_store_of opts;
  cf_txProvider : cfg_txProvider c = last_set tx_provider_of opts;
  cf_eventBus : cfg_eventBus c = last_set event_bus_of opts;
  cf_activityRunner : cfg_activityRunner c = last_set activity_runner_of opts;
  cf_clock : cfg_clock c = last_set clock_of opts;
  cf_observers : cfg_observers c = opts ≫= observers_of
}.

Lemma apply_options_configured opts : configured opts (foldl apply_option engineConfig_zero opts).
Proof.
  induction opts as [|o opts [H1 H2 H3 H4 H5 H6 H7 H8 H9 H10]] using rev_ind; [by constructor|].
  rewrite foldl_app. constructor; rewrite ?last_set_snoc, ?bind_app; cbn;
    destruct o; cbn; rewrite ?app_nil_r; congruence.
Qed.

(** What an engine built from [opts] runs with. *)
Record built (opts : list Option) (e : Engine) : Prop := {
  bu_clock : dp_Clock (en_deps e) = Some (default RealClock (last_set clock_of opts));
  bu_config : config_of e = {|
    has_EventBus := asserts (λ _, true) (last_set event_bus_of opts);
    has_ActivityRunner := asserts (λ _, true) (last_set activity_runner_of opts);
    is_ActivityResolver := asserts implements_ActivityResolver (last_set activity_runner_of opts);
    has_ActivityStore := asserts (λ _, true) (last_set activity_store_of opts);
    has_TaskStore := asserts (λ _, true) (last_set task_store_of opts);
    is_TaskInvalidator := asserts implements_TaskInvalidator (last_set task_store_of opts);
    has_ChildStore := asserts (λ _, true) (last_set child_store_of opts);
    hasSavepoints := asserts implements_SavepointProvider (last_set tx_provider_of opts) |};
  bu_stores : dp_EventStore (en_deps e) = last_set event_store_of opts ∧
    dp_InstanceStore (en_deps e) = last_set instance_store_of opts ∧
    dp_TxProvider (en_deps e) = last_set tx_provider_of opts ∧
    is_Some (dp_EventStore (en_deps e)) ∧ is_Some (dp_InstanceStore (en_deps e)) ∧
    is_Some (dp_TxProvider (en_deps e));
  bu_errors : dp_errors (en_deps e) = root_sentinels;
  bu_fresh : en_registry e = Registry.New ∧ en_shutdown e = false ∧ en_wg e = 0;
  bu_notify : ∀ n, notify (dp_Observers (en_deps e)) n =
    (λ o, (o, n)) <$> filter (λ o, listens o n = true) (opts ≫= observers_of)
}.

End engine.
