(* ===== verification/Mermaid.v ===== *)
(** * Mermaid: a workflow as a state diagram

    Models [types/mermaid.go].  What the code writes into a [strings.Builder] is
    a list of rows, each a text at an indentation; [render] is the string they
    make.  The three recursions of the code follow Children and Parent links and
    need not end on a cyclic hierarchy: they carry fuel, and [None] is a run out
    of fuel. *)

From Stdlib Require Import Ascii.
From S2P Require Import Prelude Errors Types Validate Compile Builder.

(** ** Rows of the diagram *)

Record row := mkRow { r_depth : nat; r_text : string }.

Definition newline : string := String (ascii_of_N 10) "".

(** [strings.Repeat(s, n)] *)
Fixpoint Repeat (s : string) (n : nat) : string :=
  match n with 0 => "" | S n => s +:+ Repeat s n end.

Definition write_row (r : row) : string := Repeat "    " (r_depth r) +:+ r_text r +:+ newline.

Definition render (rows : list row) : string := foldl (λ b r, b +:+ write_row r) "" rows.

(** ** Loops over recursive calls *)

Fixpoint any_opt {A} (f : A → option bool) (l : list A) : option bool :=
  match l with
  | [] => Some false
  | x :: l => match f x with
              | None => None
              | Some true => Some true
              | Some false => any_opt f l
              end
  end.

Fixpoint all_opt {A} (f : A → option bool) (l : list A) : option bool :=
  match l with
  | [] => Some true
  | x :: l => match f x with
              | None => None
              | Some false => Some false
              | Some true => all_opt f l
              end
  end.

(** The rows of several calls, one after the other. *)
Fixpoint concat_opt {A B} (f : A → option (list B)) (l : list A) : option (list B) :=
  match l with
  | [] => Some []
  | x :: l => match f x, concat_opt f l with
              | Some r, Some rs => Some (r ++ rs)
              | _, _ => None
              end
  end.

Section mermaid.
Context {gr : GoRange}.
Implicit Types (d : WorkflowDef) (tr : TransitionDef).

(** ** Labels and arrows *)

Definition mermaidTransitionLabel tr : string :=
  if decide (tr_HistoryMode tr = HistoryShallow) then tr_Name tr +:+ " [H]"
  else if decide (tr_HistoryMode tr = HistoryDeep) then tr_Name tr +:+ " [H*]"
  else tr_Name tr.

Definition arrow (src target label : string) : string :=
  src +:+ " --> " +:+ target +:+ " : " +:+ label.

(** The loop over the sources of a transition. *)
Definition transition_rows (depth : nat) tr : list row :=
  let srcs := sort_strings (tr_Sources tr) in
  let label := mermaidTransitionLabel tr in
  srcs ≫= λ src,
    if decide (tr_Target tr ≠ "") then [mkRow depth (arrow src (tr_Target tr) label)]
    else
      tr_Routes tr ≫= λ route,
        if decide (rt_Target route = "") then []
        else [mkRow depth (arrow src (rt_Target route) label)].

(** ** The scope of a transition *)

Definition participants tr : list string :=
  tr_Sources tr ++
  (if decide (tr_Target tr ≠ "") then [tr_Target tr]
   else tr_Routes tr ≫= λ route, if decide (rt_Target route ≠ "") then [rt_Target route] else []).

Fixpoint mermaidIsInSubtree (fuel : nat) (stateName root : string) d : option bool :=
  match fuel with
  | 0 => None
  | S fuel =>
      if decide (stateName = root) then Some true
      else
        match def_States d !! root with
        | None => Some false
        | Some rootSt =>
            if sd_IsCompound rootSt then
              any_opt (λ child, mermaidIsInSubtree fuel stateName child d) (sd_Children rootSt)
            else Some false
        end
  end.

Definition mermaidAllInSubtree (fuel : nat) (states : list string) (root : string) d : option bool :=
  all_opt (λ s, mermaidIsInSubtree fuel s root d) states.

Fixpoint stateDepth_loop (fuel : nat) (st : option StateDef) d (depth : Z) : option Z :=
  match fuel with
  | 0 => None
  | S fuel =>
      match st with
      | None => Some depth
      | Some st =>
          if decide (sd_Parent st = "") then Some depth
          else stateDepth_loop fuel (def_States d !! sd_Parent st) d (depth + 1)
      end
  end.

Definition mermaidStateDepth (fuel : nat) (name : string) d : option Z :=
  stateDepth_loop fuel (def_States d !! name) d 0.

Fixpoint scope_loop (fuel : nat) (states : list string) d (l : list (string * StateDef))
    (bestScope : string) (bestDepth : Z) : option string :=
  match l with
  | [] => Some bestScope
  | (compName, compSt) :: l =>
      if negb (sd_IsCompound compSt) then scope_loop fuel states d l bestScope bestDepth
      else
        match mermaidAllInSubtree fuel states compName d with
        | None => None
        | Some false => scope_loop fuel states d l bestScope bestDepth
        | Some true =>
            match mermaidStateDepth fuel compName d with
            | None => None
            | Some depth =>
                if decide (bestDepth < depth)%Z then scope_loop fuel states d l compName depth
                else scope_loop fuel states d l bestScope bestDepth
            end
        end
  end.

Definition mermaidTransitionScope (fuel : nat) tr d : option string :=
  match participants tr with
  | [] => Some ""
  | states => scope_loop fuel states d (range 121 (def_States d)) "" (-1)
  end.

(** The first loop of [Mermaid]: the transitions of each compound state, and
    those of the top level. *)
Fixpoint partition_loop (fuel : nat) d (trs : list TransitionDef)
    (compoundTransitions : gmap string (list TransitionDef)) (topLevel : list TransitionDef) :
    option (gmap string (list TransitionDef) * list TransitionDef) :=
  match trs with
  | [] => Some (compoundTransitions, topLevel)
  | tr :: trs =>
      match mermaidTransitionScope fuel tr d with
      | None => None
      | Some scope =>
          if decide (scope = "") then
            partition_loop fuel d trs compoundTransitions (topLevel ++ [tr])
          else
            partition_loop fuel d trs
              (<[scope := default [] (compoundTransitions !! scope) ++ [tr]]> compoundTransitions)
              topLevel
      end
  end.

(** ** Blocks *)

Definition is_compound d (name : string) : bool := sd_IsCompound (state_at d name).

Fixpoint mermaidCompoundBlock (fuel : nat) (name : string) d
    (compoundTransitions : gmap string (list TransitionDef)) (depth : nat) : option (list row) :=
  match fuel with
  | 0 => None
  | S fuel =>
      let st := state_at d name in
      let children := sort_strings (sd_Children st) in
      blocks ← concat_opt (λ child,
        if is_compound d child
        then mermaidCompoundBlock fuel child d compoundTransitions (S depth)
        else Some []) children;
      Some ([mkRow depth ("state " +:+ name +:+ " {")] ++
            (if decide (sd_InitialChild st ≠ "")
             then [mkRow (S depth) ("[*] --> " +:+ sd_InitialChild st)] else []) ++
            blocks ++
            (default [] (compoundTransitions !! name) ≫= transition_rows (S depth)) ++
            [mkRow depth "}"])
  end.

Definition mermaidRootStateNames d : list string :=
  sort_strings (range 122 (def_States d) ≫= λ '(name, st),
    if decide (sd_Parent st = "") then [name] else []).

(** ** The diagram *)

Definition sorted_transitions d : list TransitionDef :=
  omap (λ name, def_Transitions d !! name) (sort_strings (range 120 (def_Transitions d)).*1).

Definition mermaid_rows (fuel : nat) d : option (list row) :=
  partition ← partition_loop fuel d (sorted_transitions d) ∅ [];
  let '(compoundTransitions, topLevel) := partition in
  blocks ← concat_opt (λ name,
    if is_compound d name
    then mermaidCompoundBlock fuel name d compoundTransitions 1 else Some [])
    (mermaidRootStateNames d);
  Some ([mkRow 0 "stateDiagram-v2"; mkRow 1 ("[*] --> " +:+ def_InitialState d)] ++
        blocks ++
        (topLevel ≫= transition_rows 1) ++
        ((λ ts, mkRow 1 (ts +:+ " --> [*]")) <$> sort_strings (def_TerminalStates d))).

(** One more than the length of the longest chain of distinct states. *)
Definition mermaid_fuel d : nat := S (S (size (def_States d))).

Definition Mermaid d : option string := render <$> mermaid_rows (mermaid_fuel d) d.
End mermaid.

(** ** Hierarchies *)

(** A hierarchy as [Build] wires it, with no cycle: a state lists exactly the
    states that name it as parent, each once, and is compound when it lists any. *)
Record tidy (d : WorkflowDef) : Prop := {
  ti_once : ∀ n st, def_States d !! n = Some st → NoDup (sd_Children st);
  ti_compound : ∀ n st, def_States d !! n = Some st → sd_Children st ≠ [] → sd_IsCompound st = true;
  ti_children : ∀ n st c, def_States d !! n = Some st →
    c ∈ sd_Children st ↔ parent_of d c = Some n;
  ti_parents : ∀ c p, parent_of d c = Some p → is_Some (def_States d !! p);
  ti_acyclic : acyclic d
}.

Abbreviation parent_chain d := (chain (parent_of d)).

Lemma Build_draws_tidy (gr : GoRange) b d :
  Build b = Some (Ok d) → plain_options b → b_validateFn b = Some Validate → acyclic d → tidy d.
Proof.
  intros Hb Hp Hv Ha. destruct (Build_spec b d Hb Hp) as (_ & Hst & Hval).
  destruct (Hval Hv) as [Hvalid _]. constructor; [by apply Hst|by apply Hst| | |done].
  - intros n st c Hn. by apply (Hst n st Hn).
  - intros c p Hc. unfold parent_of in Hc. destruct (def_States d !! c) as [st|] eqn:Hst'; [|done].
    case_decide; [done|]. injection Hc as <-. by apply (v_parents _ Hvalid c st).
Qed.

(** [s] is [root] or a descendant of it. *)
Definition in_subtree (d : WorkflowDef) (root s : string) : Prop :=
  rtc (λ x y, parent_of d x = Some y) s root.

Section hierarchy.
Context (d : WorkflowDef) (Hd : tidy d).

Lemma in_subtree_children root st s :
  def_States d !! root = Some st →
  in_subtree d root s ↔ s = root ∨ ∃ c, c ∈ sd_Children st ∧ in_subtree d c s.
Proof using Hd.
  intros Hst. split.
  - intros [->|(c & Hc & Hp)]%rtc_inv_r; [by left|]. right. exists c.
    split; [by apply (ti_children _ Hd _ _ _ Hst)|done].
  - intros [->|(c & Hc & Hs)]; [apply rtc_refl|]. apply (ti_children _ Hd _ _ _ Hst) in Hc. by eapply rtc_r.
Qed.

Lemma in_subtree_alone root s :
  (∀ st, def_States d !! root = Some st → sd_IsCompound st = false) →
  in_subtree d root s ↔ s = root.
Proof using Hd.
  intros Hno. split; [|intros ->; apply rtc_refl]. intros [->|(c & _ & Hp)]%rtc_inv_r; [done|]. exfalso.
  destruct (ti_parents _ Hd _ _ Hp) as [st Hst]. pose proof (Hno _ Hst) as Hc.
  apply (ti_children _ Hd _ _ _ Hst) in Hp. rewrite (ti_compound _ Hd _ _ Hst) in Hc; [done|].
  intros E. rewrite E in Hp. by apply elem_of_nil in Hp.
Qed.

Lemma chain_below x y l :
  in_subtree d y x → parent_chain d x l → ∃ l1 l2, l = l1 ++ l2 ∧ parent_chain d y l2 ∧ (l1 = [] → x = y).
Proof.
  intros Hxy. revert l. induction Hxy as [x|x z y Hxz _ IH]; intros l Hl; [by exists [], l|].
  inversion Hl as [|? ? l' Hp Hl']; simplify_eq. destruct (IH l' Hl') as (l1 & l2 & -> & H2 & _).
  by exists (z :: l1), l2.
Qed.

Lemma below_comparable x y1 y2 :
  in_subtree d y1 x → in_subtree d y2 x → in_subtree d y2 y1 ∨ in_subtree d y1 y2.
Proof.
  intros H1. revert y2. induction H1 as [x|x z y Hxz Hzy IH]; intros y2 H2; [by left|].
  destruct H2 as [x|x z' y2 Hxz' Hzy2]; [right; by eapply rtc_l|].
  rewrite Hxz in Hxz'. injection Hxz' as ->. by apply IH.
Qed.

(** Two roots of subtrees that share a state, at the same depth, are one. *)
Lemma below_same_depth x y1 y2 l1 l2 :
  in_subtree d y1 x → in_subtree d y2 x → parent_chain d y1 l1 → parent_chain d y2 l2 →
  length l1 = length l2 → y1 = y2.
Proof.
  assert (∀ y1 y2 l1 l2, in_subtree d y2 y1 → parent_chain d y1 l1 → parent_chain d y2 l2 →
    length l1 = length l2 → y1 = y2) as Hle.
  { intros z1 z2 k1 k2 H12 Hk1 Hk2 Hlen. destruct (chain_below z1 z2 k1 H12 Hk1) as (a & b & -> & Hb & Ha).
    rewrite (chain_unique _ _ _ _ Hb Hk2), length_app in Hlen. apply Ha, nil_length_inv. lia. }
  intros H1 H2 Hl1 Hl2 Hlen. destruct (below_comparable x y1 y2 H1 H2).
  - by eapply Hle.
  - symmetry. by eapply Hle.
Qed.

Lemma chain_child root l c st :
  def_States d !! root = Some st → c ∈ sd_Children st → parent_chain d root l →
  parent_chain d c (root :: l).
Proof using Hd. intros Hst Hc Hl. apply (ti_children _ Hd _ _ _ Hst) in Hc. by econstructor. Qed.

(** Enough fuel for a recursion below the end of [l]. *)
Definition fuelled (fuel : nat) (l : list string) : Prop := size (def_States d) < fuel + length l.

Lemma fuelled_pos root l : parent_chain d root l → ∀ fuel, fuelled fuel l → ∃ f, fuel = S f.
Proof.
  intros Hl fuel Hf. destruct fuel as [|f]; [|by exists f]. unfold fuelled in Hf.
  apply (chain_length_le _ (dom (def_States d))) in Hl; [|apply parent_of_dom].
  rewrite size_dom in Hl. lia.
Qed.

(** ** The two searches *)

Lemma any_opt_spec {A} (f : A → option bool) (P : A → Prop) (l : list A) :
  (∀ x, x ∈ l → ∃ b, f x = Some b ∧ (b = true ↔ P x)) →
  ∃ b, any_opt f l = Some b ∧ (b = true ↔ ∃ x, x ∈ l ∧ P x).
Proof.
  induction l as [|x l IH]; intros Hf; cbn.
  { exists false. split; [done|]. split; [done|]. by intros (? & ?%elem_of_nil & _). }
  destruct (Hf x) as (b & -> & Hb); [by left|].
  destruct IH as (b' & -> & Hb'); [intros; apply Hf; by right|].
  setoid_rewrite elem_of_cons. destruct b; [exists true|exists b']; (split; [done|]).
  - split; [|done]. intros _. exists x. split; [by left|]. by apply Hb.
  - rewrite Hb'. split; [naive_solver|]. intros (y & [->|?] & Hy); [by apply Hb in Hy|eauto].
Qed.

Lemma all_opt_spec {A} (f : A → option bool) (P : A → Prop) (l : list A) :
  (∀ x, x ∈ l → ∃ b, f x = Some b ∧ (b = true ↔ P x)) →
  ∃ b, all_opt f l = Some b ∧ (b = true ↔ ∀ x, x ∈ l → P x).
Proof.
  induction l as [|x l IH]; intros Hf; cbn.
  { exists true. split; [done|]. split; [|done]. by intros _ ? ?%elem_of_nil. }
  destruct (Hf x) as (b & -> & Hb); [by left|].
  destruct IH as (b' & -> & Hb'); [intros; apply Hf; by right|].
  setoid_rewrite elem_of_cons. destruct b; [exists b'|exists false]; (split; [done|]).
  - rewrite Hb'. split; [|naive_solver]. intros Hall y [->|?]; [by apply Hb|auto].
  - split; [done|]. intros Hall. apply Hb. apply Hall. by left.
Qed.

Lemma isInSubtree_spec fuel s root l :
  parent_chain d root l → fuelled fuel l →
  ∃ b, mermaidIsInSubtree fuel s root d = Some b ∧ (b = true ↔ in_subtree d root s).
Proof using Hd.
  revert root l. induction fuel as [|fuel IH]; intros root l Hl Hf.
  { by destruct (fuelled_pos root l Hl 0 Hf). }
  cbn [mermaidIsInSubtree]. case_decide as Heq; [exists true; subst; split; [done|split; [intros _; apply rtc_refl|done]]|].
  destruct (def_States d !! root) as [st|] eqn:Hst.
  2: { exists false. split; [done|]. rewrite in_subtree_alone; [done|]. intros st. by rewrite Hst. }
  destruct (sd_IsCompound st) eqn:Hc.
  2: { exists false. split; [done|]. rewrite in_subtree_alone; [done|].
       intros st'. rewrite Hst. by intros [= <-]. }
  destruct (any_opt_spec (λ child, mermaidIsInSubtree fuel s child d) (λ c, in_subtree d c s)
    (sd_Children st)) as (b & -> & Hb).
  - intros c Hc'. apply (IH c (root :: l)); [by eapply chain_child|].
    unfold fuelled in *. cbn. lia.
  - exists b. split; [done|]. rewrite Hb, (in_subtree_children root st s Hst). naive_solver.
Qed.

Lemma stateDepth_spec fuel name l :
  parent_chain d name l → length l < fuel →
  mermaidStateDepth fuel name d = Some (Z.of_nat (length l)).
Proof.
  unfold mermaidStateDepth. intros Hl Hf.
  assert (∀ z, stateDepth_loop fuel (def_States d !! name) d z = Some (z + Z.of_nat (length l))%Z) as ->;
    [|done].
  revert fuel Hf. induction Hl as [x Hx|x y l Hx _ IH]; intros [|fuel] Hf z; try (cbn in Hf; lia);
    cbn; unfold parent_of in Hx; destruct (def_States d !! x) as [st|]; simplify_eq.
  - case_decide; simplify_eq. f_equal. lia.
  - f_equal. lia.
  - case_decide; simplify_eq. rewrite IH by (cbn in Hf; lia). f_equal. lia.
Qed.

(** ** The scope is the tightest *)

(** A compound state whose subtree holds every participant of [tr]. *)
Definition encloses (tr : TransitionDef) (m : string) : Prop :=
  is_compound d m = true ∧ participants tr ≠ [] ∧ ∀ s, s ∈ participants tr → in_subtree d m s.

Definition tightest (tr : TransitionDef) (m : string) : Prop :=
  encloses tr m ∧ ∀ m', encloses tr m' → in_subtree d m' m.

(** What [mermaidTransitionScope] computes. *)
Definition scope_of (tr : TransitionDef) (m : string) : Prop :=
  tightest tr m ∨ m = "" ∧ ∀ m', ¬ encloses tr m'.

Lemma in_subtree_antisym x y : in_subtree d x y → in_subtree d y x → x = y.
Proof using Hd.
  intros Hyx Hxy. destruct (ti_acyclic _ Hd x) as [lx Hx]. destruct (ti_acyclic _ Hd y) as [ly Hy].
  destruct (chain_below x y lx Hxy Hx) as (l1 & l2 & -> & H2 & Hnil).
  rewrite (chain_unique _ _ _ _ H2 Hy) in *.
  destruct (chain_below y x ly Hyx Hy) as (l3 & l4 & E & H4 & _).
  pose proof (chain_unique _ _ _ _ H4 Hx) as ->. apply Hnil.
  apply (f_equal length) in E. rewrite !length_app in E. apply nil_length_inv. lia.
Qed.

Lemma scope_of_unique tr m1 m2 : scope_of tr m1 → scope_of tr m2 → m1 = m2.
Proof using Hd.
  intros [[H1 T1]|[-> N1]] [[H2 T2]|[-> N2]]; [|by destruct (N2 m1)|by destruct (N1 m2)|done].
  by apply in_subtree_antisym; [apply T2|apply T1].
Qed.

Lemma encloses_state tr m : encloses tr m → ∃ st, def_States d !! m = Some st ∧ sd_IsCompound st = true.
Proof.
  intros (Hc & _). unfold is_compound, state_at in Hc. destruct (def_States d !! m); [by eexists|done].
Qed.

(** The deepest of the states seen so far that enclose [tr]. *)
Definition best_so_far (tr : TransitionDef) (l : list string) (best : string) (depth : Z) : Prop :=
  (best = "" ∧ depth = (-1)%Z ∧ ∀ m, m ∈ l → ¬ encloses tr m) ∨
  (encloses tr best ∧ (∃ lb, parent_chain d best lb ∧ depth = Z.of_nat (length lb)) ∧
   ∀ m lm, m ∈ l → encloses tr m → parent_chain d m lm → (Z.of_nat (length lm) ≤ depth)%Z).

Lemma best_so_far_skip tr l best depth m :
  best_so_far tr l best depth → ¬ encloses tr m → best_so_far tr (l ++ [m]) best depth.
Proof.
  intros [(? & ? & H)|(? & ? & H)] Hm; [left|right]; (split_and!; [done..|]).
  - intros m' [?| ->%list_elem_of_singleton]%elem_of_app; auto.
  - intros m' lm [?| ->%list_elem_of_singleton]%elem_of_app ?; [by apply H|done].
Qed.

Lemma best_so_far_step tr l best depth m lm :
  best_so_far tr l best depth → encloses tr m → parent_chain d m lm →
  if decide (depth < Z.of_nat (length lm))%Z
  then best_so_far tr (l ++ [m]) m (Z.of_nat (length lm)) else best_so_far tr (l ++ [m]) best depth.
Proof.
  intros Hb Hm Hlm. case_decide as Hlt.
  - right. split_and!; [done|by exists lm|]. intros m' lm' Hin He Hc.
    destruct Hb as [(-> & -> & H)|(? & ? & H)];
      apply elem_of_app in Hin as [Hin| ->%list_elem_of_singleton].
    + by destruct (H m').
    + by rewrite (chain_unique _ _ _ _ Hc Hlm).
    + specialize (H m' lm' Hin He Hc). lia.
    + by rewrite (chain_unique _ _ _ _ Hc Hlm).
  - destruct Hb as [(-> & -> & H)|(? & ? & H)]; [lia|]. right. split_and!; [done..|].
    intros m' lm' [?| ->%list_elem_of_singleton]%elem_of_app ? Hc; [by eapply H|].
    rewrite (chain_unique _ _ _ _ Hc Hlm). lia.
Qed.

Lemma scope_loop_spec fuel tr seen l best depth :
  participants tr ≠ [] → size (def_States d) < fuel →
  (∀ n st, (n, st) ∈ l → def_States d !! n = Some st) → best_so_far tr seen best depth →
  ∃ m z, scope_loop fuel (participants tr) d l best depth = Some m ∧
    best_so_far tr (seen ++ l.*1) m z.
Proof using Hd.
  intros Hp Hf. revert seen best depth. induction l as [|[n st] l IH]; intros seen best depth Hl Hb;
    cbn [scope_loop fmap list_fmap fst].
  { rewrite app_nil_r. by eexists _, _. }
  assert (def_States d !! n = Some st) as Hn by (apply Hl; by left).
  assert (∀ n st, (n, st) ∈ l → def_States d !! n = Some st) as Hl' by (intros; apply Hl; by right).
  replace (seen ++ n :: l.*1) with ((seen ++ [n]) ++ l.*1) by by rewrite <-app_assoc.
  destruct (sd_IsCompound st) eqn:Hc; cbn.
  2: { apply IH; [done|]. apply best_so_far_skip; [done|]. intros (st' & Hst' & Hc')%encloses_state.
       congruence. }
  destruct (ti_acyclic _ Hd n) as [ln Hln].
  destruct (all_opt_spec (λ s, mermaidIsInSubtree fuel s n d) (in_subtree d n) (participants tr))
    as (b & Hall & Hb').
  { intros s _. apply (isInSubtree_spec fuel s n ln Hln). unfold fuelled. lia. }
  unfold mermaidAllInSubtree. rewrite Hall.
  assert (encloses tr n ↔ b = true) as Henc.
  { rewrite Hb'. unfold encloses, is_compound, state_at. rewrite Hn. naive_solver. }
  destruct b.
  - rewrite (stateDepth_spec fuel n ln Hln).
    2: { apply (chain_length_le _ (dom (def_States d))) in Hln; [|apply parent_of_dom].
         rewrite size_dom in Hln. lia. }
    pose proof (best_so_far_step tr seen best depth n ln Hb (proj2 Henc eq_refl) Hln) as Hstep.
    case_decide; by apply IH.
  - apply IH; [done|]. apply best_so_far_skip; [done|]. by rewrite Henc.
Qed.

Lemma best_is_scope tr l m z :
  best_so_far tr l m z → (∀ n, is_Some (def_States d !! n) → n ∈ l) → scope_of tr m.
Proof using Hd.
  intros [(-> & _ & H)|(He & (lb & Hlb & ->) & H)] Hall.
  - right. split; [done|]. intros m' He. apply (H m'); [|done]. apply Hall.
    destruct (encloses_state _ _ He) as (st & -> & _). by eexists.
  - left. split; [done|]. intros m' He'. pose proof He as (_ & Hne & Hin). pose proof He' as (_ & _ & Hin').
    destruct (participants tr) as [|x xs]; [done|]. pose proof (Hin x ltac:(by left)) as Hx.
    pose proof (Hin' x ltac:(by left)) as Hx'.
    destruct (below_comparable x m m' Hx Hx') as [?|Hbelow]; [done|].
    destruct (ti_acyclic _ Hd m') as [l' Hl'].
    assert (Z.of_nat (length l') ≤ Z.of_nat (length lb))%Z as Hlen.
    { apply (H m'); [|done|done]. apply Hall. destruct (encloses_state _ _ He') as (st & -> & _). by eexists. }
    destruct (chain_below m' m l' Hbelow Hl') as (l1 & l2 & -> & H2 & Hnil).
    rewrite (chain_unique _ _ _ _ H2 Hlb), length_app in Hlen.
    rewrite Hnil; [apply rtc_refl|]. apply nil_length_inv. lia.
Qed.

Lemma mermaidTransitionScope_spec (gr : GoRange) fuel tr :
  size (def_States d) < fuel → ∃ m, mermaidTransitionScope fuel tr d = Some m ∧ scope_of tr m.
Proof using Hd.
  intros Hf. unfold mermaidTransitionScope. destruct (participants tr) as [|x xs] eqn:Hp.
  { exists "". split; [done|]. right. split; [done|]. by intros m' (_ & ? & _). }
  destruct (scope_loop_spec fuel tr [] (range 121 (def_States d)) "" (-1)) as (m & z & Hm & Hb).
  - by rewrite Hp.
  - done.
  - intros n st. by rewrite elem_of_range.
  - left. split_and!; try done. intros m ?%elem_of_nil. done.
  - rewrite Hp in Hm. exists m. split; [done|]. eapply best_is_scope; [exact Hb|]. cbn.
    intros n. by rewrite elem_of_range_keys.
Qed.
End hierarchy.

(** ** Every state and every transition is drawn once *)

Lemma fmap_of_bind {A B C} (h : B → C) (f : A → list B) (l : list A) :
  h <$> (l ≫= f) = l ≫= λ x, h <$> f x.
Proof. induction l as [|x l IH]; [done|]. by rewrite !bind_cons, fmap_app, IH. Qed.

Lemma bind_of_bind {A B C} (g : B → list C) (f : A → list B) (l : list A) :
  (l ≫= f) ≫= g = l ≫= λ x, f x ≫= g.
Proof. induction l as [|x l IH]; [done|]. by rewrite !bind_cons, bind_app, IH. Qed.

Lemma bind_app_perm {A B} (f g : A → list B) (l : list A) :
  (l ≫= λ x, f x ++ g x) ≡ₚ (l ≫= f) ++ (l ≫= g).
Proof.
  induction l as [|x l IH]; [done|]. rewrite !bind_cons, IH. rewrite <-!app_assoc.
  apply Permutation_app_head. rewrite !app_assoc. apply Permutation_app_tail, Permutation_app_comm.
Qed.

Lemma bind_perm {A B} (f g : A → list B) (l : list A) :
  (∀ x, x ∈ l → f x ≡ₚ g x) → (l ≫= f) ≡ₚ (l ≫= g).
Proof.
  induction l as [|x l IH]; intros Hfg; [done|]. rewrite !bind_cons.
  rewrite (Hfg x), IH; [done| |by left]. intros y Hy. apply Hfg. by right.
Qed.

(** A list split by where a function sends its elements. *)
Lemma group_perm {A} (f : A → string) (ms : list string) (l : list A) :
  NoDup ms →
  (ms ≫= λ m, filter (λ x, f x = m ∧ m ≠ "") l) ≡ₚ filter (λ x, f x ∈ ms ∧ f x ≠ "") l.
Proof.
  induction 1 as [|m ms Hm _ IH].
  { cbn. induction l as [|x l IHl]; [done|]. rewrite filter_cons_False; [done|].
    by intros [?%elem_of_nil _]. }
  rewrite bind_cons, IH.
  rewrite <-(filter_app_complement (λ x, f x = m) (filter (λ x, f x ∈ m :: ms ∧ f x ≠ "") l)).
  rewrite !list_filter_filter.
  assert (∀ P Q : A → Prop, ∀ `{∀ x, Decision (P x), ∀ x, Decision (Q x)}, (∀ x, P x ↔ Q x) →
    filter P l ≡ₚ filter Q l) as Hext by (intros; by rewrite (list_filter_iff P Q)).
  f_equiv; apply Hext; intros x; rewrite elem_of_cons; naive_solver.
Qed.

Section drawing.
Context (d : WorkflowDef) (Hd : tidy d).

(** The rows of a compound state, less those of its transitions. *)
Definition frame (m : string) : list string :=
  ["state " +:+ m +:+ " {"] ++
  (if decide (sd_InitialChild (state_at d m) ≠ "")
   then ["[*] --> " +:+ sd_InitialChild (state_at d m)] else []) ++ ["}"].

Definition arrows (tr : TransitionDef) : list string := r_text <$> transition_rows 0 tr.

Lemma arrows_depth depth tr : r_text <$> transition_rows depth tr = arrows tr.
Proof.
  unfold arrows, transition_rows. rewrite !fmap_of_bind. apply list_bind_ext; [|done].
  intros src. case_decide; [done|]. rewrite !fmap_of_bind.
  apply list_bind_ext; [|done]. intros r. by case_decide.
Qed.

Lemma arrows_bind depth trs : r_text <$> (trs ≫= transition_rows depth) = trs ≫= arrows.
Proof.
  rewrite fmap_of_bind. apply list_bind_ext; [|done]. intros tr. apply arrows_depth.
Qed.

Context (ct : gmap string (list TransitionDef)).

Definition block_texts (m : string) : list string := frame m ++ (default [] (ct !! m) ≫= arrows).

(** [ms] are the compound states in the subtrees of [cs]. *)
Definition covers (ms cs : list string) : Prop :=
  NoDup ms ∧ ∀ m, m ∈ ms ↔ is_compound d m = true ∧ ∃ c, c ∈ cs ∧ in_subtree d c m.

(** [f c] draws the subtrees of [cs]. *)
Definition draws (r : option (list row)) (cs : list string) : Prop :=
  ∃ rows ms, r = Some rows ∧ (r_text <$> rows) ≡ₚ (ms ≫= block_texts) ∧ covers ms cs.

Lemma siblings_drawn (f : string → option (list row)) cs k :
  NoDup cs → (∀ c, c ∈ cs → ∃ l, parent_chain d c l ∧ length l = k) →
  (∀ c, c ∈ cs → draws (f c) [c]) → draws (concat_opt f cs) cs.
Proof using Hd.
  induction 1 as [|c cs Hc _ IH]; intros Hk Hf; cbn [concat_opt].
  { exists [], []. split_and!; [done..|]. split; [by constructor|]. intros m. split.
    - by intros ?%elem_of_nil.
    - by intros (_ & ? & ?%elem_of_nil & _). }
  destruct (Hf c) as (r1 & ms1 & -> & H1 & Hn1 & Hm1); [by left|].
  destruct IH as (r2 & ms2 & -> & H2 & Hn2 & Hm2).
  { intros; apply Hk; by right. }
  { intros; apply Hf; by right. }
  exists (r1 ++ r2), (ms1 ++ ms2). split_and!; [done| |].
  - by rewrite fmap_app, bind_app, H1, H2.
  - split.
    + apply NoDup_app. split_and!; [done| |done].
      intros m (_ & c1 & ->%list_elem_of_singleton & S1)%Hm1 (_ & c2 & Hc2 & S2)%Hm2.
      destruct (Hk c) as (l1 & L1 & E1); [by left|]. destruct (Hk c2) as (l2 & L2 & E2); [by right|].
      assert (c = c2) as ->; [|done]. eapply (below_same_depth d m); try done. by rewrite E1, E2.
    + intros m. rewrite elem_of_app, Hm1, Hm2. split.
      * intros [(? & ? & ->%list_elem_of_singleton & ?)|(? & c2 & ? & ?)];
          (split; [done|]); eexists; (split; [|done]); [by left|by right].
      * intros (? & c' & [->|?]%elem_of_cons & ?); [left|right]; (split; [done|]); eexists;
          (split; [|done]); [by left|done].
Qed.

Lemma atomic_drawn c : is_compound d c = false → draws (Some []) [c].
Proof using Hd.
  intros Hc. exists [], []. split_and!; [done..|]. split; [by constructor|]. intros m. split.
  - by intros ?%elem_of_nil.
  - intros (Hm & c' & ->%list_elem_of_singleton & Hin). rewrite in_subtree_alone in Hin; [|done|].
    + subst. congruence.
    + intros st Hst. unfold is_compound, state_at in Hc. by rewrite Hst in Hc.
Qed.

Lemma block_rows_perm m depth (blocks : list row) (ts : list string) :
  (r_text <$> blocks) ≡ₚ ts →
  (r_text <$> ([mkRow depth ("state " +:+ m +:+ " {")] ++
    (if decide (sd_InitialChild (state_at d m) ≠ "")
     then [mkRow (S depth) ("[*] --> " +:+ sd_InitialChild (state_at d m))] else []) ++
    blocks ++ (default [] (ct !! m) ≫= transition_rows (S depth)) ++ [mkRow depth "}"]))
  ≡ₚ block_texts m ++ ts.
Proof.
  intros Hb. rewrite !fmap_app, arrows_bind, Hb. unfold block_texts, frame.
  set (a := default [] (ct !! m) ≫= arrows). rewrite <-!app_assoc. cbn [fmap list_fmap app].
  apply perm_skip.
  assert ((r_text <$> (if decide (sd_InitialChild (state_at d m) ≠ "")
     then [mkRow (S depth) ("[*] --> " +:+ sd_InitialChild (state_at d m))] else [])) =
    (if decide (sd_InitialChild (state_at d m) ≠ "")
     then ["[*] --> " +:+ sd_InitialChild (state_at d m)] else [])) as -> by by case_decide.
  apply Permutation_app_head. rewrite (Permutation_app_comm ts), <-app_assoc. cbn [app].
  by rewrite Permutation_middle.
Qed.

Lemma block_drawn fuel n l depth :
  is_compound d n = true → parent_chain d n l → fuelled d fuel l →
  draws (mermaidCompoundBlock fuel n d ct depth) [n].
Proof using Hd.
  revert n l depth. induction fuel as [|fuel IH]; intros n l depth Hc Hl Hf.
  { by destruct (fuelled_pos d n l Hl 0 Hf). }
  assert (∃ st, def_States d !! n = Some st ∧ sd_IsCompound st = true) as (st & Hst & Hcst).
  { unfold is_compound, state_at in Hc. destruct (def_States d !! n); [by eexists|done]. }
  assert (state_at d n = st) as Hat by (unfold state_at; by rewrite Hst).
  cbn [mermaidCompoundBlock]. cbv zeta. set (f := λ child, if is_compound d child then _ else _).
  destruct (siblings_drawn f (sort_strings (sd_Children (state_at d n))) (S (length l)))
    as (rows & ms & Hrows & Htexts & Hnd & Hms).
  - rewrite sort_strings_perm, Hat. by eapply (ti_once _ Hd).
  - intros c Hc'. rewrite elem_of_sort_strings, Hat in Hc'. exists (n :: l).
    split; [by eapply chain_child|done].
  - intros c Hc'. rewrite elem_of_sort_strings, Hat in Hc'. unfold f.
    destruct (is_compound d c) eqn:Hcc; [|by apply atomic_drawn].
    apply (IH c (n :: l)); [done|by eapply chain_child|]. unfold fuelled in *. cbn. lia.
  - rewrite Hrows. cbn [mbind option_bind]. eexists _, (n :: ms).
    split_and!; [done|rewrite bind_cons; by apply block_rows_perm|].
    setoid_rewrite elem_of_sort_strings in Hms. rewrite Hat in Hms. split.
    + apply NoDup_cons. split; [|done]. intros (_ & c & Hc' & Hin)%Hms.
      assert (in_subtree d n c) as Hback.
      { apply (in_subtree_children d Hd n st c Hst). right. exists c. split; [done|apply rtc_refl]. }
      assert (n = c) as <- by by eapply (in_subtree_antisym d Hd).
      apply (ti_children _ Hd _ _ _ Hst) in Hc'. apply (chain_not_elem _ _ _ Hl).
      inversion Hl; simplify_eq. by left.
    + intros m. rewrite elem_of_cons, Hms. setoid_rewrite list_elem_of_singleton. split.
      * intros [->|(Hm & c & Hc' & Hin)]; [split; [done|]; exists n; split; [done|apply rtc_refl]|].
        split; [done|]. exists n. split; [done|]. apply (in_subtree_children d Hd n st m Hst). eauto.
      * intros (Hm & ? & -> & Hin). apply (in_subtree_children d Hd n st m Hst) in Hin as [?|?]; eauto.
Qed.
End drawing.

(** ** The whole diagram *)

Definition compounds (d : WorkflowDef) : list string :=
  (filter (λ e : string * StateDef, sd_IsCompound e.2 = true) (map_to_list (def_States d))).*1.

Section diagram.
Context (d : WorkflowDef) (Hd : tidy d).

(** The scope, whatever the order of the states. *)
Definition scope (tr : TransitionDef) : string :=
  default "" (@mermaidTransitionScope range_fwd (mermaid_fuel d) tr d).

Lemma scope_correct gr tr :
  @mermaidTransitionScope gr (mermaid_fuel d) tr d = Some (scope tr) ∧ scope_of d tr (scope tr).
Proof using Hd.
  assert (size (def_States d) < mermaid_fuel d) as Hf by (unfold mermaid_fuel; lia).
  destruct (mermaidTransitionScope_spec d Hd range_fwd _ tr Hf) as (m1 & E1 & S1).
  destruct (mermaidTransitionScope_spec d Hd gr _ tr Hf) as (m2 & E2 & S2).
  unfold scope. rewrite E1, E2. cbn. by rewrite (scope_of_unique d Hd tr m1 m2 S1 S2) in *.
Qed.

Lemma partition_loop_spec gr trs ct top :
  ∃ ct', @partition_loop gr (mermaid_fuel d) d trs ct top =
    Some (ct', top ++ filter (λ tr, scope tr = "") trs) ∧
    ∀ m, default [] (ct' !! m) = default [] (ct !! m) ++ filter (λ tr, scope tr = m ∧ m ≠ "") trs.
Proof using Hd.
  revert ct top. induction trs as [|tr trs IH]; intros ct top; cbn [partition_loop].
  { exists ct. split; [by rewrite app_nil_r|]. intros m. by rewrite app_nil_r. }
  destruct (scope_correct gr tr) as [-> _]. case_decide as Hs.
  - destruct (IH ct (top ++ [tr])) as (ct' & -> & Hct'). exists ct'. split.
    + by rewrite filter_cons_True, <-app_assoc.
    + intros m. rewrite Hct'. rewrite filter_cons_False; [done|]. intros [<- ?]. done.
  - destruct (IH (<[scope tr := default [] (ct !! scope tr) ++ [tr]]> ct) top) as (ct' & -> & Hct').
    exists ct'. split; [by rewrite filter_cons_False|]. intros m. rewrite Hct'.
    destruct (decide (scope tr = m)) as [<-|Hne].
    + rewrite lookup_insert_eq, filter_cons_True by done. cbn [from_option id].
      by rewrite <-app_assoc.
    + rewrite lookup_insert_ne, filter_cons_False by naive_solver. done.
Qed.

(** Two orders of the map make the same partition. *)
Lemma partition_loop_order gr1 gr2 trs ct top :
  @partition_loop gr1 (mermaid_fuel d) d trs ct top = @partition_loop gr2 (mermaid_fuel d) d trs ct top.
Proof using Hd.
  revert ct top. induction trs as [|tr trs IH]; intros ct top; cbn [partition_loop]; [done|].
  destruct (scope_correct gr1 tr) as [-> _]. destruct (scope_correct gr2 tr) as [-> _].
  case_decide; apply IH.
Qed.

Lemma sorted_transitions_order gr1 gr2 : @sorted_transitions gr1 d = @sorted_transitions gr2 d.
Proof.
  unfold sorted_transitions. f_equal. apply sort_strings_canonical. by rewrite !range_perm.
Qed.

Lemma sorted_transitions_perm gr : @sorted_transitions gr d ≡ₚ (map_to_list (def_Transitions d)).*2.
Proof.
  unfold sorted_transitions. rewrite sort_strings_perm, range_perm.
  assert (∀ l, (∀ n tr, (n, tr) ∈ l → def_Transitions d !! n = Some tr) →
    omap (λ name, def_Transitions d !! name) l.*1 = l.*2) as ->; [|done|].
  - induction l as [|[n tr] l IH]; intros Hl; [done|]. cbn.
    rewrite (Hl n tr) by by left. f_equal. apply IH. intros. apply Hl. by right.
  - intros n tr. by rewrite elem_of_map_to_list.
Qed.

Lemma roots_order gr1 gr2 : @mermaidRootStateNames gr1 d = @mermaidRootStateNames gr2 d.
Proof.
  unfold mermaidRootStateNames. apply sort_strings_canonical. by rewrite !range_perm.
Qed.

Lemma elem_of_roots gr n :
  n ∈ @mermaidRootStateNames gr d ↔ ∃ st, def_States d !! n = Some st ∧ sd_Parent st = "".
Proof.
  unfold mermaidRootStateNames. rewrite elem_of_sort_strings, list_elem_of_bind. split.
  - intros ([n' st] & Hn & Hst%elem_of_range). case_decide; [|by apply elem_of_nil in Hn].
    apply list_elem_of_singleton in Hn as ->. eauto.
  - intros (st & Hst & Hp). exists (n, st). rewrite decide_True, elem_of_range by done.
    split; [by left|done].
Qed.

Lemma roots_NoDup gr : NoDup (@mermaidRootStateNames gr d).
Proof.
  unfold mermaidRootStateNames. rewrite sort_strings_perm.
  pose proof (range_keys_NoDup 122 (def_States d)) as Hnd.
  induction (range 122 (def_States d)) as [|[n st] l IH]; [constructor|].
  rewrite fmap_cons in Hnd. apply NoDup_cons in Hnd as [Hn Hnd]. rewrite bind_cons.
  case_decide; [|by apply IH]. cbn [app]. apply NoDup_cons. split; [|by apply IH].
  intros ([n' st'] & Hin & Hl)%list_elem_of_bind. case_decide; [|by apply elem_of_nil in Hin].
  apply list_elem_of_singleton in Hin as ->. apply Hn, list_elem_of_fmap. by exists (n', st').
Qed.

Lemma root_above n l : parent_chain d n l → is_Some (def_States d !! n) →
  ∃ r st, in_subtree d r n ∧ def_States d !! r = Some st ∧ sd_Parent st = "".
Proof using Hd.
  induction 1 as [x Hx|x y l Hx _ IH]; intros [st Hst].
  - exists x, st. split; [apply rtc_refl|]. split; [done|]. unfold parent_of in Hx. rewrite Hst in Hx.
    by case_decide.
  - destruct IH as (r & st' & Hr & Hst' & Hp); [by eapply (ti_parents _ Hd)|].
    exists r, st'. split; [by eapply rtc_l|done].
Qed.

Lemma roots_cover gr ms : covers d ms (@mermaidRootStateNames gr d) → ms ≡ₚ compounds d.
Proof using Hd.
  intros [Hnd Hms]. apply NoDup_Permutation; [done| |].
  - unfold compounds. apply (sublist_NoDup _ (map_to_list (def_States d)).*1);
      [apply NoDup_fst_map_to_list|apply fmap_sublist, sublist_filter].
  - intros m. rewrite Hms. unfold compounds. rewrite list_elem_of_fmap. split.
    + intros [Hm _]. unfold is_compound, state_at in Hm.
      destruct (def_States d !! m) as [st|] eqn:Hst; [|done]. exists (m, st). split; [done|].
      by rewrite list_elem_of_filter, elem_of_map_to_list.
    + intros ([m' st] & -> & [Hc Hst%elem_of_map_to_list]%list_elem_of_filter). cbn in *.
      split; [unfold is_compound, state_at; by rewrite Hst|].
      destruct (ti_acyclic _ Hd m') as [l Hl].
      destruct (root_above m' l Hl) as (r & st' & ? & ? & ?); [by eexists|].
      exists r. split; [|done]. apply elem_of_roots. eauto.
Qed.

Lemma scope_compound tr : scope tr ≠ "" → scope tr ∈ compounds d.
Proof using Hd.
  intros Hne. destruct (scope_correct range_fwd tr) as [_ [[He _]|[? _]]]; [|done].
  destruct (encloses_state d _ _ He) as (st & Hst & Hc). unfold compounds. apply list_elem_of_fmap.
  exists (scope tr, st). split; [done|]. by rewrite list_elem_of_filter, elem_of_map_to_list.
Qed.

(** What the diagram shows, in any order. *)
Definition contents : list string :=
  ["stateDiagram-v2"; "[*] --> " +:+ def_InitialState d] ++
  (compounds d ≫= frame d) ++
  ((map_to_list (def_Transitions d)).*2 ≫= arrows) ++
  ((λ ts, ts +:+ " --> [*]") <$> def_TerminalStates d).

Lemma scoped_arrows_perm (ms : list string) (trs : list TransitionDef) (ct : gmap string (list TransitionDef)) :
  ms ≡ₚ compounds d → NoDup ms →
  (∀ m, default [] (ct !! m) = filter (λ tr, scope tr = m ∧ m ≠ "") trs) →
  (ms ≫= block_texts d ct) ++ (filter (λ tr, scope tr = "") trs ≫= arrows) ≡ₚ
  (compounds d ≫= frame d) ++ (trs ≫= arrows).
Proof using Hd.
  intros Hms Hnd Hct. unfold block_texts. rewrite bind_app_perm, <-app_assoc. rewrite Hms at 1.
  apply Permutation_app_head.
  rewrite (bind_perm _ (λ m, filter (λ tr, scope tr = m ∧ m ≠ "") trs ≫= arrows) ms) by (intros; by rewrite Hct).
  rewrite <-(bind_of_bind arrows). rewrite (group_perm scope ms trs Hnd).
  rewrite <-bind_app. f_equiv.
  rewrite (list_filter_iff _ (λ tr, ¬ scope tr = "") trs).
  2: { intros tr. split; [by intros [_ ?]|]. intros Hne. split; [|done]. rewrite Hms. by apply scope_compound. }
  rewrite Permutation_app_comm. apply filter_app_complement.
Qed.

Lemma mermaid_rows_spec gr :
  ∃ rows, @mermaid_rows gr (mermaid_fuel d) d = Some rows ∧ (r_text <$> rows) ≡ₚ contents.
Proof using Hd.
  unfold mermaid_rows.
  destruct (partition_loop_spec gr (@sorted_transitions gr d) ∅ []) as (ct & -> & Hct).
  cbn [mbind option_bind app]. set (f := λ name, if is_compound d name then _ else _).
  destruct (siblings_drawn d Hd ct f (@mermaidRootStateNames gr d) 0) as (rows & ms & -> & Htexts & Hcov).
  - apply roots_NoDup.
  - intros c (st & Hst & Hp)%elem_of_roots. exists []. split; [|done]. constructor.
    unfold parent_of. by rewrite Hst, decide_True.
  - intros c (st & Hst & Hp)%elem_of_roots. unfold f.
    destruct (is_compound d c) eqn:Hc; [|by apply atomic_drawn].
    apply (block_drawn d Hd ct _ c []); [done| |unfold fuelled, mermaid_fuel; cbn; lia].
    constructor. unfold parent_of. by rewrite Hst, decide_True.
  - cbn [mbind option_bind]. eexists. split; [done|]. unfold contents. cbn [fmap list_fmap app].
    do 2 apply perm_skip. rewrite !fmap_app, arrows_bind, Htexts.
    rewrite (app_assoc (ms ≫= _)).
    rewrite (scoped_arrows_perm ms (@sorted_transitions gr d) ct).
    + rewrite <-app_assoc, sorted_transitions_perm. do 2 apply Permutation_app_head.
      rewrite <-list_fmap_compose. by rewrite sort_strings_perm.
    + by eapply roots_cover.
    + apply Hcov.
    + intros m. rewrite Hct, lookup_empty. done.
Qed.

Lemma mermaid_rows_order gr1 gr2 :
  @mermaid_rows gr1 (mermaid_fuel d) d = @mermaid_rows gr2 (mermaid_fuel d) d.
Proof using Hd.
  unfold mermaid_rows. rewrite (sorted_transitions_order gr1 gr2), (roots_order gr1 gr2).
  by rewrite (partition_loop_order gr1 gr2).
Qed.
End diagram.


(** A transition is drawn in the smallest compound state that holds all its
    sources and targets, at the top level when there is none. *)
Theorem mermaidTransitionScope_tightest (gr : GoRange) d tr :
  tidy d → ∃ m, mermaidTransitionScope (mermaid_fuel d) tr d = Some m ∧
    ((encloses d tr m ∧ ∀ m', encloses d tr m' → in_subtree d m' m) ∨
     (m = "" ∧ ∀ m', ¬ encloses d tr m')).
Proof. intros Hd. exists (scope d tr). apply (scope_correct d Hd gr tr). Qed.
