(* ===== verification/Goroutines.v ===== *)
(** * Goroutines: activities run concurrently

    Models [adapters/goroutinerunner/runner.go]: the state of [Runner], its
    methods, and the goroutines that [Dispatch] starts, as a labelled transition
    system.  An activity is user code: what it may return is a parameter.  A
    goroutine takes two steps, the end of [Execute] with the recording of its
    error, and the deferred [wg.Done()]. *)

From S2P Require Import Prelude Errors Types.

Section runner.
(** [flowstep.Activity], with what [Execute] may return for an input. *)
Context {Activity : Type} (act_Name : Activity → string).
Context (may_return : Activity → ActivityInput → option error → Prop).

(** A goroutine has captured the invocation and the activity. *)
Record goroutine := mkGoroutine { go_invocation : ActivityInvocation; go_activity : Activity }.

Record runner := mkRunner {
  rn_activities : gmap string Activity;
  rn_wg : nat;
  rn_errors : list error;
  rn_executing : list goroutine;   (* before the end of Execute *)
  rn_leaving : nat                 (* before wg.Done *)
}.

#[export] Instance runner_eta : Eta runner := λ r,
  mkRunner (rn_activities r) (rn_wg r) (rn_errors r) (rn_executing r) (rn_leaving r).

Definition New : runner := mkRunner ∅ 0 [] [] 0.

Definition Register (r : runner) (activity : Activity) : runner :=
  r <| rn_activities := <[act_Name activity := activity]> (rn_activities r) |>.

Definition not_registered (invocation : ActivityInvocation) : error :=
  Errorf "goroutinerunner: activity %q not registered" [FStr (inv_ActivityName invocation)] None.

Definition Dispatch (r : runner) (invocation : ActivityInvocation) : runner * option error :=
  match rn_activities r !! inv_ActivityName invocation with
  | None => (r, Some (not_registered invocation))
  | Some activity =>
      (r <| rn_wg := S (rn_wg r) |>
         <| rn_executing := rn_executing r ++ [mkGoroutine invocation activity] |>, None)
  end.

Definition activity_failed (invocation : ActivityInvocation) (err : error) : error :=
  Errorf "activity %s: %w" [FStr (inv_ActivityName invocation)] (Some err).

(** The [i]th goroutine returns from [Execute] with [err]. *)
Definition executed (r : runner) (i : nat) (g : goroutine) (err : option error) : runner :=
  let r := r <| rn_executing := delete i (rn_executing r) |>
             <| rn_leaving := S (rn_leaving r) |> in
  match err with
  | None => r
  | Some err => r <| rn_errors := rn_errors r ++ [activity_failed (go_invocation g) err] |>
  end.

(** [wg.Done()] *)
Definition left_group (r : runner) : runner :=
  r <| rn_wg := pred (rn_wg r) |> <| rn_leaving := pred (rn_leaving r) |>.

(** [Wait] returns in exactly the states where the group is empty. *)
Definition Wait (r : runner) : Prop := rn_wg r = 0.

Definition runner_Errors (r : runner) : list error := rn_errors r.

(** ** Runs *)

Inductive action :=
  | Registered (activity : Activity)
  | Dispatched (invocation : ActivityInvocation) (err : option error)
  | Executed (g : goroutine) (err : option error)
  | Left.

Inductive step : runner → action → runner → Prop :=
  | step_register r a : step r (Registered a) (Register r a)
  | step_dispatch r inv r' err : Dispatch r inv = (r', err) → step r (Dispatched inv err) r'
  | step_execute r i g err :
      rn_executing r !! i = Some g →
      may_return (go_activity g) (inv_Input (go_invocation g)) err →
      step r (Executed g err) (executed r i g err)
  | step_leave r : rn_leaving r ≠ 0 → step r Left (left_group r).

Inductive steps : list action → runner → Prop :=
  | steps_nil : steps [] New
  | steps_snoc tr r a r' : steps tr r → step r a r' → steps (tr ++ [a]) r'.

(** ** What a run says *)

(** The activity last registered under a name. *)
Definition registration (tr : list action) (name : string) : option Activity :=
  last (omap (λ a, match a with
    | Registered act => if decide (act_Name act = name) then Some act else None
    | _ => None end) tr).

Definition accepted (tr : list action) : list ActivityInvocation :=
  omap (λ a, match a with Dispatched inv None => Some inv | _ => None end) tr.

Definition executions (tr : list action) : list goroutine :=
  omap (λ a, match a with Executed g _ => Some g | _ => None end) tr.

Definition failures (tr : list action) : list error :=
  omap (λ a, match a with Executed g (Some err) => Some (activity_failed (go_invocation g) err)
             | _ => None end) tr.

(** [g] runs the activity that was registered when its invocation was
    dispatched. *)
Definition launched_by (tr : list action) (g : goroutine) : Prop :=
  ∃ tr1 tr2, tr = tr1 ++ Dispatched (go_invocation g) None :: tr2 ∧
    registration tr1 (inv_ActivityName (go_invocation g)) = Some (go_activity g).

Record run_ok (tr : list action) (r : runner) : Prop := {
  ro_names : ∀ name, rn_activities r !! name = registration tr name;
  ro_wg : rn_wg r = length (rn_executing r) + rn_leaving r;
  ro_errors : rn_errors r = failures tr;
  ro_once : go_invocation <$> (executions tr ++ rn_executing r) ≡ₚ accepted tr;
  ro_executing : ∀ g, g ∈ rn_executing r → launched_by tr g;
  ro_executed : ∀ g err, Executed g err ∈ tr →
    launched_by tr g ∧ may_return (go_activity g) (inv_Input (go_invocation g)) err;
  ro_refused : ∀ inv e tr1 tr2, tr = tr1 ++ Dispatched inv (Some e) :: tr2 →
    e = not_registered inv ∧ registration tr1 (inv_ActivityName inv) = None
}.

Lemma launched_by_snoc tr a g : launched_by tr g → launched_by (tr ++ [a]) g.
Proof. intros (tr1 & tr2 & -> & Hr). exists tr1, (tr2 ++ [a]). by rewrite <-app_assoc. Qed.

Lemma snoc_split {A} (l : list A) x l1 y l2 :
  l ++ [x] = l1 ++ y :: l2 → (l2 = [] ∧ l = l1 ∧ x = y) ∨ ∃ l2', l2 = l2' ++ [x] ∧ l = l1 ++ y :: l2'.
Proof.
  destruct l2 as [|z l2 _] using rev_ind.
  - intros [-> ->]%app_inj_tail. by left.
  - intros H. right. replace (l1 ++ y :: l2 ++ [z]) with ((l1 ++ y :: l2) ++ [z]) in H
      by by rewrite <-app_assoc.
    apply app_inj_tail in H as [-> ->]. by exists l2.
Qed.

Lemma registration_snoc tr a name :
  registration (tr ++ [a]) name =
  match a with
  | Registered act => if decide (act_Name act = name) then Some act else registration tr name
  | _ => registration tr name
  end.
Proof.
  unfold registration. rewrite omap_app. cbn.
  destruct a as [act| | |]; [|by rewrite app_nil_r..]. case_decide; [by rewrite last_snoc|].
  by rewrite app_nil_r.
Qed.

(** The clauses of [run_ok] about the past survive any further step. *)
Lemma executed_snoc tr a g err :
  (∀ g err, Executed g err ∈ tr →
     launched_by tr g ∧ may_return (go_activity g) (inv_Input (go_invocation g)) err) →
  (a = Executed g err → launched_by tr g ∧ may_return (go_activity g) (inv_Input (go_invocation g)) err) →
  Executed g err ∈ tr ++ [a] →
  launched_by (tr ++ [a]) g ∧ may_return (go_activity g) (inv_Input (go_invocation g)) err.
Proof.
  intros Hd Ha [Hin|Hin%list_elem_of_singleton]%elem_of_app.
  - destruct (Hd g err Hin). split; [by apply launched_by_snoc|done].
  - destruct (Ha (eq_sym Hin)). split; [by apply launched_by_snoc|done].
Qed.

Lemma refused_snoc tr a inv e tr1 tr2 :
  (∀ inv e tr1 tr2, tr = tr1 ++ Dispatched inv (Some e) :: tr2 →
     e = not_registered inv ∧ registration tr1 (inv_ActivityName inv) = None) →
  (a = Dispatched inv (Some e) → e = not_registered inv ∧ registration tr (inv_ActivityName inv) = None) →
  tr ++ [a] = tr1 ++ Dispatched inv (Some e) :: tr2 →
  e = not_registered inv ∧ registration tr1 (inv_ActivityName inv) = None.
Proof. intros Hr Ha [(-> & -> & Heq)|(tr2' & -> & ->)]%snoc_split; [by apply Ha|by eapply Hr]. Qed.

Lemma delete_perm {A} (l : list A) i x : l !! i = Some x → l ≡ₚ x :: delete i l.
Proof. intros Hi. by apply delete_Permutation. Qed.

Lemma steps_ok tr r : steps tr r → run_ok tr r.
Proof.
  induction 1 as [|tr r a r' _ [Hn Hw He Ho Hx Hd Hr] Hs].
  { constructor; try done; try (by intros ? ?%elem_of_nil); [by intros ? ? ?%elem_of_nil|by intros ? ? []]. }
  constructor.
  - intros name. rewrite registration_snoc, <-Hn. destruct Hs as [r act|r inv r' err HD|r i g err _ _|r _].
    + cbn. case_decide as Hname; [by rewrite Hname, lookup_insert_eq|by rewrite lookup_insert_ne].
    + unfold Dispatch in HD. destruct (rn_activities r !! inv_ActivityName inv); by injection HD as <- _.
    + by destruct err.
    + done.
  - destruct Hs as [r act|r inv r' err HD|r i g err Hi _|r Hl].
    + done.
    + unfold Dispatch in HD. destruct (rn_activities r !! inv_ActivityName inv); injection HD as <- _; cbn;
        [rewrite length_app; cbn; lia|done].
    + pose proof (Permutation_length (delete_perm _ _ _ Hi)) as Hl. cbn in Hl.
      destruct err; cbn; lia.
    + cbn. lia.
  - unfold failures. rewrite omap_app. fold (failures tr). rewrite <-He.
    destruct Hs as [r act|r inv r' err HD|r i g err _ _|r _]; cbn; rewrite ?app_nil_r; try done.
    + unfold Dispatch in HD. destruct (rn_activities r !! inv_ActivityName inv); injection HD as <- <-;
        cbn; by rewrite ?app_nil_r.
    + destruct err; cbn; by rewrite ?app_nil_r.
  - unfold accepted, executions. rewrite !omap_app. fold (accepted tr) (executions tr). rewrite <-Ho.
    destruct Hs as [r act|r inv r' err HD|r i g err Hi _|r _]; cbn; rewrite ?app_nil_r; try done.
    + unfold Dispatch in HD. destruct (rn_activities r !! inv_ActivityName inv); injection HD as <- <-;
        cbn; rewrite ?app_nil_r; [|done]. by rewrite app_assoc, fmap_app.
    + assert (rn_executing (executed r i g err) = delete i (rn_executing r)) as -> by by destruct err.
      rewrite <-app_assoc. cbn [app]. by rewrite <-(delete_perm _ _ _ Hi).
  - intros g. destruct Hs as [r act|r inv r' err HD|r i g' err Hi _|r _]; cbn.
    + intros Hg. by apply launched_by_snoc, Hx.
    + unfold Dispatch in HD. destruct (rn_activities r !! inv_ActivityName inv) as [act|] eqn:Hact;
        injection HD as <- <-; cbn; [|intros Hg; by apply launched_by_snoc, Hx].
      intros [Hg| ->%list_elem_of_singleton]%elem_of_app; [by apply launched_by_snoc, Hx|].
      exists tr, []. cbn. by rewrite <-Hn.
    + intros Hg. apply launched_by_snoc, Hx.
      apply (elem_of_Permutation_proper _ _ _ (delete_perm _ _ _ Hi)). destruct err; by right.
    + intros Hg. by apply launched_by_snoc, Hx.
  - intros g err. apply executed_snoc; [done|]. intros ->. inversion Hs; subst.
    split; [|done]. apply Hx. by eapply list_elem_of_lookup_2.
  - intros inv e tr1 tr2. apply refused_snoc; [done|]. intros ->. inversion Hs as [|? ? ? ? HD| |]; subst.
    unfold Dispatch in HD. rewrite <-Hn. destruct (rn_activities r !! inv_ActivityName inv); by injection HD.
Qed.


(** ** Waiting ends *)

(** C37: Nothing keeps [Wait] from returning: from every state a run can reach,
    if activities return, the goroutines alone can empty the group. *)
Theorem Wait_returns tr r :
  (∀ a input, ∃ err, may_return a input err) → steps tr r →
  ∃ tr' r', steps (tr ++ tr') r' ∧ Wait r' ∧ accepted tr' = [].
Proof.
  intros Hret. remember (length (rn_executing r) + rn_wg r) as n eqn:Hlen. revert tr r Hlen.
  induction n as [n IH] using lt_wf_ind. intros tr r -> Hs.
  pose proof (ro_wg _ _ (steps_ok _ _ Hs)) as Hw.
  destruct (rn_executing r) as [|g gs] eqn:Hg.
  - destruct (decide (rn_leaving r = 0)) as [Hz|Hz].
    { exists [], r. rewrite app_nil_r. unfold Wait. split_and!; [done| |done]. cbn in Hw. lia. }
    destruct (IH (length (rn_executing (left_group r)) + rn_wg (left_group r))) with (tr := tr ++ [Left])
      (r := left_group r) as (tr' & r' & Hs' & HW & Hacc); [|done|by apply (steps_snoc _ r), step_leave|].
    { cbn. rewrite Hg. cbn in *. lia. }
    exists (Left :: tr'), r'. by rewrite <-app_assoc in Hs'.
  - destruct (Hret (go_activity g) (inv_Input (go_invocation g))) as [err Herr].
    assert (rn_executing r !! 0 = Some g) as H0 by by rewrite Hg.
    destruct (IH (length (rn_executing (executed r 0 g err)) + rn_wg (executed r 0 g err)))
      with (tr := tr ++ [Executed g err]) (r := executed r 0 g err) as (tr' & r' & Hs' & HW & Hacc);
      [|done|by apply (steps_snoc _ r), (step_execute r 0)|].
    { destruct err; cbn; rewrite Hg; cbn; lia. }
    exists (Executed g err :: tr'), r'. by rewrite <-app_assoc in Hs'.
Qed.
End runner.
