(* ===== verification/Rfc3339.v ===== *)
(** * Rfc3339: times as text

    The stores of [adapters/sqlitestore/] and [adapters/dynamostore/] keep times
    as text: [t.Format(time.RFC3339Nano)], read back by [time.Parse].  This file
    models the two for UTC times of the years 1 to 9999: the text has the
    fraction of the second without trailing zeros, and none when it is zero. *)

From Stdlib Require Import Ascii.
From S2P Require Import Prelude Types.

#[local] Open Scope Z_scope.

(** Linear arithmetic with quotients and remainders by constants. *)
Ltac lia_div := Z.to_euclidean_division_equations; lia.

(** ** The calendar *)

(** The days before each month of a common year. *)
Definition month_starts : list Z := [0; 31; 59; 90; 120; 151; 181; 212; 243; 273; 304; 334].

Definition is_leap (y : Z) : bool :=
  (y mod 4 =? 0) && (negb (y mod 100 =? 0) || (y mod 400 =? 0)).

(** The days of the year before month [m]. *)
Definition days_before (y m : Z) : Z :=
  nth (Z.to_nat (m - 1)) month_starts 0 + (if (2 <? m) && is_leap y then 1 else 0).

Definition days_in (y m : Z) : Z :=
  if (m =? 2) && is_leap y then 29
  else nth (Z.to_nat (m - 1)) [31; 28; 31; 30; 31; 30; 31; 31; 30; 31; 30; 31] 0.

(** Days since 1 January of the year 1. *)
Definition days_of_date (y m d : Z) : Z :=
  let p := y - 1 in 365 * p + p / 4 - p / 100 + p / 400 + days_before y m + (d - 1).

(** The month of a day of a year, counted down from December. *)
Fixpoint month_of (fuel : nat) (y yday : Z) : Z :=
  match fuel with
  | O => 1
  | S n => let m := Z.of_nat fuel + 1 in
           if days_before y m <=? yday then m else month_of n y yday
  end.

Definition date_of_days (n : Z) : Z * Z * Z :=
  let n400 := n / 146097 in let r := n mod 146097 in
  let n100 := Z.min 3 (r / 36524) in let r := r - 36524 * n100 in
  let n4 := r / 1461 in let r := r mod 1461 in
  let n1 := Z.min 3 (r / 365) in let yday := r - 365 * n1 in
  let y := 400 * n400 + 100 * n100 + 4 * n4 + n1 + 1 in
  let m := month_of 11 y yday in (y, m, yday - days_before y m + 1).

(** Months and days of a year, checked day by day for both kinds of year. *)
Definition month_ok (y yday : Z) : bool :=
  let m := month_of 11 y yday in
  (1 <=? m) && (m <=? 12) && (days_before y m <=? yday) && (yday - days_before y m <? days_in y m).

Fixpoint all_below (f : Z → bool) (fuel : nat) (n : Z) : bool :=
  match fuel with O => true | S k => f n && all_below f k (n + 1) end.

Lemma all_below_spec f fuel n :
  all_below f fuel n = true → ∀ x, n <= x < n + Z.of_nat fuel → f x = true.
Proof.
  revert n. induction fuel as [|k IH]; intros n; [lia|].
  intros [Hn Hk]%andb_prop x Hx. destruct (decide (x = n)) as [->|]; [done|].
  apply (IH (n + 1)); [done|lia].
Qed.

Lemma month_of_spec y yday :
  0 <= yday < (if is_leap y then 366 else 365) →
  1 <= month_of 11 y yday <= 12 ∧
  0 <= yday - days_before y (month_of 11 y yday) < days_in y (month_of 11 y yday).
Proof.
  assert (∀ y', is_leap y' = is_leap y → month_ok y' yday = month_ok y yday) as Hleap.
  { intros y' Hy. assert (∀ m, days_before y' m = days_before y m ∧ days_in y' m = days_in y m) as Hb
      by (intros m; unfold days_before, days_in; by rewrite Hy).
    assert (∀ fuel, month_of fuel y' yday = month_of fuel y yday) as Hm
      by (induction fuel as [|n IH]; cbn [month_of]; [done|by rewrite (proj1 (Hb _)), IH]).
    unfold month_ok. by rewrite Hm, (proj1 (Hb _)), (proj2 (Hb _)). }
  assert (all_below (month_ok 1) 365 0 = true ∧ all_below (month_ok 4) 366 0 = true) as [H1 H4]
    by (split; vm_compute; reflexivity).
  intros Hd. assert (month_ok y yday = true) as Hok.
  { destruct (is_leap y) eqn:Hy.
    - rewrite <-(Hleap 4) by (rewrite ?Hy; reflexivity). by apply (all_below_spec _ _ _ H4); lia.
    - rewrite <-(Hleap 1) by (rewrite ?Hy; reflexivity). by apply (all_below_spec _ _ _ H1); lia. }
  unfold month_ok in Hok. rewrite !andb_true_iff, !Z.leb_le, Z.ltb_lt in Hok. lia.
Qed.

(** The last year of four years has 366 days where it is a leap year. *)
Lemma last_day_leap n400 n100 n4 :
  0 <= n100 <= 3 → 0 <= n4 <= 24 → (n4 = 24 → n100 = 3) →
  is_leap (400 * n400 + 100 * n100 + 4 * n4 + 3 + 1) = true.
Proof.
  intros H100 H4 H24. unfold is_leap. rewrite andb_true_iff, orb_true_iff, negb_true_iff.
  rewrite !Z.eqb_eq, Z.eqb_neq. split.
  { replace (_ + 1) with ((100 * n400 + 25 * n100 + n4 + 1) * 4) by lia. by apply Z.mod_mul. }
  destruct (decide (n4 = 24)) as [->|].
  - right. rewrite H24 by done. replace (_ + 1) with ((n400 + 1) * 400) by lia. by apply Z.mod_mul.
  - left. replace (_ + 1) with ((4 * n4 + 4) + (4 * n400 + n100) * 100) by lia.
    rewrite Z_mod_plus_full, Z.mod_small; lia.
Qed.

(** The date of a day is a date, of that day. *)
Lemma date_of_days_spec n y m d :
  0 <= n → date_of_days n = (y, m, d) →
  days_of_date y m d = n ∧ 1 <= y ∧ (n < 3652059 → y <= 9999) ∧ 1 <= m <= 12 ∧ 1 <= d <= days_in y m.
Proof.
  intros Hn. unfold date_of_days. cbv zeta.
  set (n400 := n / 146097). set (r := n mod 146097).
  set (n100 := Z.min 3 (r / 36524)). set (r' := r - 36524 * n100).
  set (n4 := r' / 1461). set (r'' := r' mod 1461). set (n1 := Z.min 3 (r'' / 365)).
  set (yday := r'' - 365 * n1). set (y' := 400 * n400 + 100 * n100 + 4 * n4 + n1 + 1).
  assert (0 <= n400 ∧ n = 146097 * n400 + r ∧ 0 <= r < 146097) as (? & ? & ?) by (subst n400 r; lia_div).
  assert (0 <= n100 <= 3 ∧ r = 36524 * n100 + r' ∧ 0 <= r' <= 36524 ∧ (r' = 36524 → n100 = 3))
    as (? & ? & ? & ?) by (subst n100 r'; lia_div).
  assert (0 <= n4 <= 24 ∧ r' = 1461 * n4 + r'' ∧ 0 <= r'' <= 1460) as (? & ? & ?)
    by (subst n4 r''; lia_div).
  assert (0 <= n1 <= 3 ∧ r'' = 365 * n1 + yday ∧ 0 <= yday < 366 ∧ (yday = 365 → n1 = 3))
    as (? & ? & ? & ?) by (subst n1 yday; lia_div).
  clearbody n400 r n100 r' n4 r'' n1 yday.
  destruct (month_of_spec y' yday) as [Hm Hd].
  { destruct (decide (yday = 365)) as [->|]; [|destruct (is_leap y'); lia].
    subst y'. replace n1 with 3 by lia. rewrite last_day_leap by lia. lia. } set (mo := month_of 11 y' yday) in *.
  clearbody mo. intros [= <- <- <-]. split_and!; [|subst y'; lia_div..].
  unfold days_of_date. cbv zeta.
  replace ((y' - 1) / 4) with (100 * n400 + 25 * n100 + n4) by (subst y'; lia_div).
  replace ((y' - 1) / 100) with (4 * n400 + n100) by (subst y'; lia_div).
  replace ((y' - 1) / 400) with n400 by (subst y'; lia_div). subst y'. lia.
Qed.

(** ** Digits *)

Definition digit (d : Z) : ascii := ascii_of_N (Z.to_N (48 + d)).

Definition digit_value (c : ascii) : option Z :=
  let v := Z.of_N (N_of_ascii c) - 48 in if decide (0 <= v <= 9) then Some v else None.

Lemma digit_value_digit d : 0 <= d <= 9 → digit_value (digit d) = Some d.
Proof.
  intros Hd. unfold digit_value, digit. rewrite N_ascii_embedding by lia.
  rewrite Z2N.id by lia. rewrite decide_True by lia. f_equal. lia.
Qed.

(** The last [w] decimal digits of [n]. *)
Fixpoint pad (w : nat) (n : Z) : string :=
  match w with
  | O => ""
  | S w => String (digit (n / 10 ^ Z.of_nat w)) (pad w (n mod 10 ^ Z.of_nat w))
  end.

Fixpoint read (w : nat) (acc : Z) (s : string) : option (Z * string) :=
  match w with
  | O => Some (acc, s)
  | S w =>
      match s with
      | String c s => match digit_value c with Some d => read w (10 * acc + d) s | None => None end
      | EmptyString => None
      end
  end.

(** The digits of a fraction of [10 ^ w] parts, up to the last that is not zero. *)
Fixpoint pad_frac (w : nat) (n : Z) : string :=
  match w with
  | O => ""
  | S w => if decide (n = 0) then ""
           else String (digit (n / 10 ^ Z.of_nat w)) (pad_frac w (n mod 10 ^ Z.of_nat w))
  end.

(** At most [w] digits of a fraction, in [10 ^ w] parts. *)
Fixpoint read_frac (w : nat) (s : string) : Z * string :=
  match w with
  | O => (0, s)
  | S w' =>
      match s with
      | String c rest =>
          match digit_value c with
          | Some d => let '(v, rest) := read_frac w' rest in (d * 10 ^ Z.of_nat w' + v, rest)
          | None => (0, s)
          end
      | EmptyString => (0, s)
      end
  end.

Lemma pow10_succ w : 10 ^ Z.of_nat (S w) = 10 * 10 ^ Z.of_nat w.
Proof. rewrite Nat2Z.inj_succ, Z.pow_succ_r; lia. Qed.

Lemma leading_digit w n :
  0 <= n < 10 ^ Z.of_nat (S w) →
  0 <= n / 10 ^ Z.of_nat w <= 9 ∧ 0 <= n mod 10 ^ Z.of_nat w < 10 ^ Z.of_nat w ∧
  n = n / 10 ^ Z.of_nat w * 10 ^ Z.of_nat w + n mod 10 ^ Z.of_nat w.
Proof.
  rewrite pow10_succ. pose proof (Z.pow_pos_nonneg 10 (Z.of_nat w) ltac:(lia) ltac:(lia)) as Hp.
  set (b := 10 ^ Z.of_nat w) in *. clearbody b. intros Hn.
  pose proof (Z.mod_pos_bound n b Hp). pose proof (Z.div_mod n b ltac:(lia)).
  pose proof (Z.div_pos n b ltac:(lia) Hp). pose proof (Z.div_lt_upper_bound n b 10 Hp ltac:(lia)). lia.
Qed.

Lemma append_cons c s rest : String c s +:+ rest = String c (s +:+ rest).
Proof. done. Qed.

Lemma append_nil rest : "" +:+ rest = rest.
Proof. done. Qed.

Lemma append_one c rest : String c "" +:+ rest = String c rest.
Proof. done. Qed.

Lemma append_assoc (a b c : string) : (a +:+ b) +:+ c = a +:+ (b +:+ c).
Proof. induction a as [|x a IH]; [done|]. by rewrite !append_cons, IH. Qed.

Lemma read_pad w n acc rest :
  0 <= n < 10 ^ Z.of_nat w → read w acc (pad w n +:+ rest) = Some (acc * 10 ^ Z.of_nat w + n, rest).
Proof.
  revert n acc. induction w as [|w IH]; intros n acc Hn; cbn [pad].
  { rewrite append_nil. cbn in *. do 2 f_equal. lia. }
  destruct (leading_digit w n Hn) as (Hd & Hm & Hsum). rewrite append_cons. cbn [read].
  rewrite digit_value_digit by lia. rewrite IH by lia. do 2 f_equal. rewrite pow10_succ. lia.
Qed.

Lemma read_pad_frac w n rest :
  0 <= n < 10 ^ Z.of_nat w → (∀ c s, rest = String c s → digit_value c = None) →
  read_frac w (pad_frac w n +:+ rest) = (n, rest).
Proof.
  revert n. induction w as [|w IH]; intros n Hn Hrest; cbn [pad_frac].
  { rewrite append_nil. cbn in *. f_equal. lia. }
  case_decide as Hz.
  - subst. rewrite append_nil. cbn [read_frac]. destruct rest as [|c s]; [done|]. by rewrite (Hrest c s).
  - destruct (leading_digit w n Hn) as (Hd & Hm & Hsum).
    rewrite append_cons. cbn [read_frac]. rewrite digit_value_digit by lia. rewrite IH by done. f_equal. lia.
Qed.

(** ** Format and Parse *)

Definition ns_per_second : Z := 1000000000.
Definition ns_per_day : Z := 86400 * ns_per_second.

(** The date and time of day, to the second. *)
Definition format_seconds (days seconds : Z) : string :=
  let '(y, m, d) := date_of_days days in
  pad 4 y +:+ "-" +:+ pad 2 m +:+ "-" +:+ pad 2 d +:+ "T" +:+
  pad 2 (seconds / 3600) +:+ ":" +:+ pad 2 (seconds / 60 mod 60) +:+ ":" +:+ pad 2 (seconds mod 60).

Definition format_fraction (ns : Z) : string :=
  if decide (ns = 0) then "" else "." +:+ pad_frac 9 ns.

(** [t.Format(time.RFC3339Nano)] *)
Definition Format (t : time) : string :=
  format_seconds (t / ns_per_day) (t mod ns_per_day / ns_per_second) +:+
  format_fraction (t mod ns_per_second) +:+ "Z".

(** Reads [w] digits and the separator [c] after them. *)
Definition field (w : nat) (c : ascii) (s : string) : option (Z * string) :=
  match read w 0 s with
  | Some (v, String c' s) => if decide (c' = c) then Some (v, s) else None
  | _ => None
  end.

(** [time.Parse(time.RFC3339Nano, s)] of a UTC time; [None] is an error. *)
Definition Parse (s : string) : option time :=
  '(y, s) ← field 4 "-" s;
  '(m, s) ← field 2 "-" s;
  '(d, s) ← field 2 "T" s;
  '(hour, s) ← field 2 ":" s;
  '(minute, s) ← field 2 ":" s;
  '(sec, s) ← read 2 0 s;
  let '(ns, s) := match s with
                  | String c rest => if decide (c = "."%char) then read_frac 9 rest else (0, s)
                  | EmptyString => (0, s)
                  end in
  if decide (s = "Z" ∧ 1 <= m <= 12 ∧ 1 <= d <= days_in y m ∧ hour < 24 ∧ minute < 60 ∧ sec < 60) then
    Some (days_of_date y m d * ns_per_day + (3600 * hour + 60 * minute + sec) * ns_per_second + ns)
  else None.

(** The years 1 to 9999. *)
Definition readable (t : time) : Prop := 0 <= t < 3652059 * ns_per_day.

Lemma field_pad w c n rest :
  0 <= n < 10 ^ Z.of_nat w → field w c (pad w n +:+ String c rest) = Some (n, rest).
Proof.
  intros Hn. unfold field. rewrite read_pad by done. cbv beta iota.
  by rewrite decide_True.
Qed.

Lemma read_fraction ns :
  0 <= ns < ns_per_second →
  match format_fraction ns +:+ "Z" with
  | String c rest =>
      if decide (c = "."%char) then read_frac 9 rest else (0, format_fraction ns +:+ "Z")
  | EmptyString => (0, format_fraction ns +:+ "Z")
  end = (ns, "Z").
Proof.
  intros Hns. unfold format_fraction. case_decide as Hz; [by subst|]. rewrite append_assoc.
  set (rest := pad_frac 9 ns +:+ "Z"). change ("." +:+ rest) with (String "." rest). cbv beta iota.
  rewrite decide_True by done. apply read_pad_frac; [done|]. by intros c s [= <- <-].
Qed.

Lemma days_in_bound y m : 1 <= m <= 12 → days_in y m <= 31.
Proof.
  intros Hm. unfold days_in. destruct (_ && _); [done|].
  assert (In m [1; 2; 3; 4; 5; 6; 7; 8; 9; 10; 11; 12]) as Hin by (cbn; lia).
  repeat (destruct Hin as [<-|Hin]; [done|]). by destruct Hin.
Qed.

(** Every time of the years 1 to 9999 survives its text: [time.Parse] reads what
    [Format] wrote, to the nanosecond. *)
Lemma Parse_Format_spec t : readable t → Parse (Format t) = Some t.
Proof.
  unfold readable, Format. intros Ht.
  set (days := t / ns_per_day). set (secs := t mod ns_per_day / ns_per_second).
  set (ns := t mod ns_per_second).
  assert (0 <= days < 3652059 ∧ 0 <= secs < 86400 ∧ 0 <= ns < ns_per_second ∧
    t = days * ns_per_day + secs * ns_per_second + ns) as (Hdays & Hsecs & Hns & Hsum).
  { subst days secs ns. unfold ns_per_day, ns_per_second in *. lia_div. }
  clearbody days secs ns. unfold format_seconds.
  destruct (date_of_days days) as [[y m] d] eqn:Hdate.
  apply date_of_days_spec in Hdate as (Hd & Hy1 & Hy2 & Hm & Hd'); [|lia].
  specialize (Hy2 ltac:(lia)). pose proof (days_in_bound y m Hm). rewrite !append_assoc. unfold Parse.
  assert (10 ^ Z.of_nat 2 = 100 ∧ 10 ^ Z.of_nat 4 = 10000) as [E2 E4] by done.
  rewrite !append_one.
  rewrite field_pad by lia. cbn [mbind option_bind]. rewrite field_pad by lia. cbn [mbind option_bind].
  rewrite field_pad by lia. cbn [mbind option_bind]. rewrite field_pad by lia_div. cbn [mbind option_bind].
  rewrite field_pad by lia_div. cbn [mbind option_bind].
  rewrite read_pad by lia_div. cbn [mbind option_bind]. rewrite read_fraction by done.
  assert (0 * 10 ^ Z.of_nat 2 + secs mod 60 = secs mod 60) as -> by lia.
  rewrite decide_True by (split; [done|]; lia_div). f_equal. rewrite Hd.
  assert (3600 * (secs / 3600) + 60 * (secs / 60 mod 60) + secs mod 60 = secs)
    as -> by lia_div. lia.
Qed.

Lemma Format_inj t1 t2 : readable t1 → readable t2 → Format t1 = Format t2 → t1 = t2.
Proof. intros H1 H2 Heq. apply Parse_Format_spec in H1, H2. congruence. Qed.

(** [t, _ = time.Parse(time.RFC3339Nano, s)]: the zero time when [s] is no time. *)
Definition parse_time (s : string) : time := default 0 (Parse s).

Lemma parse_time_Format t : readable t → parse_time (Format t) = t.
Proof. intros Ht. unfold parse_time. by rewrite Parse_Format_spec. Qed.

(** ** The order of the texts *)

Lemma leb_prefix p a b : String.leb (p +:+ a) (p +:+ b) = String.leb a b.
Proof.
  induction p as [|c p IH]; [done|]. rewrite !append_cons. unfold String.leb in *. cbn.
  assert (Ascii.compare c c = Eq) as -> by (unfold Ascii.compare; apply N.compare_refl). done.
Qed.

(** Within a second the text of a later time sorts before that of the second
    itself: ['.'] comes before ['Z']. *)
Lemma Format_out_of_order t f :
  t mod ns_per_second = 0 → 0 < f < ns_per_second →
  String.leb (Format (t + f)) (Format t) = true ∧ String.leb (Format t) (Format (t + f)) = false.
Proof.
  intros Ht Hf. unfold Format.
  assert ((t + f) / ns_per_day = t / ns_per_day ∧
    (t + f) mod ns_per_day / ns_per_second = t mod ns_per_day / ns_per_second ∧
    (t + f) mod ns_per_second = f) as (-> & -> & ->).
  { unfold ns_per_day, ns_per_second in *. lia_div. }
  rewrite Ht, !leb_prefix. unfold format_fraction. rewrite decide_False, decide_True by lia. done.
Qed.
