(* ===== verification/Json.v ===== *)
(** * Json: what the stores keep of maps

    The stores write maps with [json.Marshal] and read them with
    [json.Unmarshal].  A document is modelled by its tree, not its text.  A
    number read into an [any] is a [float64] and a time is its text, so the
    types of the values of a map are not kept.  Strings are taken to be valid
    UTF-8, which [json.Marshal] otherwise makes them. *)

From S2P Require Import Prelude Floats Types Rfc3339.

Inductive json :=
  | JNull
  | JBool (b : bool)
  | JNum (z : Z)           (* a number of whole value *)
  | JFrac (f : float64)   (* another number, by the float nearest to it *)
  | JStr (s : string)
  | JObj (m : gmap string json).

(** [json.Marshal] of an [any]; a float is written with the digits that read back
    as the same float. *)
Fixpoint Marshal (v : value) : json :=
  match v with
  | VNil | VMap None => JNull
  | VStr s => JStr s
  | VInt z => JNum z
  | VFloat f => if whole f then JNum (numerator f) else JFrac f
  | VBool b => JBool b
  | VTime t => JStr (Format t)
  | VMap (Some m) => JObj (Marshal <$> m)
  end.

(** [json.Unmarshal] into an [any]. *)
Fixpoint Unmarshal (j : json) : value :=
  match j with
  | JNull => VNil
  | JBool b => VBool b
  | JNum z => VFloat (float_of_int z)
  | JFrac f => VFloat f
  | JStr s => VStr s
  | JObj m => VMap (Some (Unmarshal <$> m))
  end.

(** ** Maps *)

Definition Marshal_map (m : gomap value) : json := Marshal (VMap m).

(** Into a [map[string]any] that holds [m]: null makes it nil, an object adds its
    members, anything else is an error, which the stores ignore. *)
Definition Unmarshal_map (j : json) (m : gomap value) : gomap value :=
  match j with
  | JNull => None
  | JObj members => Some ((Unmarshal <$> members) ∪ gm_map m)
  | _ => m
  end.

Definition Marshal_strings (m : gomap string) : json :=
  match m with None => JNull | Some m => JObj (JStr <$> m) end.

(** A member of a [map[string]string]; another type than a string is the zero
    string. *)
Definition string_member (j : json) : string := match j with JStr s => s | _ => "" end.

Definition Unmarshal_strings (j : json) (m : gomap string) : gomap string :=
  match j with
  | JNull => None
  | JObj members => Some ((string_member <$> members) ∪ gm_map m)
  | _ => m
  end.

(** ** Round trips *)

(** How a value reads back. *)
Fixpoint as_json (v : value) : value :=
  match v with
  | VNil | VMap None => VNil
  | VStr s => VStr s
  | VInt z => VFloat (float_of_int z)
  | VFloat f => VFloat (if whole f then float_of_int (numerator f) else f)
  | VBool b => VBool b
  | VTime t => VStr (Format t)
  | VMap (Some m) => VMap (Some (as_json <$> m))
  end.

Definition map_as_json (m : gomap value) : gomap value := match m with None => None | Some m => Some (as_json <$> m) end.

Lemma Unmarshal_Marshal v : Unmarshal (Marshal v) = as_json v.
Proof.
  induction v as [| | |f| | | |m IH] using value_nested_ind; try done.
  { cbn. by destruct (whole f). }
  cbn. do 2 f_equal. rewrite <-map_fmap_compose. apply map_fmap_ext. intros k x Hk. by apply (IH k x Hk).
Qed.

Lemma Unmarshal_Marshal_map m m0 :
  gm_map m0 = ∅ → Unmarshal_map (Marshal_map m) m0 = map_as_json m.
Proof.
  intros Hm. destruct m as [m|]; [|done]. unfold Unmarshal_map. cbn. rewrite Hm, (right_id_L ∅ (∪)).
  f_equal. rewrite <-map_fmap_compose. apply map_fmap_ext. intros k x _. apply Unmarshal_Marshal.
Qed.

Lemma Unmarshal_Marshal_strings m m0 :
  gm_map m0 = ∅ → Unmarshal_strings (Marshal_strings m) m0 = m.
Proof.
  intros Hm. destruct m as [m|]; [|done]. unfold Unmarshal_strings. cbn.
  rewrite Hm, (right_id_L ∅ (∪)), <-map_fmap_compose. f_equal. etransitivity; [|apply map_fmap_id].
  by apply map_fmap_ext.
Qed.

#[global] Arguments Marshal_map : simpl never.
#[global] Arguments Unmarshal_map : simpl never.
#[global] Arguments Marshal_strings : simpl never.
#[global] Arguments Unmarshal_strings : simpl never.

(** ** Structs

    An object with a member per field; [Unmarshal] of an object into the zero
    struct, whose fields a missing member leaves zero. *)

Definition struct (fields : list (string * json)) : json := JObj (list_to_map fields).

Definition member (j : json) (name : string) : json :=
  match j with JObj m => default JNull (m !! name) | _ => JNull end.

Definition int_member (j : json) : Z := match j with JNum z => z | _ => 0%Z end.

Definition float_member (j : json) : float64 :=
  match j with JNum z => float_of_int z | JFrac f => f | _ => float_of_int 0 end.

Definition Marshal_float (f : float64) : json := Marshal (VFloat f).

Lemma float_member_Marshal f : is_float64 f → float_member (Marshal_float f) = f.
Proof. intros Hf. unfold Marshal_float. cbn. destruct (whole f) eqn:Hw; [by apply float_of_whole|done]. Qed.

#[global] Arguments Marshal_float : simpl never.

Definition Marshal_input (i : ActivityInput) : json :=
  struct [("WorkflowType", JStr (ai_WorkflowType i)); ("AggregateType", JStr (ai_AggregateType i));
          ("AggregateID", JStr (ai_AggregateID i)); ("CorrelationID", JStr (ai_CorrelationID i));
          ("Params", Marshal_map (ai_Params i)); ("ScheduledAt", JStr (Format (ai_ScheduledAt i)));
          ("Transition", JStr (ai_Transition i)); ("SourceState", JStr (ai_SourceState i));
          ("EventID", JStr (ai_EventID i))].

Definition Unmarshal_input (j : json) : ActivityInput :=
  mkActivityInput (string_member (member j "WorkflowType")) (string_member (member j "AggregateType"))
    (string_member (member j "AggregateID")) (string_member (member j "CorrelationID"))
    (Unmarshal_map (member j "Params") None) (parse_time (string_member (member j "ScheduledAt")))
    (string_member (member j "Transition")) (string_member (member j "SourceState"))
    (string_member (member j "EventID")).

(** A [*RetryPolicy]. *)
Definition Marshal_retry (p : option RetryPolicy) : json :=
  match p with
  | None => JNull
  | Some p => struct [("MaxAttempts", JNum (rp_MaxAttempts p)); ("InitialBackoff", JNum (rp_InitialBackoff p));
                      ("MaxBackoff", JNum (rp_MaxBackoff p)); ("BackoffFactor", Marshal_float (rp_BackoffFactor p))]
  end.

Definition Unmarshal_retry (j : json) : option RetryPolicy :=
  match j with
  | JObj _ => Some (mkRetryPolicy (int_member (member j "MaxAttempts")) (int_member (member j "InitialBackoff"))
                      (int_member (member j "MaxBackoff")) (float_member (member j "BackoffFactor")))
  | _ => None
  end.

Definition Marshal_result (r : ActivityResult) : json :=
  struct [("Output", Marshal_map (ar_Output r)); ("Error", JStr (ar_Error r))].

Definition Unmarshal_result (j : json) : ActivityResult :=
  mkActivityResult (Unmarshal_map (member j "Output") None) (string_member (member j "Error")).

Lemma Unmarshal_Marshal_input i :
  readable (ai_ScheduledAt i) →
  Unmarshal_input (Marshal_input i) =
  mkActivityInput (ai_WorkflowType i) (ai_AggregateType i) (ai_AggregateID i) (ai_CorrelationID i)
    (map_as_json (ai_Params i)) (ai_ScheduledAt i) (ai_Transition i) (ai_SourceState i) (ai_EventID i).
Proof.
  intros Ht. unfold Unmarshal_input, Marshal_input, struct, member. cbn [list_to_map foldr uncurry].
  simplify_map_eq. cbn [default string_member]. by rewrite Unmarshal_Marshal_map, parse_time_Format.
Qed.

Definition policy_ok (p : option RetryPolicy) : Prop :=
  ∀ q, p = Some q → is_float64 (rp_BackoffFactor q).

Lemma Unmarshal_Marshal_retry p : policy_ok p → Unmarshal_retry (Marshal_retry p) = p.
Proof.
  intros Hp. destruct p as [[]|]; [|done]. specialize (Hp _ eq_refl). cbn in Hp.
  unfold Unmarshal_retry, Marshal_retry, struct, member.
  cbn [list_to_map foldr uncurry]. simplify_map_eq. cbn [default int_member].
  by rewrite (float_member_Marshal _ Hp).
Qed.

Lemma Unmarshal_Marshal_result r :
  Unmarshal_result (Marshal_result r) = mkActivityResult (map_as_json (ar_Output r)) (ar_Error r).
Proof.
  unfold Unmarshal_result, Marshal_result, struct, member. cbn [list_to_map foldr uncurry].
  simplify_map_eq. cbn [default string_member]. by rewrite Unmarshal_Marshal_map.
Qed.

(** The values that keep their types. *)
Fixpoint json_typed (v : value) : Prop :=
  match v with
  | VNil | VStr _ | VBool _ => True
  | VFloat f => is_float64 f
  | VInt _ | VTime _ | VMap None => False
  | VMap (Some m) => map_fold (λ _ x p, json_typed x ∧ p) True m
  end.

Lemma json_typed_map (m : gmap string value) :
  json_typed (VMap (Some m)) ↔ map_Forall (λ _ x, json_typed x) m.
Proof.
  cbn. induction m as [|k x m Hk Hf IH] using map_first_key_ind; [by rewrite map_fold_empty|].
  rewrite map_fold_insert_first_key by done. rewrite map_Forall_insert by done. by rewrite IH.
Qed.

Lemma as_json_typed v : json_typed v → as_json v = v.
Proof.
  induction v as [| | |f| | | |m IH] using value_nested_ind; try done.
  - intros Hf. cbn in *. destruct (whole f) eqn:Hw; [by rewrite float_of_whole|done].
  - rewrite json_typed_map. intros Hm. cbn. do 2 f_equal. etransitivity; [|apply map_fmap_id].
    apply map_fmap_ext. intros k x Hk. apply (IH k x Hk), (Hm k x Hk).
Qed.
