(* ===== verification/Sql.v ===== *)
(** * Sql: tables and the statements the SQL stores send

    [adapters/sqlitestore/] and [adapters/pgxstore/] send a few forms of INSERT,
    SELECT and UPDATE to one table at a time.  A table is the map of its rows by
    primary key; a SELECT without ORDER BY, and one with it among equal keys,
    gives its rows in an order the database leaves open ([GoRange]).  The
    statements of a transaction act at once: that they are undone together is
    the database's part. *)

From S2P Require Import Prelude Errors.

(** The error of the driver for a constraint that an INSERT breaks. *)
Class SqlDriver := { unique_violation : error }.

(** [INSERT]: refused when the primary key, or another column declared UNIQUE,
    is taken; [clashes r r'] says that two rows share such a column. *)
Definition insert_row {R} (key : R → string) (clashes : R → R → bool) (r : R)
    (t : gmap string R) : option (gmap string R) :=
  if decide (is_Some (t !! key r)) then None
  else if existsb (clashes r) (map_to_list t).*2 then None
  else Some (<[key r := r]> t).

(** [UPDATE t SET ... WHERE p]: the table and the number of rows affected. *)
Definition update_rows {R} (p : R → bool) (set : R → R) (t : gmap string R) : gmap string R * nat :=
  ((λ r, if p r then set r else r) <$> t, size (filter (λ e : string * R, p e.2 = true) t)).

Section select.
Context {gr : GoRange} {R : Type}.
Implicit Types (t : gmap string R) (p : R → bool).

(** [SELECT ... WHERE p], in the order taken at site [n]. *)
Definition select_rows (n : nat) p t : list R := filter (λ r, p r = true) (range n t).*2.

(** [QueryRow]: the first row, if any. *)
Definition query_row (n : nat) p t : option R := head (select_rows n p t).

(** [SELECT ... WHERE p ORDER BY c]. *)
Definition select_ordered (n : nat) p (le : R → R → Prop) `{!RelDecision le} t : list R :=
  merge_sort le (select_rows n p t).

Lemma elem_of_select_rows n p t r : r ∈ select_rows n p t ↔ p r = true ∧ ∃ k, t !! k = Some r.
Proof.
  unfold select_rows. rewrite list_elem_of_filter, list_elem_of_fmap. f_equiv. split.
  - intros ([k r'] & -> & Hk%elem_of_range). by exists k.
  - intros [k Hk]. exists (k, r). by rewrite elem_of_range.
Qed.

Lemma query_row_Some n p t r : query_row n p t = Some r → p r = true ∧ ∃ k, t !! k = Some r.
Proof.
  unfold query_row. intros Hr. apply (elem_of_select_rows n).
  destruct (select_rows n p t); [done|]. injection Hr as ->. by left.
Qed.

Lemma query_row_None n p t : query_row n p t = None ↔ ∀ k r, t !! k = Some r → p r = false.
Proof.
  unfold query_row. split.
  - intros Hn k r Hk. destruct (p r) eqn:Hp; [|done]. exfalso.
    assert (r ∈ select_rows n p t) as Hin by (apply elem_of_select_rows; eauto).
    destruct (select_rows n p t); [by apply elem_of_nil in Hin|done].
  - intros Hall. destruct (select_rows n p t) as [|r l] eqn:Hl; [done|]. exfalso.
    assert (r ∈ select_rows n p t) as [Hp [k Hk]]%elem_of_select_rows by (rewrite Hl; by left).
    rewrite (Hall k r Hk) in Hp. done.
Qed.

(** A condition that picks at most one row picks it in every order. *)
Definition picks_one p t : Prop :=
  ∀ k1 k2 r1 r2, t !! k1 = Some r1 → t !! k2 = Some r2 → p r1 = true → p r2 = true → k1 = k2.

Lemma query_row_unique n p t k r :
  picks_one p t → t !! k = Some r → p r = true → query_row n p t = Some r.
Proof.
  intros Ho Hk Hp. destruct (query_row n p t) as [r'|] eqn:Hq.
  - apply query_row_Some in Hq as (Hp' & k' & Hk'). assert (k = k') as -> by by eapply Ho.
    congruence.
  - rewrite query_row_None in Hq. specialize (Hq k r Hk). congruence.
Qed.

(** A row found by its primary key. *)
Definition keyed (key : R → string) t : Prop := ∀ k r, t !! k = Some r → key r = k.

Lemma query_row_key n (key : R → string) t k :
  keyed key t → query_row n (λ r, bool_decide (key r = k)) t = t !! k.
Proof.
  intros Hkey. destruct (t !! k) as [r|] eqn:Hk.
  - apply (query_row_unique _ _ _ k); [|done|by rewrite bool_decide_eq_true; apply Hkey].
    intros k1 k2 r1 r2 H1 H2 E1%bool_decide_eq_true E2%bool_decide_eq_true.
    apply Hkey in H1, H2. congruence.
  - apply query_row_None. intros k' r Hr. apply bool_decide_eq_false. intros E.
    apply Hkey in Hr as Hr'. congruence.
Qed.

(** ** Statements *)

Lemma update_rows_lookup p set t k :
  (update_rows p set t).1 !! k = (λ r, if p r then set r else r) <$> t !! k.
Proof. apply lookup_fmap. Qed.

Lemma update_rows_none p set t :
  (update_rows p set t).2 = 0 ↔ ∀ k r, t !! k = Some r → p r = false.
Proof.
  unfold update_rows. cbn [snd]. rewrite map_size_empty_iff. split.
  - intros He k r Hk. destruct (p r) eqn:Hp; [|done].
    assert (filter (λ e : string * R, p e.2 = true) t !! k = Some r) as Hf
      by by apply map_lookup_filter_Some.
    by rewrite He, lookup_empty in Hf.
  - intros Hall. apply map_empty. intros k. apply map_lookup_filter_None. right.
    intros r Hk. cbn. by rewrite (Hall k r Hk).
Qed.

Lemma update_rows_none_id p set t : (update_rows p set t).2 = 0 → (update_rows p set t).1 = t.
Proof.
  rewrite update_rows_none. intros Hall. apply map_eq. intros k. rewrite update_rows_lookup.
  destruct (t !! k) as [r|] eqn:Hk; [|done]. cbn. by rewrite (Hall k r Hk).
Qed.

Lemma insert_row_Some (key : R → string) clashes r t t' :
  insert_row key clashes r t = Some t' ↔
  t' = <[key r := r]> t ∧ t !! key r = None ∧ ∀ k r', t !! k = Some r' → clashes r r' = false.
Proof.
  unfold insert_row. case_decide as Hk.
  { split; [done|]. intros (_ & Hn & _). rewrite Hn in Hk. by destruct Hk. }
  apply eq_None_not_Some in Hk. destruct (existsb _ _) eqn:He.
  - split; [done|]. intros (_ & _ & Hall). apply existsb_exists in He as (r' & Hin & Hc).
    apply list_elem_of_In, list_elem_of_fmap in Hin as ([k r''] & -> & Hin%elem_of_map_to_list).
    cbn in Hc. by rewrite (Hall k r'' Hin) in Hc.
  - split; [|by intros (-> & _)]. intros [= <-]. split_and!; [done..|]. intros k r' Hr'.
    destruct (clashes r r') eqn:Hc; [|done]. assert (existsb (clashes r) (map_to_list t).*2 = true); [|congruence].
    apply existsb_exists. exists r'. split; [|done]. apply list_elem_of_In, list_elem_of_fmap.
    exists (k, r'). by rewrite elem_of_map_to_list.
Qed.
End select.

(** ** Orders given by a text column *)

Definition text_order {R} (column : R → string) (r1 r2 : R) : Prop :=
  String.le (column r1) (column r2).

#[export] Instance text_order_dec {R} (column : R → string) : RelDecision (text_order column).
Proof. intros r1 r2. unfold text_order. apply _. Defined.

#[export] Instance text_order_total {R} (column : R → string) : Total (text_order column).
Proof. intros r1 r2. apply (total String.le). Qed.

#[export] Instance text_order_trans {R} (column : R → string) : Transitive (text_order column).
Proof. intros r1 r2 r3. apply (transitivity (R := String.le)). Qed.

#[export] Instance text_order_refl {R} (column : R → string) : Reflexive (text_order column).
Proof. intros r. apply (reflexivity (R := String.le)). Qed.

(** The order by a column of times. *)
Definition time_order {R} (column : R → Z) (r1 r2 : R) : Prop := (column r1 ≤ column r2)%Z.

#[export] Instance time_order_dec {R} (column : R → Z) : RelDecision (time_order column).
Proof. intros r1 r2. unfold time_order. apply _. Defined.

#[export] Instance time_order_total {R} (column : R → Z) : Total (time_order column).
Proof. intros r1 r2. unfold time_order. lia. Qed.

#[export] Instance time_order_trans {R} (column : R → Z) : Transitive (time_order column).
Proof. intros r1 r2 r3. unfold time_order. lia. Qed.

(** In a sorted list, an element strictly below another comes before it. *)
Lemma sorted_before {A} (le : A → A → Prop) `{!Reflexive le} (l : list A) x y :
  StronglySorted le l → x ∈ l → y ∈ l → ¬ le y x → ∃ l1 l2 l3, l = l1 ++ x :: l2 ++ y :: l3.
Proof.
  induction 1 as [|z l Hs IH Hz]; [by intros ?%elem_of_nil|]. rewrite Forall_forall in Hz.
  intros [->|Hx]%elem_of_cons [->|Hy]%elem_of_cons Hle.
  - by destruct Hle.
  - apply list_elem_of_split in Hy as (l2 & l3 & ->). by exists [], l2, l3.
  - destruct Hle. by apply Hz.
  - destruct (IH Hx Hy Hle) as (l1 & l2 & l3 & ->). by exists (z :: l1), l2, l3.
Qed.
