(* ===== verification/InstanceRows.v ===== *)
(** * InstanceRows: instance stores on a table

    [adapters/sqlitestore/store.go] and [adapters/pgxstore/instance_store.go] keep
    the instances the same way: a row of a table per instance, found by its
    aggregate, and updated WHERE the stamp of the last update is still the one the
    caller read.  This file proves once, of any such columns, that the statements
    keep the contract of the stores ([Memstore.InstanceStoreLaws]). *)

From S2P Require Import Prelude Errors Types Json Sql Effects Memstore.

(** ** What the columns keep *)

(** An event as both stores read it: [Error] and [SequenceNum] have no column. *)
Definition event_read (e : DomainEvent) : DomainEvent :=
  e <| ev_StateBefore := map_as_json (ev_StateBefore e) |>
    <| ev_StateAfter := map_as_json (ev_StateAfter e) |>
    <| ev_Payload := map_as_json (ev_Payload e) |>
    <| ev_Error := None |> <| ev_SequenceNum := 0%Z |>.

(** An instance as it is read after a Create: the time it got stuck is not kept,
    and the values of its data have the types of JSON. *)
Definition instance_read (i : WorkflowInstance) : WorkflowInstance :=
  i <| wi_StateData := map_as_json (wi_StateData i) |>
    <| wi_StuckAt := None |> <| wi_LastReadUpdatedAt := 0%Z |>.

(** After an Update over [old]: the UPDATE leaves the columns it does not name. *)
Definition instance_merged (old i : WorkflowInstance) : WorkflowInstance :=
  (instance_read i) <| wi_ID := wi_ID old |> <| wi_WorkflowType := wi_WorkflowType old |>
    <| wi_WorkflowVersion := wi_WorkflowVersion old |>
    <| wi_AggregateType := wi_AggregateType old |> <| wi_AggregateID := wi_AggregateID old |>
    <| wi_CorrelationID := wi_CorrelationID old |> <| wi_CreatedAt := wi_CreatedAt old |>.

(** ** Rows *)

(** The columns of a row that the statements name, and how instances are written
    to rows and read from them.  [T] is the type of the stamps. *)
Class InstanceRow (R T : Type) := {
  row_id : R → string;
  row_type : R → string;
  row_aggregate : R → string;
  row_stamp : R → T;
  stamp_of : time → T;
  row_of : WorkflowInstance → R;
  set_row : WorkflowInstance → R → R;
  instance_of : R → WorkflowInstance
}.

(** What the columns must keep, for [good] instances and the rows they leave. *)
Class InstanceRowLaws (R T : Type) `{InstanceRow R T} (good : WorkflowInstance → Prop)
    (row_ok : R → Prop) (seen : WorkflowInstance → WorkflowInstance)
    (merged : WorkflowInstance → WorkflowInstance → WorkflowInstance) := {
  row_of_key : ∀ i, row_id (row_of i) = wi_ID i ∧ row_type (row_of i) = wi_AggregateType i ∧
    row_aggregate (row_of i) = wi_AggregateID i;
  set_row_key : ∀ i r, row_id (set_row i r) = row_id r ∧ row_type (set_row i r) = row_type r ∧
    row_aggregate (set_row i r) = row_aggregate r;
  row_of_ok : ∀ i, good i → row_ok (row_of i);
  set_row_ok : ∀ i r, good i → row_ok (set_row i r);
  read_row_of : ∀ i, good i → instance_of (row_of i) = seen i;
  read_set_row : ∀ i r, good i → instance_of (set_row i r) = merged (instance_of r) i;
  read_stamp : ∀ i r, good i → row_ok r →
    row_stamp r = stamp_of (wi_LastReadUpdatedAt i) ↔
    wi_UpdatedAt (instance_of r) = wi_LastReadUpdatedAt i;
  merge_same_key : ∀ old i, same_key i old → same_key (merged old i) old
}.

Section rows.
Context {gr : GoRange} {R T : Type} `{!EqDecision T} `{laws : InstanceRowLaws R T good row_ok seen merged}.
Context (site : nat) (errNotFound duplicate conflict : error).
Context (conflict_is : errors_Is conflict ErrConcurrentModification = true).

Definition of_aggregate (aggregateType aggregateID : string) (r : R) : bool :=
  bool_decide (row_type r = aggregateType) && bool_decide (row_aggregate r = aggregateID).

(** [aggregate_id TEXT NOT NULL UNIQUE] *)
Definition same_aggregate_id (r r' : R) : bool := bool_decide (row_aggregate r = row_aggregate r').

Definition locked (i : WorkflowInstance) (r : R) : bool :=
  of_aggregate (wi_AggregateType i) (wi_AggregateID i) r &&
  bool_decide (row_stamp r = stamp_of (wi_LastReadUpdatedAt i)).

Definition rows_Get (s : gmap string R) (aggregateType aggregateID : string) : result WorkflowInstance :=
  match query_row site (of_aggregate aggregateType aggregateID) s with
  | None => Err errNotFound
  | Some r => Ok (instance_of r)
  end.

Definition rows_Create (s : gmap string R) (i : WorkflowInstance) : gmap string R * option error :=
  match insert_row row_id same_aggregate_id (row_of i) s with
  | None => (s, Some duplicate)
  | Some s => (s, None)
  end.

Definition rows_Update (s : gmap string R) (i : WorkflowInstance) : gmap string R * option error :=
  let '(s', n) := update_rows (locked i) (set_row i) s in
  if decide (n = 0) then (s', Some conflict) else (s', None).

#[local] Instance rows_store : InstanceStore (gmap string R) := {
  store_Get := rows_Get;
  store_Create := rows_Create;
  store_Update := rows_Update;
  store_Read := seen;
  store_Merge := merged
}.

(** The tables that [Create] and [Update] of good instances make. *)
Record table_ok (s : gmap string R) : Prop := {
  to_id : ∀ k r, s !! k = Some r → row_id r = k;
  to_unique : ∀ k1 k2 r1 r2, s !! k1 = Some r1 → s !! k2 = Some r2 →
    row_aggregate r1 = row_aggregate r2 → k1 = k2;
  to_ok : ∀ k r, s !! k = Some r → row_ok r
}.

Lemma table_ok_empty : table_ok ∅.
Proof. constructor; intros *; by rewrite lookup_empty. Qed.

(** ** The statements *)

Lemma of_aggregate_true at' aid r :
  of_aggregate at' aid r = true ↔ row_type r = at' ∧ row_aggregate r = aid.
Proof. unfold of_aggregate. by rewrite andb_true_iff, !bool_decide_eq_true. Qed.

Lemma of_aggregate_one s at' aid : table_ok s → picks_one (of_aggregate at' aid) s.
Proof.
  intros Hs k1 k2 r1 r2 H1 H2 [_ E1]%of_aggregate_true [_ E2]%of_aggregate_true.
  eapply (to_unique _ Hs); [done..|congruence].
Qed.

Lemma Get_Some s k r at' aid :
  table_ok s → s !! k = Some r → of_aggregate at' aid r = true →
  rows_Get s at' aid = Ok (instance_of r).
Proof.
  intros Hs Hk Hp. unfold rows_Get. by rewrite (query_row_unique _ _ _ k r (of_aggregate_one s at' aid Hs)).
Qed.

Lemma Get_Ok s at' aid i :
  rows_Get s at' aid = Ok i →
  ∃ k r, s !! k = Some r ∧ of_aggregate at' aid r = true ∧ i = instance_of r.
Proof.
  unfold rows_Get. destruct (query_row _ _ _) as [r|] eqn:Hq; [|done]. intros [= <-].
  apply query_row_Some in Hq as (Hp & k & Hk). eauto.
Qed.

(** [Get] of a key whose rows a statement neither adds, drops nor changes. *)
Lemma Get_same s s' at' aid :
  table_ok s → table_ok s' →
  (∀ k r, s !! k = Some r ∧ of_aggregate at' aid r = true ↔
          s' !! k = Some r ∧ of_aggregate at' aid r = true) →
  rows_Get s' at' aid = rows_Get s at' aid.
Proof.
  intros Hs Hs' Hall. destruct (query_row site (of_aggregate at' aid) s) as [r|] eqn:Hq.
  - apply query_row_Some in Hq as (Hp & k & Hk). rewrite (Get_Some s k r) by done.
    destruct (proj1 (Hall k r) (conj Hk Hp)) as [Hk' _]. by apply (Get_Some s' k r).
  - unfold rows_Get at 2. rewrite Hq. rewrite query_row_None in Hq. unfold rows_Get.
    assert (query_row site (of_aggregate at' aid) s' = None) as ->; [|done].
    apply query_row_None. intros k r Hk. destruct (of_aggregate at' aid r) eqn:Hp; [|done].
    destruct (proj2 (Hall k r) (conj Hk Hp)) as [Hk' _]. by rewrite (Hq k r Hk') in Hp.
Qed.

Lemma Create_inv s i s' :
  rows_Create s i = (s', None) →
  s' = <[wi_ID i := row_of i]> s ∧ s !! wi_ID i = None ∧
  ∀ k r, s !! k = Some r → row_aggregate r ≠ wi_AggregateID i.
Proof.
  unfold rows_Create. destruct (insert_row _ _ _ _) as [t|] eqn:Hi; [|done]. intros [= <-].
  destruct (row_of_key i) as (E1 & _ & E3).
  apply insert_row_Some in Hi as (-> & Hn & Hc). rewrite E1 in *. split_and!; [done..|].
  intros k r Hk Heq. specialize (Hc k r Hk). apply bool_decide_eq_false in Hc. by rewrite E3 in Hc.
Qed.

Lemma Update_inv s i s' e :
  rows_Update s i = (s', e) →
  s' = (update_rows (locked i) (set_row i) s).1 ∧
  (e = None ↔ (update_rows (locked i) (set_row i) s).2 ≠ 0).
Proof.
  unfold rows_Update. destruct (update_rows _ _ _) as [t n]. cbn. case_decide; intros [= <- <-]; done.
Qed.

(** A row is found by the lock exactly when it carries the time the update read. *)
Lemma locked_row s i k r :
  table_ok s → good i → s !! k = Some r →
  of_aggregate (wi_AggregateType i) (wi_AggregateID i) r = true →
  (locked i r = true ↔ wi_UpdatedAt (instance_of r) = wi_LastReadUpdatedAt i) ∧
  ∀ k' r', s !! k' = Some r' → locked i r' = true → k' = k.
Proof.
  intros Hs Hi Hk Hp. split.
  - unfold locked. rewrite Hp. cbn. rewrite bool_decide_eq_true.
    apply read_stamp; [done|by eapply (to_ok _ Hs)].
  - intros k' r' Hk' [Hp' _]%andb_prop. by eapply (of_aggregate_one s _ _ Hs).
Qed.

(** ** They keep the tables well formed *)

Lemma table_ok_create s i s' : table_ok s → good i → rows_Create s i = (s', None) → table_ok s'.
Proof.
  intros [H1 H2 H3] Hi (-> & Hn & Hc)%Create_inv. destruct (row_of_key i) as (E1 & _ & E3). constructor.
  - intros k r [[<- <-]|[_ Hk]]%lookup_insert_Some; [done|by apply H1].
  - intros k1 k2 r1 r2 [[<- <-]|[_ K1]]%lookup_insert_Some [[<- <-]|[_ K2]]%lookup_insert_Some;
      rewrite ?E3; try done.
    + intros Heq. by destruct (Hc k2 r2 K2).
    + intros Heq. by destruct (Hc k1 r1 K1).
    + by eapply H2.
  - intros k r [[_ <-]|[_ Hk]]%lookup_insert_Some; [by apply row_of_ok|by eapply H3].
Qed.

Lemma table_ok_update s i s' e : table_ok s → good i → rows_Update s i = (s', e) → table_ok s'.
Proof.
  intros [H1 H2 H3] Hi [-> _]%Update_inv.
  assert (∀ k r, (update_rows (locked i) (set_row i) s).1 !! k = Some r →
    ∃ r0, s !! k = Some r0 ∧ row_id r = row_id r0 ∧ row_aggregate r = row_aggregate r0 ∧ row_ok r)
    as Hrow.
  { intros k r. rewrite update_rows_lookup. destruct (s !! k) as [r0|] eqn:Hk; [|done].
    intros [= <-]. exists r0. split; [done|]. destruct (set_row_key i r0) as (E1 & _ & E3).
    destruct (locked i r0); split_and!; try done; [by apply set_row_ok|by eapply H3]. }
  constructor.
  - intros k r (r0 & Hk & -> & _)%Hrow. by apply H1.
  - intros k1 k2 r1 r2 (r1' & K1 & _ & E1 & _)%Hrow (r2' & K2 & _ & E2 & _)%Hrow Heq.
    apply (H2 k1 k2 r1' r2'); congruence.
  - by intros k r (r0 & _ & _ & _ & Ht')%Hrow.
Qed.

(** ** Other aggregates *)

Lemma Create_frame s i s' at' aid :
  table_ok s → good i → rows_Create s i = (s', None) →
  (at', aid) ≠ (wi_AggregateType i, wi_AggregateID i) →
  rows_Get s' at' aid = rows_Get s at' aid.
Proof.
  intros Hs Hi Hc Hne. apply Get_same; [done|by eapply table_ok_create|].
  apply Create_inv in Hc as (-> & Hn & _). destruct (row_of_key i) as (_ & E2 & E3).
  intros k r. rewrite lookup_insert_Some. split.
  - intros [Hk Hp]. split; [|done]. right. split; [|done]. intros <-. congruence.
  - intros [[[<- <-]|[_ Hk]] Hp]; [|done]. destruct Hne.
    apply of_aggregate_true in Hp as [<- <-]. by rewrite E2, E3.
Qed.

Lemma Update_frame s i s' at' aid :
  table_ok s → good i → rows_Update s i = (s', None) →
  (at', aid) ≠ (wi_AggregateType i, wi_AggregateID i) →
  rows_Get s' at' aid = rows_Get s at' aid.
Proof.
  intros Hs Hi Hup Hne. apply Get_same; [done|by eapply table_ok_update|].
  apply Update_inv in Hup as [-> _]. intros k r. rewrite update_rows_lookup.
  assert (∀ r0, of_aggregate at' aid r0 = true → locked i r0 = false) as Hfree.
  { intros r0 [<- <-]%of_aggregate_true. apply not_true_iff_false. unfold locked.
    intros [[E1 E2]%of_aggregate_true _]%andb_prop. congruence. }
  assert (∀ r0, of_aggregate at' aid (set_row i r0) = of_aggregate at' aid r0) as Hset.
  { intros r0. destruct (set_row_key i r0) as (_ & E2 & E3). unfold of_aggregate. by rewrite E2, E3. }
  split.
  - intros [-> Hp]. cbn. by rewrite (Hfree r Hp).
  - intros [Hk Hp]. destruct (s !! k) as [r0|] eqn:Hr0; [|done]. injection Hk as <-.
    assert (of_aggregate at' aid r0 = true) as Hp0
      by (destruct (locked i r0); [by rewrite Hset in Hp|done]).
    by rewrite (Hfree r0 Hp0).
Qed.

(** ** The lock *)

(** An update whose time is not the row's finds no row. *)
Lemma Update_conflict s i old :
  table_ok s → good i → rows_Get s (wi_AggregateType i) (wi_AggregateID i) = Ok old →
  wi_UpdatedAt old ≠ wi_LastReadUpdatedAt i → rows_Update s i = (s, Some conflict).
Proof.
  intros Hs Hi (k & r & Hk & Hp & ->)%Get_Ok Hne.
  destruct (locked_row s i k r Hs Hi Hk Hp) as [Hlock Honly].
  assert ((update_rows (locked i) (set_row i) s).2 = 0) as Hz.
  { apply update_rows_none. intros k' r' Hk'. destruct (locked i r') eqn:Hl'; [|done].
    pose proof (Honly k' r' Hk' Hl') as ->. rewrite Hk in Hk'. injection Hk' as <-.
    by apply Hlock in Hl'. }
  pose proof (update_rows_none_id _ _ _ Hz) as Hid. unfold rows_Update.
  destruct (update_rows (locked i) (set_row i) s) as [t n]. cbn in Hz, Hid. by subst.
Qed.

Lemma Update_merges s i s' old :
  table_ok s → good i → rows_Update s i = (s', None) →
  rows_Get s (wi_AggregateType i) (wi_AggregateID i) = Ok old →
  rows_Get s' (wi_AggregateType i) (wi_AggregateID i) = Ok (merged old i).
Proof.
  intros Hs Hi Hup (k & r & Hk & Hp & ->)%Get_Ok.
  pose proof (table_ok_update s i s' None Hs Hi Hup) as Hs'. apply Update_inv in Hup as [-> Hn].
  destruct (locked_row s i k r Hs Hi Hk Hp) as [_ Honly].
  assert (locked i r = true) as Hlock.
  { destruct (locked i r) eqn:Hlock; [done|]. exfalso. apply (proj1 Hn eq_refl), update_rows_none.
    intros k' r' Hk'. destruct (locked i r') eqn:Hl'; [|done]. pose proof (Honly k' r' Hk' Hl') as ->.
    congruence. }
  rewrite <-read_set_row by done. apply (Get_Some _ k); [done|..].
  - rewrite update_rows_lookup, Hk. cbn. by rewrite Hlock.
  - destruct (set_row_key i r) as (_ & E2 & E3). unfold of_aggregate in *. by rewrite E2, E3.
Qed.

Lemma Update_accepted s i old :
  table_ok s → good i → rows_Get s (wi_AggregateType i) (wi_AggregateID i) = Ok old →
  wi_UpdatedAt old = wi_LastReadUpdatedAt i → ∃ s', rows_Update s i = (s', None).
Proof.
  intros Hs Hi (k & r & Hk & Hp & ->)%Get_Ok Heq.
  destruct (locked_row s i k r Hs Hi Hk Hp) as [Hlock _]. apply Hlock in Heq.
  destruct (rows_Update s i) as [s' e] eqn:Hup. exists s'. f_equal. apply Update_inv in Hup as [_ Hn].
  apply Hn. rewrite update_rows_none. intros Hall. by rewrite (Hall k r Hk) in Heq.
Qed.

Lemma rows_laws : InstanceStoreLaws (gmap string R) (λ _, True) good table_ok.
Proof using conflict_is laws EqDecision0.
  constructor; cbn [store_Get store_Create store_Update store_Read store_Merge rows_store].
  - apply table_ok_create.
  - intros s i s'. apply table_ok_update.
  - apply merge_same_key.
  - intros s i s' Hs Hi Hc. pose proof (table_ok_create s i s' Hs Hi Hc) as Hs'.
    apply Create_inv in Hc as (-> & _ & _). rewrite <-read_row_of by done.
    apply (Get_Some _ (wi_ID i)); [done|by rewrite lookup_insert_eq|].
    apply of_aggregate_true, row_of_key.
  - intros. by eapply Update_merges.
  - intros s i s' e. unfold rows_Create. destruct (insert_row _ _ _ _); [done|]. by intros [= <- _].
  - intros s i s' e [-> Hn]%Update_inv. apply update_rows_none_id.
    destruct (decide ((update_rows (locked i) (set_row i) s).2 = 0)) as [|Hne]; [done|].
    by apply Hn in Hne.
  - intros s i old Hs Hi Hget _ Hne. eexists. split; [by eapply Update_conflict|done].
  - intros. by eapply Update_accepted.
  - intros s i s' at' aid Hs Hi [Hc|Hup] _ _ Hne; [by eapply Create_frame|by eapply Update_frame].
Qed.

(** Of two aggregates with the same id, the second finds no instance and cannot
    create one. *)
Lemma Create_shared_id s i s' j :
  table_ok s → good i → rows_Create s i = (s', None) →
  wi_AggregateID j = wi_AggregateID i → wi_AggregateType j ≠ wi_AggregateType i →
  rows_Get s' (wi_AggregateType j) (wi_AggregateID j) = Err errNotFound ∧
  rows_Create s' j = (s', Some duplicate).
Proof.
  intros Hs Hi Hc Hid Hty. pose proof (table_ok_create s i s' Hs Hi Hc) as Hs'.
  apply Create_inv in Hc as (-> & _ & _).
  destruct (row_of_key i) as (_ & E2 & E3), (row_of_key j) as (_ & _ & F3).
  assert ((<[wi_ID i := row_of i]> s) !! wi_ID i = Some (row_of i)) as Hk by apply lookup_insert_eq.
  split.
  - unfold rows_Get. rewrite (proj2 (query_row_None _ _ _)); [done|]. intros k r Hr.
    apply not_true_iff_false. intros [Ht Ha]%of_aggregate_true.
    assert (k = wi_ID i) as ->; [|rewrite Hk in Hr; injection Hr as <-; by rewrite E2 in Ht].
    eapply (to_unique _ Hs'); [done..|]. by rewrite Ha, E3.
  - unfold rows_Create. destruct (insert_row _ _ _ _) as [t|] eqn:Hins; [|done].
    apply insert_row_Some in Hins as (_ & _ & Hall). specialize (Hall _ _ Hk).
    apply bool_decide_eq_false in Hall. by rewrite E3, F3 in Hall.
Qed.
End rows.
