(* ===== verification/Sqlite.v ===== *)
(** * Sqlite: the stores on SQLite

    Models [adapters/sqlitestore/store.go] on the tables of its migrations: what
    each statement does to a table, and what is read back.  An INSERT that a
    constraint refuses fails with an error of the driver, a parameter; that the
    database itself may fail is left to the calls of [Effects.v]. *)

From S2P Require Import Prelude Errors Types Rfc3339 Json Sql Effects Memstore InstanceRows.

(** ** Events *)

Module SqliteEvents.

Record row := mkRow {
  id : string;
  aggregate_type : string;
  aggregate_id : string;
  workflow_type : string;
  workflow_version : Z;
  event_type : string;
  correlation_id : string;
  causation_id : string;
  actor_id : string;
  transition_name : string;
  state_before : json;
  state_after : json;
  payload : json;
  created_at : string
}.

Abbreviation table := (gmap string row).

Definition row_of (event : DomainEvent) : row :=
  mkRow (ev_ID event) (ev_AggregateType event) (ev_AggregateID event) (ev_WorkflowType event)
    (ev_WorkflowVersion event) (ev_EventType event) (ev_CorrelationID event)
    (ev_CausationID event) (ev_ActorID event) (ev_TransitionName event)
    (Marshal_map (ev_StateBefore event)) (Marshal_map (ev_StateAfter event))
    (Marshal_map (ev_Payload event)) (Format (ev_CreatedAt event)).

Definition event_of (r : row) : DomainEvent :=
  mkDomainEvent (id r) (aggregate_type r) (aggregate_id r) (workflow_type r) (workflow_version r)
    (event_type r) (correlation_id r) (causation_id r) (actor_id r)
    (Unmarshal_map (state_before r) None) (Unmarshal_map (state_after r) None) (transition_name r)
    None (Unmarshal_map (payload r) None) (parse_time (created_at r)) 0.

Definition Append `{SqlDriver} (s : table) (event : DomainEvent) : table * option error :=
  match insert_row id (λ _ _, false) (row_of event) s with
  | None => (s, Some (Errorf "sqlitestore: insert event: %w" [] (Some unique_violation)))
  | Some s => (s, None)
  end.

Definition ListByCorrelation {gr : GoRange} (s : table) (correlationID : string) : list DomainEvent :=
  event_of <$> select_ordered 130 (λ r, bool_decide (correlation_id r = correlationID))
                 (text_order created_at) s.

Definition ListByAggregate {gr : GoRange} (s : table) (aggregateType aggregateID : string) :
    list DomainEvent :=
  event_of <$> select_ordered 131 (λ r, bool_decide (aggregate_type r = aggregateType) &&
                                        bool_decide (aggregate_id r = aggregateID))
                 (text_order created_at) s.

End SqliteEvents.

(** ** Instances *)

Module SqliteInstances.

Record row := mkRow {
  id : string;
  workflow_type : string;
  workflow_version : Z;
  aggregate_type : string;
  aggregate_id : string;
  current_state : string;
  state_data : json;
  correlation_id : string;
  is_stuck : Z;
  stuck_reason : string;
  retry_count : Z;
  created_at : string;
  updated_at : string;
  shallow_history : json;
  deep_history : json;
  active_in_parallel : json;
  parallel_clock : Z
}.

Abbreviation table := (gmap string row).

Definition bool_int (b : bool) : Z := if b then 1 else 0.

(** The arguments of the INSERT. *)
Definition row_of (i : WorkflowInstance) : row :=
  mkRow (wi_ID i) (wi_WorkflowType i) (wi_WorkflowVersion i) (wi_AggregateType i)
    (wi_AggregateID i) (wi_CurrentState i) (Marshal_map (wi_StateData i)) (wi_CorrelationID i)
    (bool_int (wi_IsStuck i)) (wi_StuckReason i) (wi_RetryCount i) (Format (wi_CreatedAt i))
    (Format (wi_UpdatedAt i)) (Marshal_strings (wi_ShallowHistory i))
    (Marshal_strings (wi_DeepHistory i)) (Marshal_strings (wi_ActiveInParallel i))
    (wi_ParallelClock i).

(** The [Scan] of [Get] and [ListStuck]. *)
Definition instance_of (r : row) : WorkflowInstance :=
  mkWorkflowInstance (id r) (workflow_type r) (workflow_version r) (aggregate_type r)
    (aggregate_id r) (current_state r) (Unmarshal_map (state_data r) None) (correlation_id r)
    (negb (bool_decide (is_stuck r = 0%Z))) (stuck_reason r) None (retry_count r)
    (parse_time (created_at r)) (parse_time (updated_at r))
    (Unmarshal_strings (shallow_history r) (Some ∅)) (Unmarshal_strings (deep_history r) (Some ∅))
    (Unmarshal_strings (active_in_parallel r) (Some ∅)) (parallel_clock r) 0.

(** The columns the UPDATE sets. *)
Definition set_row (i : WorkflowInstance) (r : row) : row :=
  mkRow (id r) (workflow_type r) (workflow_version r) (aggregate_type r) (aggregate_id r)
    (wi_CurrentState i) (Marshal_map (wi_StateData i)) (correlation_id r)
    (bool_int (wi_IsStuck i)) (wi_StuckReason i) (wi_RetryCount i) (created_at r)
    (Format (wi_UpdatedAt i)) (Marshal_strings (wi_ShallowHistory i))
    (Marshal_strings (wi_DeepHistory i)) (Marshal_strings (wi_ActiveInParallel i))
    (wi_ParallelClock i).

Definition of_aggregate (aggregateType aggregateID : string) (r : row) : bool :=
  bool_decide (aggregate_type r = aggregateType) && bool_decide (aggregate_id r = aggregateID).

(** [aggregate_id TEXT NOT NULL UNIQUE] *)
Definition same_aggregate_id (r r' : row) : bool := bool_decide (aggregate_id r = aggregate_id r').

Definition Get {gr : GoRange} (errNotFound : error) (s : table) (aggregateType aggregateID : string) :
    result WorkflowInstance :=
  match query_row 132 (of_aggregate aggregateType aggregateID) s with
  | None => Err errNotFound
  | Some r => Ok (instance_of r)
  end.

Definition Create `{SqlDriver} (s : table) (instance : WorkflowInstance) : table * option error :=
  match insert_row id same_aggregate_id (row_of instance) s with
  | None => (s, Some (Errorf "sqlitestore: create instance: %w" [] (Some unique_violation)))
  | Some s => (s, None)
  end.

Definition Update (s : table) (instance : WorkflowInstance) : table * option error :=
  let '(s', n) := update_rows
    (λ r, of_aggregate (wi_AggregateType instance) (wi_AggregateID instance) r &&
          bool_decide (updated_at r = Format (wi_LastReadUpdatedAt instance)))
    (set_row instance) s in
  if decide (n = 0) then
    (s', Some (Errorf "sqlitestore: update instance: %w" [] (Some (Sentinel ErrConcurrentModification))))
  else (s', None).

Definition ListStuck {gr : GoRange} (s : table) : list WorkflowInstance :=
  instance_of <$> select_ordered 133 (λ r, bool_decide (is_stuck r = 1%Z)) (text_order updated_at) s.

End SqliteInstances.

(** ** What is read back *)

Lemma event_of_row_of e : readable (ev_CreatedAt e) → SqliteEvents.event_of (SqliteEvents.row_of e) = event_read e.
Proof.
  intros Ht. unfold SqliteEvents.event_of, SqliteEvents.row_of. cbn.
  rewrite !Unmarshal_Marshal_map, parse_time_Format by done. by destruct e.
Qed.

Definition timely (i : WorkflowInstance) : Prop :=
  readable (wi_CreatedAt i) ∧ readable (wi_UpdatedAt i) ∧ readable (wi_LastReadUpdatedAt i).

(** ** The store keeps the contract *)

Lemma bool_int_back b : negb (bool_decide (SqliteInstances.bool_int b = 0%Z)) = b.
Proof. by destruct b. Qed.

#[export] Instance sqlite_rows : InstanceRow SqliteInstances.row string := {
  row_id := SqliteInstances.id;
  row_type := SqliteInstances.aggregate_type;
  row_aggregate := SqliteInstances.aggregate_id;
  row_stamp := SqliteInstances.updated_at;
  stamp_of := Format;
  InstanceRows.row_of := SqliteInstances.row_of;
  InstanceRows.set_row := SqliteInstances.set_row;
  InstanceRows.instance_of := SqliteInstances.instance_of
}.

Definition stamped (r : SqliteInstances.row) : Prop :=
  ∃ t, readable t ∧ SqliteInstances.updated_at r = Format t.

#[export] Instance sqlite_row_laws :
  InstanceRowLaws SqliteInstances.row string timely stamped instance_read instance_merged.
Proof.
  constructor; cbn [row_id row_type row_aggregate row_stamp stamp_of InstanceRows.row_of
                    InstanceRows.set_row InstanceRows.instance_of sqlite_rows]; try done.
  - intros i (_ & Hu & _). by eexists.
  - intros i r (_ & Hu & _). by eexists.
  - intros i (Hc & Hu & _). unfold SqliteInstances.instance_of, SqliteInstances.row_of. cbn.
    rewrite Unmarshal_Marshal_map, !Unmarshal_Marshal_strings, !parse_time_Format, bool_int_back by done.
    by destruct i.
  - intros i r (Hc & Hu & _). unfold SqliteInstances.instance_of, SqliteInstances.set_row. cbn.
    rewrite Unmarshal_Marshal_map, !Unmarshal_Marshal_strings, !parse_time_Format, bool_int_back by done.
    by destruct i.
  - intros i r (_ & _ & Hl) (t & Ht & Heq). unfold SqliteInstances.instance_of. cbn.
    rewrite Heq, parse_time_Format by done. split; [by apply Format_inj|by intros ->].
Qed.

Section store.
Context {gr : GoRange} {driver : SqlDriver} (errNotFound : error).

#[export] Instance sqlite_instance_store : InstanceStore SqliteInstances.table := {
  store_Get := SqliteInstances.Get errNotFound;
  store_Create := SqliteInstances.Create;
  store_Update := SqliteInstances.Update;
  store_Read := instance_read;
  store_Merge := instance_merged
}.

#[export] Instance sqlite_charts : InstanceStoreCharts SqliteInstances.table timely.
Proof.
  constructor; try done. intros old i Ht Hi Hv. unfold chart_of. cbn. by rewrite Ht, Hi, Hv.
Qed.

Abbreviation table_ok := (table_ok (row_ok := stamped)).

(** C32: The instance store on SQLite keeps the contract of the stores for
    instances with readable times, from the empty table on: what it creates it
    reads back, as the columns keep it; an update is accepted exactly when it read
    the latest version, else it is refused with [ErrConcurrentModification] and
    changes nothing; other aggregates are not touched. *)
Theorem sqlite_implements_contract :
  table_ok ∅ ∧ InstanceStoreLaws SqliteInstances.table (λ _, True) timely table_ok.
Proof. 
  split; [apply table_ok_empty|].
  exact (rows_laws (T := string) (good := timely) (row_ok := stamped) 132 errNotFound
    (Errorf "sqlitestore: create instance: %w" [] (Some unique_violation))
    (Errorf "sqlitestore: update instance: %w" [] (Some (Sentinel ErrConcurrentModification))) eq_refl).
Qed.

(** [aggregate_id] is declared UNIQUE by itself: once an aggregate has an
    instance, creating one for an aggregate of another type with the same id
    fails, though no instance is found for that aggregate. *)
Theorem sqlite_refuses_shared_id s i s' j :
  table_ok s → timely i → SqliteInstances.Create s i = (s', None) →
  wi_AggregateID j = wi_AggregateID i → wi_AggregateType j ≠ wi_AggregateType i →
  SqliteInstances.Get errNotFound s' (wi_AggregateType j) (wi_AggregateID j) = Err errNotFound ∧
  SqliteInstances.Create s' j =
    (s', Some (Errorf "sqlitestore: create instance: %w" [] (Some unique_violation))).
Proof.
  exact (Create_shared_id (T := string) (good := timely) 132 errNotFound
    (Errorf "sqlitestore: create instance: %w" [] (Some unique_violation)) s i s' j).
Qed.
End store.

(** ** The lists of events *)

Section events.
Context {gr : GoRange} {driver : SqlDriver}.
Implicit Types (s : SqliteEvents.table) (e : DomainEvent).

Lemma sqlite_Append_inv s e s' :
  SqliteEvents.Append s e = (s', None) →
  s' = <[ev_ID e := SqliteEvents.row_of e]> s ∧ s !! ev_ID e = None.
Proof.
  unfold SqliteEvents.Append. destruct (insert_row _ _ _ _) as [t|] eqn:Hi; [|done]. intros [= <-].
  by apply insert_row_Some in Hi as (-> & Hn & _).
Qed.

Lemma ListByCorrelation_perm s correlationID :
  SqliteEvents.ListByCorrelation s correlationID ≡ₚ
  SqliteEvents.event_of <$>
    filter (λ r, SqliteEvents.correlation_id r = correlationID) (map_to_list s).*2.
Proof.
  unfold SqliteEvents.ListByCorrelation, select_ordered, select_rows. apply fmap_Permutation.
  rewrite merge_sort_Permutation. rewrite range_perm.
  by rewrite (list_filter_iff _ (λ r, SqliteEvents.correlation_id r = correlationID))
    by (intros; apply bool_decide_eq_true).
Qed.

Lemma ListByCorrelation_append s e s' correlationID :
  readable (ev_CreatedAt e) → SqliteEvents.Append s e = (s', None) →
  SqliteEvents.ListByCorrelation s' correlationID ≡ₚ
  (if decide (ev_CorrelationID e = correlationID) then [event_read e] else []) ++
  SqliteEvents.ListByCorrelation s correlationID.
Proof.
  intros Ht [-> Hn]%sqlite_Append_inv. rewrite !ListByCorrelation_perm, map_to_list_insert by done.
  cbn [fmap list_fmap]. rewrite filter_cons. cbn. case_decide as Hd; rewrite ?decide_True, ?decide_False by done.
  - cbn. by rewrite event_of_row_of.
  - done.
Qed.

Lemma ListByCorrelation_before s correlationID k1 k2 r1 r2 :
  s !! k1 = Some r1 → s !! k2 = Some r2 →
  SqliteEvents.correlation_id r1 = correlationID → SqliteEvents.correlation_id r2 = correlationID →
  ¬ text_order SqliteEvents.created_at r1 r2 →
  ∃ l1 l2 l3, SqliteEvents.ListByCorrelation s correlationID =
    l1 ++ SqliteEvents.event_of r2 :: l2 ++ SqliteEvents.event_of r1 :: l3.
Proof.
  intros H1 H2 E1 E2 Hlt. unfold SqliteEvents.ListByCorrelation, select_ordered.
  set (l := merge_sort _ _).
  assert (∀ k r, s !! k = Some r → SqliteEvents.correlation_id r = correlationID → r ∈ l) as Hin.
  { intros k r Hk Hr. subst l. rewrite merge_sort_Permutation, elem_of_select_rows.
    rewrite bool_decide_eq_true. eauto. }
  destruct (sorted_before (text_order SqliteEvents.created_at) l r2 r1) as (l1 & l2 & l3 & ->).
  - subst l. apply StronglySorted_merge_sort; apply _.
  - by eapply Hin.
  - by eapply Hin.
  - done.
  - rewrite fmap_app, fmap_cons, fmap_app, fmap_cons. eauto.
Qed.

(** An appended event is read back by its correlation id once, as the
    columns keep it, and no other list changes. *)
Theorem sqlite_events_read_back s e s' correlationID :
  readable (ev_CreatedAt e) → SqliteEvents.Append s e = (s', None) →
  SqliteEvents.ListByCorrelation s' correlationID ≡ₚ
  (if decide (ev_CorrelationID e = correlationID) then [event_read e] else []) ++
  SqliteEvents.ListByCorrelation s correlationID.
Proof. apply ListByCorrelation_append. Qed.

(** The events are ordered by the text of their times: of two events within a
    second, the first on the second itself, the later one is listed first. *)
Theorem sqlite_events_out_of_order s e1 s1 e2 s2 :
  SqliteEvents.Append s e1 = (s1, None) → SqliteEvents.Append s1 e2 = (s2, None) →
  ev_CorrelationID e2 = ev_CorrelationID e1 →
  readable (ev_CreatedAt e1) → readable (ev_CreatedAt e2) →
  (ev_CreatedAt e1 mod ns_per_second = 0)%Z →
  (0 < ev_CreatedAt e2 - ev_CreatedAt e1 < ns_per_second)%Z →
  ∃ l1 l2 l3, SqliteEvents.ListByCorrelation s2 (ev_CorrelationID e1) =
    l1 ++ event_read e2 :: l2 ++ event_read e1 :: l3.
Proof.
  intros [-> Hn1]%sqlite_Append_inv [-> Hn2]%sqlite_Append_inv Hc Ht1 Ht2 Hsec Hlt.
  rewrite <-!event_of_row_of by done.
  assert (ev_ID e1 ≠ ev_ID e2) as Hne
    by (intros Heq; rewrite <-Heq, lookup_insert_eq in Hn2; done).
  apply (ListByCorrelation_before _ _ (ev_ID e1) (ev_ID e2)); [|by rewrite lookup_insert_eq|done..|].
  { by rewrite lookup_insert_ne, lookup_insert_eq. }
  unfold text_order. cbn. destruct (Format_out_of_order _ _ Hsec Hlt) as [_ Hle].
  replace (ev_CreatedAt e1 + (ev_CreatedAt e2 - ev_CreatedAt e1))%Z with (ev_CreatedAt e2) in Hle by lia.
  unfold String.le. rewrite Hle. by intros [].
Qed.
End events.
