(* ===== verification/Pgx.v ===== *)
(** * Pgx: the stores on PostgreSQL

    Models [adapters/pgxstore/] on the tables of its migrations: what each
    statement does to a table and what [Scan] makes of the rows.  Of pgx and
    PostgreSQL, parameters state that a [timestamptz] keeps microseconds and that
    a NULL cannot be scanned into a Go string; that the database itself may fail
    is left to the calls of [Effects.v].  Numbers are taken to fit their columns. *)

From S2P Require Import Prelude Errors Types Rfc3339 Json Sql Effects Memstore InstanceRows.

Class PgxDriver := {
  (** [Scan] of a text column into a [string]. *)
  scan_text : option string → result string;
  scan_text_Some : ∀ s, scan_text (Some s) = Ok s;
  scan_text_None : ∃ e, scan_text None = Err e;
  (** The microseconds of a time, as a [timestamptz]. *)
  to_micro : time → Z;
  to_micro_exact : ∀ m, to_micro (1000 * m)%Z = m
}.

Definition of_micro (m : Z) : time := (1000 * m)%Z.

#[export] Instance result_bind : MBind result := λ A B f r,
  match r with Ok a => f a | Err e => Err e end.

(** ** Transactions *)

(** The [tx any] of a call: nil, a [pgx.Tx], or a value of another type. *)
Inductive tx_handle := NilTx | PgxTx | OtherTx.

Definition getTx (tx : tx_handle) : option error :=
  match tx with
  | NilTx => Some (Errorf "pgxstore: nil tx" [] None)
  | OtherTx => Some (Errorf "pgxstore: invalid tx type" [] None)
  | PgxTx => None
  end.

(** A statement of [Create] and [Complete]: in the transaction, or on the pool when
    there is none. *)
Definition in_tx {S} (tx : tx_handle) (s : S) (statement : S * option error) : S * option error :=
  match tx with
  | NilTx => statement
  | _ => match getTx tx with Some err => (s, Some err) | None => statement end
  end.

(** The same where any error of [getTx] sends the statement to the pool. *)
Definition in_tx_or_pool {S} (tx : tx_handle) (statement : S * option error) : S * option error :=
  match getTx tx with Some _ => statement | None => statement end.

Definition nilTime `{PgxDriver} (t : time) : option Z := if IsZero t then None else Some (to_micro t).

Definition nilString (s : string) : option string := if decide (s = "") then None else Some s.

Definition exec_insert {R} `{SqlDriver} (msg : string) (key : R → string) (clashes : R → R → bool)
    (r : R) (s : gmap string R) : gmap string R * option error :=
  match insert_row key clashes r s with
  | None => (s, Some (Errorf msg [] (Some unique_violation)))
  | Some s => (s, None)
  end.

(** The loop over [rows.Next]: the first row that cannot be scanned ends it. *)
Fixpoint scan_rows {R A} (msg : string) (scan : R → result A) (l : list R) : result (list A) :=
  match l with
  | [] => Ok []
  | r :: l =>
      match scan r with
      | Err err => Err (Errorf msg [] (Some err))
      | Ok a => match scan_rows msg scan l with Ok l => Ok (a :: l) | Err err => Err err end
      end
  end.

(** The row of a [QueryRow] and its [Scan]. *)
Definition scan_row {R A} (msg : string) (no_rows : error → error) (errNotFound : error)
    (scan : R → result A) (row : option R) : result A :=
  match row with
  | None => Err (no_rows errNotFound)
  | Some r => match scan r with Err err => Err (Errorf msg [] (Some err)) | Ok a => Ok a end
  end.

(** ** Events *)

Module PgxEvents.

Record row := mkRow {
  id : string;
  aggregate_type : string;
  aggregate_id : string;
  workflow_type : string;
  workflow_version : Z;
  event_type : string;
  correlation_id : string;
  causation_id : string;
  actor_id : string;
  transition_name : string;
  state_before : json;
  state_after : json;
  payload : json;
  created_at : Z
}.

Abbreviation table := (gmap string row).

Section events.
Context {gr : GoRange} {driver : SqlDriver} {pgx : PgxDriver}.

Definition row_of (event : DomainEvent) : row :=
  mkRow (ev_ID event) (ev_AggregateType event) (ev_AggregateID event) (ev_WorkflowType event)
    (ev_WorkflowVersion event) (ev_EventType event) (ev_CorrelationID event)
    (ev_CausationID event) (ev_ActorID event) (ev_TransitionName event)
    (Marshal_map (ev_StateBefore event)) (Marshal_map (ev_StateAfter event))
    (Marshal_map (ev_Payload event)) (to_micro (ev_CreatedAt event)).

Definition event_of (r : row) : DomainEvent :=
  mkDomainEvent (id r) (aggregate_type r) (aggregate_id r) (workflow_type r) (workflow_version r)
    (event_type r) (correlation_id r) (causation_id r) (actor_id r)
    (Unmarshal_map (state_before r) None) (Unmarshal_map (state_after r) None) (transition_name r)
    None (Unmarshal_map (payload r) None) (of_micro (created_at r)) 0.

Definition Append (tx : tx_handle) (s : table) (event : DomainEvent) : table * option error :=
  match getTx tx with
  | Some err => (s, Some err)
  | None => exec_insert "pgxstore: insert event: %w" id (λ _ _, false) (row_of event) s
  end.

Definition ListByCorrelation (s : table) (correlationID : string) : list DomainEvent :=
  event_of <$> select_ordered 140 (λ r, bool_decide (correlation_id r = correlationID))
                 (time_order created_at) s.

Definition ListByAggregate (s : table) (aggregateType aggregateID : string) : list DomainEvent :=
  event_of <$> select_ordered 141 (λ r, bool_decide (aggregate_type r = aggregateType) &&
                                        bool_decide (aggregate_id r = aggregateID))
                 (time_order created_at) s.

End events.
End PgxEvents.

(** ** Instances *)

Module PgxInstances.

Record row := mkRow {
  id : string;
  workflow_type : string;
  workflow_version : Z;
  aggregate_type : string;
  aggregate_id : string;
  current_state : string;
  state_data : json;
  correlation_id : string;
  is_stuck : bool;
  stuck_reason : string;
  retry_count : Z;
  created_at : Z;
  updated_at : Z;
  shallow_history : json;
  deep_history : json;
  active_in_parallel : json;
  parallel_clock : Z
}.

Abbreviation table := (gmap string row).

Section instances.
Context {gr : GoRange} {driver : SqlDriver} {pgx : PgxDriver}.

Definition row_of (i : WorkflowInstance) : row :=
  mkRow (wi_ID i) (wi_WorkflowType i) (wi_WorkflowVersion i) (wi_AggregateType i)
    (wi_AggregateID i) (wi_CurrentState i) (Marshal_map (wi_StateData i)) (wi_CorrelationID i)
    (wi_IsStuck i) (wi_StuckReason i) (wi_RetryCount i) (to_micro (wi_CreatedAt i))
    (to_micro (wi_UpdatedAt i)) (Marshal_strings (wi_ShallowHistory i))
    (Marshal_strings (wi_DeepHistory i)) (Marshal_strings (wi_ActiveInParallel i))
    (wi_ParallelClock i).

Definition instance_of (r : row) : WorkflowInstance :=
  mkWorkflowInstance (id r) (workflow_type r) (workflow_version r) (aggregate_type r)
    (aggregate_id r) (current_state r) (Unmarshal_map (state_data r) None) (correlation_id r)
    (is_stuck r) (stuck_reason r) None (retry_count r)
    (of_micro (created_at r)) (of_micro (updated_at r))
    (Unmarshal_strings (shallow_history r) (Some ∅)) (Unmarshal_strings (deep_history r) (Some ∅))
    (Unmarshal_strings (active_in_parallel r) (Some ∅)) (parallel_clock r) 0.

Definition set_row (i : WorkflowInstance) (r : row) : row :=
  mkRow (id r) (workflow_type r) (workflow_version r) (aggregate_type r) (aggregate_id r)
    (wi_CurrentState i) (Marshal_map (wi_StateData i)) (correlation_id r)
    (wi_IsStuck i) (wi_StuckReason i) (wi_RetryCount i) (created_at r)
    (to_micro (wi_UpdatedAt i)) (Marshal_strings (wi_ShallowHistory i))
    (Marshal_strings (wi_DeepHistory i)) (Marshal_strings (wi_ActiveInParallel i))
    (wi_ParallelClock i).

Definition of_aggregate (aggregateType aggregateID : string) (r : row) : bool :=
  bool_decide (aggregate_type r = aggregateType) && bool_decide (aggregate_id r = aggregateID).

(** [aggregate_id TEXT NOT NULL UNIQUE], which the unique index on the pair of type
    and id follows from. *)
Definition same_aggregate_id (r r' : row) : bool := bool_decide (aggregate_id r = aggregate_id r').

Definition Get (errNotFound : error) (s : table) (aggregateType aggregateID : string) :
    result WorkflowInstance :=
  match query_row 142 (of_aggregate aggregateType aggregateID) s with
  | None => Err errNotFound
  | Some r => Ok (instance_of r)
  end.

Definition Create (tx : tx_handle) (s : table) (instance : WorkflowInstance) : table * option error :=
  in_tx_or_pool tx
    (exec_insert "pgxstore: create instance: %w" id same_aggregate_id (row_of instance) s).

Definition Update (tx : tx_handle) (s : table) (instance : WorkflowInstance) : table * option error :=
  in_tx_or_pool tx
    (let '(s', rowsAffected) := update_rows
       (λ r, of_aggregate (wi_AggregateType instance) (wi_AggregateID instance) r &&
             bool_decide (updated_at r = to_micro (wi_LastReadUpdatedAt instance)))
       (set_row instance) s in
     if decide (rowsAffected = 0) then
       (s', Some (Errorf "pgxstore: update instance: %w" []
                    (Some (Sentinel ErrConcurrentModification))))
     else (s', None)).

Definition ListStuck (s : table) : list WorkflowInstance :=
  instance_of <$> select_ordered 143 is_stuck (time_order updated_at) s.

End instances.
End PgxInstances.

(** ** Tasks *)

Module PgxTasks.

(** The JSON of [options] is kept as the list it encodes. *)
Record row := mkRow {
  id : string;
  workflow_type : string;
  aggregate_type : string;
  aggregate_id : string;
  correlation_id : string;
  task_type : string;
  description : string;
  options : list string;
  status : string;
  choice : option string;
  completed_by : option string;
  timeout : Z;
  expires_at : option Z;
  created_at : Z;
  completed_at : option Z
}.

#[export] Instance row_eta : Eta row := λ r,
  mkRow (id r) (workflow_type r) (aggregate_type r) (aggregate_id r) (correlation_id r)
    (task_type r) (description r) (options r) (status r) (choice r) (completed_by r) (timeout r)
    (expires_at r) (created_at r) (completed_at r).

Abbreviation table := (gmap string row).

Section tasks.
Context {gr : GoRange} {driver : SqlDriver} {pgx : PgxDriver}.

(** The INSERT names neither [choice] nor [completed_by]. *)
Definition row_of (task : PendingTask) : row :=
  mkRow (pt_ID task) (pt_WorkflowType task) (pt_AggregateType task) (pt_AggregateID task)
    (pt_CorrelationID task) (pt_TaskType task) (pt_Description task) (pt_Options task)
    (pt_Status task) None None (pt_Timeout task) (nilTime (pt_ExpiresAt task))
    (to_micro (pt_CreatedAt task)) None.

Definition Create (tx : tx_handle) (s : table) (task : PendingTask) : table * option error :=
  in_tx_or_pool tx (exec_insert "pgxstore: create task: %w" id (λ _ _, false) (row_of task) s).

Definition task_of (r : row) : result PendingTask :=
  choice ← scan_text (choice r);
  completed_by ← scan_text (completed_by r);
  Ok (mkPendingTask (id r) (workflow_type r) (aggregate_type r) (aggregate_id r) (correlation_id r)
        (task_type r) (description r) (options r) "" "" (timeout r)
        (from_option of_micro 0%Z (expires_at r)) None choice completed_by (status r)
        (of_micro (created_at r))).

Definition Get (errNotFound : error) (s : table) (taskID : string) : result PendingTask :=
  scan_row "pgxstore: get task: %w" (λ e, Errorf "pgxstore: get task: %w" [] (Some e)) errNotFound
    task_of (query_row 144 (λ r, bool_decide (id r = taskID)) s).

Definition scanTasks (rows : list row) : result (list PendingTask) :=
  scan_rows "pgxstore: scan task: %w" task_of rows.

Definition GetByAggregate (s : table) (aggregateType aggregateID : string) : result (list PendingTask) :=
  scanTasks (select_ordered 145 (λ r, bool_decide (aggregate_type r = aggregateType) &&
                                      bool_decide (aggregate_id r = aggregateID))
               (time_order created_at) s).

Definition ListPending (s : table) : result (list PendingTask) :=
  scanTasks (select_ordered 146 (λ r, bool_decide (status r = "PENDING")) (time_order created_at) s).

(** [now] is the clock of the database; a NULL [expires_at] is not before it. *)
Definition ListExpired (now : Z) (s : table) : result (list PendingTask) :=
  scanTasks (select_ordered 147
    (λ r, bool_decide (status r = "PENDING") &&
          match expires_at r with Some e => bool_decide (e < now)%Z | None => false end)
    (time_order created_at) s).

Definition Complete (now : Z) (tx : tx_handle) (s : table) (taskID taskChoice actorID : string) :
    table * option error :=
  in_tx tx s
    ((update_rows (λ r, bool_decide (id r = taskID))
        (λ r, r <| status := "COMPLETED" |> <| choice := Some taskChoice |>
                <| completed_by := Some actorID |> <| completed_at := Some now |>) s).1, None).

End tasks.
End PgxTasks.

(** ** Child relations *)

Module PgxChildren.

Record row := mkRow {
  id : string;
  group_id : option string;
  parent_workflow_type : string;
  parent_aggregate_type : string;
  parent_aggregate_id : string;
  child_workflow_type : string;
  child_aggregate_type : string;
  child_aggregate_id : string;
  correlation_id : string;
  status : string;
  child_terminal_state : option string;
  join_policy : option string;
  created_at : Z;
  completed_at : option Z
}.

#[export] Instance row_eta : Eta row := λ r,
  mkRow (id r) (group_id r) (parent_workflow_type r) (parent_aggregate_type r)
    (parent_aggregate_id r) (child_workflow_type r) (child_aggregate_type r)
    (child_aggregate_id r) (correlation_id r) (status r) (child_terminal_state r) (join_policy r)
    (created_at r) (completed_at r).

Abbreviation table := (gmap string row).

Section children.
Context {gr : GoRange} {driver : SqlDriver} {pgx : PgxDriver}.

Definition row_of (relation : ChildRelation) : row :=
  mkRow (cr_ID relation) (nilString (cr_GroupID relation)) (cr_ParentWorkflowType relation)
    (cr_ParentAggregateType relation) (cr_ParentAggregateID relation)
    (cr_ChildWorkflowType relation) (cr_ChildAggregateType relation)
    (cr_ChildAggregateID relation) (cr_CorrelationID relation) (cr_Status relation) None
    (nilString (cr_JoinPolicy relation)) (to_micro (cr_CreatedAt relation)) None.

Definition Create (tx : tx_handle) (s : table) (relation : ChildRelation) : table * option error :=
  in_tx tx s
    (exec_insert "pgxstore: create child relation: %w" id (λ _ _, false) (row_of relation) s).

(** [group_id] and [join_policy] are scanned into pointers, [child_terminal_state]
    into a string. *)
Definition relation_of (r : row) : result ChildRelation :=
  terminal ← scan_text (child_terminal_state r);
  Ok (mkChildRelation (id r) (default "" (group_id r)) (parent_workflow_type r)
        (parent_aggregate_type r) (parent_aggregate_id r) (child_workflow_type r)
        (child_aggregate_type r) (child_aggregate_id r) (correlation_id r) (status r) terminal
        (default "" (join_policy r)) (of_micro (created_at r)) (of_micro <$> completed_at r)).

Definition is_child (childAggregateType childAggregateID : string) (r : row) : bool :=
  bool_decide (child_aggregate_type r = childAggregateType) &&
  bool_decide (child_aggregate_id r = childAggregateID).

(** No row is an error of pgx, wrapped as any other. *)
Definition GetByChild (errNoRows : error) (s : table) (childAggregateType childAggregateID : string) :
    result ChildRelation :=
  scan_row "pgxstore: get child relation: %w"
    (λ e, Errorf "pgxstore: get child relation: %w" [] (Some e)) errNoRows relation_of
    (query_row 148 (is_child childAggregateType childAggregateID) s).

Definition scanRelations (rows : list row) : result (list ChildRelation) :=
  scan_rows "pgxstore: scan relation: %w" relation_of rows.

Definition GetByParent (s : table) (parentAggregateType parentAggregateID : string) :
    result (list ChildRelation) :=
  scanRelations (select_rows 149
    (λ r, bool_decide (parent_aggregate_type r = parentAggregateType) &&
          bool_decide (parent_aggregate_id r = parentAggregateID)) s).

(** A NULL [group_id] equals no group. *)
Definition GetByGroup (s : table) (groupID : string) : result (list ChildRelation) :=
  scanRelations (select_rows 150 (λ r, bool_decide (group_id r = Some groupID)) s).

Definition Complete (now : Z) (tx : tx_handle) (s : table)
    (childAggregateType childAggregateID terminalState : string) : table * option error :=
  in_tx tx s
    ((update_rows (is_child childAggregateType childAggregateID)
        (λ r, r <| status := "COMPLETED" |> <| child_terminal_state := Some terminalState |>
                <| completed_at := Some now |>) s).1, None).

End children.
End PgxChildren.

(** ** Activities *)

Module PgxActivities.

Record row := mkRow {
  id : string;
  activity_name : string;
  workflow_type : string;
  aggregate_type : string;
  aggregate_id : string;
  correlation_id : string;
  mode : string;
  input : json;
  output : option json;
  error_msg : option string;
  retry_policy : json;
  timeout : Z;
  status : string;
  max_attempts : Z;
  attempt_count : Z;
  scheduled_at : Z;
  started_at : option Z;
  completed_at : option Z;
  next_retry_at : option Z
}.

#[export] Instance row_eta : Eta row := λ r,
  mkRow (id r) (activity_name r) (workflow_type r) (aggregate_type r) (aggregate_id r)
    (correlation_id r) (mode r) (input r) (output r) (error_msg r) (retry_policy r) (timeout r)
    (status r) (max_attempts r) (attempt_count r) (scheduled_at r) (started_at r) (completed_at r)
    (next_retry_at r).

Abbreviation table := (gmap string row).

Section activities.
Context {gr : GoRange} {driver : SqlDriver} {pgx : PgxDriver}.

(** [attempt_count] is 0 by default. *)
Definition row_of (inv : ActivityInvocation) : row :=
  mkRow (inv_ID inv) (inv_ActivityName inv) (inv_WorkflowType inv) (inv_AggregateType inv)
    (inv_AggregateID inv) (inv_CorrelationID inv) (inv_Mode inv) (Marshal_input (inv_Input inv))
    None None (Marshal_retry (inv_RetryPolicy inv)) (inv_Timeout inv) (inv_Status inv)
    (inv_MaxAttempts inv) 0 (to_micro (inv_ScheduledAt inv)) None None None.

Definition Create (tx : tx_handle) (s : table) (inv : ActivityInvocation) : table * option error :=
  in_tx tx s (exec_insert "pgxstore: create activity: %w" id (λ _ _, false) (row_of inv) s).

(** [Get] does not select [next_retry_at]. *)
Definition invocation_of (with_retry : bool) (r : row) : result ActivityInvocation :=
  _ ← scan_text (error_msg r);
  Ok (mkActivityInvocation (id r) (activity_name r) (workflow_type r) (aggregate_type r)
        (aggregate_id r) (correlation_id r) (mode r) (Unmarshal_input (input r))
        (Unmarshal_retry (retry_policy r)) None (timeout r) (status r)
        (Unmarshal_result <$> output r) (attempt_count r) (max_attempts r)
        (if with_retry then of_micro <$> next_retry_at r else None)
        (of_micro (scheduled_at r)) (of_micro <$> started_at r) (of_micro <$> completed_at r)).

Definition Get (errNotFound : error) (s : table) (invocationID : string) : result ActivityInvocation :=
  scan_row "pgxstore: get activity: %w" (λ e, Errorf "pgxstore: get activity: %w" [] (Some e))
    errNotFound (invocation_of false) (query_row 151 (λ r, bool_decide (id r = invocationID)) s).

Definition UpdateStatus (now : Z) (s : table) (invocationID newStatus : string)
    (r : option ActivityResult) : table * option error :=
  let out := Marshal_result <$> r in
  let errorMsg := match r with Some r => ar_Error r | None => "" end in
  ((update_rows (λ r, bool_decide (id r = invocationID))
      (λ r, r <| status := newStatus |> <| output := out |> <| error_msg := Some errorMsg |>
              <| completed_at := Some now |>) s).1, None).

Definition scanActivities (rows : list row) : result (list ActivityInvocation) :=
  scan_rows "pgxstore: scan activity: %w" (invocation_of true) rows.

Definition ListByAggregate (s : table) (aggregateType aggregateID : string) :
    result (list ActivityInvocation) :=
  scanActivities (select_ordered 152 (λ r, bool_decide (aggregate_type r = aggregateType) &&
                                           bool_decide (aggregate_id r = aggregateID))
                    (time_order scheduled_at) s).

Definition ListPending (s : table) : result (list ActivityInvocation) :=
  scanActivities (select_ordered 153 (λ r, bool_decide (status r = "SCHEDULED"))
                    (time_order scheduled_at) s).

Definition ListFailed (s : table) : result (list ActivityInvocation) :=
  scanActivities (select_ordered 154 (λ r, bool_decide (status r = "FAILED"))
                    (time_order scheduled_at) s).

Definition ListRetryable (now : Z) (s : table) : result (list ActivityInvocation) :=
  scanActivities (select_ordered 155
    (λ r, bool_decide (status r = "SCHEDULED") &&
          match next_retry_at r with Some t => bool_decide (t <= now)%Z | None => false end)
    (time_order scheduled_at) s).

End activities.
End PgxActivities.

(** ** Instances keep the contract *)

Section proofs.
Context {gr : GoRange} {driver : SqlDriver} {pgx : PgxDriver}.

(** A time as it comes back from a [timestamptz]. *)
Definition in_micro (t : time) : time := of_micro (to_micro t).

Lemma in_micro_exact m : in_micro (of_micro m) = of_micro m.
Proof. unfold in_micro, of_micro. by rewrite to_micro_exact. Qed.

(** The instances whose [LastReadUpdatedAt] was read from the store. *)
Definition micro_read (i : WorkflowInstance) : Prop := in_micro (wi_LastReadUpdatedAt i) = wi_LastReadUpdatedAt i.

Definition pgx_read (i : WorkflowInstance) : WorkflowInstance :=
  (instance_read i) <| wi_CreatedAt := in_micro (wi_CreatedAt i) |>
                    <| wi_UpdatedAt := in_micro (wi_UpdatedAt i) |>.

Definition pgx_merged (old i : WorkflowInstance) : WorkflowInstance :=
  (instance_merged old i) <| wi_UpdatedAt := in_micro (wi_UpdatedAt i) |>.

#[export] Instance pgx_rows : InstanceRow PgxInstances.row Z := {
  row_id := PgxInstances.id;
  row_type := PgxInstances.aggregate_type;
  row_aggregate := PgxInstances.aggregate_id;
  row_stamp := PgxInstances.updated_at;
  stamp_of := to_micro;
  InstanceRows.row_of := PgxInstances.row_of;
  InstanceRows.set_row := PgxInstances.set_row;
  InstanceRows.instance_of := PgxInstances.instance_of
}.

#[export] Instance pgx_row_laws :
  InstanceRowLaws PgxInstances.row Z micro_read (λ _, True) pgx_read pgx_merged.
Proof.
  constructor; cbn [row_id row_type row_aggregate row_stamp stamp_of InstanceRows.row_of
                    InstanceRows.set_row InstanceRows.instance_of pgx_rows]; try done.
  - intros i _. unfold PgxInstances.instance_of, PgxInstances.row_of. cbn.
    rewrite Unmarshal_Marshal_map, !Unmarshal_Marshal_strings by done. by destruct i.
  - intros i r _. unfold PgxInstances.instance_of, PgxInstances.set_row. cbn.
    rewrite Unmarshal_Marshal_map, !Unmarshal_Marshal_strings by done. by destruct i.
  - intros i r Hl _. unfold PgxInstances.instance_of. cbn. split.
    + by intros ->.
    + intros <-. unfold of_micro. by rewrite to_micro_exact.
Qed.

#[export] Instance pgx_instance_store (tx : tx_handle) (errNotFound : error) :
    InstanceStore PgxInstances.table := {
  store_Get := PgxInstances.Get errNotFound;
  store_Create := PgxInstances.Create tx;
  store_Update := PgxInstances.Update tx;
  store_Read := pgx_read;
  store_Merge := pgx_merged
}.

#[export] Instance pgx_charts tx errNotFound :
  InstanceStoreCharts PgxInstances.table (H := pgx_instance_store tx errNotFound) micro_read.
Proof.
  constructor; [done|..].
  - intros old i Ht Hi Hv. unfold chart_of. cbn. by rewrite Ht, Hi, Hv.
  - intros i v Hi Heq. cbn. by rewrite <-Heq.
Qed.

(** C33: The instance store on PostgreSQL keeps the contract of the stores, in a
    transaction or without, for updates that carry a time read from the store:
    times come back in whole microseconds, and an update is accepted exactly when
    it read the latest version. *)
Theorem pgx_implements_contract tx errNotFound :
  table_ok (row_ok := λ _, True) (∅ : PgxInstances.table) ∧
  InstanceStoreLaws PgxInstances.table (H := pgx_instance_store tx errNotFound)
    (λ _, True) micro_read (table_ok (row_ok := λ _, True)).
Proof.
  split; [apply table_ok_empty|].
  destruct tx; exact (rows_laws (T := Z) (good := micro_read) (row_ok := λ _, True) 142 errNotFound
    (Errorf "pgxstore: create instance: %w" [] (Some unique_violation))
    (Errorf "pgxstore: update instance: %w" [] (Some (Sentinel ErrConcurrentModification))) eq_refl).
Qed.

(** ** Rows with NULLs *)

Lemma exec_insert_inv {R} msg (key : R → string) clashes r s s' :
  exec_insert msg key clashes r s = (s', None) → s' = <[key r := r]> s ∧ s !! key r = None.
Proof.
  unfold exec_insert. destruct (insert_row _ _ _ _) as [t|] eqn:Hi; [|done]. intros [= <-].
  by apply insert_row_Some in Hi as (-> & Hn & _).
Qed.

Lemma in_tx_inv {S} tx (s : S) st s' : in_tx tx s st = (s', None) → st = (s', None).
Proof. by destruct tx. Qed.

Lemma in_tx_or_pool_id {S} tx (st : S * option error) : in_tx_or_pool tx st = st.
Proof. by destruct tx. Qed.

Lemma keyed_insert {R} (key : R → string) r s : keyed key s → keyed key (<[key r := r]> s).
Proof. intros Hs k r' [[<- <-]|[_ Hk]]%lookup_insert_Some; [done|by apply Hs]. Qed.

(** A row that cannot be scanned makes the whole list an error. *)
Lemma scan_rows_Err {R A} msg (scan : R → result A) l r e :
  r ∈ l → scan r = Err e → ∃ e', scan_rows msg scan l = Err e'.
Proof.
  induction l as [|r' l IH]; [by intros ?%elem_of_nil|]. cbn.
  intros [->|Hin]%elem_of_cons Hr; [rewrite Hr; by eexists|].
  destruct (IH Hin Hr) as [e' ->]. destruct (scan r'); by eexists.
Qed.

Lemma scan_row_Err {R A} msg nr nf (scan : R → result A) r e :
  scan r = Err e → scan_row msg nr nf scan (Some r) = Err (Errorf msg [] (Some e)).
Proof. intros Hr. cbn. by rewrite Hr. Qed.

(** A row whose INSERT leaves a text column NULL cannot be read: until it is
    completed a task is not found by its id and no list of pending tasks that holds
    it is read, an activity is not found by its id until its status is updated,
    and the children of a parent are not read while one of them is active. *)
Theorem pgx_created_unreadable :
  ∃ e, scan_text None = Err e ∧
  (∀ tx s task s' errNotFound, keyed PgxTasks.id s →
    PgxTasks.Create tx s task = (s', None) →
    PgxTasks.Get errNotFound s' (pt_ID task) = Err (Errorf "pgxstore: get task: %w" [] (Some e)) ∧
    (pt_Status task = TaskStatusPending → ∃ e', PgxTasks.ListPending s' = Err e')) ∧
  (∀ tx s inv s' errNotFound, keyed PgxActivities.id s →
    PgxActivities.Create tx s inv = (s', None) →
    PgxActivities.Get errNotFound s' (inv_ID inv) =
      Err (Errorf "pgxstore: get activity: %w" [] (Some e))) ∧
  (∀ tx s rel s', PgxChildren.Create tx s rel = (s', None) →
    ∃ e', PgxChildren.GetByParent s' (cr_ParentAggregateType rel) (cr_ParentAggregateID rel) = Err e').
Proof.
  destruct scan_text_None as [e He]. exists e. split_and!; [done|..].
  - intros tx s task s' nf Hs Hc. unfold PgxTasks.Create in Hc. rewrite in_tx_or_pool_id in Hc.
    apply exec_insert_inv in Hc as [-> Hn].
    assert (PgxTasks.task_of (PgxTasks.row_of task) = Err e) as Hr
      by (unfold PgxTasks.task_of; cbn; by rewrite He).
    split.
    + unfold PgxTasks.Get. rewrite query_row_key by by apply keyed_insert.
      rewrite (lookup_insert_eq s (PgxTasks.id (PgxTasks.row_of task))). by apply scan_row_Err.
    + intros Hst. apply (scan_rows_Err _ _ _ (PgxTasks.row_of task) e); [|done].
      unfold select_ordered. rewrite merge_sort_Permutation, elem_of_select_rows.
      rewrite bool_decide_eq_true. split; [done|]. exists (pt_ID task). apply lookup_insert_eq.
  - intros tx s inv s' nf Hs Hc%in_tx_inv. apply exec_insert_inv in Hc as [-> Hn].
    unfold PgxActivities.Get. rewrite query_row_key by by apply keyed_insert.
    rewrite (lookup_insert_eq s (PgxActivities.id (PgxActivities.row_of inv))). apply scan_row_Err.
    unfold PgxActivities.invocation_of. cbn. by rewrite He.
  - intros tx s rel s' Hc%in_tx_inv. apply exec_insert_inv in Hc as [-> Hn].
    apply (scan_rows_Err _ _ _ (PgxChildren.row_of rel) e).
    + rewrite elem_of_select_rows. cbn. rewrite !bool_decide_true by done. split; [done|].
      exists (cr_ID rel). apply lookup_insert_eq.
    + unfold PgxChildren.relation_of. cbn. by rewrite He.
Qed.

(** ** Rows without *)

(** A task as it is read once it is completed: its state, its assignee and the time
    of its completion are not kept. *)
Definition task_read (task : PendingTask) (choice actorID : string) : PendingTask :=
  task <| pt_State := "" |> <| pt_AssignedTo := "" |> <| pt_CompletedAt := None |>
       <| pt_ExpiresAt := if IsZero (pt_ExpiresAt task) then 0%Z else in_micro (pt_ExpiresAt task) |>
       <| pt_CreatedAt := in_micro (pt_CreatedAt task) |> <| pt_Status := TaskStatusCompleted |>
       <| pt_Choice := choice |> <| pt_CompletedBy := actorID |>.

(** An activity as it is read once its status is updated. *)
Definition invocation_read (inv : ActivityInvocation) (status : string)
    (result : option ActivityResult) (now : Z) : ActivityInvocation :=
  let i := inv_Input inv in
  inv <| inv_Input := mkActivityInput (ai_WorkflowType i) (ai_AggregateType i) (ai_AggregateID i)
           (ai_CorrelationID i) (map_as_json (ai_Params i)) (ai_ScheduledAt i) (ai_Transition i)
           (ai_SourceState i) (ai_EventID i) |>
      <| inv_ResultSignals := None |> <| inv_Status := status |>
      <| inv_Result := (λ r, mkActivityResult (map_as_json (ar_Output r)) (ar_Error r)) <$> result |>
      <| inv_Attempts := 0%Z |> <| inv_NextRetryAt := None |>
      <| inv_ScheduledAt := in_micro (inv_ScheduledAt inv) |> <| inv_StartedAt := None |>
      <| inv_CompletedAt := Some (of_micro now) |>.

(** An UPDATE by primary key changes that row. *)
Lemma update_key {R} (key : R → string) (set : R → R) s k :
  keyed key s →
  (update_rows (λ r, bool_decide (key r = k)) set s).1 = alter set k s.
Proof.
  intros Hs. apply map_eq. intros k'. rewrite update_rows_lookup.
  destruct (decide (k' = k)) as [->|Hne].
  - rewrite lookup_alter_eq. destruct (s !! k) as [r|] eqn:Hk; [|done]. cbn.
    by rewrite bool_decide_true by by apply Hs.
  - rewrite lookup_alter_ne by done. destruct (s !! k') as [r|] eqn:Hk; [|done]. cbn.
    rewrite bool_decide_false; [done|]. apply Hs in Hk. congruence.
Qed.

Lemma keyed_alter {R} (key : R → string) (set : R → R) s k :
  keyed key s → (∀ r, key (set r) = key r) → keyed key (alter set k s).
Proof.
  intros Hs Hset k' r [(-> & r' & Hr & ->)|[_ Hr]]%lookup_alter_Some; [|by apply Hs].
  rewrite Hset. by apply Hs.
Qed.

(** A completed task is read with the choice and the actor it was completed
    with, and an activity whose status was updated with its status and result, to
    the microsecond. *)
Theorem pgx_finished_readable :
  (∀ now tx tx' s task s1 s2 choice actorID errNotFound, keyed PgxTasks.id s →
    PgxTasks.Create tx s task = (s1, None) →
    PgxTasks.Complete now tx' s1 (pt_ID task) choice actorID = (s2, None) →
    PgxTasks.Get errNotFound s2 (pt_ID task) = Ok (task_read task choice actorID)) ∧
  (∀ now tx s inv s1 status result errNotFound, keyed PgxActivities.id s →
    readable (ai_ScheduledAt (inv_Input inv)) → policy_ok (inv_RetryPolicy inv) →
    PgxActivities.Create tx s inv = (s1, None) →
    ∃ s2, PgxActivities.UpdateStatus now s1 (inv_ID inv) status result = (s2, None) ∧
    PgxActivities.Get errNotFound s2 (inv_ID inv) = Ok (invocation_read inv status result now)).
Proof.
  split.
  - intros now tx tx' s task s1 s2 c a nf Hs Hc Hu%in_tx_inv. unfold PgxTasks.Create in Hc.
    rewrite in_tx_or_pool_id in Hc. apply exec_insert_inv in Hc as [-> Hn].
    apply (keyed_insert _ (PgxTasks.row_of task)) in Hs.
    rewrite update_key in Hu by done. injection Hu as <-.
    unfold PgxTasks.Get. rewrite query_row_key by by apply keyed_alter.
    rewrite lookup_alter_eq, (lookup_insert_eq s (PgxTasks.id (PgxTasks.row_of task))). cbn.
    unfold PgxTasks.task_of. cbn. rewrite !scan_text_Some. cbn. unfold nilTime.
    unfold task_read. destruct task; cbn. by destruct (IsZero _).
  - intros now tx s inv s1 st res nf Hs Ht Hpol Hc%in_tx_inv. apply exec_insert_inv in Hc as [-> Hn].
    apply (keyed_insert _ (PgxActivities.row_of inv)) in Hs.
    unfold PgxActivities.UpdateStatus. rewrite update_key by done. eexists. split; [done|].
    unfold PgxActivities.Get. rewrite query_row_key by by apply keyed_alter.
    rewrite lookup_alter_eq, (lookup_insert_eq s (PgxActivities.id (PgxActivities.row_of inv))). cbn.
    unfold PgxActivities.invocation_of. cbn. rewrite scan_text_Some. cbn.
    rewrite Unmarshal_Marshal_input, Unmarshal_Marshal_retry by done.
    rewrite <-option_fmap_compose. rewrite (option_fmap_ext _ (λ r, mkActivityResult (map_as_json (ar_Output r)) (ar_Error r)))
      by (intros r; apply Unmarshal_Marshal_result).
    by destruct inv.
Qed.

(** The in-memory store refuses to complete a task again; this one keeps the last
    choice, and completes a task it does not hold without an error. *)
Theorem pgx_Complete_again now tx s k r choice actorID choice' actorID' :
  tx ≠ OtherTx → keyed PgxTasks.id s → s !! k = Some r →
  ∃ s1 s2, PgxTasks.Complete now tx s k choice actorID = (s1, None) ∧
    PgxTasks.Complete now tx s1 k choice' actorID' = (s2, None) ∧
    PgxTasks.choice <$> s2 !! k = Some (Some choice').
Proof.
  intros Htx Hs Hk. unfold PgxTasks.Complete.
  assert (∀ st : PgxTasks.table * option error, in_tx tx s st = st) as -> by by destruct tx.
  rewrite update_key by done. eexists _, _. split; [done|].
  assert (∀ s' (st : PgxTasks.table * option error), in_tx tx s' st = st) as -> by by destruct tx.
  rewrite update_key by by apply keyed_alter. split; [done|].
  by rewrite lookup_alter_eq, lookup_alter_eq, Hk.
Qed.

(** ** The lists of events *)

Lemma pgx_Append_inv tx s e s' :
  PgxEvents.Append tx s e = (s', None) → s' = <[ev_ID e := PgxEvents.row_of e]> s ∧ s !! ev_ID e = None.
Proof. unfold PgxEvents.Append. destruct (getTx tx); [done|]. apply (exec_insert_inv _ PgxEvents.id _ (PgxEvents.row_of e)). Qed.

Lemma StronglySorted_fmap {A B} (f : A → B) (le : A → A → Prop) (le' : B → B → Prop) l :
  (∀ x y, le x y → le' (f x) (f y)) → StronglySorted le l → StronglySorted le' (f <$> l).
Proof.
  intros Hf. induction 1 as [|x l Hs IH Hx]; cbn; constructor; [done|].
  rewrite Forall_fmap. eapply Forall_impl; [done|]. intros y. apply Hf.
Qed.

(** The events of a correlation come in the order of their times, to the
    microsecond, and an appended event is among them once. *)
Theorem pgx_events_in_order tx s e s' correlationID :
  PgxEvents.Append tx s e = (s', None) →
  StronglySorted (λ e1 e2, ev_CreatedAt e1 <= ev_CreatedAt e2)%Z
    (PgxEvents.ListByCorrelation s' correlationID) ∧
  PgxEvents.ListByCorrelation s' correlationID ≡ₚ
  (if decide (ev_CorrelationID e = correlationID)
   then [(event_read e) <| ev_CreatedAt := in_micro (ev_CreatedAt e) |>] else []) ++
  PgxEvents.ListByCorrelation s correlationID.
Proof.
  intros [-> Hn]%pgx_Append_inv. split.
  - eapply StronglySorted_fmap, StronglySorted_merge_sort; [|apply _..].
    intros r1 r2. unfold time_order, PgxEvents.event_of, of_micro. cbn. lia.
  - unfold PgxEvents.ListByCorrelation, select_ordered, select_rows.
    rewrite !merge_sort_Permutation, !range_perm, map_to_list_insert by done.
    cbn [fmap list_fmap]. rewrite filter_cons. cbn.
    destruct (decide (ev_CorrelationID e = correlationID)) as [Hd|Hd].
    + rewrite decide_True by by rewrite bool_decide_true. cbn. unfold PgxEvents.event_of at 1.
      cbn. rewrite !Unmarshal_Marshal_map by done. by destruct e.
    + by rewrite decide_False by by rewrite bool_decide_false.
Qed.
End proofs.
