(* ===== verification/Dynamo.v ===== *)
(** * Dynamo: the stores on DynamoDB

    Models [adapters/dynamostore/store.go].  DynamoDB and its SDK are parameters:
    [DynamoSDK] encodes instances as items and decodes them, [DynamoDB] holds the
    table, evaluates conditions and writes one item or a transaction of items.
    A [ddbTx] collects writes until [Commit], so an operation takes and returns
    the table and the writes collected.  Reads that fail are left to the calls of
    [Effects.v]. *)

From Stdlib Require Import Ascii.
From S2P Require Import Prelude Errors Types Rfc3339 Json Effects Memstore.

(** ** The service and its SDK *)

(** Attribute values have the shapes of JSON: S, N, BOOL, NULL and M. *)
Abbreviation attr := json.
Abbreviation AttrS := JStr.
Abbreviation AttrN := JNum.

Abbreviation item := (gmap string attr).

Record condition := mkCondition {
  ConditionExpression : string;
  ExpressionAttributeValues : gmap string attr
}.

Record Put := mkPut {
  put_Item : item;
  put_Condition : option condition
}.

Definition text_at (it : item) (name : string) : string :=
  match it !! name with Some (AttrS s) => s | _ => "" end.

(** The primary key of an item. *)
Definition key_of_item (it : item) : string * string := (text_at it "PK", text_at it "SK").

Definition put_key (p : Put) : string * string := key_of_item (put_Item p).

(** What a transaction writes at a key. *)
Fixpoint written (l : list Put) (k : string * string) : option item :=
  match l with
  | [] => None
  | p :: l => if decide (put_key p = k) then Some (put_Item p) else written l k
  end.

Class DynamoDB := {
  db : Type;
  GetItem : db → string * string → option item;
  PutItem : db → Put → db + error;
  TransactWriteItems : db → list Put → db + error;
  (** [Query] of the table and of the index [GSI1], and [Scan] of the stuck instances. *)
  QueryPK : db → string → list item;
  QueryGSI1 : db → string → list item;
  ScanStuck : db → list item;
  (** [errors.As] for the exceptions; the codes of the reasons of a cancellation. *)
  conditional_failed : error → bool;
  cancellation : error → option (list (option string));
  (** Whether a condition holds of the item that a write replaces. *)
  holds : condition → option item → bool
}.

Definition met `{DynamoDB} (d : db) (p : Put) : bool :=
  match put_Condition p with None => true | Some c => holds c (GetItem d (put_key p)) end.

(** What the code relies on: a write is made when its condition holds, else refused
    with the exception for that; a transaction on distinct keys makes all its
    writes or, when a condition does not hold, none. *)
Class DynamoDBLaws `{DynamoDB} := {
  put_get : ∀ d p d', PutItem d p = inl d' → ∀ k,
    GetItem d' k = if decide (put_key p = k) then Some (put_Item p) else GetItem d k;
  put_accepted : ∀ d p, met d p = true → ∃ d', PutItem d p = inl d';
  put_refused : ∀ d p, met d p = false → ∃ e, PutItem d p = inr e ∧ conditional_failed e = true;
  transact_get : ∀ d l d', TransactWriteItems d l = inl d' → ∀ k,
    GetItem d' k = match written l k with Some it => Some it | None => GetItem d k end;
  transact_accepted : ∀ d l, NoDup (put_key <$> l) → Forall (λ p, met d p = true) l →
    ∃ d', TransactWriteItems d l = inl d';
  transact_refused : ∀ d l, Exists (λ p, met d p = false) l →
    ∃ e codes, TransactWriteItems d l = inr e ∧ cancellation e = Some codes ∧
      Some "ConditionalCheckFailed" ∈ codes;
  holds_equal : ∀ s it,
    holds (mkCondition "UpdatedAt = :oldUpdatedAt" {[":oldUpdatedAt" := AttrS s]}) it = true ↔
    it ≫= lookup "UpdatedAt" = Some (AttrS s)
}.

(** The struct [unmarshalEvents] decodes an item into. *)
Record event_record := mkEventRecord {
  er_ID : string;
  er_AggregateType : string;
  er_AggregateID : string;
  er_WorkflowType : string;
  er_WorkflowVersion : Z;
  er_EventType : string;
  er_CorrelationID : string;
  er_ActorID : string;
  er_TransitionName : string;
  er_StateBefore : json;
  er_StateAfter : json;
  er_Payload : json;
  er_CreatedAt : string
}.

Class DynamoSDK := {
  MarshalMap : WorkflowInstance → result item;
  UnmarshalMap : item → result WorkflowInstance;
  UnmarshalEvent : item → result event_record
}.

(** An instance as it is read back: the values of its data have the types of
    attribute values, which are those of JSON. *)
Definition dynamo_read (i : WorkflowInstance) : WorkflowInstance :=
  i <| wi_StateData := map_as_json (wi_StateData i) |>.

(** The times the encoding keeps. *)
Definition timely (i : WorkflowInstance) : Prop :=
  readable (wi_CreatedAt i) ∧ readable (wi_UpdatedAt i) ∧ readable (wi_LastReadUpdatedAt i) ∧
  match wi_StuckAt i with Some t => readable t | None => True end.

(** An instance is encoded by its fields, times as RFC 3339 text, and is decoded
    from an item that has further attributes. *)
Class DynamoSDKLaws `{DynamoSDK} := {
  marshal_instance : ∀ i, ∃ it, MarshalMap i = Ok it ∧
    it !! "UpdatedAt" = Some (AttrS (Format (wi_UpdatedAt i)));
  unmarshal_instance : ∀ i it pk sk ty, timely i → MarshalMap i = Ok it →
    UnmarshalMap (<["Type" := ty]> (<["SK" := sk]> (<["PK" := pk]> it))) = Ok (dynamo_read i)
}.

(** ** Transactions *)

(** The [tx any] of a call: nil, or a [ddbTx] with the writes it has collected. *)
Abbreviation ddb_tx := (option (list Put)).

Definition Begin : ddb_tx := Some [].

Section store.
Context {service : DynamoDB} {sdk : DynamoSDK}.

Definition Commit (d : db) (items : list Put) : db * option error :=
  if decide (items = []) then (d, None)
  else
    match TransactWriteItems d items with
    | inl d => (d, None)
    | inr err =>
        let reasons := default [] (cancellation err) in
        if existsb (λ code, bool_decide (code = Some "ConditionalCheckFailed")) reasons then
          (d, Some (Errorf "dynamostore: commit tx: %w" [] (Some (Sentinel ErrConcurrentModification))))
        else (d, Some (Errorf "dynamostore: commit tx: %w" [] (Some err)))
    end.

Definition Rollback (d : db) (items : list Put) : db * option error := (d, None).

(** A write: collected, or sent at once; [failed] is what an error of [PutItem]
    becomes. *)
Definition write (failed : error → error) (d : db) (tx : ddb_tx) (p : Put) :
    db * ddb_tx * option error :=
  match tx with
  | Some items => (d, Some (items ++ [p]), None)
  | None =>
      match PutItem d p with
      | inl d => (d, None, None)
      | inr err => (d, None, Some (failed err))
      end
  end.

(** ** Events *)

Definition event_key (aggregateType aggregateID : string) : string :=
  "EVENT#" +:+ aggregateType +:+ "#" +:+ aggregateID.

(** The JSON texts of the maps are kept as the documents they encode. *)
Definition event_item (event : DomainEvent) : item :=
  list_to_map
    [("PK", AttrS (event_key (ev_AggregateType event) (ev_AggregateID event)));
     ("SK", AttrS (ev_ID event));
     ("GSI1PK", AttrS ("CORR#" +:+ ev_CorrelationID event));
     ("GSI1SK", AttrS (ev_ID event));
     ("Type", AttrS "Event");
     ("ID", AttrS (ev_ID event));
     ("AggregateType", AttrS (ev_AggregateType event));
     ("AggregateID", AttrS (ev_AggregateID event));
     ("WorkflowType", AttrS (ev_WorkflowType event));
     ("WorkflowVersion", AttrN (ev_WorkflowVersion event));
     ("EventType", AttrS (ev_EventType event));
     ("CorrelationID", AttrS (ev_CorrelationID event));
     ("ActorID", AttrS (ev_ActorID event));
     ("TransitionName", AttrS (ev_TransitionName event));
     ("StateBefore", Marshal_map (ev_StateBefore event));
     ("StateAfter", Marshal_map (ev_StateAfter event));
     ("Payload", Marshal_map (ev_Payload event));
     ("CreatedAt", AttrS (Format (ev_CreatedAt event)))].

Definition Append (d : db) (tx : ddb_tx) (event : DomainEvent) : db * ddb_tx * option error :=
  write id d tx (mkPut (event_item event) None).

Definition event_of (record : event_record) : DomainEvent :=
  mkDomainEvent (er_ID record) (er_AggregateType record) (er_AggregateID record)
    (er_WorkflowType record) (er_WorkflowVersion record) (er_EventType record)
    (er_CorrelationID record) "" (er_ActorID record)
    (Unmarshal_map (er_StateBefore record) None) (Unmarshal_map (er_StateAfter record) None)
    (er_TransitionName record) None (Unmarshal_map (er_Payload record) None)
    (parse_time (er_CreatedAt record)) 0.

Fixpoint unmarshalEvents (items : list item) : result (list DomainEvent) :=
  match items with
  | [] => Ok []
  | it :: items =>
      match UnmarshalEvent it with
      | Err err => Err (Errorf "dynamostore: unmarshal event: %w" [] (Some err))
      | Ok record =>
          match unmarshalEvents items with
          | Ok events => Ok (event_of record :: events)
          | Err err => Err err
          end
      end
  end.

Definition ListByCorrelation (d : db) (correlationID : string) : result (list DomainEvent) :=
  unmarshalEvents (QueryGSI1 d ("CORR#" +:+ correlationID)).

Definition ListByAggregate (d : db) (aggregateType aggregateID : string) : result (list DomainEvent) :=
  unmarshalEvents (QueryPK d (event_key aggregateType aggregateID)).

(** ** Instances *)

Definition inst_key (aggregateType aggregateID : string) : string * string :=
  ("INST#" +:+ aggregateType +:+ "#" +:+ aggregateID, "INSTANCE").

(** [item["PK"] = ...; item["SK"] = ...; item["Type"] = ...] *)
Definition tagged (i : WorkflowInstance) (it : item) : item :=
  let key := inst_key (wi_AggregateType i) (wi_AggregateID i) in
  <["Type" := AttrS "Instance"]> (<["SK" := AttrS key.2]> (<["PK" := AttrS key.1]> it)).

Definition Get (errNotFound : error) (d : db) (aggregateType aggregateID : string) :
    result WorkflowInstance :=
  match GetItem d (inst_key aggregateType aggregateID) with
  | None => Err errNotFound
  | Some it =>
      match UnmarshalMap it with
      | Err err => Err (Errorf "dynamostore: unmarshal instance: %w" [] (Some err))
      | Ok inst => Ok inst
      end
  end.

Definition marshal_failed (d : db) (tx : ddb_tx) (err : error) : db * ddb_tx * option error :=
  (d, tx, Some (Errorf "dynamostore: marshal instance: %w" [] (Some err))).

Definition Create (d : db) (tx : ddb_tx) (instance : WorkflowInstance) : db * ddb_tx * option error :=
  match MarshalMap instance with
  | Err err => marshal_failed d tx err
  | Ok it => write id d tx (mkPut (tagged instance it) None)
  end.

(** The [ConditionExpression] of an update, with its value. *)
Definition condition_of (instance : WorkflowInstance) : condition :=
  let oldUpdatedAt := Format (wi_LastReadUpdatedAt instance) in
  mkCondition "UpdatedAt = :oldUpdatedAt" {[":oldUpdatedAt" := AttrS oldUpdatedAt]}.

Definition Update (d : db) (tx : ddb_tx) (instance : WorkflowInstance) : db * ddb_tx * option error :=
  match MarshalMap instance with
  | Err err => marshal_failed d tx err
  | Ok it =>
      write (λ putErr, Errorf "dynamostore: update instance: %w" []
               (Some (if conditional_failed putErr then Sentinel ErrConcurrentModification else putErr)))
        d tx (mkPut (tagged instance it) (Some (condition_of instance)))
  end.

(** An item that is no instance is passed over. *)
Definition ListStuck (d : db) : list WorkflowInstance :=
  omap (λ it, match UnmarshalMap it with Ok inst => Some inst | Err _ => None end) (ScanStuck d).
End store.

(** ** The contract *)

Section proofs.
Context {service : DynamoDB} {service_laws : DynamoDBLaws} {sdk : DynamoSDK} {sdk_laws : DynamoSDKLaws}.
Context (errNotFound : error).
Implicit Types (d : db) (i : WorkflowInstance).

(** The string has no ['#']. *)
Definition no_hash (s : string) : Prop := no_char "#" s.

#[export] Instance dynamo_instance_store : InstanceStore db := {
  store_Get := Get errNotFound;
  store_Create d i := let '(d, _, err) := Create d None i in (d, err);
  store_Update d i := let '(d, _, err) := Update d None i in (d, err);
  store_Read := dynamo_read;
  store_Merge _ i := dynamo_read i
}.

#[export] Instance dynamo_charts : InstanceStoreCharts db timely.
Proof. constructor; try done. Qed.

(** What the table holds at the keys of instances is instances. *)
Definition table_ok d : Prop :=
  ∀ at' aid it, GetItem d (inst_key at' aid) = Some it →
    ∃ i it0, timely i ∧ MarshalMap i = Ok it0 ∧ it = tagged i it0.

Definition instance_put i (it : item) (cond : option condition) : Put := mkPut (tagged i it) cond.

Lemma put_key_tagged i it cond :
  put_key (instance_put i it cond) = inst_key (wi_AggregateType i) (wi_AggregateID i).
Proof.
  unfold put_key, key_of_item, text_at, instance_put, tagged, inst_key. cbn [put_Item].
  by simplify_map_eq.
Qed.

Lemma tagged_UpdatedAt i it : tagged i it !! "UpdatedAt" = it !! "UpdatedAt".
Proof. unfold tagged, inst_key. by simplify_map_eq. Qed.

Lemma Get_instance d at' aid i it :
  timely i → MarshalMap i = Ok it → GetItem d (inst_key at' aid) = Some (tagged i it) →
  Get errNotFound d at' aid = Ok (dynamo_read i).
Proof.
  intros Ht Hm Hk. unfold Get. rewrite Hk. unfold tagged. by rewrite (unmarshal_instance i).
Qed.

Lemma dynamo_Get_Ok d at' aid old :
  table_ok d → Get errNotFound d at' aid = Ok old →
  ∃ i it, timely i ∧ MarshalMap i = Ok it ∧ GetItem d (inst_key at' aid) = Some (tagged i it) ∧
    old = dynamo_read i.
Proof.
  intros Hd Hg. unfold Get in Hg. destruct (GetItem d _) as [it|] eqn:Hk; [|done].
  destruct (Hd _ _ _ Hk) as (i & it0 & Ht & Hm & ->). exists i, it0. split_and!; [done..|].
  unfold tagged in Hg. rewrite (unmarshal_instance i) in Hg by done. by injection Hg.
Qed.

(** The condition of an update holds exactly when it read the latest version. *)
Lemma update_met d i it old :
  table_ok d → timely i → Get errNotFound d (wi_AggregateType i) (wi_AggregateID i) = Ok old →
  met d (instance_put i it (Some (condition_of i))) = true ↔
  wi_UpdatedAt old = wi_LastReadUpdatedAt i.
Proof.
  intros Hd (_ & _ & Hl & _) (j & jt & (_ & Hu & _) & Hm & Hk & ->)%dynamo_Get_Ok; [|done].
  destruct (marshal_instance j) as (jt' & Hm' & HU). rewrite Hm in Hm'. injection Hm' as <-.
  unfold met, condition_of. cbn [put_Condition instance_put].
  rewrite put_key_tagged, holds_equal, Hk. cbn.
  rewrite tagged_UpdatedAt, HU.
  split; [intros Heq; apply Format_inj; [done..|congruence]|by intros ->].
Qed.

Lemma table_ok_put d p d' i it cond :
  table_ok d → timely i → MarshalMap i = Ok it → p = instance_put i it cond →
  PutItem d p = inl d' → table_ok d'.
Proof.
  intros Hd Ht Hm -> Hp at' aid jt. rewrite (put_get _ _ _ Hp), put_key_tagged.
  case_decide as Hk; [|apply Hd]. intros [= <-]. by exists i, it.
Qed.

Lemma inst_key_inj at1 aid1 at2 aid2 :
  no_hash at1 → no_hash at2 → inst_key at1 aid1 = inst_key at2 aid2 → at1 = at2 ∧ aid1 = aid2.
Proof. unfold inst_key. intros H1 H2 [= Heq]. by apply (sep_inj "#") in Heq. Qed.

(** The operations without a transaction. *)
Lemma dynamo_Create_inv d i d' :
  store_Create d i = (d', None) →
  ∃ it, MarshalMap i = Ok it ∧ PutItem d (instance_put i it None) = inl d'.
Proof.
  cbn. unfold Create, marshal_failed. destruct (MarshalMap i) as [it|]; [|done]. cbn.
  destruct (PutItem _ _) as [d2|e] eqn:Hp; [|done]. intros [= <-]. by exists it.
Qed.

Lemma dynamo_Update_inv d i d' err :
  store_Update d i = (d', err) →
  ∃ it, MarshalMap i = Ok it ∧
  let p := instance_put i it (Some (condition_of i)) in
  (err = None ∧ PutItem d p = inl d' ∨
   ∃ e, d' = d ∧ PutItem d p = inr e ∧ err = Some (Errorf "dynamostore: update instance: %w" []
     (Some (if conditional_failed e then Sentinel ErrConcurrentModification else e)))).
Proof.
  destruct (marshal_instance i) as (it & Hm & _). cbn. unfold Update. rewrite Hm. cbn.
  intros Hup. exists it. split; [done|].
  destruct (PutItem _ _) as [d2|e] eqn:Hp; injection Hup as <- <-; [by left|right; by exists e].
Qed.

Lemma put_Get d i it cond d' :
  timely i → MarshalMap i = Ok it → PutItem d (instance_put i it cond) = inl d' →
  Get errNotFound d' (wi_AggregateType i) (wi_AggregateID i) = Ok (dynamo_read i).
Proof.
  intros Ht Hm Hp. apply (Get_instance _ _ _ i it); [done..|].
  by rewrite (put_get _ _ _ Hp), put_key_tagged, decide_True.
Qed.

Lemma put_frame d i it cond d' at' aid :
  PutItem d (instance_put i it cond) = inl d' → no_hash at' → no_hash (wi_AggregateType i) →
  (at', aid) ≠ (wi_AggregateType i, wi_AggregateID i) →
  Get errNotFound d' at' aid = Get errNotFound d at' aid.
Proof.
  intros Hp H1 H2 Hne. unfold Get. rewrite (put_get _ _ _ Hp), put_key_tagged, decide_False; [done|].
  intros [Ha Hb]%inst_key_inj; [congruence|done..].
Qed.

(** The instance store keeps the contract of the stores for aggregate types without
    ['#'], which separates the parts of a key. *)
Lemma dynamo_laws : InstanceStoreLaws db no_hash timely table_ok.
Proof.
  constructor.
  - intros d i d' Hd Ht (it & Hm & Hp)%dynamo_Create_inv. by eapply table_ok_put.
  - intros d i d' Hd Ht (it & Hm & [[_ Hp]|(e & _ & _ & ?)])%dynamo_Update_inv; [|done].
    by eapply table_ok_put.
  - intros old i [Ha Hb]. done.
  - intros d i d' Hd Ht (it & Hm & Hp)%dynamo_Create_inv. by eapply put_Get.
  - intros d i d' old Hd Ht (it & Hm & [[_ Hp]|(e & _ & _ & ?)])%dynamo_Update_inv _; [|done].
    by eapply put_Get.
  - intros d i d' e. cbn. unfold Create, marshal_failed. destruct (MarshalMap i); cbn;
      [destruct (PutItem _ _)|]; by intros [= <- ?].
  - intros d i d' e (it & _ & [[? _]|(e' & -> & _)])%dynamo_Update_inv; done.
  - intros d i old Hd Ht Hget _ Hne. destruct (store_Update d i) as [d' err] eqn:Hup.
    apply dynamo_Update_inv in Hup as (it & Hm & Hup). pose proof (update_met d i it old Hd Ht Hget) as Hmet.
    destruct (met d _) eqn:Hb; [by destruct Hne; apply Hmet|].
    apply put_refused in Hb as (e & Hr & Hc). destruct Hup as [[_ Hp]|(e' & -> & Hp & ->)]; [congruence|].
    assert (e' = e) as -> by congruence. rewrite Hc. by eexists.
  - intros d i old Hd Ht Hget Heq. destruct (store_Update d i) as [d' err] eqn:Hup.
    apply dynamo_Update_inv in Hup as (it & Hm & Hup).
    apply (update_met d i it old Hd Ht Hget), put_accepted in Heq as [d2 Hd2].
    destruct Hup as [[-> Hp]|(e' & -> & Hp & ->)]; [by exists d'|congruence].
  - intros d i d' at' aid Hd Ht [(it & _ & Hp)%dynamo_Create_inv|Hup] H1 H2 Hne.
    + by eapply put_frame.
    + apply dynamo_Update_inv in Hup as (it & _ & [[_ Hp]|(e & _ & _ & ?)]); [|done]. by eapply put_frame.
Qed.

(** ** Transactions *)

Lemma event_put_key e : put_key (mkPut (event_item e) None) =
  (event_key (ev_AggregateType e) (ev_AggregateID e), ev_ID e).
Proof. done. Qed.

(** The writes a transition makes: its event and its instance. *)
Definition collected (e : DomainEvent) i (it : item) : list Put :=
  [mkPut (event_item e) None; instance_put i it (Some (condition_of i))].

Lemma collect d e i :
  ∃ it, MarshalMap i = Ok it ∧ Append d Begin e = (d, Some [mkPut (event_item e) None], None) ∧
    Update d (Some [mkPut (event_item e) None]) i = (d, Some (collected e i it), None).
Proof.
  destruct (marshal_instance i) as (it & Hm & _). exists it. split_and!; [done..|].
  unfold Update. by rewrite Hm.
Qed.

Lemma collected_NoDup e i it : NoDup (put_key <$> collected e i it).
Proof.
  unfold collected. cbn [fmap list_fmap]. rewrite event_put_key, put_key_tagged.
  apply NoDup_cons. split; [|apply NoDup_singleton]. intros [= ?]%list_elem_of_singleton.
Qed.

End proofs.
