(* ===== verification/Queues.v ===== *)
(** * Queues: the buses and the runner on message queues

    Models [adapters/natsbus/bus.go], [adapters/redisbus/bus.go] and
    [adapters/asynqrunner/runner.go]: how events and invocations are encoded, and
    what the consumers do with the messages they are given.  The queues
    themselves are parameters: what they accept when sending, and any sequence of
    deliveries when receiving. *)

From S2P Require Import Prelude Floats Errors Types Rfc3339 Json.

(** ** Documents of structs

    Decoding fails on a member of the wrong kind; a missing member and null leave
    the field zero. *)

Definition string_field (j : json) (name : string) : option string :=
  match member j name with JStr s => Some s | JNull => Some "" | _ => None end.

Definition int_field (j : json) (name : string) : option Z :=
  match member j name with JNum z => Some z | JNull => Some 0%Z | _ => None end.

Definition float_field (j : json) (name : string) : option float64 :=
  match member j name with
  | JNum z => Some (float_of_int z)
  | JFrac f => Some f
  | JNull => Some (float_of_int 0)
  | _ => None
  end.

Definition time_field (j : json) (name : string) : option time :=
  match member j name with JStr s => Parse s | JNull => Some 0%Z | _ => None end.

Definition time_pointer_field (j : json) (name : string) : option (option time) :=
  match member j name with JStr s => Some <$> Parse s | JNull => Some None | _ => None end.

Definition map_field (j : json) (name : string) : option (gomap value) :=
  match member j name with
  | JObj m => Some (Some (Unmarshal <$> m))
  | JNull => Some None
  | _ => None
  end.

Definition string_or_null (j : json) : bool :=
  match j with JStr _ | JNull => true | _ => false end.

Definition strings_field (j : json) (name : string) : option (gomap string) :=
  match member j name with
  | JObj m =>
      if decide (map_Forall (λ _ x, string_or_null x = true) m)
      then Some (Some (string_member <$> m)) else None
  | JNull => Some None
  | _ => None
  end.

(** A nested struct, and a pointer to one. *)
Definition struct_field {A} (decode : json → option A) (j : json) (name : string) : option A :=
  match member j name with
  | JObj m => decode (JObj m)
  | JNull => decode JNull
  | _ => None
  end.

Definition pointer_field {A} (decode : json → option A) (j : json) (name : string) : option (option A) :=
  match member j name with
  | JObj m => Some <$> decode (JObj m)
  | JNull => Some None
  | _ => None
  end.

Definition Marshal_time_pointer (t : option time) : json :=
  match t with Some t => JStr (Format t) | None => JNull end.

Definition Marshal_event (e : DomainEvent) : json :=
  struct
    [("ID", JStr (ev_ID e)); ("AggregateType", JStr (ev_AggregateType e));
     ("AggregateID", JStr (ev_AggregateID e)); ("WorkflowType", JStr (ev_WorkflowType e));
     ("WorkflowVersion", JNum (ev_WorkflowVersion e)); ("EventType", JStr (ev_EventType e));
     ("CorrelationID", JStr (ev_CorrelationID e)); ("CausationID", JStr (ev_CausationID e));
     ("ActorID", JStr (ev_ActorID e)); ("StateBefore", Marshal_map (ev_StateBefore e));
     ("StateAfter", Marshal_map (ev_StateAfter e)); ("TransitionName", JStr (ev_TransitionName e));
     ("Error", Marshal_map (ev_Error e)); ("Payload", Marshal_map (ev_Payload e));
     ("CreatedAt", JStr (Format (ev_CreatedAt e))); ("SequenceNum", JNum (ev_SequenceNum e))].

Definition decode_event (j : json) : option DomainEvent :=
  id ← string_field j "ID"; at' ← string_field j "AggregateType"; aid ← string_field j "AggregateID";
  wt ← string_field j "WorkflowType"; wv ← int_field j "WorkflowVersion";
  et ← string_field j "EventType"; corr ← string_field j "CorrelationID";
  caus ← string_field j "CausationID"; actor ← string_field j "ActorID";
  before ← map_field j "StateBefore"; after ← map_field j "StateAfter";
  tn ← string_field j "TransitionName"; err ← map_field j "Error"; pl ← map_field j "Payload";
  ct ← time_field j "CreatedAt"; seq ← int_field j "SequenceNum";
  Some (mkDomainEvent id at' aid wt wv et corr caus actor before after tn err pl ct seq).

(** [json.Unmarshal] into a struct: null is accepted, too. *)
Definition Unmarshal_event (j : json) : option DomainEvent :=
  match j with JObj _ | JNull => decode_event j | _ => None end.

(** An event as a consumer sees it. *)
Definition event_sent (e : DomainEvent) : DomainEvent :=
  e <| ev_StateBefore := map_as_json (ev_StateBefore e) |>
    <| ev_StateAfter := map_as_json (ev_StateAfter e) |>
    <| ev_Error := map_as_json (ev_Error e) |> <| ev_Payload := map_as_json (ev_Payload e) |>.

Lemma member_struct fields name j :
  (list_to_map fields : gmap string json) !! name = Some j → member (struct fields) name = j.
Proof. intros Hj. unfold member, struct. by rewrite Hj. Qed.

Lemma map_field_Marshal j name m :
  member j name = Marshal_map m → map_field j name = Some (map_as_json m).
Proof.
  unfold map_field. intros ->. destruct m as [m|]; [|done].
  pose proof (Unmarshal_Marshal_map (Some m) None eq_refl) as Hm.
  change (Some ((Unmarshal <$> (Marshal <$> m)) ∪ ∅) = map_as_json (Some m)) in Hm.
  rewrite (right_id_L ∅ (∪)) in Hm. by rewrite <-Hm.
Qed.

(** Finds the member of a struct under each name it is asked for. *)
Ltac find_members :=
  repeat match goal with
  | |- context [member (struct ?l) ?n] =>
      erewrite (member_struct l n) by (cbn [list_to_map foldr uncurry fst snd]; simplify_map_eq; reflexivity)
  end.

Lemma Unmarshal_Marshal_event e :
  readable (ev_CreatedAt e) → Unmarshal_event (Marshal_event e) = Some (event_sent e).
Proof.
  intros Ht. change (Unmarshal_event (Marshal_event e)) with (decode_event (Marshal_event e)).
  unfold decode_event.
  rewrite (map_field_Marshal _ "StateBefore" (ev_StateBefore e)) by (unfold Marshal_event; by find_members).
  rewrite (map_field_Marshal _ "StateAfter" (ev_StateAfter e)) by (unfold Marshal_event; by find_members).
  rewrite (map_field_Marshal _ "Error" (ev_Error e)) by (unfold Marshal_event; by find_members).
  rewrite (map_field_Marshal _ "Payload" (ev_Payload e)) by (unfold Marshal_event; by find_members).
  unfold string_field, int_field, time_field, Marshal_event. find_members.
  rewrite Parse_Format_spec by done. cbn. by destruct e.
Qed.

(** ** NATS *)

Module Nats.
Section bus.
(** [js.Publish(subject, data)]. *)
Context (Publish : string → json → option error).

Definition Emit (subject : string) (event : DomainEvent) : option error :=
  match Publish subject (Marshal_event event) with
  | Some err => Some (Errorf "natsbus: publish: %w" [] (Some err))
  | None => None
  end.
End bus.

Inductive answer := Ack | Nak.

(** The callback of [Subscribe], on a message; [None] is no JSON. *)
Definition on_message (handler : DomainEvent → option error) (data : option json) : answer :=
  match data ≫= Unmarshal_event with
  | None => Nak
  | Some event => match handler event with Some _ => Nak | None => Ack end
  end.

(** What [Subscribe] returns: the error of [js.Subscribe], or that of the context
    once it is done; meanwhile messages come to [on_message]. *)
Definition Subscribe (subscribed : option error) (ctx_err : error) : error :=
  match subscribed with
  | Some err => Errorf "natsbus: subscribe: %w" [] (Some err)
  | None => ctx_err
  end.

End Nats.

(** ** Redis streams *)

Module Redis.

Section bus.
(** [XAdd] of the values of a message. *)
Context (XAdd : string → gmap string json → option error).

Definition Emit (streamName : string) (event : DomainEvent) : option error :=
  match XAdd streamName
          (list_to_map
            [("event_id", JStr (ev_ID event)); ("event_type", JStr (ev_EventType event));
             ("aggregate_type", JStr (ev_AggregateType event));
             ("aggregate_id", JStr (ev_AggregateID event));
             ("correlation_id", JStr (ev_CorrelationID event)); ("data", Marshal_event event)]) with
  | Some err => Some (Errorf "redisbus: xadd: %w" [] (Some err))
  | None => None
  end.
End bus.

(** A message: its id and its [data] value, if that is a string; the inner [None]
    is a text that is no JSON. *)
Record message := mkMessage {
  msg_ID : string;
  msg_data : option (option json)
}.

Inductive action :=
  | Handle (id : string) (event : DomainEvent) (err : option error)
  | XAck (id : string).

Definition on_message (handler : DomainEvent → option error) (msg : message) : list action :=
  match msg_data msg with
  | None => []
  | Some data =>
      match data ≫= Unmarshal_event with
      | None => []
      | Some event =>
          match handler event with
          | Some err => [Handle (msg_ID msg) event (Some err)]
          | None => [Handle (msg_ID msg) event None; XAck (msg_ID msg)]
          end
      end
  end.

(** One round of the loop meets: the state of the context at its head, and what
    [XReadGroup] returns, with the state of the context when it fails. *)
Record round := mkRound {
  done_before : option error;
  reply : list (list message) + error;
  done_after : option error
}.

(** [Subscribe] over the rounds it lives through: what it does and, once it returns,
    its error. *)
Fixpoint Subscribe (handler : DomainEvent → option error) (rounds : list round) :
    list action * option error :=
  match rounds with
  | [] => ([], None)
  | r :: rounds =>
      match done_before r with
      | Some err => ([], Some err)
      | None =>
          match reply r with
          | inr err =>
              match done_after r with
              | Some err => ([], Some err)
              | None => ([], Some (Errorf "redisbus: xreadgroup: %w" [] (Some err)))
              end
          | inl streams =>
              let acts := streams ≫= λ msgs, msgs ≫= on_message handler in
              let '(acts', err) := Subscribe handler rounds in (acts ++ acts', err)
          end
      end
  end.

(** The messages of the rounds. *)
Definition delivered (rounds : list round) : list message :=
  rounds ≫= λ r, match reply r with inl streams => mjoin streams | inr _ => [] end.

End Redis.

(** ** Asynq *)

Module Asynq.

Definition taskTypePrefix : string := "flowstep:activity:".

Inductive task_option :=
  | Timeout (d : duration)
  | MaxRetry (n : Z).

Record task := mkTask {
  task_Type : string;
  task_Payload : json
}.

Definition Marshal_invocation (inv : ActivityInvocation) : json :=
  struct
    [("ID", JStr (inv_ID inv)); ("ActivityName", JStr (inv_ActivityName inv));
     ("WorkflowType", JStr (inv_WorkflowType inv)); ("AggregateType", JStr (inv_AggregateType inv));
     ("AggregateID", JStr (inv_AggregateID inv)); ("CorrelationID", JStr (inv_CorrelationID inv));
     ("Mode", JStr (inv_Mode inv)); ("Input", Marshal_input (inv_Input inv));
     ("RetryPolicy", Marshal_retry (inv_RetryPolicy inv));
     ("ResultSignals", Marshal_strings (inv_ResultSignals inv)); ("Timeout", JNum (inv_Timeout inv));
     ("Status", JStr (inv_Status inv));
     ("Result", from_option Marshal_result JNull (inv_Result inv));
     ("Attempts", JNum (inv_Attempts inv)); ("MaxAttempts", JNum (inv_MaxAttempts inv));
     ("NextRetryAt", Marshal_time_pointer (inv_NextRetryAt inv));
     ("ScheduledAt", JStr (Format (inv_ScheduledAt inv)));
     ("StartedAt", Marshal_time_pointer (inv_StartedAt inv));
     ("CompletedAt", Marshal_time_pointer (inv_CompletedAt inv))].

Definition decode_input (j : json) : option ActivityInput :=
  wt ← string_field j "WorkflowType"; at' ← string_field j "AggregateType";
  aid ← string_field j "AggregateID"; corr ← string_field j "CorrelationID";
  ps ← map_field j "Params"; sched ← time_field j "ScheduledAt";
  tn ← string_field j "Transition"; src ← string_field j "SourceState"; ev ← string_field j "EventID";
  Some (mkActivityInput wt at' aid corr ps sched tn src ev).

Definition decode_retry (j : json) : option RetryPolicy :=
  attempts ← int_field j "MaxAttempts"; initial ← int_field j "InitialBackoff";
  most ← int_field j "MaxBackoff"; factor ← float_field j "BackoffFactor";
  Some (mkRetryPolicy attempts initial most factor).

Definition decode_result (j : json) : option ActivityResult :=
  out ← map_field j "Output"; err ← string_field j "Error"; Some (mkActivityResult out err).

Definition decode_invocation (j : json) : option ActivityInvocation :=
  id ← string_field j "ID"; name ← string_field j "ActivityName";
  wt ← string_field j "WorkflowType"; at' ← string_field j "AggregateType";
  aid ← string_field j "AggregateID"; corr ← string_field j "CorrelationID";
  mode ← string_field j "Mode"; inp ← struct_field decode_input j "Input";
  retry ← pointer_field decode_retry j "RetryPolicy"; sigs ← strings_field j "ResultSignals";
  tmo ← int_field j "Timeout"; status ← string_field j "Status";
  res ← pointer_field decode_result j "Result"; att ← int_field j "Attempts";
  most ← int_field j "MaxAttempts"; next ← time_pointer_field j "NextRetryAt";
  sched ← time_field j "ScheduledAt"; started ← time_pointer_field j "StartedAt";
  completed ← time_pointer_field j "CompletedAt";
  Some (mkActivityInvocation id name wt at' aid corr mode inp retry sigs tmo status res att most
          next sched started completed).

Definition Unmarshal_invocation (j : json) : option ActivityInvocation :=
  match j with JObj _ | JNull => decode_invocation j | _ => None end.

Definition dispatch_options (inv : ActivityInvocation) : list task_option :=
  (if decide (0 < inv_Timeout inv)%Z then [Timeout (inv_Timeout inv)] else []) ++
  match inv_RetryPolicy inv with
  | Some p => if decide (0 < rp_MaxAttempts p)%Z then [MaxRetry (rp_MaxAttempts p)] else []
  | None => []
  end.

Definition task_of (inv : ActivityInvocation) : task :=
  mkTask (taskTypePrefix +:+ inv_ActivityName inv) (Marshal_invocation inv).

Section runner.
(** [client.Enqueue(task, opts...)]. *)
Context (Enqueue : task → list task_option → option error).

Definition Dispatch (inv : ActivityInvocation) : option error :=
  match Enqueue (task_of inv) (dispatch_options inv) with
  | Some err => Some (Errorf "asynqrunner: enqueue: %w" [] (Some err))
  | None => None
  end.
End runner.

(** A payload of [None] is no JSON; [json_error] is the error of [json.Unmarshal]. *)
Definition HandleFunc (json_error : error) (Execute : ActivityInput → result ActivityResult)
    (payload : option json) : option error :=
  match payload ≫= Unmarshal_invocation with
  | None => Some (Errorf "asynqrunner: unmarshal invocation: %w" [] (Some json_error))
  | Some inv => match Execute (inv_Input inv) with Ok _ => None | Err err => Some err end
  end.

Definition TaskType (activityName : string) : string := taskTypePrefix +:+ activityName.

End Asynq.

(** ** What is sent is what is handled *)

Section redis.
Context (handler : DomainEvent → option error).
Implicit Types (rounds : list Redis.round) (m : Redis.message).

(** A message that is handled, with the answer of the handler. *)
Definition handled m (event : DomainEvent) (err : option error) : Prop :=
  ∃ data, Redis.msg_data m = Some data ∧ data ≫= Unmarshal_event = Some event ∧ handler event = err.

Lemma elem_of_on_message m a :
  a ∈ Redis.on_message handler m ↔
  ∃ event err, handled m event err ∧
    (a = Redis.Handle (Redis.msg_ID m) event err ∨ err = None ∧ a = Redis.XAck (Redis.msg_ID m)).
Proof.
  unfold Redis.on_message, handled. destruct (Redis.msg_data m) as [data|].
  2: { split; [by intros ?%elem_of_nil|by intros (? & ? & (? & ? & _) & _)]. }
  destruct (data ≫= Unmarshal_event) as [event|] eqn:Hd.
  2: { split; [by intros ?%elem_of_nil|]. intros (? & ? & (? & [= <-] & ? & _) & _). congruence. }
  split.
  - intros Ha. exists event, (handler event). split; [by exists data|].
    destruct (handler event); rewrite ?elem_of_cons, ?elem_of_nil in Ha; naive_solver.
  - intros (? & ? & (? & [= <-] & Hd' & <-) & Ha). rewrite Hd in Hd'. injection Hd' as <-.
    destruct (handler event); rewrite ?elem_of_cons, ?elem_of_nil; naive_solver.
Qed.

(** What [Subscribe] does is what it does on the messages of the rounds it reads. *)
Lemma Subscribe_prefix rounds :
  ∃ l, l `prefix_of` Redis.delivered rounds ∧
    (Redis.Subscribe handler rounds).1 = l ≫= Redis.on_message handler.
Proof.
  induction rounds as [|r rounds (l & Hl & IH)]; [by exists []|]. cbn [Redis.Subscribe].
  destruct (Redis.done_before r); [exists []; split; [apply prefix_nil|done]|].
  unfold Redis.delivered. cbn [mbind list_bind]. destruct (Redis.reply r) as [streams|err].
  - exists (mjoin streams ++ l). split; [by apply prefix_app|].
    destruct (Redis.Subscribe handler rounds) as [acts err]. cbn in *. rewrite bind_app, IH. f_equal.
    clear. induction streams as [|msgs streams IH]; [done|]. cbn. by rewrite bind_app, IH.
  - destruct (Redis.done_after r); exists []; (split; [apply prefix_nil|done]).
Qed.

Lemma elem_of_Subscribe rounds a :
  a ∈ (Redis.Subscribe handler rounds).1 →
  ∃ m event err, m ∈ Redis.delivered rounds ∧ handled m event err ∧
    (a = Redis.Handle (Redis.msg_ID m) event err ∨ err = None ∧ a = Redis.XAck (Redis.msg_ID m)).
Proof.
  destruct (Subscribe_prefix rounds) as (l & [k Hl] & ->). intros (m & Ha & Hm)%list_elem_of_bind.
  apply elem_of_on_message in Ha as (event & err & Hh & Ha). exists m, event, err.
  split; [|done]. rewrite Hl. apply elem_of_app. by left.
Qed.

(** A message is acknowledged exactly when it was handled without an error. *)
Lemma Subscribe_acks rounds id :
  Redis.XAck id ∈ (Redis.Subscribe handler rounds).1 ↔
  ∃ event, Redis.Handle id event None ∈ (Redis.Subscribe handler rounds).1.
Proof.
  destruct (Subscribe_prefix rounds) as (l & _ & ->). split.
  - intros (m & Ha & Hm)%list_elem_of_bind. apply elem_of_on_message in Ha as (event & err & Hh & Ha).
    destruct Ha as [?|[-> [= ->]]]; [done|]. exists event. apply list_elem_of_bind. exists m.
    split; [|done]. apply elem_of_on_message. exists event, None. auto.
  - intros (event & (m & Ha & Hm)%list_elem_of_bind).
    apply elem_of_on_message in Ha as (event' & err & Hh & Ha).
    destruct Ha as [[= -> <- <-]|[_ ?]]; [|done]. apply list_elem_of_bind. exists m.
    split; [|done]. apply elem_of_on_message. exists event, None. auto.
Qed.

(** No entry of a stream is delivered twice to a group that asks for new ones
    ([">"]), so a message whose handler failed is not handled again, and it is
    never acknowledged. *)
Theorem redis_never_retries rounds id event err :
  NoDup (Redis.msg_ID <$> Redis.delivered rounds) →
  Redis.Handle id event (Some err) ∈ (Redis.Subscribe handler rounds).1 →
  (Redis.XAck id ∉ (Redis.Subscribe handler rounds).1) ∧
  ∀ event' err', Redis.Handle id event' err' ∈ (Redis.Subscribe handler rounds).1 →
    event' = event ∧ err' = Some err.
Proof.
  intros Hnd Hh. apply elem_of_Subscribe in Hh as (m & event0 & err0 & Hm & Hd & [[= -> -> <-]|[_ ?]]); [|done].
  assert (∀ event' err', Redis.Handle (Redis.msg_ID m) event' err' ∈ (Redis.Subscribe handler rounds).1 →
    event' = event0 ∧ err' = Some err) as Honly.
  { intros event' err' (m' & e' & r' & Hm' & Hd' & [[= Hid -> ->]|[_ ?]])%elem_of_Subscribe; [|done].
    assert (m' = m) as ->.
    { apply list_elem_of_lookup in Hm as [i Hi], Hm' as [j Hj].
      assert (i = j) as -> by (eapply NoDup_lookup; [exact Hnd|..]; rewrite list_lookup_fmap;
        [by rewrite Hi|by rewrite Hj, Hid]). congruence. }
    destruct Hd as (data & H1 & H2 & H3), Hd' as (data' & H1' & H2' & H3'). split; congruence. }
  split; [|done]. intros [event' Hok]%Subscribe_acks. apply Honly in Hok as [_ ?]. done.
Qed.
End redis.

(** An invocation as the handler of its task sees its input. *)
Definition input_sent (i : ActivityInput) : ActivityInput :=
  mkActivityInput (ai_WorkflowType i) (ai_AggregateType i) (ai_AggregateID i) (ai_CorrelationID i)
    (map_as_json (ai_Params i)) (ai_ScheduledAt i) (ai_Transition i) (ai_SourceState i) (ai_EventID i).

Lemma decode_input_sent i :
  readable (ai_ScheduledAt i) → Asynq.decode_input (Marshal_input i) = Some (input_sent i).
Proof.
  intros Ht. unfold Asynq.decode_input.
  rewrite (map_field_Marshal _ "Params" (ai_Params i)) by (unfold Marshal_input; by find_members).
  unfold string_field, time_field, Marshal_input. find_members. by rewrite Parse_Format_spec.
Qed.

Lemma float_field_Marshal j name f :
  member j name = Marshal_float f → is_float64 f → float_field j name = Some f.
Proof.
  unfold float_field. intros -> Hf%float_member_Marshal. revert Hf. unfold Marshal_float. cbn.
  destruct (whole f); cbn; congruence.
Qed.

Lemma decode_retry_sent p :
  is_float64 (rp_BackoffFactor p) → Asynq.decode_retry (Marshal_retry (Some p)) = Some p.
Proof.
  intros Hf. unfold Asynq.decode_retry.
  rewrite (float_field_Marshal _ "BackoffFactor" (rp_BackoffFactor p)) by (done || unfold Marshal_retry; by find_members).
  unfold int_field, Marshal_retry. find_members. by destruct p.
Qed.

Lemma decode_result_sent r :
  Asynq.decode_result (Marshal_result r) = Some (mkActivityResult (map_as_json (ar_Output r)) (ar_Error r)).
Proof.
  unfold Asynq.decode_result.
  rewrite (map_field_Marshal _ "Output" (ar_Output r)) by (unfold Marshal_result; by find_members).
  unfold string_field, Marshal_result. find_members. done.
Qed.

Lemma struct_field_sent {A} (decode : json → option A) j name fields :
  member j name = struct fields → struct_field decode j name = decode (struct fields).
Proof. unfold struct_field. by intros ->. Qed.

Lemma pointer_field_sent {A B} (decode : json → option A) (encode : B → json) (seen : B → A) j name b :
  member j name = from_option encode JNull b →
  (∀ b, ∃ fields, encode b = struct fields) →
  (∀ b', b = Some b' → decode (encode b') = Some (seen b')) →
  pointer_field decode j name = Some (seen <$> b).
Proof.
  unfold pointer_field. intros -> He Hd. destruct b as [b|]; [|done]. cbn.
  specialize (Hd b eq_refl). destruct (He b) as [fields Hf]. rewrite Hf in *. unfold struct in *.
  by rewrite Hd.
Qed.

Lemma strings_field_Marshal j name m :
  member j name = Marshal_strings m → strings_field j name = Some m.
Proof.
  unfold strings_field. intros ->. destruct m as [m|]; [|done].
  pose proof (Unmarshal_Marshal_strings (Some m) None eq_refl) as Hm.
  change (Some ((string_member <$> (JStr <$> m)) ∪ ∅) = Some m) in Hm.
  rewrite (right_id_L ∅ (∪)) in Hm. injection Hm as Hm.
  change (Marshal_strings (Some m)) with (JObj (JStr <$> m)). cbv iota. rewrite decide_True; [by rewrite Hm|].
  intros k x. rewrite lookup_fmap. by destruct (m !! k); intros [= <-].
Qed.

Lemma time_pointer_field_Marshal j name t :
  (∀ t', t = Some t' → readable t') →
  member j name = Marshal_time_pointer t → time_pointer_field j name = Some t.
Proof.
  unfold time_pointer_field. intros Ht ->. destruct t as [t|]; [|done]. cbn.
  by rewrite Parse_Format_spec by by apply Ht.
Qed.

Definition result_sent (r : ActivityResult) : ActivityResult :=
  mkActivityResult (map_as_json (ar_Output r)) (ar_Error r).

(** The times and numbers of an invocation that JSON keeps. *)
Definition timely_invocation (inv : ActivityInvocation) : Prop :=
  readable (inv_ScheduledAt inv) ∧ readable (ai_ScheduledAt (inv_Input inv)) ∧
  (∀ t, Some t ∈ [inv_NextRetryAt inv; inv_StartedAt inv; inv_CompletedAt inv] → readable t) ∧
  policy_ok (inv_RetryPolicy inv).

(** The task of an invocation carries all of it. *)
Lemma invocation_sent inv :
  timely_invocation inv →
  Asynq.Unmarshal_invocation (Asynq.Marshal_invocation inv) =
  Some (inv <| inv_Input := input_sent (inv_Input inv) |>
            <| inv_Result := result_sent <$> inv_Result inv |>).
Proof.
  intros (H1 & H2 & H3 & H4).
  change (Asynq.Unmarshal_invocation (Asynq.Marshal_invocation inv)) with
    (Asynq.decode_invocation (Asynq.Marshal_invocation inv)).
  unfold Asynq.decode_invocation. set (j := Asynq.Marshal_invocation inv).
  assert (struct_field Asynq.decode_input j "Input" = Some (input_sent (inv_Input inv))) as ->.
  { rewrite <-decode_input_sent by done. apply struct_field_sent.
    subst j. unfold Asynq.Marshal_invocation. by find_members. }
  rewrite (pointer_field_sent Asynq.decode_retry (λ p, Marshal_retry (Some p)) id _ _ (inv_RetryPolicy inv));
    [|subst j; unfold Asynq.Marshal_invocation; find_members; by destruct (inv_RetryPolicy inv)
     |intros p; by eexists|intros p Hp; by apply decode_retry_sent, H4].
  rewrite (pointer_field_sent Asynq.decode_result Marshal_result result_sent _ _ (inv_Result inv));
    [|subst j; unfold Asynq.Marshal_invocation; by find_members|intros r; by eexists|intros r _; apply decode_result_sent].
  rewrite (strings_field_Marshal _ _ (inv_ResultSignals inv))
    by (subst j; unfold Asynq.Marshal_invocation; by find_members).
  rewrite (time_pointer_field_Marshal _ "NextRetryAt" (inv_NextRetryAt inv)),
    (time_pointer_field_Marshal _ "StartedAt" (inv_StartedAt inv)),
    (time_pointer_field_Marshal _ "CompletedAt" (inv_CompletedAt inv));
    try (subst j; unfold Asynq.Marshal_invocation; by find_members);
    try (intros t Hx; apply H3; rewrite <-Hx, !elem_of_cons; tauto).
  subst j. unfold string_field, int_field, time_field, Asynq.Marshal_invocation. find_members.
  rewrite Parse_Format_spec by done. cbn. rewrite option_fmap_id. by destruct inv.
Qed.

