(* ===== verification/Slog.v ===== *)
(** * Slog: the logging observer

    Models [adapters/slogadapter/]: an observer whose handlers write one record
    each to a logger, at levels the options set.  A record is its level, its
    message and its attributes in order; the logger, a parameter of the program,
    is what receives them. *)

From S2P Require Import Prelude Errors Types Observer.

Definition level : Type := Z.

(** [slog.LevelInfo], [slog.LevelWarn], [slog.LevelError]. *)
Definition LevelInfo : level := 0%Z.
Definition LevelWarn : level := 4%Z.
Definition LevelError : level := 8%Z.

Inductive log_value :=
  | LogString (s : string)
  | LogInt (z : Z)
  | LogError (e : error).

Record log_record := mkRecord {
  lg_level : level;
  lg_message : string;
  lg_attrs : list (string * log_value)
}.

Record LogObserver := mkLogObserver {
  transitionLevel : level;
  guardFailedLevel : level;
  activityDispatchedLevel : level;
  activityCompletedLevel : level;
  activityFailedLevel : level;
  stuckLevel : level;
  postCommitErrorLevel : level
}.

#[export] Instance LogObserver_eta : Eta LogObserver := λ o,
  mkLogObserver (transitionLevel o) (guardFailedLevel o) (activityDispatchedLevel o)
    (activityCompletedLevel o) (activityFailedLevel o) (stuckLevel o) (postCommitErrorLevel o).

Inductive Option :=
  | WithTransitionLevel (l : level)
  | WithGuardFailedLevel (l : level)
  | WithActivityDispatchedLevel (l : level)
  | WithActivityCompletedLevel (l : level)
  | WithActivityFailedLevel (l : level)
  | WithStuckLevel (l : level)
  | WithPostCommitErrorLevel (l : level).

Definition apply_option (o : LogObserver) (opt : Option) : LogObserver :=
  match opt with
  | WithTransitionLevel l => o <| transitionLevel := l |>
  | WithGuardFailedLevel l => o <| guardFailedLevel := l |>
  | WithActivityDispatchedLevel l => o <| activityDispatchedLevel := l |>
  | WithActivityCompletedLevel l => o <| activityCompletedLevel := l |>
  | WithActivityFailedLevel l => o <| activityFailedLevel := l |>
  | WithStuckLevel l => o <| stuckLevel := l |>
  | WithPostCommitErrorLevel l => o <| postCommitErrorLevel := l |>
  end.

Definition defaults : LogObserver :=
  mkLogObserver LevelInfo LevelWarn LevelInfo LevelInfo LevelError LevelError LevelError.

Definition New (opts : list Option) : LogObserver := foldl apply_option defaults opts.

(** [d.Milliseconds()] of nanoseconds, towards zero. *)
Definition Milliseconds (d : duration) : Z := Z.quot d 1000000.

Definition OnTransition (o : LogObserver) (Result : TransitionResult) (Duration : duration) : log_record :=
  mkRecord (transitionLevel o) "flowstep.transition"
    [("workflow_type", LogString (wi_WorkflowType (res_Instance Result)));
     ("aggregate_id", LogString (wi_AggregateID (res_Instance Result)));
     ("transition_name", LogString (res_TransitionName Result));
     ("duration_ms", LogInt (Milliseconds Duration))].

Definition OnGuardFailed (o : LogObserver) (WorkflowType TransitionName GuardName : string)
    (Err : error) : log_record :=
  mkRecord (guardFailedLevel o) "flowstep.guard_failed"
    [("workflow_type", LogString WorkflowType); ("transition_name", LogString TransitionName);
     ("guard_name", LogString GuardName); ("error", LogError Err)].

(** The attributes the three activity handlers share. *)
Definition activity_attrs (inv : ActivityInvocation) : list (string * log_value) :=
  [("activity_name", LogString (inv_ActivityName inv)); ("invocation_id", LogString (inv_ID inv));
   ("workflow_type", LogString (inv_WorkflowType inv)); ("aggregate_id", LogString (inv_AggregateID inv))].

Definition OnActivityDispatched (o : LogObserver) (inv : ActivityInvocation) : log_record :=
  mkRecord (activityDispatchedLevel o) "flowstep.activity_dispatched" (activity_attrs inv).

Definition OnActivityCompleted (o : LogObserver) (inv : ActivityInvocation) : log_record :=
  mkRecord (activityCompletedLevel o) "flowstep.activity_completed" (activity_attrs inv).

Definition OnActivityFailed (o : LogObserver) (inv : ActivityInvocation) (Err : error) : log_record :=
  mkRecord (activityFailedLevel o) "flowstep.activity_failed" (activity_attrs inv ++ [("error", LogError Err)]).

Definition OnStuck (o : LogObserver) (instance : WorkflowInstance) (Reason : string) : log_record :=
  mkRecord (stuckLevel o) "flowstep.stuck"
    [("workflow_type", LogString (wi_WorkflowType instance));
     ("aggregate_id", LogString (wi_AggregateID instance)); ("reason", LogString Reason)].

Definition OnPostCommitError (o : LogObserver) (Operation : string) (Err : error) : log_record :=
  mkRecord (postCommitErrorLevel o) "flowstep.post_commit_error"
    [("operation", LogString Operation); ("error", LogError Err)].

(** ** Behind the registry *)

(** The handler a notification of the engine is for. *)
Definition log (o : LogObserver) (n : Notification) : log_record :=
  match n with
  | NTransition r d => OnTransition o r d
  | NGuardFailed w t g e => OnGuardFailed o w t g e
  | NActivityDispatched i => OnActivityDispatched o i
  | NPostCommitError op e => OnPostCommitError o op e
  end.

(** The observer implements the four interfaces. *)
Definition registered (id : nat) : Observer := mkObserver id true true true true.

(** What an option sets. *)
Definition sets (n : Notification) (opt : Option) : option level :=
  match n, opt with
  | NTransition _ _, WithTransitionLevel l => Some l
  | NGuardFailed _ _ _ _, WithGuardFailedLevel l => Some l
  | NActivityDispatched _, WithActivityDispatchedLevel l => Some l
  | NPostCommitError _ _, WithPostCommitErrorLevel l => Some l
  | _, _ => None
  end.

Definition default_level (n : Notification) : level :=
  match n with
  | NTransition _ _ | NActivityDispatched _ => LevelInfo
  | NGuardFailed _ _ _ _ => LevelWarn
  | NPostCommitError _ _ => LevelError
  end.

(** Registered with an engine among other observers, the logger writes every
    notification once, at the level the last option for it sets. *)
Theorem slog_logs opts id observers n :
  registered id ∉ observers →
  filter (λ d, d.1 = registered id) (notify (Some (NewObserverRegistry (registered id :: observers))) n) =
    [(registered id, n)] ∧
  lg_level (log (New opts) n) = default (default_level n) (last (omap (sets n) opts)).
Proof.
  intros Hid. split.
  - rewrite notify_spec, filter_cons_True by by destruct n. cbn [fmap list_fmap].
    rewrite filter_cons_True by done. f_equal.
    apply elem_of_nil_inv. intros d [Hd (o & -> & [_ Ho]%list_elem_of_filter)%list_elem_of_fmap]%list_elem_of_filter.
    by rewrite <-Hd in Hid.
  - unfold New. assert (lg_level (log defaults n) = default_level n) as Hdef by by destruct n.
    rewrite <-Hdef. generalize defaults as o. induction opts as [|opt opts IH] using rev_ind; intros o; [done|].
    rewrite foldl_app, omap_app, last_app. cbn.
    destruct (sets n opt) as [l|] eqn:Hs; cbn; destruct n, opt; try discriminate Hs;
      try (injection Hs as <-; reflexivity); apply IH.
Qed.
