(* ===== verification/World.v ===== *)
(** * World: the engine on its in-memory adapters

    One concrete world behind the calls of [Effects.v]: the registry, the
    in-memory stores ([Memstore.v]), the synchronous runner
    ([adapters/memrunner]), the bus ([adapters/chanbus]), observers, a clock that
    advances at each reading and a supply of identifiers.  It shows that the
    hypotheses of the theorems can be met, and it is the set-up of the
    repository's own tests. *)

From S2P Require Import Prelude Errors Types Hash Validate Compile Spawn Registry Helpers.
From S2P Require Import Effects Memstore Observer SideEffects Executor Dispatcher Parallel.
From S2P Require Import Scheduler Snapshot Firing Transactions Invariant.

(** ** The synchronous runner *)

Module Runner.

(** An activity is user code: what it returns for an input. *)
Abbreviation activities := (gmap string (ActivityInput → option error)).

Definition Register (r : activities) (name : string) (execute : ActivityInput → option error) :
    activities := <[name := execute]> r.

Definition Resolve (r : activities) (name : string) : option (ActivityInput → option error) :=
  r !! name.

Definition Dispatch (r : activities) (invocation : ActivityInvocation) : option error :=
  match r !! inv_ActivityName invocation with
  | None => Some (Sentinel ErrActivityNotRegistered)
  | Some execute => execute (inv_Input invocation)
  end.

End Runner.

(** ** The transaction provider

    [adapters/memstore/tx_provider.go]: no transaction at all; what is written
    stays, a rollback included. *)

Module NoTx.

Definition Begin : result tx := Ok (Some 0).
Definition Commit (t : tx) : option error := None.
Definition Rollback (t : tx) : option error := None.

End NoTx.

(** ** The bus *)

Module Bus.

(** Subscribed handlers, by number, and what they have received. *)
Record bus := mkBus { bus_handlers : list nat; bus_delivered : list (nat * DomainEvent) }.

Definition Subscribe (b : bus) (h : nat) : bus :=
  mkBus (bus_handlers b ++ [h]) (bus_delivered b).

Definition Emit (b : bus) (event : DomainEvent) : bus * option error :=
  (mkBus (bus_handlers b) (bus_delivered b ++ ((λ h, (h, event)) <$> bus_handlers b)), None).

End Bus.

Record world := mkWorld {
  w_registry : registry;
  w_shutdown : bool;
  w_flight : nat;
  w_clock : time;
  w_ids : nat;
  w_instances : Instances.store;
  w_events : Events.store;
  w_tasks : Tasks.store;
  w_children : Children.store;
  w_activities : Activities.store;
  w_bus : Bus.bus;
  w_observers : option ObserverRegistry;
  w_notified : list (Observer * Notification)
}.

#[export] Instance world_eta : Eta world := λ w,
  mkWorld (w_registry w) (w_shutdown w) (w_flight w) (w_clock w) (w_ids w) (w_instances w)
    (w_events w) (w_tasks w) (w_children w) (w_activities w) (w_bus w) (w_observers w)
    (w_notified w).

(** The in-memory adapters implement every optional interface but savepoints. *)
Definition mem_config : Config := mkConfig true true true true true true true false.

Section world.
Context {gr : GoRange}.
(** The user's part: identifiers, activities, and the function of a side effect. *)
Context (ids : nat → string) (runner : Runner.activities) (user_fn : result value).

(** Answer one call. *)
Definition handle (c : call) (w : world) : reply c * world :=
  match c return reply c * world with
  | ShutdownLoad => (w_shutdown w, w)
  | WgAdd => ((), w <| w_flight := S (w_flight w) |>)
  | WgDone => ((), w <| w_flight := pred (w_flight w) |>)
  | CompiledFor at' v => (compiledFor (w_registry w) at' v, w)
  | Now => (w_clock w, w <| w_clock := (w_clock w + 1)%Z |>)
  | GenerateID => (ids (w_ids w), w <| w_ids := S (w_ids w) |>)
  | Begin => (NoTx.Begin, w)
  | Commit t => (NoTx.Commit t, w)
  | Rollback t => (NoTx.Rollback t, w)
  | Savepoint _ _ | RollbackTo _ _ => (None, w)
  | InstanceGet at' aid => (Instances.Get (w_instances w) at' aid, w)
  | InstanceCreate _ i =>
      let '(s, e) := Instances.Create (w_instances w) i in (e, w <| w_instances := s |>)
  | InstanceUpdate _ i =>
      let '(s, e) := Instances.Update (w_instances w) i in (e, w <| w_instances := s |>)
  | EventAppend _ ev => let '(s, e) := Events.Append (w_events w) ev in (e, w <| w_events := s |>)
  | EventEmit ev => let '(b, e) := Bus.Emit (w_bus w) ev in (e, w <| w_bus := b |>)
  | TaskCreate _ t => let '(s, e) := Tasks.Create (w_tasks w) t in (e, w <| w_tasks := s |>)
  | TaskGet id => (Tasks.Get (w_tasks w) id, w)
  | TaskComplete _ id choice actor =>
      let '(s, e) := Tasks.Complete (w_clock w) (w_tasks w) id choice actor in
      (e, w <| w_tasks := s |>)
  | InvalidateByStates _ at' aid states =>
      let '(s, e) := Tasks.InvalidateByStates (w_tasks w) at' aid states in
      (e, w <| w_tasks := s |>)
  | ChildCreate _ r =>
      let '(s, e) := Children.Create (w_children w) r in (e, w <| w_children := s |>)
  | ChildGetByChild at' aid => (Children.GetByChild (w_children w) at' aid, w)
  | ChildGetByGroup g => (Ok (Children.GetByGroup (w_children w) g), w)
  | ChildComplete _ at' aid ts =>
      let '(s, e) := Children.Complete (w_clock w) (w_children w) at' aid ts in
      (e, w <| w_children := s |>)
  | ActivityCreate _ inv =>
      let '(s, e) := Activities.Create (w_activities w) inv in (e, w <| w_activities := s |>)
  | ActivityDispatch inv => (Runner.Dispatch runner inv, w)
  | ActivityResolve name => (bool_decide (is_Some (Runner.Resolve runner name)), w)
  | ActivityExecute name input =>
      (match Runner.Resolve runner name with Some f => f input | None => None end, w)
  | Notify n => ((), w <| w_notified := w_notified w ++ notify (w_observers w) n |>)
  | UserFn => (user_fn, w)
  end.

(** Run an operation in the world. *)
Definition run {A} (p : prog A) (w : world) : A * world := exec handle p w.

(** A world with the given registry and nothing stored. *)
Definition fresh_world (r : registry) (start : time) : world :=
  mkWorld r false 0 start 0 ∅ [] ∅ [] ∅ (Bus.mkBus [] []) None [].

(** ** The world as a monitor *)

Definition world_monitor : monitor world :=
  mkMonitor world (λ _ _, True) (λ w c r, r = (handle c w).1) (λ w c _, (handle c w).2).

Lemma exec_wp {A} (p : prog A) w (Q : A → world → Prop) :
  wp world_monitor p w Q → Q (run p w).1 (run p w).2.
Proof.
  unfold run. revert w. induction p as [a|c k IH]; intros w Hp; cbn in *; [done|].
  destruct Hp as [_ Hp]. specialize (Hp (handle c w).1 eq_refl).
  destruct (handle c w) as [r w'] eqn:Hh. cbn in *. by apply IH.
Qed.

Lemma wp_exec {A} (p : prog A) w (Q : A → world → Prop) :
  Q (run p w).1 (run p w).2 → wp world_monitor p w Q.
Proof.
  unfold run. revert w. induction p as [a|c k IH]; intros w HQ; cbn in *; [done|].
  split; [done|]. intros r ->. destruct (handle c w) as [r w']. by apply IH.
Qed.

(** What a harmless call keeps. *)
Record keeps_stores (w w' : world) : Prop := {
  ks_instances : w_instances w' = w_instances w;
  ks_events : w_events w' = w_events w;
  ks_flight : w_flight w' = w_flight w;
  ks_registry : w_registry w' = w_registry w;
  ks_shutdown : w_shutdown w' = w_shutdown w
}.

Lemma keeps_stores_refl w : keeps_stores w w.
Proof. by constructor. Qed.

Lemma keeps_stores_trans w1 w2 w3 : keeps_stores w1 w2 → keeps_stores w2 w3 → keeps_stores w1 w3.
Proof. intros [? ? ? ? ?] [? ? ? ? ?]. constructor; congruence. Qed.

Lemma handle_harmless c w : harmless c → keeps_stores w (handle c w).2.
Proof.
  destruct c; cbn; intros []; try apply keeps_stores_refl; try by constructor.
  all: repeat case_match; by constructor.
Qed.

Lemma run_harmless {A} (p : prog A) w : calls_only harmless p → keeps_stores w (run p w).2.
Proof.
  unfold run. revert w. induction p as [a|c k IH]; intros w Hp; cbn; [apply keeps_stores_refl|].
  destruct Hp as [Hc Hk]. pose proof (handle_harmless c w Hc) as Hw.
  destruct (handle c w) as [r w']. eapply keeps_stores_trans; [exact Hw|]. by apply IH.
Qed.

(** ** A transition that may fire, fires *)

#[local] Existing Instance mem_config.

Lemma runs_nil {A} (p : prog A) a : runs p [] a → p = Ret a.
Proof. destruct p; [by intros [_ ->]|]. by intros (? & ? & ? & _). Qed.

(** No activity of the runner fails. *)
Definition activities_succeed : Prop :=
  ∀ name f input, Runner.Resolve runner name = Some f → f input = None.

Lemma runSyncActivity_succeeds name input w :
  activities_succeed → wp world_monitor (runSyncActivity name input) w (λ r w', r = None ∧ w' = w).
Proof.
  intros Hs. apply wp_bind, wp_perform; [done|]. intros ok ->. cbn.
  case_bool_decide as Hr; [|done]. apply wp_perform; [done|]. intros e ->. cbn.
  destruct Hr as [f Hf]. rewrite Hf. split; [by eapply Hs|done].
Qed.

Lemma exit_activities_succeed cm t input seq w :
  activities_succeed →
  wp world_monitor (run_exit_activities cm t input seq) w (λ r w', r = inl () ∧ w' = w).
Proof.
  intros Hs. apply (wp_for_each _ (λ _ w', w' = w)); [|done|by intros []].
  intros x [] w1 _ ->. cbv beta zeta. case_decide; [done|].
  apply wp_bind. eapply wp_mono; [by apply runSyncActivity_succeeds|]. by intros r w' [-> ->].
Qed.

Lemma entry_activities_succeed cm i t input leaf now seq w :
  activities_succeed →
  wp world_monitor (run_entry_activities cm i t input leaf now seq) w (λ r w', r = inl () ∧ w' = w).
Proof.
  intros Hs. apply (wp_for_each _ (λ _ w', w' = w)); [|done|by intros []].
  intros x [] w1 _ ->. cbv beta zeta. case_decide; [done|]. apply wp_bind. cbn [wp].
  apply wp_bind. eapply wp_mono; [by apply runSyncActivity_succeeds|]. by intros r w' [-> ->].
Qed.

(** In memory the tail of a commit succeeds on the version that was read. *)
Lemma persist_succeeds t event i old w :
  Instances.Get (w_instances w) (wi_AggregateType i) (wi_AggregateID i) = Ok old →
  wi_LastReadUpdatedAt i = wi_UpdatedAt old →
  wp world_monitor (persist t event i) w (λ r w', r = None ∧
    w_instances w' = <[Instances.key_of i := i]> (w_instances w) ∧
    w_events w' = w_events w ++ [event] ∧ w_flight w' = w_flight w).
Proof.
  intros Hget Hlock. apply wp_check, wp_perform; [done|]. intros e1 ->. cbn.
  unfold Instances.Get in Hget. unfold Instances.Update, Instances.key_of. cbn.
  destruct (w_instances w !! _) as [old'|] eqn:Hk; [|done]. injection Hget as ->.
  split; [done|]. intros e ->. rewrite Hlock, bool_decide_eq_true_2, andb_false_r by done. cbn.
  split; [done|]. intros e2 ->. done.
Qed.

Lemma wp_harmless c w (Q : reply c → world → Prop) :
  harmless c → (∀ w', keeps_stores w w' → Q (handle c w).1 w') → wp world_monitor (perform c) w Q.
Proof.
  intros Hc HQ. apply wp_perform; [done|]. intros r ->. apply HQ. by apply handle_harmless.
Qed.

Lemma wp_quietly {A} (p : prog A) w (Q : A → world → Prop) :
  calls_only harmless p → (∀ t r w', runs p t r → keeps_stores w w' → Q r w') →
  wp world_monitor p w Q.
Proof.
  intros Hp HQ. apply wp_exec. destruct (exec_runs handle p w) as [t Ht].
  eapply HQ; [exact Ht|]. by apply run_harmless.
Qed.

(** What a transition leaves behind: its event logged, its instance stored. *)
Definition committed_in (w : world) (at' aid : string) (r : result TransitionResult) (w' : world) : Prop :=
  ∃ res, r = Ok res ∧
    Instances.Get (w_instances w') at' aid = Ok (res_Instance res) ∧
    w_events w' = w_events w ++ [res_Event res] ∧ w_flight w' = w_flight w.

Lemma moved_instance_fields cm i seq t now :
  let i' := moved_instance cm (recordHistory i (wi_CurrentState i) seq (cm_Definition cm)) t now in
  wi_CurrentState i' = t ∧ wi_AggregateType i' = wi_AggregateType i ∧
  wi_AggregateID i' = wi_AggregateID i ∧ wi_LastReadUpdatedAt i' = wi_UpdatedAt i.
Proof.
  destruct (recordHistory_fields i (wi_CurrentState i) seq (cm_Definition cm))
    as (_ & Hu & Ht & Hid & _).
  cbv zeta. unfold moved_instance. by destruct (is_parallel cm t).
Qed.

Lemma commitTransition_succeeds cm i ct target name actorID params w :
  activities_succeed →
  Instances.Get (w_instances w) (wi_AggregateType i) (wi_AggregateID i) = Ok i →
  wp world_monitor (commitTransition cm i ct target name actorID params) w (λ r w',
    ∃ ev i', r = Ok (ev, i') ∧
      wi_CurrentState i' = resolve_target cm i (tr_HistoryMode (ct_Def ct)) target ∧
      Instances.Get (w_instances w') (wi_AggregateType i) (wi_AggregateID i) = Ok i' ∧
      w_events w' = w_events w ++ [ev] ∧ w_flight w' = w_flight w).
Proof.
  intros Hacts Hget. unfold commitTransition. cbv zeta. set (t' := resolve_target _ _ _ _).
  apply wp_bind, wp_harmless; [done|]. intros w1 K1. apply wp_bind, wp_harmless; [done|].
  intros w2 K2. apply wp_try, wp_harmless; [done|]. intros w3 K3. cbn [handle fst].
  pose proof (keeps_stores_trans _ _ _ (keeps_stores_trans _ _ _ K1 K2) K3) as K.
  apply wp_bind. eapply wp_mono; [by apply exit_activities_succeed|]. intros ? ? [-> ->].
  apply wp_bind. eapply wp_mono; [by apply entry_activities_succeed|]. intros ? ? [-> ->].
  apply wp_bind, wp_quietly; [apply invalidate_tasks_quietly|]. intros _ [] w4 _ K4.
  set (now := (handle Now w).1). set (seq := exit_sequence _ _ _).
  destruct (moved_instance_fields cm i seq t' now) as (Hcur & Hty & Hid & Hlock).
  set (i' := moved_instance cm _ t' now) in *.
  apply wp_check. eapply wp_mono.
  { apply (persist_succeeds _ _ i' i); [|exact Hlock]. rewrite Hty, Hid, (ks_instances _ _ K4).
    by rewrite (ks_instances _ _ K). }
  intros r w5 (-> & Hi & He & Hfl). cbn [wp]. eexists _, i'.
  split; [done|]. split; [exact Hcur|]. split; [|split].
  - rewrite Hi. unfold Instances.Get, Instances.key_of. by rewrite Hty, Hid, lookup_insert_eq.
  - by rewrite He, (ks_events _ _ K4), (ks_events _ _ K).
  - by rewrite Hfl, (ks_flight _ _ K4), (ks_flight _ _ K).
Qed.

Lemma transition_from_succeeds cm i name actorID params start ct target w :
  activities_succeed →
  Instances.Get (w_instances w) (wi_AggregateType i) (wi_AggregateID i) = Ok i →
  compiled cm → keyed (cm_Definition cm) → gm_len (wi_ActiveInParallel i) = 0 →
  fires cm i name params ct target →
  wp world_monitor (transition_from cm i name actorID params start) w (λ r w',
    committed_in w (wi_AggregateType i) (wi_AggregateID i) r w' ∧
    ∀ res, r = Ok res →
      res_NewState res = resolve_target cm i (tr_HistoryMode (ct_Def ct)) target).
Proof.
  intros Hacts Hget Hc Hk Hlen Hf. unfold transition_from. rewrite decide_False by lia.
  assert (validateTransition cm i name params = Ret (Ok (ct, target))) as ->.
  { by apply runs_nil, validateTransition_ok_spec. }
  apply wp_try. cbn [wp]. apply wp_try. eapply wp_mono; [by apply commitTransition_succeeds|].
  intros r w1 (ev & i' & -> & Hcur & Hg & He & Hfl). cbn [fst snd].
  apply wp_quietly; [apply runPostCommit_quietly|]. intros t r w2 Hr K.
  destruct (wp_sound tx_monitor _ tx_initial _ _ _
    (runPostCommit_spec cm i' ct ev (wi_CurrentState i) params start tx_initial eq_refl) Hr
    (considered_all _ _)) as [_ [_ (res & -> & Hev & Hi & _ & Hns)]].
  split.
  - exists res. rewrite Hev, Hi, (ks_instances _ _ K), (ks_events _ _ K), (ks_flight _ _ K). done.
  - intros ? [= <-]. by rewrite Hns, Hcur.
Qed.

(** C10: On the in-memory adapters, with activities that do not fail, a transition
    that may fire from a stored instance of a plain state succeeds: its event is
    appended to the log, the instance it returns is the one stored, at the
    resolved target, and no operation is left in flight. *)
Theorem memory_transition w at' aid name actorID params i cm ct target :
  w_shutdown w = false → activities_succeed →
  Instances.Get (w_instances w) at' aid = Ok i →
  wi_AggregateType i = at' → wi_AggregateID i = aid →
  compiledFor (w_registry w) at' (wi_WorkflowVersion i) = Some cm →
  compiled cm → keyed (cm_Definition cm) →
  gm_len (wi_ActiveInParallel i) = 0 → fires cm i name params ct target →
  ∃ res w', run (Transition at' aid name actorID params) w = (Ok res, w') ∧
    res_NewState res = resolve_target cm i (tr_HistoryMode (ct_Def ct)) target ∧
    Instances.Get (w_instances w') at' aid = Ok (res_Instance res) ∧
    w_events w' = w_events w ++ [res_Event res] ∧ w_flight w' = w_flight w.
Proof.
  intros Hdown Hacts Hget Hty Hid Hcm Hc Hk Hlen Hf.
  assert (wp world_monitor (Transition at' aid name actorID params) w (λ r w',
    committed_in w at' aid r w' ∧ ∀ res, r = Ok res →
      res_NewState res = resolve_target cm i (tr_HistoryMode (ct_Def ct)) target)) as Hwp.
  2: { apply exec_wp in Hwp. destruct (run _ w) as [r w']. cbn in Hwp.
       destruct Hwp as ((res & -> & ?) & Hns). exists res, w'. split; [done|]. split; [by apply Hns|done]. }
  apply wp_check, wp_bind, wp_perform; [done|]. intros d Hd. cbn in Hd. rewrite Hdown in Hd.
  subst d. apply wp_bind, wp_perform; [done|]. intros u _. apply wp_bind.
  set (w1 := m_step world_monitor _ WgAdd u).
  assert (w_instances w1 = w_instances w ∧ w_events w1 = w_events w ∧ w_registry w1 = w_registry w ∧
    w_flight w1 = S (w_flight w)) as (E1 & E2 & E3 & E4) by done. clearbody w1.
  apply wp_bind, wp_harmless; [done|]. intros w2 K2.
  apply wp_try, wp_bind, wp_harmless; [done|]. intros w3 K3. cbn [handle fst].
  rewrite (ks_instances _ _ K2), E1, Hget.
  apply wp_bind, wp_harmless; [done|]. intros w4 K4. cbn [handle fst].
  rewrite (ks_registry _ _ K3), (ks_registry _ _ K2), E3, Hcm. cbn [wp].
  pose proof (keeps_stores_trans _ _ _ (keeps_stores_trans _ _ _ K2 K3) K4) as K.
  eapply wp_mono.
  { apply (transition_from_succeeds cm i name actorID params _ ct target); [done| |done..].
    rewrite (ks_instances _ _ K), E1. congruence. }
  intros r w5 [(res & -> & Hg & He & Hfl) Hns]. apply wp_bind, wp_perform; [done|].
  intros u' _. cbn [wp]. split; [|done]. exists res. rewrite Hty, Hid in Hg.
  split; [done|]. cbn. split; [done|]. split.
  - by rewrite He, (ks_events _ _ K), E2.
  - by rewrite Hfl, (ks_flight _ _ K), E4.
Qed.
End world.
