(* ===== verification/Script.v ===== *)
(** * Script: whole programs on the in-memory engine

    The example programs ([examples/]) and the test kit ([testutil/]) define a
    workflow, build an engine on the in-memory adapters, register and run
    operations, printing as they go; [log.Fatalf] ends a program at once.  A
    script is such a program on the world of [World.v]. *)

From S2P Require Import Prelude Errors Types Hash Validate Compile Builder Spawn Registry Helpers.
From S2P Require Import Effects Memstore Observer SideEffects Executor Dispatcher Parallel.
From S2P Require Import Scheduler Snapshot Firing Transactions Engine Mermaid World.

(** ** The adapters *)

(** [testutil.FakeClock], read under its mutex. *)
Module FakeClock.

Record FakeClock := mk { now : time }.

(** [time.Date(2025, 1, 1, 0, 0, 0, 0, time.UTC)], 739251 days after Go's zero time. *)
Definition NewFakeClock : FakeClock := mk (739251 * 86400000000000).
Definition Now (c : FakeClock) : time := now c.
Definition Advance (c : FakeClock) (d : Z) : FakeClock := mk (now c + d).
Definition SetTo (c : FakeClock) (t : time) : FakeClock := mk t.

End FakeClock.

(** One adapter of each kind, in memory; the real clock, or one that stands still
    until it is told to move. *)
Inductive mem_clock := Wall | Fake (c : FakeClock.FakeClock).

#[export] Instance mem_adapters : Adapters := {
  EventStore := ();
  InstanceStore := ();
  TaskStore := ();
  ChildStore := ();
  ActivityStore := ();
  TxProvider := ();
  EventBus := ();
  ActivityRunner := ();
  Clock := mem_clock;
  RealClock := Wall;
  implements_TaskInvalidator := λ _, true;
  implements_SavepointProvider := λ _, false;
  implements_ActivityResolver := λ _, true
}.

(** ** Scripts *)

Inductive output :=
  | Line (s : string)
  | WriteFile (path content : string).

(** How a script ends: with a value, by [log.Fatalf], or not at all. *)
Inductive outcome (A : Type) := Finished (a : A) | Fatal (message : string) | Hangs.
Arguments Finished {A} a.
Arguments Fatal {A} message.
Arguments Hangs {A}.

Record system := mkSystem { s_world : world; s_output : list output }.

Definition script (A : Type) : Type := system → outcome A * system.

#[export] Instance script_ret : MRet script := λ A a s, (Finished a, s).

#[export] Instance script_bind : MBind script := λ A B f m s,
  match m s with
  | (Finished a, s) => f a s
  | (Fatal message, s) => (Fatal message, s)
  | (Hangs, s) => (Hangs, s)
  end.

Definition emit (o : output) : script () := λ s, (Finished (), mkSystem (s_world s) (s_output s ++ [o])).

(** [fmt.Printf(format+"\n", args...)] and [fmt.Println(text)] *)
Definition Printf (format : string) (args : list farg) : script () := emit (Line (sprintf format args)).
Definition Println (text : string) : script () := emit (Line text).

Definition Fatalf {A} (format : string) (args : list farg) : script A := λ s,
  (Fatal (sprintf format args), s).

(** [if err != nil { log.Fatalf(what+": %v", err) }] *)
Definition or_fatal {A} (what : string) (m : script (result A)) : script A :=
  m ≫= λ r, match r with
    | Ok a => mret a
    | Err err => Fatalf (what +:+ ": %v") [FStr (error_text err)]
    end.

Section scripts.
Context {gr : GoRange}.
(** The random identifiers and the activities registered with the runner. *)
Context (ids : nat → string) (runner : Runner.activities).

(** The clock an engine reads: a real one goes on, a fake one stands. *)
Definition handle_with (clock : option mem_clock) (c : call) (w : world) : reply c * world :=
  match c return reply c * world with
  | Now => match clock with
      | Some (Fake f) => (FakeClock.Now f, w)
      | _ => handle ids runner (Ok VNil) Now w
      end
  | c => handle ids runner (Ok VNil) c w
  end.

(** [builder.Build()] *)
Definition build (b : DefBuilder) : script (result WorkflowDef) := λ s,
  match Build b with Some r => (Finished r, s) | None => (Hangs, s) end.

(** [types.Mermaid(def)] *)
Definition mermaid (def : WorkflowDef) : script string := λ s,
  match Mermaid def with Some text => (Finished text, s) | None => (Hangs, s) end.

(** [flowstep.NewEngine(opts...)] on adapters of its own, with its observers. *)
Definition newEngine (opts : list Option) : script (result Engine) := λ s,
  let engine := NewEngine opts in
  let observers := match engine with Ok e => dp_Observers (en_deps e) | Err _ => None end in
  (Finished engine, mkSystem ((s_world s) <| w_observers := observers |>) (s_output s)).

(** [engine.Register(def)] *)
Definition register (def : WorkflowDef) : script (result ()) := λ s,
  let w := s_world s in
  match Register (w_registry w) def with
  | None => (Hangs, s)
  | Some (r, err) =>
      (Finished (match err with Some e => Err e | None => Ok () end),
       mkSystem (w <| w_registry := r |>) (s_output s))
  end.

(** An operation of [engine] on its stores. *)
Definition operate {A} (engine : Engine) (p : Config → prog A) : script A := λ s,
  let '(r, w) := exec (handle_with (dp_Clock (en_deps engine))) (p (config_of engine)) (s_world s) in
  (Finished r, mkSystem w (s_output s)).

Definition transition (engine : Engine) (aggregateType aggregateID name actorID : string)
    (params : gomap value) : script (result TransitionResult) :=
  operate engine (λ cfg, Transition aggregateType aggregateID name actorID params).

Definition signal (engine : Engine) (input : SignalInput) : script (result TransitionResult) :=
  operate engine (λ cfg, Signal input).

Definition completeTask (engine : Engine) (taskID choice actorID : string) :
    script (result TransitionResult) :=
  operate engine (λ cfg, CompleteTask taskID choice actorID).

Definition childCompleted (engine : Engine) (childType childID terminalState : string) :
    script (result TransitionResult) :=
  operate engine (λ cfg, ChildCompleted childType childID terminalState).

(** The deferred [engine.Shutdown]; no operation is in flight when [main]
    returns. *)
Definition shutdown : script () := λ s,
  (Finished (), mkSystem ((s_world s) <| w_shutdown := true |>) (s_output s)).

(** A program from the start of its process. *)
Definition run_main (start : time) (main : script ()) : outcome () * list output :=
  let '(r, s) := main (mkSystem (fresh_world Registry.New start) []) in (r, s_output s).

End scripts.
