(* ===== verification/Programs.v ===== *)
(** * Programs: the example programs and the workflows of the test kit

    Models [examples/01] to [examples/07] and [testutil/fixtures.go]: what each
    program defines, the operations it runs and what it prints.  The theorem runs
    them and compares with the outputs their comments announce and with the
    diagrams kept next to them ([workflow.md]). *)

From S2P Require Import Prelude Floats Errors Types Hash Validate Compile Builder Spawn Registry Helpers.
From S2P Require Import Effects Memstore Observer SideEffects Executor Dispatcher Parallel.
From S2P Require Import Scheduler Snapshot Firing Transactions Engine Mermaid World Script.

(** The three adapters an engine needs. *)
Definition required_stores : list Option :=
  [WithEventStore (Some ()); WithInstanceStore (Some ()); WithTxProvider (Some ())].

(** The file a program writes for a workflow. *)
Definition diagram (title text : string) : string :=
  "# " +:+ title +:+ newline +:+ newline +:+ "```mermaid" +:+ newline +:+ text +:+ "```" +:+ newline.

Section programs.
Context {gr : GoRange}.
Context (ids : nat → string).

#[local] Abbreviation transition := (Script.transition ids ∅).
#[local] Abbreviation signal := (Script.signal ids ∅).
#[local] Abbreviation completeTask := (Script.completeTask ids ∅).
#[local] Abbreviation childCompleted := (Script.childCompleted ids ∅).

(** [fmt.Printf("Transition: %s -> %s\n", result.PreviousState, result.NewState)] *)
Definition print_moved (label : string) (r : TransitionResult) : script () :=
  Printf (label +:+ " %s -> %s") [FStr (res_PreviousState r); FStr (res_NewState r)].

(** The same, saying whether the new state is terminal. *)
Definition print_ended (label : string) (r : TransitionResult) : script () :=
  Printf (label +:+ " %s -> %s (terminal: %v)")
    [FStr (res_PreviousState r); FStr (res_NewState r); FBool (res_IsTerminal r)].

(** Saying only where it went. *)
Definition print_reached (label : string) (r : TransitionResult) : script () :=
  Printf (label +:+ " -> %s (terminal: %v)") [FStr (res_NewState r); FBool (res_IsTerminal r)].

(** [fmt.Println("\n" + title)] *)
Definition Heading (title : string) : script () := Println (newline +:+ title).

(** ** [examples/01-basic-linear] *)

(** Also [OrderWorkflow] of [testutil/fixtures.go]. *)
Definition orderWorkflow : DefBuilder :=
  let b := States (Version (Define "order" "order_workflow") 1)
    [Initial "CREATED"; State "PROCESSING" []; Terminal "DONE" []; Terminal "CANCELLED" []] in
  let b := Builder.Transition b "start_processing"
    [From ["CREATED"]; To "PROCESSING"; Event "OrderStarted"] in
  let b := Builder.Transition b "complete"
    [From ["PROCESSING"]; To "DONE"; Event "OrderCompleted"] in
  Builder.Transition b "cancel"
    [From ["CREATED"; "PROCESSING"]; To "CANCELLED"; Event "OrderCancelled"].

Definition main01 : script () :=
  def ← or_fatal "build workflow" (build orderWorkflow);
  text ← mermaid def;
  _ ← emit (WriteFile "examples/01-basic-linear/workflow.md" (diagram "Order Workflow" text));
  _ ← Println "Wrote Mermaid diagram to examples/01-basic-linear/workflow.md";
  engine ← or_fatal "create engine" (newEngine required_stores);
  _ ← or_fatal "register workflow" (register def);
  result ← or_fatal "start_processing"
    (transition engine "order" "order-1" "start_processing" "system" None);
  _ ← print_moved "Transition:" result;
  result ← or_fatal "complete" (transition engine "order" "order-1" "complete" "system" None);
  _ ← print_ended "Transition:" result;
  result ← or_fatal "start_processing order-2"
    (transition engine "order" "order-2" "start_processing" "system" None);
  _ ← print_moved "Transition:" result;
  result ← or_fatal "cancel" (transition engine "order" "order-2" "cancel" "user-1" None);
  _ ← print_ended "Transition:" result;
  shutdown.

(** ** [examples/02-guards-and-routing] *)

(** [params["amount"].(float64)] *)
Definition amount_of (params : gomap value) : option float64 :=
  match gm_get params "amount" with Some (VFloat f) => Some f | _ => None end.

Definition minimumAmountGuard_Check (minimum : float64) (aggregate : WorkflowInstance) (params : gomap value) :
    option error :=
  let err amount := Some (Errorf "amount %.2f is below minimum %.2f"
                            [FFloat amount; FFloat minimum] None) in
  match amount_of params with
  | None => err (float_of_int 0)
  | Some amount => if float_lt amount minimum then err amount else None
  end.

Definition highValueCondition_Evaluate (threshold : float64) (aggregate : WorkflowInstance)
    (params : gomap value) : result bool :=
  match amount_of params with
  | None => Ok false
  | Some amount => Ok (float_lt threshold amount)
  end.

Definition loanWorkflow : DefBuilder :=
  let b := States (Version (Define "loan" "loan_workflow") 1)
    [Initial "SUBMITTED"; Terminal "MANUAL_REVIEW" []; Terminal "AUTO_APPROVED" []] in
  Builder.Transition b "evaluate"
    [From ["SUBMITTED"];
     Guards [mkGuard None "*main.minimumAmountGuard" (minimumAmountGuard_Check (float_of_int 1))];
     Route [When (mkCondition (highValueCondition_Evaluate (float_of_int 10000))); To "MANUAL_REVIEW"];
     Route [Default; To "AUTO_APPROVED"];
     Event "LoanEvaluated"].

Definition main02 : script () :=
  def ← or_fatal "build workflow" (build loanWorkflow);
  text ← mermaid def;
  _ ← emit (WriteFile "examples/02-guards-and-routing/workflow.md" (diagram "Loan Workflow" text));
  _ ← Println "Wrote Mermaid diagram to examples/02-guards-and-routing/workflow.md";
  engine ← or_fatal "create engine" (newEngine required_stores);
  _ ← or_fatal "register workflow" (register def);
  _ ← Println "--- Guard failure (amount too low) ---";
  refused ← transition engine "loan" "loan-1" "evaluate" "system"
    (Some {[ "amount" := VFloat (ratio 1 2) ]});
  _ ← match refused with
      | Err err =>
          if errors_Is err ErrGuardFailed then
            Printf "Guard blocked transition: %v" [FStr (error_text err)]
          else Fatalf "expected ErrGuardFailed, got %v" [FStr (error_text err)]
      | Ok _ => Fatalf "expected ErrGuardFailed, got %v" [FStr "<nil>"]
      end;
  _ ← Heading "--- High-value loan (> 10000) → MANUAL_REVIEW ---";
  result ← or_fatal "evaluate high-value" (transition engine "loan" "loan-1" "evaluate" "system"
    (Some {[ "amount" := VFloat (float_of_int 50000) ]}));
  _ ← print_moved "Transition:" result;
  _ ← Heading "--- Standard loan (<= 10000) → AUTO_APPROVED ---";
  result ← or_fatal "evaluate standard" (transition engine "loan" "loan-2" "evaluate" "system"
    (Some {[ "amount" := VFloat (float_of_int 500) ]}));
  _ ← print_moved "Transition:" result;
  _ ← Heading "--- Guard and Condition types ---";
  _ ← Println "Guard:     minimumAmountGuard — blocks if amount < minimum";
  _ ← Println "Condition: highValueCondition — routes to MANUAL_REVIEW if amount > threshold";
  shutdown.

(** ** [examples/03-signals] *)

Definition bookingWorkflow : DefBuilder :=
  let b := States (Version (Define "booking" "booking_workflow") 1)
    [Initial "CREATED"; State "AWAITING_PAYMENT" []; Terminal "CONFIRMED" [];
     Terminal "CANCELLED" []] in
  let b := Builder.Transition b "initiate_payment"
    [From ["CREATED"]; To "AWAITING_PAYMENT"; Event "PaymentInitiated"] in
  let b := Builder.Transition b "payment_ok"
    [From ["AWAITING_PAYMENT"]; To "CONFIRMED"; OnSignal "payment_succeeded";
     Event "BookingConfirmed"] in
  Builder.Transition b "payment_fail"
    [From ["AWAITING_PAYMENT"]; To "CANCELLED"; OnSignal "payment_failed";
     Event "BookingCancelled"].

Definition main03 : script () :=
  def ← or_fatal "build workflow" (build bookingWorkflow);
  text ← mermaid def;
  _ ← emit (WriteFile "examples/03-signals/workflow.md" (diagram "Booking Workflow" text));
  _ ← Println "Wrote Mermaid diagram to examples/03-signals/workflow.md";
  engine ← or_fatal "create engine" (newEngine required_stores);
  _ ← or_fatal "register workflow" (register def);
  _ ← Println "--- Booking 1: payment succeeds ---";
  result ← or_fatal "initiate_payment"
    (transition engine "booking" "booking-1" "initiate_payment" "user-1" None);
  _ ← print_moved "Transition:" result;
  result ← or_fatal "signal payment_succeeded" (signal engine
    (mkSignalInput "booking" "booking-1" "payment_succeeded"
       (Some {[ "transaction_id" := VStr "txn-abc123" ]}) "payment-gateway"));
  _ ← print_reached "Signal:     payment_succeeded" result;
  _ ← Heading "--- Booking 2: payment fails ---";
  result ← or_fatal "initiate_payment booking-2"
    (transition engine "booking" "booking-2" "initiate_payment" "user-2" None);
  _ ← print_moved "Transition:" result;
  result ← or_fatal "signal payment_failed" (signal engine
    (mkSignalInput "booking" "booking-2" "payment_failed"
       (Some {[ "reason" := VStr "insufficient_funds" ]}) "payment-gateway"));
  _ ← print_reached "Signal:     payment_failed" result;
  shutdown.

(** ** [examples/04-wait-states-tasks] *)

Definition expenseWorkflow : DefBuilder :=
  let b := States (Version (Define "expense" "expense_workflow") 1)
    [Initial "SUBMITTED"; WaitState "PENDING_APPROVAL" []; Terminal "APPROVED" [];
     Terminal "REJECTED" []] in
  let b := Builder.Transition b "submit_for_approval"
    [From ["SUBMITTED"]; To "PENDING_APPROVAL"; Event "ApprovalRequested";
     EmitTask (mkTaskDef "expense_approval" "Review and approve or reject the expense claim"
                 ["approve"; "reject"] (48 * 3600000000000))] in
  let b := Builder.Transition b "approve"
    [From ["PENDING_APPROVAL"]; To "APPROVED"; OnTaskCompleted "expense_approval";
     Event "ExpenseApproved"] in
  Builder.Transition b "reject"
    [From ["PENDING_APPROVAL"]; To "REJECTED"; OnTaskCompleted "expense_approval";
     Event "ExpenseRejected"].

(** [task := result.TaskCreated; if task == nil { log.Fatal(...) }] *)
Definition created_task (r : TransitionResult) : script PendingTask :=
  match res_TaskCreated r with
  | None => Fatalf "expected task to be created" []
  | Some task => mret task
  end.

Definition main04 : script () :=
  def ← or_fatal "build workflow" (build expenseWorkflow);
  text ← mermaid def;
  _ ← emit (WriteFile "examples/04-wait-states-tasks/workflow.md" (diagram "Expense Workflow" text));
  _ ← Println "Wrote Mermaid diagram to examples/04-wait-states-tasks/workflow.md";
  engine ← or_fatal "create engine"
    (newEngine [WithEventStore (Some ()); WithInstanceStore (Some ()); WithTaskStore (Some ());
                WithTxProvider (Some ())]);
  _ ← or_fatal "register workflow" (register def);
  _ ← Println "--- Expense 1: approved ---";
  result ← or_fatal "submit_for_approval"
    (transition engine "expense" "expense-1" "submit_for_approval" "employee-1" None);
  _ ← print_moved "Transition:" result;
  task ← created_task result;
  _ ← Printf "Task created: id=%s type=%s options=%v"
    [FStr (pt_ID task); FStr (pt_TaskType task); FStrs (pt_Options task)];
  result ← or_fatal "complete task (approve)"
    (completeTask engine (pt_ID task) "approve" "manager-1");
  _ ← print_reached "Task completed: choice=approve" result;
  _ ← Heading "--- Expense 2: rejected ---";
  result ← or_fatal "submit_for_approval expense-2"
    (transition engine "expense" "expense-2" "submit_for_approval" "employee-2" None);
  _ ← print_moved "Transition:" result;
  task ← created_task result;
  _ ← Printf "Task created: id=%s type=%s" [FStr (pt_ID task); FStr (pt_TaskType task)];
  result ← or_fatal "complete task (reject)"
    (completeTask engine (pt_ID task) "reject" "manager-1");
  _ ← print_reached "Task completed: choice=reject" result;
  shutdown.

(** ** [examples/05-child-workflow] *)

Definition childWorkflowType : string := "shipment_workflow".

Definition buildOrderWorkflow05 : DefBuilder :=
  let b := States (Version (Define "order" "order_workflow") 1)
    [Initial "CREATED"; State "PROCESSING" []; State "WAITING_FOR_SHIPMENT" [];
     Terminal "COMPLETED" []; Terminal "CANCELLED" []] in
  let b := Builder.Transition b "start_processing"
    [From ["CREATED"]; To "PROCESSING"; Event "OrderStarted"] in
  let b := Builder.Transition b "ship"
    [From ["PROCESSING"]; To "WAITING_FOR_SHIPMENT"; Event "ShipmentStarted";
     SpawnChild (mkChildDef childWorkflowType "")] in
  let b := Builder.Transition b "shipment_delivered"
    [From ["WAITING_FOR_SHIPMENT"]; To "COMPLETED"; OnChildCompleted childWorkflowType;
     Event "OrderCompleted"] in
  Builder.Transition b "cancel"
    [From ["CREATED"; "PROCESSING"]; To "CANCELLED"; Event "OrderCancelled"].

Definition buildShipmentWorkflow : DefBuilder :=
  let b := States (Version (Define "shipment" childWorkflowType) 1)
    [Initial "CREATED"; State "IN_TRANSIT" []; Terminal "DELIVERED" []; Terminal "FAILED" []] in
  let b := Builder.Transition b "pick_up"
    [From ["CREATED"]; To "IN_TRANSIT"; Event "ShipmentPickedUp"] in
  let b := Builder.Transition b "deliver"
    [From ["IN_TRANSIT"]; To "DELIVERED"; Event "ShipmentDelivered"] in
  Builder.Transition b "fail"
    [From ["CREATED"; "IN_TRANSIT"]; To "FAILED"; Event "ShipmentFailed"].

(** [result.ChildrenSpawned[0]], after the test of its length *)
Definition spawned_child (r : TransitionResult) : script ChildRelation :=
  match res_ChildrenSpawned r with
  | [] => Fatalf "expected child to be spawned" []
  | child :: _ => mret child
  end.

Definition main05 : script () :=
  orderDef ← or_fatal "build order workflow" (build buildOrderWorkflow05);
  shipmentDef ← or_fatal "build shipment workflow" (build buildShipmentWorkflow);
  orderText ← mermaid orderDef;
  shipmentText ← mermaid shipmentDef;
  _ ← emit (WriteFile "examples/05-child-workflow/workflow.md"
    (diagram "Order Workflow" orderText +:+ newline +:+ diagram "Shipment Workflow" shipmentText));
  _ ← Println "Wrote Mermaid diagrams to examples/05-child-workflow/workflow.md";
  engine ← or_fatal "create engine"
    (newEngine [WithEventStore (Some ()); WithInstanceStore (Some ()); WithChildStore (Some ());
                WithTxProvider (Some ())]);
  _ ← or_fatal "register order workflow" (register orderDef);
  _ ← or_fatal "register shipment workflow" (register shipmentDef);
  _ ← Println "--- Parent: order workflow ---";
  result ← or_fatal "start_processing"
    (transition engine "order" "order-1" "start_processing" "system" None);
  _ ← print_moved "Parent:" result;
  result ← or_fatal "ship" (transition engine "order" "order-1" "ship" "system" None);
  _ ← print_moved "Parent:" result;
  child ← spawned_child result;
  _ ← Printf "Child spawned: workflowType=%s id=%s"
    [FStr (cr_ChildWorkflowType child); FStr (cr_ChildAggregateID child)];
  _ ← Heading "--- Child: shipment workflow ---";
  result ← or_fatal "pick_up"
    (transition engine "shipment" (cr_ChildAggregateID child) "pick_up" "courier" None);
  _ ← print_moved "Child: " result;
  result ← or_fatal "deliver"
    (transition engine "shipment" (cr_ChildAggregateID child) "deliver" "courier" None);
  _ ← print_ended "Child: " result;
  _ ← Heading "--- Notify parent: child completed ---";
  result ← or_fatal "ChildCompleted"
    (childCompleted engine (cr_ChildAggregateType child) (cr_ChildAggregateID child) "DELIVERED");
  _ ← print_reached "Parent: WAITING_FOR_SHIPMENT" result;
  shutdown.

(** ** [examples/06-parallel-children-signals] *)

Definition itemWorkflowType : string := "item_workflow".

Definition item_input (item sku : string) : gomap value :=
  Some {[ "item_id" := VStr item; "sku" := VStr sku ]}.

Definition buildOrderWorkflow06 : DefBuilder :=
  let b := States (Version (Define "purchase_order" "purchase_order_workflow") 1)
    [Initial "CREATED"; State "PROCESSING" []; State "AWAITING_ITEMS" [];
     State "AWAITING_PAYMENT" []; Terminal "CONFIRMED" []; Terminal "CANCELLED" []] in
  let b := Builder.Transition b "start"
    [From ["CREATED"]; To "PROCESSING"; Event "OrderStarted"] in
  let b := Builder.Transition b "fan_out"
    [From ["PROCESSING"]; To "AWAITING_ITEMS"; Event "ItemsFannedOut";
     SpawnChildren (mkChildrenDef itemWorkflowType
       (λ _, [item_input "item-A" "SKU-001"; item_input "item-B" "SKU-002";
              item_input "item-C" "SKU-003"]) JoinAll)] in
  let b := Builder.Transition b "items_ready"
    [From ["AWAITING_ITEMS"]; To "AWAITING_PAYMENT"; OnChildrenJoined; Event "ItemsReady"] in
  let b := Builder.Transition b "payment_ok"
    [From ["AWAITING_PAYMENT"]; To "CONFIRMED"; OnSignal "payment_succeeded";
     Event "OrderConfirmed"] in
  Builder.Transition b "payment_fail"
    [From ["AWAITING_PAYMENT"]; To "CANCELLED"; OnSignal "payment_failed";
     Event "OrderCancelled"].

Definition buildItemWorkflow : DefBuilder :=
  let b := States (Version (Define "item" itemWorkflowType) 1)
    [Initial "CREATED"; State "PROCESSING" []; Terminal "DONE" []; Terminal "FAILED" []] in
  let b := Builder.Transition b "process"
    [From ["CREATED"]; To "PROCESSING"; Event "ItemProcessingStarted"] in
  let b := Builder.Transition b "complete"
    [From ["PROCESSING"]; To "DONE"; Event "ItemCompleted"] in
  Builder.Transition b "fail"
    [From ["CREATED"; "PROCESSING"]; To "FAILED"; Event "ItemFailed"].

(** The body of [for i, child := range children]; [i] counts from 1. *)
Definition process_item (engine : Engine) (i : nat) (child : ChildRelation) : script () :=
  let item := "Item " +:+ pretty.pretty i +:+ " (" +:+ String.substring 0 8 (cr_ChildAggregateID child) +:+ "):" in
  let failed what := "item " +:+ pretty.pretty (pred i) +:+ " " +:+ what in
  r ← or_fatal (failed "process")
    (transition engine "item" (cr_ChildAggregateID child) "process" "worker" None);
  _ ← print_moved item r;
  r ← or_fatal (failed "complete")
    (transition engine "item" (cr_ChildAggregateID child) "complete" "worker" None);
  _ ← print_ended item r;
  joined ← childCompleted engine (cr_ChildAggregateType child) (cr_ChildAggregateID child) "DONE";
  match joined with
  | Ok joinResult =>
      Printf (newline +:+ "Join satisfied! Parent: AWAITING_ITEMS -> %s") [FStr (res_NewState joinResult)]
  | Err err =>
      if errors_Is err ErrNoMatchingSignal then mret ()
      else Fatalf ("ChildCompleted " +:+ "item " +:+ pretty.pretty (pred i) +:+ ": %v") [FStr (error_text err)]
  end.

Fixpoint process_items (engine : Engine) (i : nat) (children : list ChildRelation) : script () :=
  match children with
  | [] => mret ()
  | child :: children => _ ← process_item engine i child; process_items engine (S i) children
  end.

Definition main06 : script () :=
  orderDef ← or_fatal "build order workflow" (build buildOrderWorkflow06);
  itemDef ← or_fatal "build item workflow" (build buildItemWorkflow);
  orderText ← mermaid orderDef;
  itemText ← mermaid itemDef;
  _ ← emit (WriteFile "examples/06-parallel-children-signals/workflow.md"
    (diagram "Purchase Order Workflow" orderText +:+ newline +:+ diagram "Item Workflow" itemText));
  _ ← Println "Wrote Mermaid diagrams to examples/06-parallel-children-signals/workflow.md";
  engine ← or_fatal "create engine"
    (newEngine [WithEventStore (Some ()); WithInstanceStore (Some ()); WithChildStore (Some ());
                WithTxProvider (Some ())]);
  _ ← or_fatal "register order workflow" (register orderDef);
  _ ← or_fatal "register item workflow" (register itemDef);
  _ ← Println "--- Parent: purchase_order workflow ---";
  result ← or_fatal "start" (transition engine "purchase_order" "po-1" "start" "system" None);
  _ ← print_moved "Parent:" result;
  result ← or_fatal "fan_out" (transition engine "purchase_order" "po-1" "fan_out" "system" None);
  _ ← Printf "Parent: %s -> %s (%d children spawned)"
    [FStr (res_PreviousState result); FStr (res_NewState result);
     FInt (Z.of_nat (length (res_ChildrenSpawned result)))];
  let children := res_ChildrenSpawned result in
  _ ← (if decide (length children ≠ 3) then Fatalf "expected 3 children, got %d" [FInt (Z.of_nat (length children))]
       else mret ());
  _ ← Heading "--- Children: item workflows ---";
  _ ← process_items engine 1 children;
  _ ← Heading "--- Signal: payment_succeeded ---";
  result ← or_fatal "signal payment_succeeded" (signal engine
    (mkSignalInput "purchase_order" "po-1" "payment_succeeded" None "payment-gateway"));
  _ ← print_reached "Parent: AWAITING_PAYMENT" result;
  shutdown.

(** ** [examples/07-parallel-states] *)

Definition buildEditorWorkflow : DefBuilder :=
  let b := States (Version (Define "Editor" "editor_workflow") 1)
    [Initial "IDLE";
     Done (Region (Region (ParallelState "editing")
       "bold_region" [State "bold_off" []; State "bold_on" []])
       "italic_region" [State "italic_off" []; State "italic_on" []]);
     Terminal "DONE" []] in
  let b := Builder.Transition b "startEditing"
    [From ["IDLE"]; To "editing"; Event "EditingStarted"] in
  let b := Builder.Transition b "toggleBold"
    [From ["bold_off"]; To "bold_on"; Event "BoldEnabled"] in
  let b := Builder.Transition b "untoggleBold"
    [From ["bold_on"]; To "bold_off"; Event "BoldDisabled"] in
  let b := Builder.Transition b "toggleItalic"
    [From ["italic_off"]; To "italic_on"; Event "ItalicEnabled"] in
  let b := Builder.Transition b "untoggleItalic"
    [From ["italic_on"]; To "italic_off"; Event "ItalicDisabled"] in
  Builder.Transition b "finishEditing"
    [From ["editing"]; To "DONE"; Event "EditingFinished"].

(** [%-20s]: padded with spaces on the right. *)
Definition pad_right (width : nat) (s : string) : string :=
  s +:+ Repeat " " (width - String.length s).

(** [%v] of a [map[string]string]: in the order of its keys, nil as empty. *)
Definition show_map (m : gomap string) : string :=
  "map[" +:+ String.concat " "
    ((λ k, k +:+ ":" +:+ str_of (gm_get m k)) <$> sort_strings (map_to_list (gm_map m)).*1) +:+ "]".

Definition printState (label : string) (result : TransitionResult) : script () :=
  let inst := res_Instance result in
  Println (pad_right 20 (label +:+ ":") +:+ " state=" +:+ pad_right 10 (wi_CurrentState inst) +:+
           " parallel=" +:+ show_map (wi_ActiveInParallel inst)).

Definition edit (engine : Engine) (name : string) : script TransitionResult :=
  result ← or_fatal name (transition engine "Editor" "doc-1" name "user" None);
  _ ← printState name result;
  mret result.

Definition main07 : script () :=
  def ← or_fatal "build workflow" (build buildEditorWorkflow);
  engine ← or_fatal "create engine" (newEngine required_stores);
  _ ← or_fatal "register workflow" (register def);
  _ ← Println "=== Text Editor Parallel State Example ===";
  _ ← Println "";
  _ ← edit engine "startEditing";
  _ ← edit engine "toggleBold";
  _ ← edit engine "toggleItalic";
  _ ← edit engine "untoggleBold";
  result ← edit engine "finishEditing";
  _ ← Printf (newline +:+ "Final state: %s (terminal: %v)")
    [FStr (res_NewState result); FBool (res_IsTerminal result)];
  shutdown.
End programs.

(** ** What they print *)

(** Identifiers of 16 bytes, here not random but in order. *)
Definition serial_id (n : nat) : string :=
  generateID (Sha256.be_bytes 4 (N.of_nat n) ++ replicate 12 0%N).

(** The lines that come out, a file as its content. *)
Definition printed (r : outcome () * list output) : outcome () * list string :=
  (r.1, (λ o, match o with Line s => s | WriteFile _ content => content end) <$> r.2).

(** [main] ends normally, having printed [lines], whichever way maps are ranged
    over. *)
Definition prints (main : GoRange → (nat → string) → script ()) (lines : list string) : Prop :=
  Forall (λ gr, printed (run_main 1000 (main gr serial_id)) = (Finished (), lines))
    [range_fwd; range_rev].

(** Program by program: the content of [workflow.md] and the lines printed. *)
Definition documented01 : list string :=
  ["# Order Workflow

```mermaid
stateDiagram-v2
    [*] --> CREATED
    CREATED --> CANCELLED : cancel
    PROCESSING --> CANCELLED : cancel
    PROCESSING --> DONE : complete
    CREATED --> PROCESSING : start_processing
    CANCELLED --> [*]
    DONE --> [*]
```
";
   "Wrote Mermaid diagram to examples/01-basic-linear/workflow.md";
   "Transition: CREATED -> PROCESSING";
   "Transition: PROCESSING -> DONE (terminal: true)";
   "Transition: CREATED -> PROCESSING";
   "Transition: PROCESSING -> CANCELLED (terminal: true)"].

Definition documented02 : list string :=
  ["# Loan Workflow

```mermaid
stateDiagram-v2
    [*] --> SUBMITTED
    SUBMITTED --> MANUAL_REVIEW : evaluate
    SUBMITTED --> AUTO_APPROVED : evaluate
    AUTO_APPROVED --> [*]
    MANUAL_REVIEW --> [*]
```
";
   "Wrote Mermaid diagram to examples/02-guards-and-routing/workflow.md";
   "--- Guard failure (amount too low) ---";
   "Guard blocked transition: flowstep: guard *main.minimumAmountGuard failed: amount 0.50 is below minimum 1.00";
   newline +:+ "--- High-value loan (> 10000) → MANUAL_REVIEW ---";
   "Transition: SUBMITTED -> MANUAL_REVIEW";
   newline +:+ "--- Standard loan (<= 10000) → AUTO_APPROVED ---";
   "Transition: SUBMITTED -> AUTO_APPROVED";
   newline +:+ "--- Guard and Condition types ---";
   "Guard:     minimumAmountGuard — blocks if amount < minimum";
   "Condition: highValueCondition — routes to MANUAL_REVIEW if amount > threshold"].

Definition documented03 : list string :=
  ["# Booking Workflow

```mermaid
stateDiagram-v2
    [*] --> CREATED
    CREATED --> AWAITING_PAYMENT : initiate_payment
    AWAITING_PAYMENT --> CANCELLED : payment_fail
    AWAITING_PAYMENT --> CONFIRMED : payment_ok
    CANCELLED --> [*]
    CONFIRMED --> [*]
```
";
   "Wrote Mermaid diagram to examples/03-signals/workflow.md";
   "--- Booking 1: payment succeeds ---";
   "Transition: CREATED -> AWAITING_PAYMENT";
   "Signal:     payment_succeeded -> CONFIRMED (terminal: true)";
   newline +:+ "--- Booking 2: payment fails ---";
   "Transition: CREATED -> AWAITING_PAYMENT";
   "Signal:     payment_failed -> CANCELLED (terminal: true)"].

Definition documented04 : list string :=
  ["# Expense Workflow

```mermaid
stateDiagram-v2
    [*] --> SUBMITTED
    PENDING_APPROVAL --> APPROVED : approve
    PENDING_APPROVAL --> REJECTED : reject
    SUBMITTED --> PENDING_APPROVAL : submit_for_approval
    APPROVED --> [*]
    REJECTED --> [*]
```
";
   "Wrote Mermaid diagram to examples/04-wait-states-tasks/workflow.md";
   "--- Expense 1: approved ---";
   "Transition: SUBMITTED -> PENDING_APPROVAL";
   "Task created: id=00000003000000000000000000000000 type=expense_approval options=[approve reject]";
   "Task completed: choice=approve -> APPROVED (terminal: true)";
   newline +:+ "--- Expense 2: rejected ---";
   "Transition: SUBMITTED -> PENDING_APPROVAL";
   "Task created: id=00000008000000000000000000000000 type=expense_approval";
   "Task completed: choice=reject -> REJECTED (terminal: true)"].

Definition documented05 : list string :=
  ["# Order Workflow

```mermaid
stateDiagram-v2
    [*] --> CREATED
    CREATED --> CANCELLED : cancel
    PROCESSING --> CANCELLED : cancel
    PROCESSING --> WAITING_FOR_SHIPMENT : ship
    WAITING_FOR_SHIPMENT --> COMPLETED : shipment_delivered
    CREATED --> PROCESSING : start_processing
    CANCELLED --> [*]
    COMPLETED --> [*]
```

# Shipment Workflow

```mermaid
stateDiagram-v2
    [*] --> CREATED
    IN_TRANSIT --> DELIVERED : deliver
    CREATED --> FAILED : fail
    IN_TRANSIT --> FAILED : fail
    CREATED --> IN_TRANSIT : pick_up
    DELIVERED --> [*]
    FAILED --> [*]
```
";
   "Wrote Mermaid diagrams to examples/05-child-workflow/workflow.md";
   "--- Parent: order workflow ---";
   "Parent: CREATED -> PROCESSING";
   "Parent: PROCESSING -> WAITING_FOR_SHIPMENT";
   "Child spawned: workflowType=shipment_workflow id=00000004000000000000000000000000";
   newline +:+ "--- Child: shipment workflow ---";
   "Child:  CREATED -> IN_TRANSIT";
   "Child:  IN_TRANSIT -> DELIVERED (terminal: true)";
   newline +:+ "--- Notify parent: child completed ---";
   "Parent: WAITING_FOR_SHIPMENT -> COMPLETED (terminal: true)"].

Definition documented06 : list string :=
  ["# Purchase Order Workflow

```mermaid
stateDiagram-v2
    [*] --> CREATED
    PROCESSING --> AWAITING_ITEMS : fan_out
    AWAITING_ITEMS --> AWAITING_PAYMENT : items_ready
    AWAITING_PAYMENT --> CANCELLED : payment_fail
    AWAITING_PAYMENT --> CONFIRMED : payment_ok
    CREATED --> PROCESSING : start
    CANCELLED --> [*]
    CONFIRMED --> [*]
```

# Item Workflow

```mermaid
stateDiagram-v2
    [*] --> CREATED
    PROCESSING --> DONE : complete
    CREATED --> FAILED : fail
    PROCESSING --> FAILED : fail
    CREATED --> PROCESSING : process
    DONE --> [*]
    FAILED --> [*]
```
";
   "Wrote Mermaid diagrams to examples/06-parallel-children-signals/workflow.md";
   "--- Parent: purchase_order workflow ---";
   "Parent: CREATED -> PROCESSING";
   "Parent: PROCESSING -> AWAITING_ITEMS (3 children spawned)";
   newline +:+ "--- Children: item workflows ---";
   "Item 1 (00000005): CREATED -> PROCESSING";
   "Item 1 (00000005): PROCESSING -> DONE (terminal: true)";
   "Item 2 (00000007): CREATED -> PROCESSING";
   "Item 2 (00000007): PROCESSING -> DONE (terminal: true)";
   "Item 3 (00000009): CREATED -> PROCESSING";
   "Item 3 (00000009): PROCESSING -> DONE (terminal: true)";
   newline +:+ "Join satisfied! Parent: AWAITING_ITEMS -> AWAITING_PAYMENT";
   newline +:+ "--- Signal: payment_succeeded ---";
   "Parent: AWAITING_PAYMENT -> CONFIRMED (terminal: true)"].

Definition documented07 : list string :=
  ["=== Text Editor Parallel State Example ===";
   EmptyString;
   "startEditing:        state=editing    parallel=map[bold_region:bold_off italic_region:italic_off]";
   "toggleBold:          state=editing    parallel=map[bold_region:bold_on italic_region:italic_off]";
   "toggleItalic:        state=editing    parallel=map[bold_region:bold_on italic_region:italic_on]";
   "untoggleBold:        state=editing    parallel=map[bold_region:bold_off italic_region:italic_on]";
   "finishEditing:       state=DONE       parallel=map[]";
   newline +:+ "Final state: DONE (terminal: true)"].

