(* ===== verification/Testutil.v ===== *)
(** * Testutil: the test kit

    Models [testutil/]: an engine on all in-memory adapters with a clock that
    stands still ([engine.go], [time.go]), the workflows of [fixtures.go], and
    the assertions ([assertions.go]).  An assertion reports the messages it gives
    [testing.T], and whether it ends the test ([Fatalf]). *)

From S2P Require Import Prelude Errors Types Hash Validate Compile Builder Spawn Registry Helpers.
From S2P Require Import Effects Memstore Observer SideEffects Executor Dispatcher Parallel.
From S2P Require Import Scheduler Snapshot Firing Transactions Engine Mermaid World Script Programs.

(** ** The engine *)

(** The stores are those of the world; the clock is shared with the engine. *)
Record TestEngine := mkTestEngine {
  te_Engine : Engine;
  te_Clock : FakeClock.FakeClock
}.

Definition test_options (clock : FakeClock.FakeClock) : list Option :=
  [WithEventStore (Some ()); WithInstanceStore (Some ()); WithTaskStore (Some ());
   WithChildStore (Some ()); WithActivityStore (Some ()); WithTxProvider (Some ());
   WithEventBus (Some ()); WithActivityRunner (Some ()); WithClock (Some (Fake clock))].

Definition NewTestEngine : script TestEngine :=
  let clock := FakeClock.NewFakeClock in
  engine ← or_fatal "testutil: failed to create engine" (newEngine (test_options clock));
  mret (mkTestEngine engine clock).

(** [te.Clock.Advance(d)]: the engine reads the same clock. *)
Definition advance (te : TestEngine) (d : Z) : TestEngine :=
  let clock := FakeClock.Advance (te_Clock te) d in
  let e := te_Engine te in
  let deps := en_deps e in
  mkTestEngine
    (mkEngine
       (mkDeps (dp_EventStore deps) (dp_InstanceStore deps) (dp_TaskStore deps) (dp_ChildStore deps)
          (dp_ActivityStore deps) (dp_TxProvider deps) (dp_EventBus deps) (dp_ActivityRunner deps)
          (Some (Fake clock)) (dp_Observers deps) (dp_errors deps))
       (en_registry e) (en_hasSavepoints e) (en_shutdown e) (en_wg e))
    clock.

(** ** Fixtures *)

Section fixtures.
Context {gr : GoRange}.

Definition OrderWorkflow : script WorkflowDef :=
  or_fatal "testutil: failed to build OrderWorkflow" (build orderWorkflow).

Definition approvalWorkflow : DefBuilder :=
  let b := States (Version (Define "request" "approval_workflow") 1)
    [Initial "SUBMITTED"; WaitState "PENDING_APPROVAL" []; Terminal "APPROVED" [];
     Terminal "REJECTED" []] in
  let b := Builder.Transition b "submit_for_approval"
    [From ["SUBMITTED"]; To "PENDING_APPROVAL"; Event "ApprovalRequested";
     EmitTask (mkTaskDef "approval" "Approve or reject the request" ["approve"; "reject"] 0)] in
  let b := Builder.Transition b "approve"
    [From ["PENDING_APPROVAL"]; To "APPROVED"; Event "RequestApproved";
     OnTaskCompleted "approval"] in
  Builder.Transition b "reject"
    [From ["PENDING_APPROVAL"]; To "REJECTED"; Event "RequestRejected";
     OnTaskCompleted "approval"].

Definition ApprovalWorkflow : script WorkflowDef :=
  or_fatal "testutil: failed to build ApprovalWorkflow" (build approvalWorkflow).
End fixtures.

(** ** Assertions *)

Record report := mkReport { messages : list string; fatal : bool }.

Definition passed : report := mkReport [] false.
Definition Errorf_ (format : string) (args : list farg) : report := mkReport [sprintf format args] false.
Definition Fatalf_ (format : string) (args : list farg) : report := mkReport [sprintf format args] true.

(** [fmt.Sprintf("%d")] of a length *)
Definition FLen {A} (l : list A) : farg := FInt (Z.of_nat (length l)).

Definition AssertState (w : world) (aggregateType aggregateID expected : string) : report :=
  match Instances.Get (w_instances w) aggregateType aggregateID with
  | Err err =>
      Fatalf_ "testutil: get instance %s/%s: %v"
        [FStr aggregateType; FStr aggregateID; FStr (error_text err)]
  | Ok inst =>
      if decide (wi_CurrentState inst = expected) then passed
      else Errorf_ "testutil: expected state %q for %s/%s, got %q"
             [FStr expected; FStr aggregateType; FStr aggregateID; FStr (wi_CurrentState inst)]
  end.

(** The in-memory event store lists without error. *)
Definition AssertEventCount (w : world) (aggregateType aggregateID : string) (expected : Z) : report :=
  let events := Events.ListByAggregate (w_events w) aggregateType aggregateID in
  if decide (Z.of_nat (length events) = expected) then passed
  else Errorf_ "testutil: expected %d events for %s/%s, got %d"
         [FInt expected; FStr aggregateType; FStr aggregateID; FLen events].

Definition AssertEventChain (w : world) (correlationID : string) (expectedEventTypes : list string) :
    report :=
  let events := Events.ListByCorrelation (w_events w) correlationID in
  if decide (length events ≠ length expectedEventTypes) then
    Fatalf_ "testutil: expected %d events in chain, got %d" [FLen expectedEventTypes; FLen events]
  else
    mkReport
      (omap (λ '(i, (expected, e)),
           if decide (ev_EventType e = expected) then None
           else Some (sprintf "testutil: event[%d] expected type %q, got %q"
                        [FInt (Z.of_nat i); FStr expected; FStr (ev_EventType e)]))
         (imap pair (zip expectedEventTypes events))) false.

(** An assertion passes exactly when what it names is so. *)
Lemma AssertState_passes w aggregateType aggregateID expected :
  AssertState w aggregateType aggregateID expected = passed ↔
  ∃ i, Instances.Get (w_instances w) aggregateType aggregateID = Ok i ∧ wi_CurrentState i = expected.
Proof.
  unfold AssertState. destruct (Instances.Get _ _ _) as [i|e].
  - case_decide; split; [by eexists|done|done|]. by intros (? & [= ->] & ?).
  - split; [done|]. by intros (? & ? & _).
Qed.

Lemma omap_imap_nil {A B} (f : nat → A → option B) (l : list A) :
  omap (λ '(i, x), f i x) (imap pair l) = [] ↔ ∀ i x, l !! i = Some x → f i x = None.
Proof.
  assert (∀ n, omap (λ '(i, x), f i x) (imap (λ i, pair (n + i)) l) = [] ↔
    ∀ i x, l !! i = Some x → f (n + i) x = None) as H; [|apply (H 0)].
  induction l as [|a l IH]; intros n; [by split|]. cbn [imap omap list_omap].
  rewrite (imap_ext _ (λ i, pair (S n + i)) l) by (intros; cbn; f_equal; lia).
  rewrite Nat.add_0_r. split.
  - destruct (f n a) eqn:Hf; [done|]. intros Hl [|i] x; cbn.
    + intros [= <-]. by rewrite Nat.add_0_r.
    + intros Hi. rewrite Nat.add_succ_r. by apply (proj1 (IH (S n)) Hl).
  - intros Hall. pose proof (Hall 0 a eq_refl) as Ha. rewrite Nat.add_0_r in Ha. rewrite Ha.
    apply IH. intros i x Hi. specialize (Hall (S i) x Hi). by rewrite Nat.add_succ_r in Hall.
Qed.

Lemma AssertEventChain_passes w correlationID expected :
  AssertEventChain w correlationID expected = passed ↔
  ev_EventType <$> Events.ListByCorrelation (w_events w) correlationID = expected.
Proof.
  unfold AssertEventChain. set (events := Events.ListByCorrelation _ _). clearbody events.
  case_decide as Hlen.
  - split; [done|]. intros <-. by rewrite length_fmap in Hlen.
  - transitivity (∀ i x, zip expected events !! i = Some x →
      ev_EventType x.2 = x.1).
    + split.
      * intros [= Hm]. intros i [t e] Hi. apply omap_imap_nil with (i := i) (x := (t, e)) in Hm; [|done].
        by case_decide.
      * intros Hall. unfold passed. f_equal. apply omap_imap_nil. intros i [t e] Hi.
        by rewrite decide_True by apply (Hall _ _ Hi).
    + split.
      * revert expected Hlen. induction events as [|e l IH]; intros [|t expected] Hl Hall; [done|done|done|].
        injection Hl as Hl.
        cbn. f_equal; [apply (Hall 0 (t, e) eq_refl)|]. apply IH; [done|]. intros i x Hi.
        by apply (Hall (S i)).
      * intros <- i [t e] Hi. apply lookup_zip_with_Some in Hi as (t' & e' & [= -> ->] & Ht & He).
        rewrite list_lookup_fmap, He in Ht. by injection Ht as <-.
Qed.
