(* ===== verification/Races.v ===== *)
(** * Races: operations interleaved on the in-memory adapters

    Two operations on one order, call by call, in the world of [World.v] and on
    the test kit's engine ([Testutil.v]).  With a clock that moves, the optimistic
    lock lets one of two racing transitions through ([Locking.v] says why).  It
    does not when the clock stands still between the two, nor when both find no
    instance: the in-memory [Create] overwrites the one that is there. *)

From S2P Require Import Prelude Errors Types Hash Validate Compile Builder Spawn Registry Helpers.
From S2P Require Import Effects Memstore Observer SideEffects Executor Dispatcher Parallel.
From S2P Require Import Scheduler Snapshot Firing Transactions Invariant Lifecycle Tracking Locking.
From S2P Require Import Engine Mermaid World Script Programs Testutil.

Section serving.
Context {gr : GoRange} (ids : nat → string) (runner : Runner.activities).

(** The instance store behind [handle_with] is the in-memory one. *)
Lemma handle_with_serves clock c w :
  let '(r, w') := handle_with ids runner clock c w in
  store_answers (w_instances w) c r ∧ w_instances w' = store_after (w_instances w) c.
Proof.
  destruct c; cbn; try done; repeat case_match; try done; simplify_eq/=; try done.
  all: by match goal with H : _ = (_, _) |- _ => rewrite H end.
Qed.

Lemma interleave_served {A} clock (ps : nat → prog A) sched w T ps' w' :
  interleave (handle_with ids runner clock) ps sched w = (T, ps', w') →
  served (w_instances w) T.
Proof.
  revert ps w T. induction sched as [|k sched IH]; intros ps w T; cbn [interleave].
  { by intros [= <- <- <-]. }
  destruct (ps k) as [a|c q]; [apply IH|]. pose proof (handle_with_serves clock c w) as Hh.
  destruct (handle_with ids runner clock c w) as [r w1].
  destruct (interleave _ _ sched w1) as [[T1 ps1] w2] eqn:Hi. intros [= <- <- <-].
  destruct Hh as [Ha Hw]. cbn. split; [done|]. rewrite <-Hw. by eapply IH.
Qed.
End serving.

(** ** Two operations on one order *)

#[local] Existing Instance range_fwd.
#[local] Existing Instance mem_config.

Definition orders : registry := Eval vm_compute in
  match Build orderWorkflow with
  | Some (Ok def) => default Registry.New (fst <$> Register Registry.New def)
  | _ => Registry.New
  end.

Definition attempt (name actorID : string) : prog (result TransitionResult) :=
  Transition "order" "order-1" name actorID None.

Definition no_order : world := fresh_world orders 1000.

Abbreviation answer_with clock := (handle_with serial_id ∅ clock).

(** The order after a refused transition, which has created it. *)
Definition order_created : world := (exec (answer_with None) (attempt "complete" "alice") no_order).2.

Definition racers (k : nat) : prog (result TransitionResult) :=
  if decide (k = 0) then attempt "start_processing" "alice" else attempt "cancel" "bob".

(** The first makes [n] calls, then the second runs, then the first goes on. *)
Definition overtaken (n : nat) : list nat := repeat 0 n ++ repeat 1 40 ++ repeat 0 40.

Definition race (clock : option mem_clock) (n : nat) (w : world) :=
  interleave (answer_with clock) racers (overtaken n) w.

(** How an operation has ended: the state it reports, or its error. *)
Definition ending (p : prog (result TransitionResult)) : option (result string) :=
  match p with
  | Ret (Ok r) => Some (Ok (res_NewState r))
  | Ret (Err e) => Some (Err e)
  | Vis _ _ => None
  end.

(** The endings of both, the state of the order and the log. *)
Definition report (r : interleaving * (nat → prog (result TransitionResult)) * world) :
    option (result string) * option (result string) * result string * list string :=
  let '(_, ps, w) := r in
  (ending (ps 0), ending (ps 1),
   match Instances.Get (w_instances w) "order" "order-1" with
   | Ok i => Ok (wi_CurrentState i) | Err e => Err e end,
   ev_EventType <$> w_events w).

(** The lock works: the overtaken transition is refused and the order stays
    cancelled.  In memory a rollback does nothing, though, and the event of the
    transition that did not happen stays in the log. *)
Theorem overtaken_refused :
  report (race None 5 order_created) =
  (Some (Err (Errorf "flowstep: update instance: %w" [] (Some (Sentinel ErrConcurrentModification)))),
   Some (Ok "CANCELLED"), Ok "CANCELLED", ["OrderCancelled"; "OrderStarted"]).
Proof. vm_compute. reflexivity. Qed.

(** While the clock stands still all versions carry the same time: both
    transitions succeed and the cancelled order is processed after all. *)
Theorem standing_clock_loses_update :
  let clock := Some (Fake FakeClock.NewFakeClock) in
  let w := (exec (answer_with clock) (attempt "complete" "alice") no_order).2 in
  report (race clock 5 w) =
  (Some (Ok "PROCESSING"), Some (Ok "CANCELLED"), Ok "PROCESSING", ["OrderCancelled"; "OrderStarted"]).
Proof. vm_compute. reflexivity. Qed.

(** Two operations that both find no order both create it; the second creation
    replaces what the first operation had made of its own, lock or no lock. *)
Theorem creation_race_loses_update :
  report (race None 5 no_order) =
  (Some (Ok "PROCESSING"), Some (Ok "CANCELLED"), Ok "PROCESSING", ["OrderCancelled"; "OrderStarted"]).
Proof. vm_compute. reflexivity. Qed.

(** ** The interleaved calls are those of the theorem *)

Definition raced : interleaving := (race None 5 order_created).1.1.

(** The cancellation, as it is written. *)
Definition updates_in (T : interleaving) : list (nat * tx * WorkflowInstance) :=
  omap (λ e, match e with
    | (k, ev) => match ev_call ev with InstanceUpdate t i => Some (k, t, i) | _ => None end end) T.

Definition cancelled : WorkflowInstance := Eval vm_compute in
  match updates_in raced with
  | (_, _, i) :: _ => i
  | [] => new_instance (mkCompiledMachine (mkDefinition "" "" 0 ∅ ∅ "" [] []) ∅ ∅ ∅ ∅ "" ∅) "" "" "" "" 0
  end.

Lemma raced_update : raced !! 15 = Some (1, Ev (InstanceUpdate (Some 0) cancelled) None).
Proof. vm_compute. reflexivity. Qed.

Lemma raced_in_progress : in_progress raced.
Proof.
  intros k. unfold raced. destruct (race None 5 order_created) as [[T ps] w] eqn:Hr.
  destruct (prog_runs (ps k) (λ c, (answer_with None c no_order).1)) as (rest & a & Ha).
  exists rest. left. pose proof (runs_project _ _ _ _ _ _ _ _ _ _ Hr Ha) as Hk.
  unfold racers in Hk. case_decide; by eexists (OpTransition _ _ _ _ _), a.
Qed.

Lemma raced_served : served (w_instances order_created) raced.
Proof.
  unfold raced. destruct (race None 5 order_created) as [[T ps] w] eqn:Hr.
  by eapply interleave_served.
Qed.

Lemma raced_storable : Forall (λ e : nat * event, storable (good := λ _, True) e.2) raced.
Proof.
  assert (forallb (λ e : nat * event, match ev_call e.2 with
    | InstanceUpdate _ i => negb (bool_decide (wi_LastReadUpdatedAt i = 0%Z)) | _ => true end) raced = true)
    as Hall by (vm_compute; reflexivity).
  rewrite forallb_forall in Hall. apply Forall_forall. intros [k [c r]] Hin.
  apply list_elem_of_In, Hall in Hin. unfold storable. cbn in *. destruct c; try exact I.
  apply negb_true_iff, bool_decide_eq_false in Hin. exact (conj I Hin).
Qed.

Lemma engine_updates_current_witness :
  let author := after lock_monitor known_nothing (project 1 (take 15 raced)) in
  let s := store_at (w_instances order_created) (take 15 raced) in
  (∃ v, v ∈ kn_read author ∧ based_on v cancelled ∧
     ∀ old, Instances.Get s "order" "order-1" = Ok old → wi_UpdatedAt old = wi_UpdatedAt v) ∧
  ∃ old, Instances.Get s "order" "order-1" = Ok old.
Proof.
  split.
  - exact (proj1 (engine_updates_current (ok := λ _, True) (w_instances order_created) raced
      (take 15 raced) 1 (Some 0) cancelled (drop 16 raced) raced_in_progress I raced_served raced_storable)
      (eq_sym (take_drop_middle _ _ _ raced_update))).
  - eexists. vm_compute. reflexivity.
Defined.
