(* ===== verification/Examples.v ===== *)
(** * Examples: a concrete workflow

    An order workflow with a compound state, a parallel state, tasks, signals
    and history, built with [Builder.v], compiled, registered and run on the
    in-memory world.  The theorems of the other files are applied to it in
    [Witnesses.v]. *)

From S2P Require Import Prelude Errors Types Hash Validate Compile Builder Spawn Registry.
From S2P Require Import Helpers Effects Memstore Observer SideEffects Executor Dispatcher.
From S2P Require Import Parallel Scheduler Snapshot Firing Transactions Invariant World.

#[export] Existing Instance range_fwd | 0.

Module Order.

Definition review_task : TaskDef := mkTaskDef "review" "Review the order" ["approve"; "reject"] 60.

Definition builder : DefBuilder :=
  let b := Define "order" "order_wf" in
  let b := States b [
    Initial "NEW";
    CompoundState "WORK" [InitialChild "DRAFT"];
    State "DRAFT" [Builder.Parent "WORK"; ExitActivityOpt "save"];
    WaitState "REVIEW" [Builder.Parent "WORK"; EntryActivityOpt "notify"];
    Done (Region (Region (ParallelState "SHIP")
      "PICK" [State "PICKING" []; State "PICKED" []])
      "BILL" [State "BILLING" []; State "BILLED" []]);
    Terminal "DONE" []] in
  let b := Builder.Transition b "start" [From ["NEW"]; To "WORK"; Event "Started"] in
  let b := Builder.Transition b "submit"
             [From ["DRAFT"]; To "REVIEW"; Event "Submitted"; EmitTask review_task; Dispatch "mail"] in
  let b := Builder.Transition b "approve"
             [From ["REVIEW"]; To "SHIP"; Event "Approved"; OnTaskCompleted "review"] in
  let b := Builder.Transition b "reject"
             [From ["REVIEW"]; To "DRAFT"; Event "Rejected"; OnTaskCompleted "review"] in
  let b := Builder.Transition b "pick"
             [From ["PICKING"]; To "PICKED"; Event "Picked"; OnSignal "picked"] in
  let b := Builder.Transition b "bill"
             [From ["BILLING"]; To "BILLED"; Event "Billed"; OnSignal "billed"] in
  let b := Builder.Transition b "finish" [From ["SHIP"]; To "DONE"; Event "Finished"] in
  let b := Builder.Transition b "pause" [From ["WORK"]; To "NEW"; Event "Paused"; OnSignal "pause"] in
  Builder.Transition b "resume"
    [From ["NEW"]; To "WORK"; Event "Resumed"; OnSignal "resume"; WithHistory HistoryDeep].

Definition empty_def : WorkflowDef := mkDefinition "" "" 0 ∅ ∅ "" [] [].

Definition def : WorkflowDef := Eval vm_compute in
  match Build builder with Some (Ok d) => d | _ => empty_def end.

Definition empty_machine : CompiledMachine := mkCompiledMachine empty_def ∅ ∅ ∅ ∅ "" ∅.

Definition machine : CompiledMachine := Eval vm_compute in
  match Compile def with Some (Ok cm) => cm | _ => empty_machine end.

Lemma build_ok : Build builder = Some (Ok def).
Proof. vm_compute. reflexivity. Qed.

Lemma compile_ok : Compile def = Some (Ok machine).
Proof. vm_compute. reflexivity. Qed.

Definition registered : registry := Eval vm_compute in
  default New (fst <$> Register New def).

Lemma register_ok : register_all New [def] = Some registered.
Proof. vm_compute. reflexivity. Qed.

(** ** What the theorems promise of it *)

Lemma plain : plain_options builder.
Proof.
  intros so Hso. assert (Forall (λ so, sd_Children (so_def so) = [] ∧
    (sd_IsParallel (so_def so) = true → sd_InitialChild (so_def so) = ""))
    (flattenStates (b_states builder))) as Hall by (repeat constructor; done).
  rewrite Forall_forall in Hall. by apply Hall.
Qed.

Lemma keyed_def : keyed def.
Proof. exact (proj1 (Build_spec builder def build_ok plain)). Qed.

Lemma valid : valid_def def.
Proof. by apply (Build_spec builder def build_ok plain). Qed.

Lemma nested : well_nested def.
Proof. by apply (Build_spec builder def build_ok plain). Qed.

Lemma compiled_machine : compiled machine.
Proof. exact (proj2 (Compile_spec def machine compile_ok)). Qed.

(** A transition stays inside the parallel state [p] when a source is inside it,
    checked by computation: its target is one of [leaves]. *)
Definition stays_inside (cm : CompiledMachine) (p : string) (leaves : list string)
    (tr : TransitionDef) : bool :=
  match tr_Routes tr with [] => true | _ => false end &&
  bool_decide (tr_Target tr ≠ "") &&
  (contains (tr_Sources tr) p ||
   forallb (λ src, negb (contains (ancestry_of (cm_Ancestry cm) src) p) ||
                   contains leaves (tr_Target tr)) (tr_Sources tr)).

Definition rests_inside (cm : CompiledMachine) (p s : string) : bool :=
  match def_States (cm_Definition cm) !! s with
  | Some st => negb (sd_IsCompound st) && contains (ancestry_of (cm_Ancestry cm) s) p
  | None => false
  end.

Lemma stays_inside_target cm p leaves tr t :
  stays_inside cm p leaves tr = true → target_of tr t → t = tr_Target tr ∧ t ≠ "".
Proof.
  intros [[Hr Hne%bool_decide_eq_true]%andb_prop _]%andb_prop Ht.
  destruct (tr_Routes tr) eqn:Hroutes; [|discriminate]. destruct Ht as [[_ ->]|(r & Hin & _)].
  - split; [reflexivity|exact Hne].
  - rewrite Hroutes in Hin. by apply elem_of_nil in Hin.
Qed.

Lemma stays_inside_spec cm p leaves tr src :
  compiled cm → stays_inside cm p leaves tr = true → src ∈ tr_Sources tr → p ∉ tr_Sources tr →
  ancestor (cm_Definition cm) src p → tr_Target tr ∈ leaves.
Proof.
  intros Hcm [_ [Hp%contains_true|Hc]%orb_prop]%andb_prop Hsrc Hno Hanc; [done|].
  rewrite forallb_forall in Hc. specialize (Hc src (proj1 (list_elem_of_In _ _) Hsrc)).
  apply orb_prop in Hc as [Hc%negb_true_iff%contains_false|Hc%contains_true]; [|done].
  by apply (ancestry_elem cm) in Hanc.
Qed.

Lemma rests_inside_spec cm p s :
  compiled cm → rests_inside cm p s = true → settled cm s ∧ ancestor (cm_Definition cm) s p.
Proof.
  unfold rests_inside. intros Hcm H. destruct (def_States (cm_Definition cm) !! s) as [st|] eqn:Hst;
    [|discriminate]. apply andb_prop in H as [Hc%negb_true_iff Ha%contains_true].
  split; [|by apply (ancestry_elem cm)]. exists st. split; [done|]. congruence.
Qed.

(** A machine whose only parallel state is [p] is sane when it passes the checks. *)
Lemma sane_by_check cm p leaves :
  compiled cm → valid_def (cm_Definition cm) → well_nested (cm_Definition cm) →
  keyed (cm_Definition cm) → def_States (cm_Definition cm) !! "" = None →
  is_Some (def_States (cm_Definition cm) !! def_InitialState (cm_Definition cm)) →
  forallb (λ '(q, _), bool_decide (q = p)) (map_to_list (cm_RegionIndex cm)) = true →
  forallb (λ '(_, tr), stays_inside cm p leaves tr)
    (map_to_list (def_Transitions (cm_Definition cm))) = true →
  forallb (rests_inside cm p) leaves = true → sane cm.
Proof.
  intros Hc Hv Hn Hk Hne Hi Hpar Htr Hl. rewrite !forallb_forall in *.
  assert (∀ n tr, def_Transitions (cm_Definition cm) !! n = Some tr →
    stays_inside cm p leaves tr = true) as Hstay.
  { intros n tr H. apply (Htr (n, tr)), list_elem_of_In. by apply elem_of_map_to_list. }
  constructor; try done.
  - intros n tr t H. apply stays_inside_target with cm p leaves. by apply (Hstay n).
  - intros n tr t src q H Ht Hsrc [cs Hq]%bool_decide_eq_true Hanc Hno.
    assert (q = p) as ->.
    { apply (bool_decide_eq_true_1 (q = p)), (Hpar (q, cs)), list_elem_of_In.
      by apply elem_of_map_to_list. }
    destruct (stays_inside_target cm p leaves tr t (Hstay n tr H) Ht) as [-> _].
    apply rests_inside_spec; [done|]. apply Hl, list_elem_of_In.
    by apply (stays_inside_spec cm p leaves tr src Hc (Hstay n tr H)).
Qed.

Lemma sane_machine : sane machine.
Proof.
  apply (sane_by_check machine "SHIP" ["PICKING"; "PICKED"; "BILLING"; "BILLED"]
    compiled_machine valid nested keyed_def).
  - vm_compute. reflexivity.
  - eexists. vm_compute. reflexivity.
  - vm_compute. reflexivity.
  - vm_compute. reflexivity.
  - vm_compute. reflexivity.
Qed.

(** The registry of this machine alone. *)
Definition machines (a : string) (v : Z) : option CompiledMachine :=
  if decide (a = "order" ∧ (v = 0%Z ∨ v = def_Version def)) then Some machine else None.

Lemma machines_sane : machines_ok machines.
Proof.
  constructor; unfold machines.
  - intros a v cm. case_decide; [|done]. intros [= <-]. exact sane_machine.
  - intros a cm. case_decide as H; [|done]. intros [= <-]. destruct H as [-> _].
    rewrite decide_True; [done|]. split; [done|by right].
Qed.

(** Identifiers, activities and a side effect for the in-memory world. *)
Definition ids (n : nat) : string := "id-" +:+ pretty.pretty (N.of_nat n).

Definition runner : Runner.activities :=
  Runner.Register (Runner.Register (Runner.Register ∅ "save" (λ _, None)) "notify" (λ _, None))
    "mail" (λ _, None).

Definition user_fn : result value := Ok (VInt 42).

Definition w0 : world := fresh_world registered 100.

#[export] Existing Instance mem_config | 0.

Abbreviation go p w := (run ids runner user_fn p w).
Abbreviation trace p w := (trace_of (handle ids runner user_fn) p w).

(** The world after the order has been started, submitted, and approved. *)
Definition w_started : world := (go (Transition "order" "1" "start" "alice" None) w0).2.
Definition w_submitted : world := (go (Transition "order" "1" "submit" "alice" None) w_started).2.
Definition w_shipping : world := (go (Transition "order" "1" "approve" "bob" None) w_submitted).2.

Definition state_in (w : world) : option (string * gomap string) :=
  match Instances.Get (w_instances w) "order" "1" with
  | Ok i => Some (wi_CurrentState i, wi_ActiveInParallel i)
  | Err _ => None
  end.

Example started_state : state_in w_started = Some ("DRAFT", None).
Proof. vm_compute. reflexivity. Qed.

Example submitted_state : state_in w_submitted = Some ("REVIEW", None).
Proof. vm_compute. reflexivity. Qed.

Example shipping_state :
  state_in w_shipping = Some ("SHIP", Some {[ "PICK" := "PICKING"; "BILL" := "BILLING" ]}).
Proof. vm_compute. reflexivity. Qed.

Example picked_state :
  state_in (go (Signal (mkSignalInput "order" "1" "picked" None "carol")) w_shipping).2 =
  Some ("SHIP", Some {[ "PICK" := "PICKED"; "BILL" := "BILLING" ]}).
Proof. vm_compute. reflexivity. Qed.

(** Bubbling to the compound state, then resuming by deep history. *)
Example resumed_state :
  state_in (go (Signal (mkSignalInput "order" "1" "resume" None "carol"))
    (go (Transition "order" "1" "pause" "carol" None) w_submitted).2).2 = Some ("REVIEW", None).
Proof. vm_compute. reflexivity. Qed.

End Order.
