(* ===== verification/Witnesses.v ===== *)
(** * Witnesses: the theorems at work

    Each theorem with hypotheses is applied to the order workflow of
    [Examples.v], or to a small definition of its own, with its hypotheses
    discharged by computation. *)

From S2P Require Import Prelude Errors Types Hash Validate Compile Builder Spawn Registry.
From S2P Require Import Helpers Effects Memstore Observer SideEffects Executor Dispatcher.
From S2P Require Import Parallel Scheduler Snapshot Firing Transactions Invariant Lifecycle.
From S2P Require Import Database World Examples.
Import Order.

(** The order has been started, by this operation, in the world [w0]. *)
Definition start_op : Operation := OpTransition "order" "1" "start" "alice" None.
Definition start_trace : list event := trace (run_operation start_op) w0.
Definition start_reply : result TransitionResult := (go (run_operation start_op) w0).1.

Lemma start_runs : runs (run_operation start_op) start_trace start_reply.
Proof. exact (trace_of_runs (handle ids runner user_fn) (run_operation start_op) w0). Qed.

Definition is_ok {A} (r : result A) : bool := match r with Ok _ => true | Err _ => false end.

(** ** Operations *)

Lemma operation_atomic_witness :
  is_ok start_reply = true ∧
  tx_open (after tx_monitor tx_initial start_trace) = None ∧
  committed_by start_reply (tx_committed (after tx_monitor tx_initial start_trace)).
Proof.
  split; [vm_compute; reflexivity|].
  exact (proj2 (operation_atomic start_op start_trace start_reply start_runs)).
Defined.

Definition empty_database : database := mkDatabase (mkTables ∅ [] ∅) None.


Lemma start_considered : considered (instance_monitor machines) () start_trace.
Proof. vm_compute. repeat split. Qed.


Lemma operation_in_flight_witness :
  is_ok start_reply = true ∧ allowed flight_monitor (on_ground 0) start_trace ∧
  after flight_monitor (on_ground 0) start_trace = on_ground 0.
Proof.
  split; [vm_compute; reflexivity|].
  destruct (operation_in_flight start_op 0 start_trace start_reply start_runs) as (Ha & Hn & _).
  exact (conj Ha Hn).
Defined.

(** ** One transition *)

(** A new instance, and the compiled transition [start]. *)
Definition fresh : WorkflowInstance := new_instance machine "order" "1" "i" "c" 5.

Definition no_transition : CompiledTransition := compileTransition
  (mkTransitionDef "" [] "" [] "" [] [] None None None "" "" false "" 0).

Definition start_ct : CompiledTransition :=
  Eval vm_compute in default no_transition (find_compiled machine "NEW" "start").

Lemma validateTransition_accepts_witness :
  wi_CurrentState fresh = "NEW" ∧ fires machine fresh "start" None start_ct "WORK".
Proof.
  split; [vm_compute; reflexivity|].
  apply (proj1 (validateTransition_accepts machine fresh "start" None [] start_ct "WORK"
    compiled_machine keyed_def)).
  vm_compute. split; reflexivity.
Defined.

Definition approve_error : error :=
  Errorf "flowstep: transition %q not valid from state %q (expected one of %v): %w"
    [FStr "approve"; FStr "NEW"; FStrs ["REVIEW"]] (Some (Sentinel ErrInvalidTransition)).

Lemma validateTransition_refuses_witness :
  refused machine fresh "approve" None approve_error.
Proof.
  apply (validateTransition_refuses machine fresh "approve" None [] approve_error
    compiled_machine keyed_def).
  vm_compute. split; reflexivity.
Defined.

(** The instance the in-memory store holds after the start. *)
Definition started_instance : WorkflowInstance :=
  Eval vm_compute in
  match Instances.Get (w_instances w_started) "order" "1" with Ok i => i | Err _ => fresh end.

Definition submit_ct : CompiledTransition :=
  Eval vm_compute in default no_transition (find_compiled machine "DRAFT" "submit").

Lemma activities_of_runner : activities_succeed runner.
Proof.
  intros name f input. unfold runner, Runner.Resolve, Runner.Register.
  rewrite !lookup_insert_Some, lookup_empty. intros [[_ <-]|[_ [[_ <-]|[_ [[_ <-]|[_ [=]]]]]]]; reflexivity.
Qed.

Lemma submit_fires : fires machine started_instance "submit" None submit_ct "REVIEW".
Proof.
  apply (proj1 (validateTransition_ok_spec machine started_instance "submit" None [] submit_ct
    "REVIEW" compiled_machine keyed_def)).
  vm_compute. split; reflexivity.
Qed.

Lemma memory_transition_witness :
  ∃ res w', go (Transition "order" "1" "submit" "alice" None) w_started = (Ok res, w') ∧
    res_NewState res = "REVIEW" ∧
    Instances.Get (w_instances w') "order" "1" = Ok (res_Instance res) ∧
    w_events w' = w_events w_started ++ [res_Event res] ∧ w_flight w' = w_flight w_started.
Proof.
  assert (resolve_target machine started_instance (tr_HistoryMode (ct_Def submit_ct)) "REVIEW" =
    "REVIEW") as Ht by (vm_compute; reflexivity).
  destruct (memory_transition ids runner user_fn w_started "order" "1" "submit" "alice" None
    started_instance machine submit_ct "REVIEW") as (res & w' & Hrun & Hstate & Hrest);
    [vm_compute; reflexivity|exact activities_of_runner|vm_compute; reflexivity..
    |exact compiled_machine|exact keyed_def|vm_compute; reflexivity|exact submit_fires|].
  exists res, w'. rewrite Ht in Hstate. exact (conj Hrun (conj Hstate Hrest)).
Defined.

(** ** The hierarchy *)


(** Leaving [REVIEW] for [NEW] records it as the history of [WORK]. *)
Lemma recordHistory_path_witness :
  let i' := recordHistory fresh "REVIEW"
              (computeExitSequence "REVIEW" "" (cm_Ancestry machine)) def in
  gm_get (wi_ShallowHistory i') "WORK" = Some "REVIEW" ∧
  gm_get (wi_DeepHistory i') "WORK" = Some "REVIEW".
Proof.
  refine (proj1 (recordHistory_path machine "REVIEW" "" fresh compiled_machine _)
    [] "REVIEW" "WORK" [] _ _).
  - discriminate.
  - vm_compute. reflexivity.
  - vm_compute. reflexivity.
Defined.

Lemma parallel_entry_exit_witness :
  regions_of machine "SHIP" = ["BILL"; "PICK"] ∧
  computeParallelExitSequence (enterParallelRegions fresh machine "SHIP") "SHIP" =
    ["BILLING"; "BILL"; "PICKING"; "PICK"; "SHIP"].
Proof.
  assert (regions_of machine "SHIP" = ["BILL"; "PICK"]) as Hr by (vm_compute; reflexivity).
  split; [exact Hr|].
  rewrite (proj2 (parallel_entry_exit machine fresh "" "SHIP" compiled_machine valid nested
    ltac:(rewrite Hr; apply (bool_decide_unpack _); vm_compute; exact I))).
  vm_compute. reflexivity.
Defined.

(** ** Compilation, validation, registration *)

Lemma Compile_correct_witness :
  Compile def = Some (Ok machine) ∧ cm_Definition machine = def ∧ compiled machine.
Proof. exact (conj compile_ok (Compile_correct def machine compile_ok)). Defined.

Lemma acyclic_def : acyclic def.
Proof.
  intros n. exists (ancestry_of (cm_Ancestry machine) n). exact (co_ancestry _ compiled_machine n).
Qed.

Lemma Compile_total_witness : well_nested def ∧ ∃ cm, Compile def = Some (Ok cm).
Proof. exact (conj nested (Compile_total def nested acyclic_def)). Defined.

Lemma LCA_lowest_witness :
  LCA machine "PICKING" "BILLED" = Some "SHIP" ∧ ancestor def "PICKING" "SHIP" ∧
  ancestor def "BILLED" "SHIP".
Proof.
  assert (LCA machine "PICKING" "BILLED" = Some "SHIP") as H by (vm_compute; reflexivity).
  pose proof (LCA_lowest machine "PICKING" "BILLED" compiled_machine) as Hl. rewrite H in Hl.
  destruct Hl as (Ha & Hb & _). exact (conj H (conj Ha Hb)).
Defined.

Lemma registered_ok : Register New def = Some (registered, None).
Proof. vm_compute. reflexivity. Qed.

Lemma Register_correct_witness :
  registry_ok registered ∧
  ∃ cm, lookup2 (rg_compiled registered) "order" 1 = Some cm ∧
    cm_DefinitionHash cm = HashDefinition def.
Proof.
  destruct (Register_correct New def registered None registry_ok_New registered_ok)
    as (Hok & (cm & Hcm & Hhash & _) & _).
  exact (conj Hok (ex_intro _ cm (conj Hcm Hhash))).
Defined.

Lemma Register_answers_witness : ∃ r e, Register New def = Some (r, e).
Proof.
  destruct (Register_answers New def valid nested acyclic_def) as (r & e & H & _).
  exact (ex_intro _ r (ex_intro _ e H)).
Defined.

Lemma compiledFor_registered_witness :
  compiledFor registered "order" 0 = Some machine ∧ compiled machine ∧ valid_def def.
Proof.
  assert (compiledFor registered "order" 0 = Some machine) as H by (vm_compute; reflexivity).
  destruct (compiledFor_registered [def] registered "order" 0 machine register_ok H)
    as (Hc & Hv & _).
  exact (conj H (conj Hc Hv)).
Defined.

(** The same version with one transition less. *)
Definition revised : WorkflowDef :=
  Eval vm_compute in def <| def_Transitions := delete "pause" (def_Transitions def) |>.

Definition reregistered : registry := Eval vm_compute in
  default New (fst <$> Register registered revised).

Lemma Register_stale_latest_witness :
  (∃ cm, compiledFor reregistered "order" 1 = Some cm ∧ cm_Definition cm = revised) ∧
  compiledFor reregistered "order" 0 = Some machine.
Proof.
  apply (Register_stale_latest registered revised reregistered machine machine);
    [vm_compute; reflexivity|discriminate|vm_compute; reflexivity| |vm_compute; reflexivity|].
  - apply (bool_decide_unpack _). vm_compute. exact I.
  - vm_compute. discriminate.
Defined.

Lemma Build_correct_witness :
  Build builder = Some (Ok def) ∧ valid_def def ∧ well_nested def.
Proof.
  exact (conj build_ok (proj2 (proj2 (Build_correct builder def build_ok plain)) eq_refl)).
Defined.

(** Two transitions of one name. *)
Definition twice : DefBuilder :=
  Builder.Transition (Builder.Transition (Define "order" "order_wf")
    "go" [From ["A"]; To "B"]) "go" [From ["B"]; To "A"].

Lemma Build_duplicates_witness :
  ∃ n, Build twice = Some (Err (duplicate_error n (Sentinel ErrDuplicateTransition))).
Proof.
  refine (proj2 (Build_duplicates twice _) _).
  - repeat constructor.
  - intros H. apply NoDup_cons in H as [H _]. apply H. left.
Defined.

Definition nothing : WorkflowDef := mkDefinition "order" "order_wf" 1 ∅ ∅ "" [] [].

Lemma Validate_error_truthful_witness :
  ∃ s d, Validate nothing = Some (Some (ValidationError s d)) ∧ violation nothing s.
Proof.
  assert (∃ e, Validate nothing = Some (Some e)) as [e He] by (eexists; vm_compute; reflexivity).
  destruct (Validate_error_truthful nothing e He) as (s & d & Hs & Hv).
  exists s, d. rewrite Hs in He. exact (conj He Hv).
Defined.

(** [X] and [Y] each claim the other as parent. *)
Definition named (n : string) : StateDef := StateDef_zero <| sd_Name := n |>.

Definition entangled : WorkflowDef :=
  mkDefinition "order" "order_wf" 1
    (list_to_map [
      ("I", (named "I") <| sd_IsInitial := true |>);
      ("T", (named "T") <| sd_IsTerminal := true |>);
      ("X", (named "X") <| sd_Parent := "Y" |> <| sd_IsCompound := true |>
                        <| sd_InitialChild := "Y" |> <| sd_Children := ["Y"; "Z"] |>);
      ("Y", (named "Y") <| sd_Parent := "X" |> <| sd_IsCompound := true |>
                        <| sd_InitialChild := "X" |> <| sd_Children := ["X"] |>);
      ("Z", (named "Z") <| sd_Parent := "X" |>)])
    {[ "end" := mkTransitionDef "end" ["I"] "T" [] "Ended" [] [] None None None "" "" false "" 0 ]}
    "I" ["T"] [].

Lemma Validate_diverges_witness :
  Validate entangled = None ∧
  ∀ fuel, deadEnds_loop fuel entangled (range 10 (def_States entangled)) = None.
Proof.
  assert (Validate entangled = None) as H by (vm_compute; reflexivity).
  exact (conj H (Validate_diverges entangled H)).
Defined.

(** ** Children, side effects, snapshots *)

Definition sibling (id status : string) : ChildRelation :=
  mkChildRelation id "g" "order_wf" "order" "1" "part" "part" id "c" status "" "ANY" 1 None.

Definition siblings : list ChildRelation :=
  [sibling "a" ChildStatusActive; sibling "b" ChildStatusCompleted].


Lemma SideEffect_stores_witness :
  let p := SideEffect "order" "1" "quote" in
  let s := after tx_monitor tx_initial (trace p w_started) in
  (go p w_started).1 = Ok (VInt 42) ∧
  ∃ e, tx_committed s = [[WEvent e]] ∧ ParseSideEffect e = Some ("quote", VInt 42).
Proof.
  intros p s. assert ((go p w_started).1 = Ok (VInt 42)) as Hr by (vm_compute; reflexivity).
  pose proof (trace_of_runs (handle ids runner user_fn) p w_started) as H. unfold run in Hr.
  rewrite Hr in H. exact (conj Hr (proj2 (SideEffect_stores "order" "1" "quote" _ _ H))).
Defined.

(** The order as shipped, captured and restored elsewhere. *)
Definition snap : Snapshot := Eval vm_compute in
  match (go (takeSnapshot "order" "1") w_shipping).1 with
  | Ok s => s | Err _ => capture machine fresh 0 end.

Lemma snap_taken : (exec (handle ids runner user_fn) (takeSnapshot "order" "1") w_shipping).1 = Ok snap.
Proof. vm_compute. reflexivity. Qed.

Lemma snapshot_round_trip_witness :
  sn_CurrentState snap = "SHIP" ∧ ∃ instance, ∀ now, rebuilt snap now = reborn instance now.
Proof.
  pose proof (trace_of_runs (handle ids runner user_fn) (takeSnapshot "order" "1") w_shipping) as H.
  rewrite snap_taken in H.
  destruct (snapshot_round_trip "order" "1" _ snap H) as (instance & cm & _ & _ & _ & Hr).
  exact (conj eq_refl (ex_intro _ instance Hr)).
Defined.


(** ** Stores *)

Definition writer (read written : time) (state : string) : WorkflowInstance :=
  fresh <| wi_LastReadUpdatedAt := read |> <| wi_UpdatedAt := written |>
        <| wi_CurrentState := state |>.


Definition task : PendingTask := pending_task machine fresh "t" review_task 9.

Lemma Complete_once_witness :
  ∃ s1, Tasks.Complete 10 {[ "t" := task ]} "t" "approve" "bob" = (s1, None) ∧
    ∃ e, Tasks.Complete 11 s1 "t" "reject" "eve" = (s1, Some e) ∧
      errors_Is e ErrTaskAlreadyCompleted = true.
Proof.
  destruct (Complete_once {[ "t" := task ]} "t" task 10 "approve" "bob")
    as (s1 & task1 & Hc & _ & _ & _ & _ & Hagain & _); [reflexivity|discriminate|].
  exact (ex_intro _ s1 (conj Hc (Hagain 11%Z "reject" "eve"))).
Defined.
