(* ===== verification/Cases.v ===== *)
(** * Cases: the order workflow in a parallel state, drawn, and shut down

    Witnesses of the theorems of [Regions.v], [Mermaid.v], [Goroutines.v],
    [Shutdown.v], [Sqlite.v], [Pgx.v], [Dynamo.v] and [Queues.v]. *)

From S2P Require Import Prelude Floats Errors Types Hash Validate Compile Builder Spawn Registry.
From S2P Require Import Helpers Effects Memstore Observer SideEffects Executor Dispatcher.
From S2P Require Import Parallel Scheduler Snapshot Firing Transactions Invariant Lifecycle.
From S2P Require Import Regions Shutdown Mermaid Goroutines Rfc3339 Json Sql InstanceRows Sqlite Pgx.
From S2P Require Import Dynamo Queues.
From S2P Require Import World Examples Witnesses.
Import Order.

(** ** Regions *)

(** The order as it is shipped: picking and billing. *)
Definition shipped : WorkflowInstance := Eval vm_compute in
  match Instances.Get (w_instances w_shipping) "order" "1" with Ok i => i | Err _ => fresh end.

Definition pick : TransitionDef := Eval vm_compute in
  default (ct_Def no_transition) (def_Transitions def !! "pick").

Definition pick_collection : prog (result (list parallelCandidate)) :=
  collectParallelCandidates machine shipped "SHIP" "pick" None.

Definition picking : list parallelCandidate := Eval vm_compute in
  match (go pick_collection w_shipping).1 with Ok l => l | Err _ => [] end.

Lemma pick_collected : (exec (handle ids runner user_fn) pick_collection w_shipping).1 = Ok picking.
Proof. vm_compute. reflexivity. Qed.

Lemma pick_found : def_Transitions (cm_Definition machine) !! "pick" = Some pick.
Proof. vm_compute. reflexivity. Qed.

Lemma picking_regions : pc_region <$> picking = ["PICK"].
Proof. vm_compute. reflexivity. Qed.

Lemma collectParallelCandidates_exact_witness :
  pc_region <$> picking = ["PICK"] ∧
  ∀ c, c ∈ picking ↔ region_fires machine shipped "SHIP" None pick c.
Proof.
  pose proof (trace_of_runs (handle ids runner user_fn) pick_collection w_shipping) as H.
  rewrite pick_collected in H.
  assert ("" ∉ tr_Sources pick) as Hne by (apply contains_false; vm_compute; reflexivity).
  pose proof (collectParallelCandidates_exact machine shipped "SHIP" "pick" None pick _ _
    compiled_machine keyed_def pick_found Hne H) as (_ & Hc & _).
  exact (conj picking_regions Hc).
Defined.

Definition pick_commit : prog (result (DomainEvent * WorkflowInstance)) :=
  commitParallelIntra machine shipped picking "SHIP" "pick" "carol" None.

Definition picked : DomainEvent * WorkflowInstance := Eval vm_compute in
  match (go pick_commit w_shipping).1 with
  | Ok r => r
  | Err _ => (transition_event machine fresh "" "" "" "" None 0, fresh)
  end.

Lemma pick_committed : (exec (handle ids runner user_fn) pick_commit w_shipping).1 = Ok (picked.1, picked.2).
Proof. vm_compute. reflexivity. Qed.


(** ** The diagram *)

Lemma tidy_def : tidy def.
Proof. exact (Build_draws_tidy range_fwd builder def build_ok plain eq_refl acyclic_def). Qed.


Lemma mermaidTransitionScope_tightest_witness :
  encloses def pick "PICK" ∧ ∀ m, encloses def pick m → in_subtree def m "PICK".
Proof.
  destruct (mermaidTransitionScope_tightest range_fwd def pick tidy_def) as (m & Hm & [He|[-> _]]).
  - assert (mermaidTransitionScope (mermaid_fuel def) pick def = Some "PICK") as H
      by (vm_compute; reflexivity).
    rewrite H in Hm. injection Hm as <-. exact He.
  - exfalso. vm_compute in Hm. discriminate.
Defined.

(** ** Goroutines *)

(** Activities are their names and may return anything. *)
Definition anything (a : string) (input : ActivityInput) (err : option error) : Prop := True.

Definition mail : ActivityInvocation :=
  mkActivityInvocation "m" "mail" "order_wf" "order" "1" "c" FireAndForget
    (mkActivityInput "order_wf" "order" "1" "c" None 0 "submit" "DRAFT" "e")
    (Some (mkRetryPolicy 3 1000 8000 (ratio 3 2))) None 0 ActivityStatusScheduled None 0 3 None 0 None None.

Definition failure : error := Errorf "no route to host" [] None.

Definition mailing : goroutine := mkGoroutine mail "mail".

Definition mail_actions : list action :=
  [Registered "mail"; Dispatched mail None; Executed mailing (Some failure); Left].

Definition mail_runner : @Goroutines.runner string :=
  left_group (executed (Dispatch (Register id New "mail") mail).1 0 mailing (Some failure)).

Lemma mail_steps : steps id anything mail_actions mail_runner.
Proof.
  assert (steps id anything [Registered "mail"] (Register id New "mail")) as H1.
  { apply (steps_snoc _ _ [] New). - constructor. - constructor. }
  assert (steps id anything [Registered "mail"; Dispatched mail None]
    (Dispatch (Register id New "mail") mail).1) as H2.
  { apply (steps_snoc _ _ [Registered "mail"] _ _ _ H1). constructor. vm_compute. reflexivity. }
  assert (steps id anything [Registered "mail"; Dispatched mail None; Executed mailing (Some failure)]
    (executed (Dispatch (Register id New "mail") mail).1 0 mailing (Some failure))) as H3.
  { apply (steps_snoc _ _ [Registered "mail"; Dispatched mail None] _ _ _ H2).
    constructor; [vm_compute; reflexivity|exact I]. }
  apply (steps_snoc _ _ [Registered "mail"; Dispatched mail None; Executed mailing (Some failure)] _ _ _ H3).
  constructor. vm_compute. discriminate.
Qed.


Lemma Wait_returns_witness :
  ∃ tr r, steps id anything ([Registered "mail"; Dispatched mail None] ++ tr) r ∧ Wait r ∧
    accepted tr = [].
Proof.
  apply (Wait_returns id anything [Registered "mail"; Dispatched mail None]
    (Dispatch (Register id New "mail") mail).1).
  - intros a input. exists None. exact I.
  - apply (steps_snoc _ _ [Registered "mail"] (Register id New "mail")).
    + apply (steps_snoc _ _ [] New); constructor.
    + constructor. vm_compute. reflexivity.
Defined.

(** ** Shutdown *)

(** One operation has been started and not run yet when [Shutdown] is called. *)
Definition waiting : system := mkSystem true 0 Waiting [run_operation start_op].

Lemma waiting_reached e : rtc (Shutdown.step e) initial waiting.
Proof.
  eapply rtc_l; [exact (step_start e initial start_op)|].
  eapply rtc_l; [apply step_shutdown; reflexivity|]. apply rtc_refl.
Qed.

Lemma waiting_rests p : p ∈ sys_threads waiting → at_rest p.
Proof. intros ->%list_elem_of_singleton. right. reflexivity. Qed.

Lemma Shutdown_waits_witness :
  sys_flight waiting = 0 ∧
  ∀ s' p, rtc (Shutdown.step failure) waiting s' → p ∈ sys_threads s' → at_rest p.
Proof.
  split; [reflexivity|].
  apply (proj2 (Shutdown_waits failure waiting (waiting_reached failure) eq_refl eq_refl)).
  intros p [H|H]%waiting_rests Hp; unfold poised in Hp; rewrite H in Hp; discriminate.
Defined.

Definition is_load (e : event) : bool := match ev_call e with ShutdownLoad => true | _ => false end.

Lemma start_trace_head : head start_trace = Some (Ev ShutdownLoad false).
Proof. vm_compute. reflexivity. Qed.

Lemma start_trace_loads : forallb (λ e, negb (is_load e)) (tail start_trace) = true.
Proof. vm_compute. reflexivity. Qed.

Lemma Shutdown_race_witness :
  ∃ p n, runs p (tail start_trace) start_reply ∧
    rtc (Shutdown.step failure) initial (mkSystem true 0 (Returned None) [p]) ∧
    rtc (Shutdown.step failure) (mkSystem true 0 (Returned None) [p])
      (mkSystem true n (Returned None) [Ret start_reply]).
Proof.
  apply (Shutdown_race failure start_op (tail start_trace) start_reply).
  - pose proof start_runs as H. pose proof start_trace_head as Hh.
    destruct start_trace as [|e t]; [discriminate|]. injection Hh as ->. exact H.
  - pose proof start_trace_loads as H. rewrite forallb_forall in H.
    intros Hin%list_elem_of_In%H. discriminate.
Defined.

(** ** Databases *)

Definition refused : error := Errorf "UNIQUE constraint failed" [] None.

Definition driver : SqlDriver := {| unique_violation := refused |}.

(** A driver of PostgreSQL that truncates times. *)
#[refine] Definition truncating : PgxDriver := {|
  scan_text := λ s, match s with Some s => Ok s | None => Err (Errorf "cannot scan NULL into *string" [] None) end;
  to_micro := λ t, (t / 1000)%Z |}.
Proof.
  - reflexivity.
  - eexists. reflexivity.
  - intros m. rewrite Z.mul_comm. by apply Z.div_mul.
Defined.

(** An instance that was read and is written back at a later time. *)
Definition read_at (t : time) : WorkflowInstance :=
  fresh <| wi_CreatedAt := 5000%Z |> <| wi_UpdatedAt := (t + 1000)%Z |> <| wi_LastReadUpdatedAt := t |>.

Definition not_found : error := Sentinel ErrInstanceNotFound.

Definition sqlite_created : SqliteInstances.table := Eval vm_compute in
  (SqliteInstances.Create (H := driver) ∅ (read_at 5000)).1.

Lemma sqlite_created_by : SqliteInstances.Create (H := driver) ∅ (read_at 5000) = (sqlite_created, None).
Proof. vm_compute. reflexivity. Qed.

Lemma timely_read_at : Sqlite.timely (read_at 5000) ∧ Sqlite.timely (read_at 6000).
Proof. unfold Sqlite.timely, readable. cbn. unfold ns_per_day, ns_per_second. lia. Qed.

(** What one update left, the next may write over; a second writer is refused. *)
Lemma sqlite_implements_contract_witness :
  SqliteInstances.Get (gr := range_fwd) not_found sqlite_created "order" "1" =
    Ok (instance_read (read_at 5000)) ∧
  (∃ s, SqliteInstances.Update sqlite_created (read_at 6000) = (s, None)) ∧
  ∃ e, SqliteInstances.Update sqlite_created (read_at 5000) = (sqlite_created, Some e) ∧
    errors_Is e ErrConcurrentModification = true.
Proof.
  destruct (sqlite_implements_contract (gr := range_fwd) (driver := driver) not_found) as [H0 laws].
  pose proof (create_ok (InstanceStoreLaws := laws) _ _ _ H0 (proj1 timely_read_at) sqlite_created_by) as Hok.
  pose proof (get_create (InstanceStoreLaws := laws) _ _ _ H0 (proj1 timely_read_at) sqlite_created_by) as Hget.
  split; [exact Hget|]. split.
  - exact (update_accepted (InstanceStoreLaws := laws) _ (read_at 6000) _ Hok (proj2 timely_read_at)
      Hget eq_refl).
  - exact (update_conflict (InstanceStoreLaws := laws) _ (read_at 5000) _ Hok (proj1 timely_read_at)
      Hget ltac:(discriminate) ltac:(discriminate)).
Defined.

Definition pgx_created : PgxInstances.table := Eval vm_compute in
  (PgxInstances.Create (driver := driver) (pgx := truncating) PgxTx ∅ (read_at 5000)).1.

Lemma pgx_created_by :
  PgxInstances.Create (driver := driver) (pgx := truncating) PgxTx ∅ (read_at 5000) = (pgx_created, None).
Proof. vm_compute. reflexivity. Qed.

Lemma micro_read_at :
  micro_read (pgx := truncating) (read_at 5000) ∧ micro_read (pgx := truncating) (read_at 6000).
Proof. split; vm_compute; reflexivity. Qed.

Lemma pgx_implements_contract_witness :
  PgxInstances.Get (gr := range_fwd) not_found pgx_created "order" "1" =
    Ok (pgx_read (pgx := truncating) (read_at 5000)) ∧
  (∃ s, PgxInstances.Update (pgx := truncating) PgxTx pgx_created (read_at 6000) = (s, None)) ∧
  ∃ e, PgxInstances.Update (pgx := truncating) PgxTx pgx_created (read_at 5000) = (pgx_created, Some e) ∧
    errors_Is e ErrConcurrentModification = true.
Proof.
  destruct (pgx_implements_contract (gr := range_fwd) (driver := driver) (pgx := truncating) PgxTx
    not_found) as [H0 laws].
  pose proof (create_ok (InstanceStoreLaws := laws) _ _ _ H0 (proj1 micro_read_at) pgx_created_by) as Hok.
  pose proof (get_create (InstanceStoreLaws := laws) _ _ _ H0 (proj1 micro_read_at) pgx_created_by) as Hget.
  split; [exact Hget|]. split.
  - exact (update_accepted (InstanceStoreLaws := laws) _ (read_at 6000) _ Hok (proj2 micro_read_at)
      Hget eq_refl).
  - exact (update_conflict (InstanceStoreLaws := laws) _ (read_at 5000) _ Hok (proj1 micro_read_at)
      Hget ltac:(discriminate) ltac:(discriminate)).
Defined.

Definition pgx_task_created : PgxTasks.table := Eval vm_compute in
  (PgxTasks.Create (driver := driver) (pgx := truncating) NilTx ∅ task).1.

Definition pgx_task_completed : PgxTasks.table := Eval vm_compute in
  (PgxTasks.Complete 7 NilTx pgx_task_created "t" "approve" "bob").1.

Lemma pgx_finished_readable_witness :
  PgxTasks.Get (gr := range_fwd) (pgx := truncating) not_found pgx_task_completed "t" =
    Ok (task_read (pgx := truncating) task "approve" "bob").
Proof.
  apply (proj1 (pgx_finished_readable (gr := range_fwd) (driver := driver) (pgx := truncating))
    7%Z NilTx NilTx ∅ task pgx_task_created pgx_task_completed).
  - intros k r H. rewrite lookup_empty in H. discriminate.
  - vm_compute. reflexivity.
  - vm_compute. reflexivity.
Defined.

(** ** A DynamoDB *)

Definition failed_check : error := Errorf "ConditionalCheckFailedException" [] None.

(** Equality of two texts, the only condition the stores send. *)
Definition same_text (c : condition) (it : option item) : bool :=
  match ExpressionAttributeValues c !! ":oldUpdatedAt", it ≫= lookup "UpdatedAt" with
  | Some (JStr a), Some (JStr b) => bool_decide (a = b)
  | _, _ => false
  end.

Definition fits (d : gmap (string * string) item) (p : Put) : bool :=
  match put_Condition p with None => true | Some c => same_text c (d !! put_key p) end.

Definition ddb : DynamoDB := {|
  db := gmap (string * string) item;
  GetItem d k := d !! k;
  PutItem d p := if fits d p then inl (<[put_key p := put_Item p]> d) else inr failed_check;
  TransactWriteItems d l :=
    if forallb (fits d) l then inl (foldr (λ p, <[put_key p := put_Item p]>) d l) else inr failed_check;
  QueryPK d pk := filter (λ it, text_at it "PK" = pk) (map_to_list d).*2;
  QueryGSI1 d pk := filter (λ it, text_at it "GSI1PK" = pk) (map_to_list d).*2;
  ScanStuck d := (map_to_list d).*2;
  conditional_failed _ := true;
  cancellation _ := Some [Some "ConditionalCheckFailed"];
  holds := same_text
|}.

Lemma foldr_written (l : list Put) (d : gmap (string * string) item) k :
  foldr (λ p, <[put_key p := put_Item p]>) d l !! k =
  match written l k with Some it => Some it | None => d !! k end.
Proof.
  induction l as [|p l IH]; [done|]. cbn [foldr written]. case_decide as Hk.
  - by rewrite <-Hk, lookup_insert_eq.
  - by rewrite lookup_insert_ne.
Qed.

Lemma ddb_laws : DynamoDBLaws (H := ddb).
Proof.
  constructor; cbn.
  - intros d p d' Hp k. destruct (fits d p); [|done]. injection Hp as <-. case_decide as Hk.
    + by rewrite <-Hk, lookup_insert_eq.
    + by rewrite lookup_insert_ne.
  - intros d p Hm. change (fits d p = true) in Hm. rewrite Hm. by eexists.
  - intros d p Hm. change (fits d p = false) in Hm. rewrite Hm. by eexists.
  - intros d l d' Hp k. destruct (forallb (fits d) l); [|done]. injection Hp as <-. apply foldr_written.
  - intros d l _ Hall. assert (forallb (fits d) l = true) as ->; [|by eexists].
    apply forallb_forall. intros p Hp%list_elem_of_In. rewrite Forall_forall in Hall. by apply Hall.
  - intros d l (p & Hp & Hm)%Exists_exists. destruct (forallb (fits d) l) eqn:Hf.
    + rewrite forallb_forall in Hf. apply list_elem_of_In, Hf in Hp.
      change (fits d p = false) in Hm. congruence.
    + eexists _, _. split_and!; [done..|]. by left.
  - intros s it. unfold same_text. cbn. rewrite lookup_singleton_eq.
    destruct (it ≫= lookup "UpdatedAt") as [[]|]; try (split; [discriminate|congruence]).
    rewrite bool_decide_eq_true. split; [by intros ->|congruence].
Qed.

(** Instances by their fields. *)
Definition encode (i : WorkflowInstance) : item :=
  list_to_map
    [("ID", JStr (wi_ID i)); ("WorkflowType", JStr (wi_WorkflowType i));
     ("WorkflowVersion", JNum (wi_WorkflowVersion i)); ("AggregateType", JStr (wi_AggregateType i));
     ("AggregateID", JStr (wi_AggregateID i)); ("CurrentState", JStr (wi_CurrentState i));
     ("StateData", Marshal_map (wi_StateData i)); ("CorrelationID", JStr (wi_CorrelationID i));
     ("IsStuck", JBool (wi_IsStuck i)); ("StuckReason", JStr (wi_StuckReason i));
     ("StuckAt", Marshal_time_pointer (wi_StuckAt i)); ("RetryCount", JNum (wi_RetryCount i));
     ("CreatedAt", JStr (Format (wi_CreatedAt i))); ("UpdatedAt", JStr (Format (wi_UpdatedAt i)));
     ("ShallowHistory", Marshal_strings (wi_ShallowHistory i));
     ("DeepHistory", Marshal_strings (wi_DeepHistory i));
     ("ActiveInParallel", Marshal_strings (wi_ActiveInParallel i));
     ("ParallelClock", JNum (wi_ParallelClock i));
     ("LastReadUpdatedAt", JStr (Format (wi_LastReadUpdatedAt i)))].

Definition decode (it : item) : WorkflowInstance :=
  let j := JObj it in
  let text n := string_member (member j n) in let num n := int_member (member j n) in
  mkWorkflowInstance (text "ID") (text "WorkflowType") (num "WorkflowVersion") (text "AggregateType")
    (text "AggregateID") (text "CurrentState") (Unmarshal_map (member j "StateData") None)
    (text "CorrelationID") (match member j "IsStuck" with JBool b => b | _ => false end)
    (text "StuckReason") (default None (time_pointer_field j "StuckAt")) (num "RetryCount")
    (parse_time (text "CreatedAt")) (parse_time (text "UpdatedAt"))
    (Unmarshal_strings (member j "ShallowHistory") None) (Unmarshal_strings (member j "DeepHistory") None)
    (Unmarshal_strings (member j "ActiveInParallel") None) (num "ParallelClock")
    (parse_time (text "LastReadUpdatedAt")).

Definition fields_sdk : DynamoSDK := {|
  MarshalMap i := Ok (encode i);
  UnmarshalMap it := Ok (decode it);
  UnmarshalEvent _ := Err failed_check
|}.

Lemma member_tagged it pk sk ty n j :
  n ≠ "PK" → n ≠ "SK" → n ≠ "Type" → it !! n = Some j →
  member (JObj (<["Type" := ty]> (<["SK" := sk]> (<["PK" := pk]> it)))) n = j.
Proof. intros Hpk Hsk Hty Hn. cbn. by rewrite !lookup_insert_ne, Hn by done. Qed.

Ltac encoded_members :=
  repeat match goal with
  | |- context [member (JObj (<["Type" := ?ty]> (<["SK" := ?sk]> (<["PK" := ?pk]> (encode ?i))))) ?n] =>
      erewrite (member_tagged (encode i) pk sk ty n)
        by (try discriminate; unfold encode; cbn [list_to_map foldr uncurry]; simplify_map_eq; reflexivity)
  end.

Lemma fields_sdk_laws : DynamoSDKLaws (H := fields_sdk).
Proof.
  constructor; cbn [MarshalMap UnmarshalMap fields_sdk].
  - intros i. eexists. split; [done|]. unfold encode. cbn [list_to_map foldr uncurry]. by simplify_map_eq.
  - intros i it pk sk ty (H1 & H2 & H3 & H4) [= <-]. f_equal. unfold decode. cbv zeta.
    rewrite (time_pointer_field_Marshal _ "StuckAt" (wi_StuckAt i));
      [|intros t Ht; by rewrite Ht in H4|by encoded_members].
    encoded_members. cbn [string_member int_member default].
    rewrite Unmarshal_Marshal_map, !Unmarshal_Marshal_strings, !parse_time_Format by done. by destruct i.
Qed.

(** The table after [read_at 5000] was stored. *)
Definition ddb_stored : gmap (string * string) item :=
  {[ inst_key "order" "1" := tagged (read_at 5000) (encode (read_at 5000)) ]}.

Lemma ddb_stored_ok : Dynamo.table_ok (service := ddb) (sdk := fields_sdk) ddb_stored.
Proof.
  intros at' aid it Hit. cbn in Hit. apply lookup_singleton_Some in Hit as [_ <-].
  exists (read_at 5000), (encode (read_at 5000)). split_and!; [|reflexivity..].
  unfold Dynamo.timely, readable, ns_per_day, ns_per_second. cbn. split_and!; [lia..|exact I].
Qed.

Lemma ddb_stored_get :
  Dynamo.Get (service := ddb) (sdk := fields_sdk) not_found ddb_stored "order" "1" =
  Ok (dynamo_read (read_at 5000)).
Proof.
  apply (Get_instance (sdk_laws := fields_sdk_laws) _ _ _ _ _ (encode (read_at 5000))).
  - unfold Dynamo.timely, readable, ns_per_day, ns_per_second. cbn. split_and!; [lia..|exact I].
  - reflexivity.
  - apply lookup_singleton_eq.
Qed.

Definition an_event : DomainEvent := transition_event machine fresh "" "" "" "" None 0.


(** ** Messages *)

Lemma readable_zero : readable 0.
Proof. unfold readable, ns_per_day, ns_per_second. lia. Qed.

Lemma mail_timely : timely_invocation mail.
Proof.
  split_and!; [exact readable_zero|exact readable_zero| |].
  - intros t Ht. rewrite !elem_of_cons, elem_of_nil in Ht. destruct Ht as [Ht|[Ht|[Ht|[]]]]; discriminate.
  - intros p [= <-]. exists 3%Z, 1%Z. vm_compute. split_and!; [done..|by right].
Qed.

