(* ===== verification/Charts.v ===== *)
(** * Charts: a shared order, followed through the statechart

    Witnesses of the theorems of [Linear.v]: six operations on one order of
    [Examples.v], in memory.  Submitting overtakes pausing, which is refused; the
    order is approved, finished, and forced back. *)

From S2P Require Import Prelude Errors Types Hash Validate Compile Builder Spawn Registry.
From S2P Require Import Helpers Effects Memstore Observer SideEffects Executor Dispatcher.
From S2P Require Import Parallel Scheduler Snapshot Firing Transactions Invariant Lifecycle.
From S2P Require Import Tracking Locking Regions Statechart Linear World Script Races Examples.
Import Order.

(** The registry of the example answers with its machines. *)
Lemma registered_machines a v : compiledFor registered a v = machines a v.
Proof.
  assert (rg_latestCompiled registered = {["order" := machine]}) as El by (vm_compute; reflexivity).
  assert (rg_compiled registered = {["order" := {[def_Version def := machine]}]}) as Ec
    by (vm_compute; reflexivity).
  assert (def_Version def ≠ 0%Z) as Hv by (vm_compute; discriminate).
  unfold compiledFor, machines, lookup2. rewrite El, Ec.
  destruct (decide (a = "order")) as [->|Hne].
  - rewrite !lookup_singleton_eq. case_decide as H0; [by rewrite decide_True by auto|].
    cbn [mbind option_bind].
    destruct (decide (v = def_Version def)) as [->|Hnv].
    + by rewrite lookup_singleton_eq, decide_True by auto.
    + rewrite lookup_singleton_ne by done. by rewrite decide_False by tauto.
  - rewrite !lookup_singleton_ne by done. by repeat case_decide; tauto.
Qed.

(** The registry of a world does not change while operations run. *)
Lemma interleave_registry {A} (clock : option mem_clock) (ps : nat → prog A) sched w T ps' w' :
  interleave (handle_with ids runner clock) ps sched w = (T, ps', w') →
  Forall (λ e : nat * event, match e.2 with
    | Ev (CompiledFor a v) found => found = compiledFor (w_registry w) a v | _ => True end) T.
Proof.
  revert ps w T. induction sched as [|k sched IH]; intros ps w T; cbn [interleave].
  { by intros [= <- <- <-]. }
  destruct (ps k) as [a|c q]; [apply IH|].
  assert (match Ev c (handle_with ids runner clock c w).1 with
    | Ev (CompiledFor a v) found => found = compiledFor (w_registry w) a v | _ => True end ∧
    w_registry (handle_with ids runner clock c w).2 = w_registry w) as [Hc Hw].
  { destruct c; cbn; try done; repeat case_match; try done; by simplify_eq/=. }
  destruct (handle_with ids runner clock c w) as [r w1].
  destruct (interleave _ _ sched w1) as [[T1 ps1] w2] eqn:Hi. intros [= <- <- <-].
  constructor; [exact Hc|]. cbn in Hw. rewrite <-Hw. by eapply IH.
Qed.

(** ** The operations *)

Definition doings (k : nat) : Operation :=
  match k with
  | 0 => OpTransition "order" "1" "start" "alice" None
  | 1 => OpTransition "order" "1" "pause" "carol" None
  | 2 => OpTransition "order" "1" "submit" "alice" None
  | 3 => OpTransition "order" "1" "approve" "bob" None
  | 4 => OpTransition "order" "1" "finish" "bob" None
  | _ => OpForceState "order" "1" "WORK" "root" "reopened"
  end.

Definition turns : list nat :=
  repeat 0 40 ++ repeat 1 8 ++ repeat 2 60 ++ repeat 1 40 ++ repeat 3 60 ++ repeat 4 60 ++ repeat 5 40.

Definition shared : interleaving * (nat → prog (result TransitionResult)) * world :=
  interleave (handle_with ids runner None) (λ k, run_operation (doings k)) turns w0.

Definition calls : interleaving := shared.1.1.

Example shared_endings :
  ending ∘ shared.1.2 <$> [0; 1; 2; 3; 4; 5] =
  [Some (Ok "DRAFT");
   Some (Err (Errorf "flowstep: update instance: %w" [] (Some (Sentinel ErrConcurrentModification))));
   Some (Ok "REVIEW"); Some (Ok "SHIP"); Some (Ok "DONE"); Some (Ok "DRAFT")].
Proof. vm_compute. reflexivity. Qed.

(** ** They share the store as the theorem asks *)

Definition no_orders : Instances.store := ∅.

Definition doing (k : nat) : action := Operate (doings k).

Lemma shared_run_of :
  interleave (handle_with ids runner None) (λ k, run_operation (doings k)) turns w0 =
  (calls, shared.1.2, shared.2).
Proof. unfold calls, shared. by destruct (interleave _ _ _ _) as [[T ps] w]. Qed.

Lemma shared_served : served no_orders calls.
Proof. exact (interleave_served ids runner None _ _ _ _ _ _ shared_run_of). Qed.

Lemma shared_acts k : ∃ rest, acts (doing k) (project k calls ++ rest).
Proof.
  destruct (prog_runs (shared.1.2 k) (λ c, (handle_with ids runner None c w0).1)) as (rest & a & Ha).
  exists rest, a. exact (runs_project _ _ _ _ _ _ _ _ _ _ shared_run_of Ha).
Qed.

(** A check, by computation, of all that [considered_call] says but the registry. *)
Definition about_order (ev : event) : bool :=
  match ev_call ev with
  | InstanceGet a _ => bool_decide (a = "order")
  | InstanceCreate _ i => bool_decide (wi_AggregateType i = "order")
  | InstanceUpdate _ i => bool_decide (wi_AggregateType i = "order") &&
      negb (bool_decide (wi_LastReadUpdatedAt i = 0%Z))
  | _ => true
  end.

Lemma about_order_considered ev :
  about_order ev = true →
  match ev with Ev (CompiledFor a v) found => found = compiledFor registered a v | _ => True end →
  considered_call (plain := no_colon) (good := λ _, True) machines ev.
Proof.
  destruct ev as [c r]. intros Ho Hc. unfold about_order in Ho. cbn in Ho.
  assert (no_colon "order") as Hplain by by repeat split.
  split; destruct c; cbn in *; try exact I.
  - apply andb_prop in Ho as [_ Ho%negb_true_iff%bool_decide_eq_false]. exact (conj I Ho).
  - by rewrite <-registered_machines.
  - by apply bool_decide_eq_true in Ho as ->.
  - by apply bool_decide_eq_true in Ho as ->.
  - apply andb_prop in Ho as [Ho%bool_decide_eq_true _]. by rewrite Ho.
Qed.

Lemma shared_about_order : forallb (λ e : nat * event, about_order e.2) calls = true.
Proof. vm_compute. reflexivity. Qed.

Lemma shared_calls :
  Forall (λ e : nat * event, considered_call (plain := no_colon) (good := λ _, True) machines e.2) calls.
Proof.
  pose proof (interleave_registry _ _ _ _ _ _ _ shared_run_of) as Hreg.
  pose proof shared_about_order as Hall. revert Hreg Hall. generalize calls. intros T Hreg Hall.
  rewrite forallb_forall in Hall. rewrite Forall_forall in Hreg |- *. intros e Hin.
  apply about_order_considered; [by apply Hall, list_elem_of_In|exact (Hreg e Hin)].
Qed.

Lemma shared_clock : NoDup (wi_UpdatedAt <$> accepted calls).
Proof.
  assert (bool_decide (NoDup (wi_UpdatedAt <$> accepted calls)) = true) as H by (vm_compute; reflexivity).
  exact (bool_decide_eq_true_1 _ H).
Qed.

Lemma shared_history :
  shared_run (ok := λ _, True) (plain := no_colon) (good := λ _, True) machines
    no_orders calls doing.
Proof.
  constructor.
  - exact I.
  - apply mem_charted_empty.
  - apply shared_served.
  - apply shared_acts.
  - apply shared_calls.
  - exact (mem_tells_apart calls shared_served shared_clock).
  - intros k snap now [=].
Qed.

(** ** What the theorems say of it *)

(** The order at the end. *)
Lemma left_over :
  match Instances.Get (store_at no_orders calls) "order" "1" with
  | Ok o => wi_CurrentState o | Err _ => ""
  end = "DRAFT".
Proof. vm_compute. reflexivity. Qed.

Lemma charted_order (s : Instances.store) state :
  match Instances.Get s "order" "1" with Ok o => wi_CurrentState o | Err _ => "" end = state →
  state ≠ "" → charted (plain := no_colon) machines s →
  ∃ o, Instances.Get s "order" "1" = Ok o ∧ wi_CurrentState o = state ∧
    reachable (St := Instances.store) machines o.
Proof.
  intros Hstate Hne Hch. destruct (Instances.Get s "order" "1") as [o|e] eqn:Hget; [|by subst].
  exists o. split_and!; [done..|]. eapply Hch; [|exact Hget]. by repeat split.
Qed.

Lemma charted_end :
  charted (plain := no_colon) machines (store_at no_orders calls) →
  ∃ o, Instances.Get (store_at no_orders calls) "order" "1" = Ok o ∧
    wi_CurrentState o = "DRAFT" ∧ reachable (St := Instances.store) machines o.
Proof.
  pose proof (charted_order (store_at no_orders calls) "DRAFT") as H. specialize (H left_over).
  intros Hch. apply H; [discriminate|exact Hch].
Qed.


(** The number of calls before the one that forces the finished order back. *)
Fixpoint calls_before (k n : nat) (T : interleaving) : nat :=
  match T with
  | [] => n
  | (j, ev) :: T =>
      if (Nat.eqb j k && match ev_call ev with InstanceUpdate _ _ => true | _ => false end)%bool then n
      else calls_before k (S n) T
  end.

Definition forcing : nat := Eval vm_compute in calls_before 5 0 calls.

Definition reopened : WorkflowInstance := Eval vm_compute in
  match calls !! forcing with
  | Some (_, Ev (InstanceUpdate _ i) _) => i
  | _ => new_instance machine "" "" "" "" 0
  end.

Lemma forcing_call : calls !! forcing = Some (5, Ev (InstanceUpdate (Some 0) reopened) None).
Proof. vm_compute. reflexivity. Qed.

Definition finished : WorkflowInstance := Eval vm_compute in
  match Instances.Get (store_at no_orders (take forcing calls)) "order" "1" with
  | Ok o => o
  | Err _ => new_instance machine "" "" "" "" 0
  end.

Lemma finished_there :
  Instances.Get (store_at no_orders (take forcing calls)) "order" "1" = Ok finished.
Proof. vm_compute. reflexivity. Qed.

